(* ===== verification/_CoqProject ===== *)
-Q . S2P
Prelude.v
Float64.v
PyText.v
Json.v
Dump.v
Base64.v
DateTime.v
Models.v
Ledger.v
Lax.v
Config.v
Receipts.v
Spend.v
Decision.v
Schema.v
Validation.v
Output.v
Generator.v
Strict.v
Retry.v
Split.v
DecisionClients.v
Page.v
Origins.v
Navigation.v
Secrets.v
Redactor.v
Effects.v
Notes.v
NotesText.v
Citations.v
Answers.v
Composing.v
PageState.v
Batches.v
Judging.v
Failover.v
Helpers.v
Pyre.v
Spans.v
Recipe.v
RunState.v
Seeing.v
Recovery.v
Acting.v
Policy.v
Driving.v
Reporting.v
Deciding.v
Fields.v
Choices.v
Finishing.v
Extracting.v
Running.v
