(* ===== verification/Prelude.v ===== *)
(** * fastbrowse: a verification development of the run's core

    fastbrowse drives a browser for a task.  A run observes a page, asks a decision model (Jev) what to do, turns the
    decision into an action behind safety gates, hands it to the page, reads pages into evidence-backed notes, and ends with an
    answer written from those notes.  The program is the Rust workspace under src/crates; this development models its own
    logic as executable functions and proves what makes it correct.  Every file opens with the source files it models; a
    definition keeps the name of the function it translates.

    ** Layout, bottom up

    Values and text.  Prelude.v (this file: text as lists of scalar values, results, ordered maps, digits, the lemmas the
    components share), Float64.v ([f64] as IEEE 754 and the compensated sum), PyText.v, Json.v, Dump.v, Base64.v, DateTime.v,
    Lax.v: the Python-compatible forms of fastbrowse-core/src/py.

    Money.  Models.v, Ledger.v ([telemetry.rs]), Receipts.v and Spend.v (the receipts and spend scopes of
    fastbrowse-clients/src/validation.rs), Config.v.

    Asking Jev.  Decision.v (questions, answers and their strict reading), Schema.v and Validation.v (the type tree of a
    response and pydantic's validator), Output.v ([output_schema.rs]: a caller's JSON Schema read as a model, the names of its fields,
    and data held to it), Generator.v ([schema.rs]: the JSON Schema written for a type, and so for a caller's model), Strict.v (the strict form a
    provider takes, the flat form of optional objects and a reply to it folded back), Retry.v (one request and its repeats), Split.v (a batch asked one
    question at a time), DecisionClients.v (the three clients), Batches.v (questions packed under the input limits),
    Failover.v (the switch to a backup provider),
    Judging.v (Jev and the ledger as a step, a read and a field ask them).  Split.v proves its theorems against the interface [AskContract]; the clients
    of DecisionClients.v discharge it.

    The page and what may be done to it.  Page.v (the records of the seam), Origins.v and Navigation.v (addresses and
    grants), Secrets.v (the gate's questions, where a secret may be typed), Redactor.v (secrets kept out of texts), Effects.v
    (what an action changed), PageState.v (a page cut to Jev's input).

    What is read.  Notes.v, NotesText.v ([memory.rs]), Pyre.v (the pattern engine), Spans.v (quotes cut from a page),
    Citations.v (a quote as the page shows it, table markdown included), Fields.v and Choices.v ([retrieval/fields.rs] and
    [retrieval/choices.rs]: the values cut from a page or the notes and the choice among them; a page offered to Jev, narrowed where it is
    too large, and what Jev picks made into facts), Extracting.v ([extract] of verification/mod.rs: the record a caller asked for).

    A run.  Helpers.v, Recipe.v (saved steps and their replay), RunState.v (all a run keeps), Seeing.v (observing, masking,
    pictures), Recovery.v (the stall rule, recovery, blank pages and challenges), Policy.v (the request a step asks Jev),
    Deciding.v ([decide]: what fits Jev's limits, the cuts, the shortlist, the ladder of smaller pages, and an answer read as a
    decision), Acting.v (a decision made into an action: gates, field values, secrets, choices), Driving.v (one step, from the
    decided action to its record).

    How a run ends.  Answers.v and Composing.v ([retrieval/answers.rs]: the review of a draft's claims against their quotes,
    and the answer written from the notes, in one request or in rounds), Reporting.v (results, redacted answers, walls, rejection
    reasons, the context of a decision), Finishing.v (DONE, the conclusion, and a run a step stopped), Running.v (one turn of
    [run_loop], the loop, the opening, and [run] whole).

    ** How the parts are put together

    A fallible, state-changing method of the agent is a [Step] (Seeing.v): a function from the run state to a result and the
    state it leaves, so an early return, a [?] or a stop keeps what was changed before it.  [Flow] is the source's error type.  What the
    methods reach for outside the program is a record of functions of the run state: [PageSeam] (the page), [Outside] (Jev
    and the LLM), [Hands] and [Driver] (the caller's secrets and events, the clock, the reader of a capture), [Models] (Jev and
    the LLM as an answer's writing and review ask them, over any state), [Judge] (the ledger, a request and a pass of
    batches, as deciding, reading and extracting ask them), [Reporter], [Ender] and [Runner] (the ledger's totals and limits, the
    filling of a schema, the caller's condition on the last page, the first page proposed).  The state carries the
    trace [page_calls] of what was asked of the page, so no two calls need answer alike and theorems can speak of order.
    Concurrency is explicit: ledger handles and spend scopes are run over any interleaving of their operations
    ([run_events], [scope_step]), a pass of batches over any completion order, failover over any order of accesses to its flag,
    and a future dropped by a redraw as the outside in which nothing asked after the report is answered ([interrupted]).
    Code outside the repository is an interface: the URL parser, percent-encoding, Unicode tables beyond ASCII, SHA-256,
    the shortest digits of a float and reading one, serde_json's own display, and decoding bytes.  Each has an executable
    instance that the witnesses compute with.

    ** What the theorems show

    Whole runs: a run that concludes complete shows only an answer with something behind it ([complete_answer_is_backed],
    [stopped_complete_is_backed], over [review_keeps_what_holds]: claims held up against their own quotes), and from its
    opening to its last frame it touches the page only by the moves its decisions were permitted ([run_acts_on_permission]).
    What is composed is all the notes ([pack_items_exact], [packed_is_one_composition]), and a stopped run tells its quotes and
    nothing else ([partial_answer_is_the_quotes]).
    Safety of acting: an action that may commit goes ahead only on Jev's word for that very action, in an authorized run
    only when the task asks for it ([commits_are_permitted]); a whole step hands the page that one action and nothing else but
    one retry where it was stale, one click at the seen place of a covered target and one reopening of a page that did not answer
    ([step_acts_on_permission], [hung_page_reopened_once]); passwords come
    from the caller's secrets for the field's own origin ([passwords_come_from_secrets], [secret_allowed_exact]); addresses are
    safe and within the grant ([navigation_urls_safe], [grant_exact]).
    Deciding: from any client a decision is one the page offers, made by a request that fits and shows the page observed
    ([decided_was_offered], [client_answers_the_questions]), and every step is decided or fails ([decide_ends]); the cap keeps
    what fits ([cap_keeps_what_fits]) and relevance is asked of each distinct question once ([relevance_asked_once]).
    Secrets: masking hides every registered form ([mask_hides]), an observation's dump states nothing else of a page but names and
    three texts the code leaves unmasked, which are listed ([observation_hides_secrets]), pictures are taken only of pages
    that show none ([pictures_show_no_secret]), recipes hold none ([recipes_hold_no_secret]).
    Money: call caps hold over any interleaving, reservations are exact, everything billed is kept ([call_caps_hold],
    [reserve_exact], [evaluate_batches_billed], [check_counts_each_receipt_once]).
    Asking: every client, split or not, answers what was asked or fails within a bounded number of requests, the only ones its result
    depends on ([evaluate_answers_all] over the interfaces [AskContract] and [Consults],
    [asking_split_exact], [post_with_retry_exact], [parse_answers_sound], [check_sound]).
    Reading and memory: notes stay coherent over any operations and retire what a page no longer shows ([notes_coherent],
    [supersede_retires_vanished]); what a read remembers of a page is the page's ([read_is_grounded]), a page too large is asked about
    whole and narrowed to the best windows that fit ([focus_exact]), a quote is flagged complete exactly when it is its whole block
    ([complete_quote_is_the_block]); the pattern engine is exactly its meaning ([ends_exact]).
    A caller's record: a schema becomes a model or is refused ([output_model_ends]), its properties named apart ([field_names_exact]);
    what the model accepts satisfies the schema ([validated_data_satisfies]), stated as a relation apart from the code ([satisfies]); what a run
    extracts is stated in a quote of the page or of a note that stands, and satisfies the schema ([extracted_data_is_stated]), and
    extracting always settles ([extract_settles]).  The schema shown for a model takes whatever the model accepts ([shown_schema_takes_data]),
    each reference in it stands for its type ([definitions_exact]); the strict form only asks more ([strict_schema_is_stricter]); the flat
    form loses no answer but those of an optional object that comes to nothing ([flat_answers_land], over the relation [dead] stated apart
    from the code), and flattening and folding back end ([flat_forms_end]).
    Progress: a run that moves nothing ends within the stall rule's budget ([stall_rule_ends_the_run]), sources are narrowed in
    finitely many questions ([narrowing_ends]), pagers and replays take each page and step once.

    ** Fuel and bounds

    Recursion that is not structural takes fuel set from its input and proved enough where a theorem needs it: the notes'
    closure by the number of facts ([expand_closure]), the ladder by a measure its rungs decrease ([rungs_left], [rung_left]), the pattern engine by pattern and text ([ends_exact]), narrowing by the
    words left ([narrowing_ends]), rounds of composing by the well-founded size of their parts ([compose_rounds]), reading a schema by its depth times its definitions, each read once on a path ([fuel_for]),
    the flat forms by the steps a schema is grounded in ([grounded], which no definition that refers to itself is),
    choosing a field's value by the number of candidates ([choosing_ends]), waiting out a page by the milliseconds of its deadline, each wait taking at least one
    ([outwait]).  [run_loop] has no bound of its own: its fuel is turns, and None means the run is still going ([turns]); what ends it
    is the ledger, the stall rule or a deadline, which [run] takes as a cut at the state reached.  Machine integers wrap where the program's would ([wrap32], [wrap64], release builds do not check); the
    witnesses use small limits so that they evaluate.

    ** Not modelled

    The browser driver (CDP sockets, page scripts), cursor and recording, the extension host, HTTP clients, fetched-page parsing, the
    command line and servers, and the language bindings are I/O around this core.  The protocol tables (protocol.rs) are constants.
    Logging and traces are left out.  Of models.rs what is only data for a caller is left out. *)

From stdpp Require Export prelude gmap strings list sorting.
From Stdlib Require Export ZArith Lia.

#[global] Open Scope Z_scope.

(** * Text

    A Rust [&str] or [String] is the list of its Unicode scalar values.  Where the
    source slices by byte offset every offset is a character boundary, so the model
    slices by character index. *)
Abbreviation text := (list Z).

(** ASCII literals of the source. *)
Fixpoint lit (s : string) : text :=
  match s with
  | EmptyString => []
  | String a s => Z.of_N (Ascii.N_of_ascii a) :: lit s
  end.

(** A character literal: the first character of [s]. *)
Definition chr (s : string) : Z := hd 0 (lit s).

(** * Results: Rust's [Result] and its [?] operator *)
Inductive result (A E : Type) : Type :=
| Ok (a : A)
| Err (e : E).
Arguments Ok {A E} a.
Arguments Err {A E} e.

Declare Scope fb_scope.
Delimit Scope fb_scope with fb.
#[global] Open Scope fb_scope.

Notation "'let?' x := r 'in' k" :=
  (match r with Ok x => k | Err e => Err e end)
  (at level 10, x pattern, r at level 100, k at level 200, right associativity) : fb_scope.

Definition ok_or {A E} (o : option A) (e : E) : result A E :=
  match o with Some a => Ok a | None => Err e end.

Definition is_ok {A E} (r : result A E) : bool :=
  match r with Ok _ => true | Err _ => false end.

(** * Characters: the ASCII classes of Rust's [char] and [u8] *)
Definition in_range (lo hi c : Z) : bool := (lo <=? c) && (c <=? hi).
Definition is_ascii_digit (c : Z) : bool := in_range 48 57 c.
Definition is_ascii_upper (c : Z) : bool := in_range 65 90 c.
Definition is_ascii_lower (c : Z) : bool := in_range 97 122 c.
Definition is_ascii_alphabetic (c : Z) : bool := is_ascii_upper c || is_ascii_lower c.
Definition is_ascii_alphanumeric (c : Z) : bool := is_ascii_alphabetic c || is_ascii_digit c.
Definition to_ascii_lowercase (c : Z) : Z := if is_ascii_upper c then c + 32 else c.
Definition to_ascii_uppercase (c : Z) : Z := if is_ascii_lower c then c - 32 else c.
Definition ascii_lower (t : text) : text := map to_ascii_lowercase t.
Definition one_of (cs : text) (c : Z) : bool := existsb (Z.eqb c) cs.

(** [char::is_whitespace]: Unicode's White_Space. *)
Definition is_whitespace (c : Z) : bool :=
  in_range 9 13 c || one_of [0x20; 0x85; 0xa0; 0x1680; 0x2028; 0x2029; 0x202f; 0x205f; 0x3000] c
  || in_range 0x2000 0x200a c.

(** [char::is_control]: general category Cc. *)
Definition is_control (c : Z) : bool := in_range 0 31 c || in_range 127 159 c.

(** * Strings: the [str] methods the source uses *)
Definition teqb (a b : text) : bool := bool_decide (a = b).
Definition is_empty {A} (l : list A) : bool := match l with [] => true | _ => false end.

Fixpoint starts_with (t p : text) {struct p} : bool :=
  match p, t with
  | [], _ => true
  | _, [] => false
  | c :: p', d :: t' => (c =? d) && starts_with t' p'
  end.

Definition ends_with (t p : text) : bool := starts_with (rev t) (rev p).

Definition strip_prefix (t p : text) : option text :=
  if starts_with t p then Some (drop (length p) t) else None.

(** [str::find] for a pattern string: the first offset it starts at. *)
Fixpoint find_sub (p t : text) : option nat :=
  if starts_with t p then Some 0%nat
  else match t with
       | [] => None
       | _ :: t' => S <$> find_sub p t'
       end.

Definition contains_sub (t p : text) : bool :=
  match find_sub p t with Some _ => true | None => false end.

(** [str::find] for a character predicate. *)
Fixpoint find_char (f : Z -> bool) (t : text) : option nat :=
  match t with
  | [] => None
  | c :: t' => if f c then Some 0%nat else S <$> find_char f t'
  end.

Fixpoint trim_start (f : Z -> bool) (t : text) : text :=
  match t with
  | c :: t' => if f c then trim_start f t' else t
  | [] => []
  end.

Definition trim_end (f : Z -> bool) (t : text) : text := rev (trim_start f (rev t)).
Definition trim_matches (f : Z -> bool) (t : text) : text := trim_end f (trim_start f t).

(** [str::split_once] at the first character [c]. *)
Definition split_once (c : Z) (t : text) : option (text * text) :=
  match find_char (Z.eqb c) t with
  | Some i => Some (take i t, drop (S i) t)
  | None => None
  end.

(** [str::rsplit_once] at the last character [c]. *)
Definition rsplit_once (c : Z) (t : text) : option (text * text) :=
  match split_once c (rev t) with
  | Some (after, before) => Some (rev before, rev after)
  | None => None
  end.

(** [str::split] by a character predicate: every part, empty ones included. *)
Fixpoint split_parts (f : Z -> bool) (t : text) : list text :=
  match t with
  | [] => [[]]
  | c :: t' =>
      if f c then [] :: split_parts f t'
      else match split_parts f t' with
           | part :: rest => (c :: part) :: rest
           | [] => [[c]]
           end
  end.

Definition join (sep : text) (parts : list text) : text :=
  match parts with
  | [] => []
  | p :: rest => p ++ concat (map (app sep) rest)
  end.

(** [str::replace]: every occurrence of [p], left to right, without overlap. *)
Fixpoint replace_from (fuel : nat) (p r t : text) : text :=
  match fuel with
  | O => t
  | S fuel =>
      match find_sub p t with
      | Some i => take i t ++ r ++ replace_from fuel p r (drop (i + length p) t)
      | None => t
      end
  end.
Definition replace (p r t : text) : text := replace_from (S (length t)) p r t.

(** [str::replace] of one character. *)
Definition replace_char (c : Z) (r t : text) : text :=
  concat (map (fun d => if d =? c then r else [d]) t).

Definition count_char (c : Z) (t : text) : nat := length (filter (fun d => d = c) t).

(** * Decimal digits: [i64::to_string] *)
Fixpoint digits_of (fuel : nat) (n : Z) : text :=
  match fuel with
  | O => []
  | S fuel => if n <? 10 then [48 + n] else digits_of fuel (n / 10) ++ [48 + n mod 10]
  end.

Definition show_nat (n : Z) : text := digits_of (S (Z.to_nat (Z.log2 n))) n.
Definition show_Z (n : Z) : text := if n <? 0 then 45 :: show_nat (- n) else show_nat n.

(** * Machine integers *)
Definition i64_min : Z := - 2 ^ 63.
Definition i64_max : Z := 2 ^ 63 - 1.

(** Two's complement wrap-around of a 64-bit signed integer (the release profile does not
    check for overflow). *)
Definition wrap64 (n : Z) : Z := (n + 2 ^ 63) mod 2 ^ 64 - 2 ^ 63.
Definition wrap32 (n : Z) : Z := (n + 2 ^ 31) mod 2 ^ 32 - 2 ^ 31.
Definition u8 (n : Z) : Z := n mod 256.

Lemma wrap32_id n : - 2 ^ 31 <= n < 2 ^ 31 -> wrap32 n = n.
Proof. unfold wrap32. intros H. rewrite Z.mod_small; lia. Qed.

Lemma wrap64_id n : i64_min <= n <= i64_max -> wrap64 n = n.
Proof.
  unfold wrap64, i64_min, i64_max. intros H. rewrite Z.mod_small; lia.
Qed.

Lemma wrap64_range n : i64_min <= wrap64 n <= i64_max.
Proof.
  unfold wrap64, i64_min, i64_max. pose proof (Z.mod_pos_bound (n + 2 ^ 63) (2 ^ 64)). lia.
Qed.

(** A shifted number and one below the shift share no bit. *)
Lemma lor_shiftl_add h k l : 0 <= k -> 0 <= l < 2 ^ k -> Z.lor (Z.shiftl h k) l = h * 2 ^ k + l.
Proof.
  intros Hk Hl. rewrite <- Z.shiftl_mul_pow2, <- Z.add_lor_land by lia.
  enough (Z.land (Z.shiftl h k) l = 0) by lia.
  apply Z.bits_inj'. intros i Hi. rewrite Z.land_spec, Z.bits_0.
  destruct (decide (i < k)).
  - by rewrite Z.shiftl_spec_low by lia.
  - rewrite <- (Z.mod_small l (2 ^ k)), Z.mod_pow2_bits_high by lia. by rewrite andb_false_r.
Qed.

Lemma land_mask n k : 0 <= k -> Z.land n (2 ^ k - 1) = n mod 2 ^ k.
Proof. intros Hk. rewrite <- Z.land_ones, Z.ones_equiv by lia. done. Qed.

(** A property of every number below a literal bound, by enumeration. *)
Lemma below_by_enum (f : Z -> bool) (n : nat) (i : Z) :
  forallb (fun k => f (Z.of_nat k)) (seq 0 n) = true -> 0 <= i < Z.of_nat n -> f i = true.
Proof.
  intros Hall Hi. rewrite forallb_forall in Hall.
  rewrite <- (Z2Nat.id i) by lia. apply Hall, in_seq. lia.
Qed.

(** * Insertion-ordered maps: the [indexmap] crate's [IndexMap] as the association list of
    its entries in order, each key once. *)
Section IndexMap.
Context {K V : Type} `{EqDecision K}.

Fixpoint im_get (k : K) (m : list (K * V)) : option V :=
  match m with
  | [] => None
  | (k', v) :: m' => if decide (k = k') then Some v else im_get k m'
  end.

(** [insert]: a known key keeps its place, a new one goes last. *)
Fixpoint im_insert (k : K) (v : V) (m : list (K * V)) : list (K * V) :=
  match m with
  | [] => [(k, v)]
  | (k', v') :: m' => if decide (k = k') then (k', v) :: m' else (k', v') :: im_insert k v m'
  end.

Definition im_keys (m : list (K * V)) : list K := map fst m.
Definition im_contains (k : K) (m : list (K * V)) : bool :=
  match im_get k m with Some _ => true | None => false end.
Definition im_extend (m new : list (K * V)) : list (K * V) :=
  fold_left (fun m kv => im_insert kv.1 kv.2 m) new m.

Lemma im_get_insert_eq k v m : im_get k (im_insert k v m) = Some v.
Proof.
  induction m as [|[k' v'] m IH]; simpl.
  - by rewrite decide_True.
  - destruct (decide (k = k')) as [->|Hne]; simpl.
    + by rewrite decide_True.
    + by rewrite decide_False.
Qed.

Lemma im_get_insert_ne k k' v m : k <> k' -> im_get k (im_insert k' v m) = im_get k m.
Proof.
  intros Hne. induction m as [|[k2 v2] m IH]; simpl.
  - by rewrite decide_False.
  - destruct (decide (k' = k2)) as [->|]; simpl.
    + by rewrite !decide_False.
    + by rewrite IH.
Qed.

Lemma im_get_elem k v m : im_get k m = Some v -> (k, v) ∈ m.
Proof.
  induction m as [|[k' v'] m IH]; simpl; [done|].
  destruct (decide (k = k')) as [->|]; intros H; simplify_eq; set_solver.
Qed.

Lemma im_get_none k m : im_get k m = None <-> k ∉ im_keys m.
Proof.
  induction m as [|[k' v'] m IH]; simpl; [set_solver|].
  destruct (decide (k = k')) as [->|]; set_solver.
Qed.

Lemma im_get_some_keys k m : is_Some (im_get k m) <-> k ∈ im_keys m.
Proof.
  destruct (im_get k m) eqn:E.
  - split; [intros _|eauto]. apply im_get_elem in E.
    apply list_elem_of_fmap. by exists (k, v).
  - apply im_get_none in E. split; [intros [? ?]; done|done].
Qed.

Lemma im_keys_insert_old k v m : k ∈ im_keys m -> im_keys (im_insert k v m) = im_keys m.
Proof.
  induction m as [|[k' v'] m IH]; simpl; [set_solver|].
  destruct (decide (k = k')) as [->|Hne]; [done|].
  intros H. simpl. f_equal. apply IH. set_solver.
Qed.

Lemma im_keys_insert_new k v m : k ∉ im_keys m -> im_keys (im_insert k v m) = im_keys m ++ [k].
Proof.
  induction m as [|[k' v'] m IH]; simpl; [done|].
  intros H. destruct (decide (k = k')) as [->|Hne]; [set_solver|].
  simpl. f_equal. apply IH. set_solver.
Qed.

Lemma im_insert_fresh k v m : k ∉ im_keys m -> im_insert k v m = m ++ [(k, v)].
Proof.
  induction m as [|[k' v'] m IH]; cbn; intros Hk; [done|].
  destruct (decide (k = k')) as [->|Hne]; [exfalso; apply Hk; by left|].
  rewrite IH; [done|]. intros Hin. apply Hk. by right.
Qed.

Lemma im_insert_nodup k v m : NoDup (im_keys m) -> NoDup (im_keys (im_insert k v m)).
Proof.
  intros H. destruct (decide (k ∈ im_keys m)).
  - by rewrite im_keys_insert_old.
  - rewrite im_keys_insert_new by done. apply NoDup_app. split_and!; [done| |].
    + set_solver.
    + apply NoDup_singleton.
Qed.

Lemma im_get_nodup k v m : NoDup (im_keys m) -> (k, v) ∈ m -> im_get k m = Some v.
Proof.
  induction m as [|[k' v'] m IH]; simpl; [set_solver|].
  intros Hnd Hin. apply NoDup_cons in Hnd as [Hk Hnd].
  destruct (decide (k = k')) as [->|Hne].
  - apply elem_of_cons in Hin as [Heq|Hin]; [congruence|].
    exfalso. apply Hk. apply list_elem_of_fmap. by exists (k', v).
  - apply IH; [done|]. apply elem_of_cons in Hin as [Heq|Hin]; congruence.
Qed.

Lemma im_keys_insert k v m x : x ∈ im_keys (im_insert k v m) <-> x = k \/ x ∈ im_keys m.
Proof.
  destruct (decide (k ∈ im_keys m)).
  - rewrite im_keys_insert_old by done. split; [auto|by intros [-> | ?]].
  - rewrite im_keys_insert_new by done. set_solver.
Qed.

Lemma im_extend_keys new : forall m x, x ∈ im_keys (im_extend m new) <-> x ∈ im_keys m \/ x ∈ map fst new.
Proof.
  induction new as [|[k v] new IH]; intros m x; simpl; [set_solver|].
  unfold im_extend in *. cbn [fold_left]. rewrite IH, im_keys_insert. set_solver.
Qed.

Lemma im_extend_fresh new : forall m,
  NoDup (map fst new) -> (forall k, k ∈ map fst new -> k ∉ im_keys m) -> im_extend m new = m ++ new.
Proof.
  induction new as [|[k v] new IH]; intros m Hn Hf; [by rewrite app_nil_r|].
  cbn in Hn. apply NoDup_cons in Hn as [Hk Hn].
  change (im_extend m ((k, v) :: new)) with (im_extend (im_insert k v m) new).
  rewrite im_insert_fresh by (apply Hf; cbn; set_solver). rewrite IH; [by rewrite <- app_assoc|done|].
  intros x Hx. unfold im_keys. rewrite map_app. cbn. intros Hc. apply elem_of_app in Hc as [Hc|Hc].
  - apply (Hf x); [cbn; set_solver|done].
  - set_solver.
Qed.

Lemma im_extend_nodup new : forall m, NoDup (im_keys m) -> NoDup (im_keys (im_extend m new)).
Proof.
  induction new as [|[k v] new IH]; intros m Hm; [done|]. unfold im_extend in *. cbn [fold_left].
  apply IH. by apply im_insert_nodup.
Qed.

Lemma im_extend_cons m k v new :
  im_extend m ((k, v) :: new) = im_extend (im_insert k v m) new.
Proof. done. Qed.

Lemma im_get_extend_other new : forall m k,
  k ∉ map fst new -> im_get k (im_extend m new) = im_get k m.
Proof.
  induction new as [|[k' v'] new IH]; intros m k Hk; [done|]. rewrite im_extend_cons.
  simpl in Hk. rewrite IH by set_solver. apply im_get_insert_ne. set_solver.
Qed.

Lemma im_get_extend_new new : forall m k v,
  NoDup (map fst new) -> (k, v) ∈ new -> im_get k (im_extend m new) = Some v.
Proof.
  induction new as [|[k' v'] new IH]; intros m k v Hn Hin; [set_solver|]. rewrite im_extend_cons.
  simpl in Hn. apply NoDup_cons in Hn as [Hk Hn].
  apply elem_of_cons in Hin as [[= -> ->]|Hin]; [|by apply IH].
  rewrite im_get_extend_other by done. apply im_get_insert_eq.
Qed.

Lemma im_insert_elem k v m x : x ∈ im_insert k v m -> x = (k, v) \/ x ∈ m.
Proof.
  induction m as [|[k' v'] m IH]; simpl; [set_solver|].
  destruct (decide (k = k')) as [->|]; set_solver.
Qed.

(** *** How long a map grows, and with what *)
Lemma im_insert_length k v m : (length (im_insert k v m) <= S (length m))%nat.
Proof. induction m as [|[k' v'] m IH]; cbn; [lia|]. case_decide; cbn; lia. Qed.
Lemma im_extend_length new : forall m, (length (im_extend m new) <= length m + length new)%nat.
Proof.
  unfold im_extend. induction new as [|[k v] new IH]; intros m; [cbn; lia|]. cbn [fold_left length fst snd]. pose proof (im_insert_length k v m).
  specialize (IH (im_insert k v m)). lia.
Qed.

Lemma im_extend_elem new : forall m x, x ∈ im_extend m new -> x ∈ m \/ x ∈ new.
Proof.
  induction new as [|[k v] new IH]; intros m x; unfold im_extend in *; cbn [fold_left]; [auto|].
  intros [Hx|Hx]%IH; [|set_solver]. apply im_insert_elem in Hx. set_solver.
Qed.

Lemma im_insert_again k v v' m : im_insert k v (im_insert k v' m) = im_insert k v m.
Proof.
  induction m as [|[k' w] m IH]; simpl.
  - by rewrite decide_True.
  - destruct (decide (k = k')) as [->|Hne]; simpl; [by rewrite decide_True|by rewrite decide_False, IH].
Qed.

Lemma im_insert_same k v m : im_get k m = Some v -> im_insert k v m = m.
Proof.
  induction m as [|[k' w] m IH]; simpl; [done|]. destruct (decide (k = k')) as [->|]; [by intros [= ->]|].
  intros Hk. by rewrite IH.
Qed.

(** Inserts of different keys commute where one of them is held already. *)
Lemma im_insert_commute k v k' v' m : k <> k' -> k ∈ im_keys m ->
  im_insert k v (im_insert k' v' m) = im_insert k' v' (im_insert k v m).
Proof.
  intros Hne. induction m as [|[k0 w] m IH]; simpl; intros Hin; [by apply not_elem_of_nil in Hin|].
  destruct (decide (k' = k0)) as [->|Hk']; simpl.
  - destruct (decide (k = k0)) as [?|_]; [done|]. simpl. by destruct (decide (k0 = k0)).
  - destruct (decide (k = k0)) as [->|Hk]; simpl; rewrite decide_False by done; [done|].
    rewrite IH; [done|]. by apply elem_of_cons in Hin as [|].
Qed.

Lemma im_contains_spec k m : im_contains k m = true <-> k ∈ im_keys m.
Proof.
  unfold im_contains. rewrite <- im_get_some_keys.
  by destruct (im_get k m).
Qed.

End IndexMap.

(** [IndexSet]: the list of its members in insertion order. *)
Definition is_insert {K} `{EqDecision K} (k : K) (s : list K) : list K :=
  if decide (k ∈ s) then s else s ++ [k].

Lemma is_insert_nodup {K} `{EqDecision K} (k : K) s : NoDup s -> NoDup (is_insert k s).
Proof.
  unfold is_insert. case_decide; [done|]. intros Hs. apply NoDup_app.
  split_and!; [done|set_solver|apply NoDup_singleton].
Qed.

Lemma is_insert_elem {K} `{EqDecision K} (k x : K) s : x ∈ is_insert k s <-> x = k \/ x ∈ s.
Proof. unfold is_insert. case_decide; set_solver. Qed.

(** * Shared automation *)
Create HintDb fb discriminated.
#[export] Hint Rewrite @length_app @length_map @length_take @length_drop @length_rev : fb_len.
#[export] Hint Resolve is_insert_nodup im_insert_nodup : fb.

Ltac bool_hyps :=
  repeat match goal with
  | H : _ && _ = true |- _ => apply andb_true_iff in H as [? ?]
  | H : _ || _ = false |- _ => apply orb_false_iff in H as [? ?]
  | H : negb _ = true |- _ => apply negb_true_iff in H
  | H : negb _ = false |- _ => apply negb_false_iff in H
  | H : bool_decide _ = true |- _ => apply bool_decide_eq_true in H
  | H : bool_decide _ = false |- _ => apply bool_decide_eq_false in H
  | H : (_ =? _) = true |- _ => apply Z.eqb_eq in H
  | H : (_ =? _) = false |- _ => apply Z.eqb_neq in H
  | H : (_ <=? _) = true |- _ => apply Z.leb_le in H
  | H : (_ <=? _) = false |- _ => apply Z.leb_gt in H
  | H : (_ <? _) = true |- _ => apply Z.ltb_lt in H
  | H : (_ <? _) = false |- _ => apply Z.ltb_ge in H
  end.

(** * Text lemmas *)
Lemma teqb_spec a b : teqb a b = true <-> a = b.
Proof. unfold teqb. by rewrite bool_decide_eq_true. Qed.

Lemma teqb_refl a : teqb a a = true.
Proof. by apply teqb_spec. Qed.

Lemma starts_with_app p t : starts_with (p ++ t) p = true.
Proof. induction p as [|c p IH]; simpl; [done|]. by rewrite Z.eqb_refl. Qed.

Lemma starts_with_spec t p : starts_with t p = true <-> exists s, t = p ++ s.
Proof.
  revert t. induction p as [|c p IH]; intros t; simpl; [by split; [exists t|]|].
  destruct t as [|d t]; [split; [done|by intros [s Hs]]|]. split.
  - intros [Hc Ht]%andb_true_iff. apply Z.eqb_eq in Hc as ->.
    apply IH in Ht as [s ->]. by exists s.
  - intros [s Hs]. injection Hs as -> ->. rewrite Z.eqb_refl. apply IH. by exists s.
Qed.

Lemma starts_with_take t p : starts_with t p = true -> take (length p) t = p.
Proof. intros [s ->]%starts_with_spec. by rewrite take_app_length. Qed.

Lemma starts_with_length t p : starts_with t p = true -> (length p <= length t)%nat.
Proof. intros [s ->]%starts_with_spec. rewrite length_app. lia. Qed.

Lemma find_sub_some p t i :
  find_sub p t = Some i -> starts_with (drop i t) p = true /\ (i <= length t)%nat.
Proof.
  revert i. induction t as [|c t IH]; intros i; simpl.
  - destruct (starts_with [] p) eqn:E; intros; simplify_eq; auto.
  - destruct (starts_with (c :: t) p) eqn:E; intros H.
    + simplify_eq. simpl. split; [done|lia].
    + destruct (find_sub p t) as [j|] eqn:F; simplify_eq/=.
      destruct (IH j eq_refl). split; [done|lia].
Qed.

Lemma find_sub_first p t i j :
  find_sub p t = Some i -> (j < i)%nat -> starts_with (drop j t) p = false.
Proof.
  revert i j. induction t as [|c t IH]; intros i j; simpl.
  - destruct (starts_with [] p) eqn:E; intros; simplify_eq; lia.
  - destruct (starts_with (c :: t) p) eqn:E; intros H Hj; simplify_eq; [lia|].
    destruct (find_sub p t) as [k|] eqn:F; simplify_eq/=.
    destruct j as [|j]; [done|]. simpl. eapply IH; [done|lia].
Qed.

Lemma find_sub_none p t i : find_sub p t = None -> starts_with (drop i t) p = false.
Proof.
  revert i. induction t as [|c t IH]; intros i; simpl.
  - destruct (starts_with [] p) eqn:E; intros; simplify_eq. by rewrite drop_nil.
  - destruct (starts_with (c :: t) p) eqn:E; intros H; simplify_eq.
    destruct (find_sub p t) as [k|] eqn:F; simplify_eq/=.
    destruct i as [|i]; [done|]. simpl. by apply IH.
Qed.

Lemma contains_sub_spec t p : contains_sub t p = true <-> exists a b, t = a ++ p ++ b.
Proof.
  unfold contains_sub. split.
  - destruct (find_sub p t) as [i|] eqn:E; [|done]. intros _.
    apply find_sub_some in E as [[s Hs]%starts_with_spec _].
    exists (take i t), s. by rewrite <- Hs, take_drop.
  - intros (a & b & ->). destruct (find_sub p (a ++ p ++ b)) eqn:E; [done|].
    apply (find_sub_none _ _ (length a)) in E. by rewrite drop_app_length, starts_with_app in E.
Qed.

Lemma contains_sub_refl t : contains_sub t t = true.
Proof. apply contains_sub_spec. exists [], []. by rewrite app_nil_r. Qed.

Lemma contains_sub_app a t b p : contains_sub t p = true -> contains_sub (a ++ t ++ b) p = true.
Proof.
  rewrite !contains_sub_spec. intros (x & y & ->). exists (a ++ x), (y ++ b). by rewrite <- !app_assoc.
Qed.

Lemma find_char_spec f t i : find_char f t = Some i ->
  (i < length t)%nat /\ (exists c, t !! i = Some c /\ f c = true) /\ Forall (fun c => f c = false) (take i t).
Proof.
  revert i. induction t as [|c t IH]; intros i H; cbn in H; [done|].
  destruct (f c) eqn:E.
  - injection H as <-. cbn. split_and!; [lia|eauto|constructor].
  - destruct (find_char f t) as [j|]; [|done]. injection H as <-.
    destruct (IH j eq_refl) as (Hj & (d & Hd & Hf) & Ht). cbn. split_and!; [lia|eauto|by constructor].
Qed.

Lemma find_char_none f t c : find_char f t = None -> c ∈ t -> f c = false.
Proof.
  induction t as [|d t IH]; simpl; [set_solver|].
  destruct (f d) eqn:E; [done|]. destruct (find_char f t); [done|].
  intros _ [->|Hc]%elem_of_cons; auto.
Qed.

(** * Decimal digits read back *)
Definition digits_value (t : text) : Z := fold_left (fun n c => n * 10 + (c - 48)) t 0.

Lemma digits_value_app t c : digits_value (t ++ [c]) = digits_value t * 10 + (c - 48).
Proof. unfold digits_value. by rewrite fold_left_app. Qed.

Lemma digits_of_spec fuel n :
  0 <= n < 10 ^ Z.of_nat fuel ->
  digits_value (digits_of fuel n) = n /\ forallb is_ascii_digit (digits_of fuel n) = true.
Proof.
  revert n. induction fuel as [|fuel IH]; intros n H; cbn [digits_of].
  - cbn in H. split; [unfold digits_value; simpl; lia|done].
  - rewrite Nat2Z.inj_succ, Z.pow_succ_r in H by lia.
    destruct (n <? 10) eqn:E; bool_hyps.
    + split; [unfold digits_value; simpl; lia|]. simpl. unfold is_ascii_digit, in_range.
      rewrite andb_true_r. apply andb_true_iff. split; apply Z.leb_le; lia.
    + destruct (IH (n / 10)) as [IHv IHd]; [Z.div_mod_to_equations; lia|].
      rewrite digits_value_app, IHv, forallb_app, IHd. simpl. unfold is_ascii_digit, in_range.
      split; [Z.div_mod_to_equations; lia|]. rewrite andb_true_r. simpl.
      apply andb_true_iff. split; apply Z.leb_le; Z.div_mod_to_equations; lia.
Qed.

Lemma digits_of_length fuel n w :
  0 <= n < 10 ^ Z.of_nat w -> (1 <= w)%nat -> (length (digits_of fuel n) <= w)%nat.
Proof.
  revert n w. induction fuel as [|fuel IH]; intros n w H Hw; cbn [digits_of]; [simpl; lia|].
  destruct (n <? 10) eqn:E; bool_hyps; [simpl; lia|].
  rewrite length_app. simpl.
  destruct w as [|w]; [lia|]. rewrite Nat2Z.inj_succ, Z.pow_succ_r in H by lia.
  destruct w as [|w]; [simpl in H; lia|].
  specialize (IH (n / 10) (S w) ltac:(Z.div_mod_to_equations; lia) ltac:(lia)). lia.
Qed.

Lemma show_nat_spec n :
  0 <= n -> digits_value (show_nat n) = n /\ forallb is_ascii_digit (show_nat n) = true.
Proof.
  intros H. apply digits_of_spec. split; [done|].
  destruct (decide (n = 0)) as [->|]; [reflexivity|].
  pose proof (Z.log2_spec n ltac:(lia)) as [_ Hlog]. pose proof (Z.log2_nonneg n).
  rewrite Nat2Z.inj_succ, Z2Nat.id by lia.
  eapply Z.lt_le_trans; [exact Hlog|]. apply Z.pow_le_mono_l. lia.
Qed.

Lemma digits_value_zeros k t : digits_value (replicate k (chr "0") ++ t) = digits_value t.
Proof.
  unfold digits_value. rewrite fold_left_app. f_equal. induction k as [|k IH]; [done|]. exact IH.
Qed.


Lemma digits_of_nonempty fuel n : digits_of (S fuel) n <> [].
Proof. simpl. destruct (n <? 10); [done|]. by intros ?%app_eq_nil%proj2. Qed.

Lemma show_nat_nonempty n : show_nat n <> [].
Proof. apply digits_of_nonempty. Qed.

Lemma digits_forall t : forallb is_ascii_digit t = true -> Forall (fun c => 48 <= c <= 57) t.
Proof.
  intros H. apply Forall_forall. intros c Hc. rewrite forallb_forall in H.
  specialize (H c (proj1 (list_elem_of_In _ _) Hc)). unfold is_ascii_digit, in_range in H.
  apply andb_true_iff in H as [H1 H2]. apply Z.leb_le in H1, H2. lia.
Qed.

(** [str::parse] of an integer type with bounds [lo] and [hi]: an optional sign ([-] only when
    the type is signed) and ASCII digits, the value in range. *)
Definition parse_int (lo hi : Z) (t : text) : option Z :=
  let '(sign, digits) :=
    match t with
    | c :: t' =>
        if c =? chr "+" then (1, t')
        else if (c =? chr "-") && (lo <? 0) then (-1, t') else (1, t)
    | [] => (1, [])
    end in
  if is_empty digits || negb (forallb is_ascii_digit digits) then None
  else let n := sign * digits_value digits in
       if in_range lo hi n then Some n else None.
Definition parse_i64 : text -> option Z := parse_int i64_min i64_max.
Definition parse_i32 : text -> option Z := parse_int (- 2 ^ 31) (2 ^ 31 - 1).
Definition parse_u32 : text -> option Z := parse_int 0 (2 ^ 32 - 1).
Definition parse_usize : text -> option Z := parse_int 0 (2 ^ 64 - 1).

Lemma parse_int_digits lo hi t :
  t <> [] -> forallb is_ascii_digit t = true -> lo <= digits_value t <= hi ->
  parse_int lo hi t = Some (digits_value t).
Proof.
  intros Hne Hd Hr. unfold parse_int. destruct t as [|c t]; [done|].
  assert (Hc : 48 <= c <= 57) by (by apply digits_forall, Forall_cons in Hd as [? _]).
  replace (c =? chr "+") with false by (symmetry; apply Z.eqb_neq; unfold chr; simpl; lia).
  replace (c =? chr "-") with false by (symmetry; apply Z.eqb_neq; unfold chr; simpl; lia).
  cbn [andb]. rewrite Hd, Z.mul_1_l. cbn [is_empty orb negb].
  unfold in_range. replace ((lo <=? _) && _) with true; [done|].
  symmetry. apply andb_true_iff. split; apply Z.leb_le; lia.
Qed.

Lemma parse_int_show lo hi n : lo <= n <= hi -> parse_int lo hi (show_Z n) = Some n.
Proof.
  intros H. unfold show_Z. destruct (n <? 0) eqn:E.
  - apply Z.ltb_lt in E. destruct (show_nat_spec (- n)) as [Hv Hd]; [lia|].
    unfold parse_int. replace (45 =? chr "+") with false by done.
    replace ((45 =? chr "-") && (lo <? 0)) with true
      by (symmetry; apply andb_true_iff; split; [done|apply Z.ltb_lt; lia]).
    rewrite Hd, Hv. replace (is_empty (show_nat (- n))) with false
      by (pose proof (show_nat_nonempty (- n)); by destruct (show_nat (- n))).
    cbn [orb negb]. replace (-1 * - n) with n by lia. unfold in_range.
    replace ((lo <=? n) && (n <=? hi)) with true; [done|].
    symmetry. apply andb_true_iff. split; apply Z.leb_le; lia.
  - apply Z.ltb_ge in E. destruct (show_nat_spec n) as [Hv Hd]; [lia|].
    rewrite parse_int_digits; rewrite ?Hv; auto using show_nat_nonempty.
Qed.
Lemma show_index_inj i j : show_Z (Z.of_nat i) = show_Z (Z.of_nat j) -> i = j.
Proof.
  intros E. pose proof (parse_int_show 0 (Z.of_nat i + Z.of_nat j) (Z.of_nat i) ltac:(lia)) as P.
  rewrite E, parse_int_show in P by lia. injection P. lia.
Qed.

Lemma digits_value_from n t :
  fold_left (fun n c => n * 10 + (c - 48)) t n = n * 10 ^ Z.of_nat (length t) + digits_value t.
Proof.
  unfold digits_value. revert n. induction t as [|c t IH]; intros n; [simpl; lia|].
  cbn [fold_left length]. rewrite IH, (IH (0 * 10 + _)), Nat2Z.inj_succ, Z.pow_succ_r by lia. lia.
Qed.

Lemma digits_value_cat a b :
  digits_value (a ++ b) = digits_value a * 10 ^ Z.of_nat (length b) + digits_value b.
Proof. unfold digits_value. by rewrite fold_left_app, digits_value_from. Qed.

Lemma digits_value_all_zeros k : digits_value (replicate k (chr "0")) = 0.
Proof. rewrite <- (app_nil_r (replicate _ _)). by rewrite digits_value_zeros. Qed.

(** * Splitting at a character *)
Lemma find_char_app_none f a b :
  Forall (fun c => f c = false) a -> find_char f (a ++ b) = Nat.add (length a) <$> find_char f b.
Proof.
  induction 1 as [|c a Hc Ha IH]; simpl; [by destruct (find_char f b)|].
  rewrite Hc, IH. by destruct (find_char f b).
Qed.

Lemma split_once_none c t : c ∉ t -> split_once c t = None.
Proof.
  intros H. unfold split_once. rewrite <- (app_nil_r t), find_char_app_none; [done|].
  apply Forall_forall. intros d Hd. apply Z.eqb_neq. by intros ->.
Qed.

Lemma split_once_app c a b : c ∉ a -> split_once c (a ++ c :: b) = Some (a, b).
Proof.
  intros H. unfold split_once. rewrite find_char_app_none.
  - simpl. rewrite Z.eqb_refl. simpl. rewrite Nat.add_0_r, take_app_length.
    by rewrite drop_app_ge, Nat.sub_succ_l, Nat.sub_diag by lia.
  - apply Forall_forall. intros d Hd. apply Z.eqb_neq. by intros ->.
Qed.

(** * Trimming *)
Lemma trim_start_skip f a t : Forall (fun c => f c = true) a -> trim_start f (a ++ t) = trim_start f t.
Proof. induction 1 as [|c a Hc Ha IH]; simpl; [done|]. by rewrite Hc. Qed.

Lemma trim_start_keep f c t : f c = false -> trim_start f (c :: t) = c :: t.
Proof. intros H. simpl. by rewrite H. Qed.

(** [m], whose first and last characters are kept, between two runs that are trimmed. *)
Lemma trim_matches_around f a m b c d :
  Forall (fun c => f c = true) a -> Forall (fun c => f c = true) b ->
  head m = Some c -> last m = Some d -> f c = false -> f d = false ->
  trim_matches f (a ++ m ++ b) = m.
Proof.
  intros Ha Hb Hc Hd Hfc Hfd. unfold trim_matches, trim_end.
  destruct m as [|x m]; [done|]. simpl in Hc. injection Hc as ->.
  rewrite trim_start_skip by done. cbn [app]. rewrite trim_start_keep by done.
  change (c :: m ++ b) with ((c :: m) ++ b). rewrite rev_app_distr, trim_start_skip
    by (apply Forall_forall; intros z Hz; rewrite Forall_forall in Hb; apply Hb;
        by apply list_elem_of_In, in_rev, list_elem_of_In).
  assert (exists r, rev (c :: m) = d :: r) as [r Hr].
  { apply last_Some in Hd as [l Hl]. rewrite Hl, rev_app_distr. by exists (rev l). }
  rewrite Hr, trim_start_keep by done. by rewrite <- Hr, rev_involutive.
Qed.

Lemma list_filter_ext {A} (P Q : A -> Prop) `{forall x, Decision (P x)} `{forall x, Decision (Q x)} (l : list A) :
  (forall x, x ∈ l -> P x <-> Q x) -> base.filter P l = base.filter Q l.
Proof.
  induction l as [|x l IH]; intros Heq; [done|]. rewrite !filter_cons.
  assert (Hx : P x <-> Q x) by (apply Heq; set_solver).
  rewrite IH by (intros y Hy; apply Heq; set_solver). repeat case_decide; tauto.
Qed.

(** Strong induction on the length of a list. *)
Lemma list_len_ind {A} (P : list A -> Prop) :
  (forall l, (forall k, (length k < length l)%nat -> P k) -> P l) -> forall l, P l.
Proof.
  intros H l. remember (length l) as n eqn:E. revert l E.
  induction (lt_wf n) as [n _ IH]. intros l ->. apply H. intros k Hk. by eapply IH.
Qed.

(** ** What a filter keeps *)
Lemma filter_kept {A} (P : A -> Prop) `{forall x, Decision (P x)} (l : list A) : (forall x, x ∈ l -> P x) -> base.filter P l = l.
Proof. induction l as [|x l IH]; intros Hl; [done|]. rewrite filter_cons_True by (apply Hl; left). f_equal. apply IH. set_solver. Qed.
Lemma filter_dropped {A} (P : A -> Prop) `{forall x, Decision (P x)} (l : list A) : (forall x, x ∈ l -> ~ P x) -> base.filter P l = [].
Proof. induction l as [|x l IH]; intros Hl; [done|]. rewrite filter_cons_False by (apply Hl; left). apply IH. set_solver. Qed.
Lemma filter_rest {A} `{EqDecision A} (l1 l2 : list A) : NoDup (l1 ++ l2) -> base.filter (fun i => i ∉ l1) (l1 ++ l2) = l2.
Proof.
  intros (_ & Hd & _)%NoDup_app. rewrite filter_app, filter_dropped, filter_kept; [done| |]; intros x Hx; [|auto]. intros Hin. by apply (Hd x).
Qed.
Lemma filter_fst {A B} (P : A -> Prop) (Q : A * B -> Prop) `{forall x, Decision (P x)} `{forall x, Decision (Q x)} (l : list (A * B)) :
  (forall x, Q x <-> P x.1) -> map fst (base.filter Q l) = base.filter P (map fst l).
Proof.
  intros Hpq. induction l as [|x l IH]; [done|]. cbn [map]. rewrite !filter_cons. pose proof (Hpq x).
  repeat case_decide; cbn [map]; [by rewrite IH|tauto..|done].
Qed.
