(* ===== verification/Float64.v ===== *)
(** Binary64 arithmetic and the totals a dollar cap compares.

    A Rust [f64] is the Standard Library's executable IEEE 754 value ([SpecFloat], without
    the primitive floats and their axioms), so rounding, infinities and NaN behave in the
    theorems as they do in the program.  [py_sum] is the compensated sum of
    [crates/fastbrowse-core/src/py/mod.rs]. *)

From Stdlib Require Export SpecFloat.
From S2P Require Import Prelude.

Abbreviation f64 := spec_float.

Definition prec : Z := 53.
Definition emax : Z := 1024.

Definition f64_add : f64 -> f64 -> f64 := SFadd prec emax.
Definition f64_sub : f64 -> f64 -> f64 := SFsub prec emax.
Definition f64_mul : f64 -> f64 -> f64 := SFmul prec emax.
Definition f64_div : f64 -> f64 -> f64 := SFdiv prec emax.
Definition f64_abs : f64 -> f64 := SFabs.

(** [n as f64] for an integer: rounded to nearest, ties to even. *)
Definition f64_of_Z (n : Z) : f64 := binary_normalize prec emax n 0 false.

(** The comparison operators: each is false when an operand is NaN. *)
Definition f64_lt (a b : f64) : bool := SFltb a b.
Definition f64_le (a b : f64) : bool := SFleb a b.
Definition f64_gt (a b : f64) : bool := SFltb b a.
Definition f64_ge (a b : f64) : bool := SFleb b a.
Definition f64_eq (a b : f64) : bool := SFeqb a b.

Definition f64_zero : f64 := S754_zero false.
Definition f64_nan : f64 := S754_nan.

Definition is_nan (x : f64) : bool := match x with S754_nan => true | _ => false end.
Definition is_infinite (x : f64) : bool := match x with S754_infinity _ => true | _ => false end.
Definition is_finite (x : f64) : bool :=
  match x with S754_zero _ | S754_finite _ _ _ => true | _ => false end.
Definition is_sign_negative (x : f64) : bool :=
  match x with
  | S754_zero s | S754_infinity s | S754_finite s _ _ => s
  | S754_nan => false
  end.

(** One step of the loop: the running total and its compensation (Neumaier). *)
Definition sum_step (acc : f64 * f64) (x : f64) : f64 * f64 :=
  let '(total, compensation) := acc in
  let t := f64_add total x in
  let compensation :=
    if f64_ge (f64_abs total) (f64_abs x)
    then f64_add compensation (f64_add (f64_sub total t) x)
    else f64_add compensation (f64_add (f64_sub x t) total) in
  (t, compensation).

Definition py_sum (values : list f64) : f64 :=
  let '(total, compensation) := fold_left sum_step values (f64_zero, f64_zero) in
  if negb (f64_eq compensation f64_zero) && is_finite compensation
  then f64_add total compensation
  else total.

(** ** Whole numbers *)
(** [trunc] read as an integer, for a finite double. *)
Definition f64_trunc (x : f64) : Z :=
  match x with
  | S754_finite s m e =>
      let n := if 0 <=? e then Z.pos m * 2 ^ e else Z.pos m / 2 ^ (- e) in
      if s then - n else n
  | _ => 0
  end.

(** [x.fract() == 0.0]. *)
Definition f64_integral (x : f64) : bool :=
  match x with
  | S754_zero _ => true
  | S754_finite _ m e => (0 <=? e) || (Z.pos m mod 2 ^ (- e) =? 0)
  | _ => false
  end.

(** [f64::min] and [f64::max]: a NaN loses to any number. *)
Definition f64_min (a b : f64) : f64 :=
  if is_nan a then b else if is_nan b then a else if f64_lt b a then b else a.
Definition f64_max (a b : f64) : f64 :=
  if is_nan a then b else if is_nan b then a else if f64_lt a b then b else a.

(** [x as i64]: towards zero, saturating. *)
Definition f64_to_i64 (x : f64) : Z :=
  match x with
  | S754_infinity s => if s then i64_min else i64_max
  | S754_finite _ _ _ => Z.max i64_min (Z.min i64_max (f64_trunc x))
  | _ => 0
  end.

(** [x.ceil() as i64]. *)
Definition f64_ceil_i64 (x : f64) : Z :=
  match x with
  | S754_infinity s => if s then i64_min else i64_max
  | S754_finite s m e =>
      Z.max i64_min (Z.min i64_max
        (f64_trunc x + (if s || f64_integral x then 0 else 1)))
  | _ => 0
  end.

(** ** Comparison facts *)
Lemma f64_gt_nan x : f64_gt x f64_nan = false.
Proof. by destruct x. Qed.

Lemma f64_ge_nan x : f64_ge x f64_nan = false.
Proof. by destruct x. Qed.

Lemma f64_le_nan x : f64_le f64_nan x = false.
Proof. by destruct x. Qed.

Lemma f64_lt_nan x : f64_lt f64_nan x = false.
Proof. by destruct x. Qed.

Lemma SFcompare_swap x y : SFcompare y x = CompOpp <$> SFcompare x y.
Proof.
  destruct x as [s1|s1| |s1 m1 e1], y as [s2|s2| |s2 m2 e2]; try done; cbn;
    try by destruct s1; try destruct s2.
  all: try by destruct s2.
  rewrite (Z.compare_antisym e1 e2). f_equal.
  assert (Hm : Pos.compare_cont Eq m2 m1 = CompOpp (Pos.compare_cont Eq m1 m2)) by apply Pos.compare_antisym.
  rewrite Hm. destruct s1, s2, (e1 ?= e2)%Z; cbn; rewrite ?CompOpp_involutive; done.
Qed.

Lemma SFcompare_some x y : is_nan x = false -> is_nan y = false -> exists c, SFcompare x y = Some c.
Proof. destruct x, y; cbn; eauto; done. Qed.

(** Away from NaN the order is total. *)
Lemma f64_not_lt x y : is_nan x = false -> is_nan y = false -> f64_lt x y = false -> f64_le y x = true.
Proof.
  intros Hx Hy. unfold f64_lt, f64_le, SFltb, SFleb. rewrite (SFcompare_swap x y).
  destruct (SFcompare_some x y Hx Hy) as [c ->]. by destruct c.
Qed.

Lemma shr_nonneg mrs e n : 0 <= shr_m mrs -> 0 <= shr_m (fst (shr mrs e n)).
Proof.
  assert (H1 : forall r, 0 <= shr_m r -> 0 <= shr_m (shr_1 r))
    by (intros [[|[]|[]] r s]; cbn; lia).
  intros Hm. unfold shr. destruct n as [|p|p]; cbn; try done.
  revert mrs Hm. induction p; intros mrs Hm; cbn; auto.
Qed.

Lemma binary_round_aux_number s m e l : 0 <= m -> is_nan (binary_round_aux prec emax s m e l) = false.
Proof.
  intros Hm. unfold binary_round_aux, shr_fexp.
  destruct (shr _ _ _) as [r1 e1] eqn:E1. cbv beta iota.
  assert (H1 : 0 <= shr_m r1).
  { change r1 with (fst (r1, e1)). rewrite <- E1. apply shr_nonneg. destruct l as [|[]]; done. }
  match goal with |- context [shr ?a ?b ?c] => destruct (shr a b c) as [r2 e2] eqn:E2 end. cbv beta iota.
  assert (H2 : 0 <= shr_m r2).
  { change r2 with (fst (r2, e2)). rewrite <- E2. apply shr_nonneg. cbn.
    unfold round_nearest_even. repeat case_match; lia. }
  destruct (shr_m r2); [done| |lia]. by case_match.
Qed.

(** A finite nonzero factor makes no NaN. *)
Lemma f64_mul_number x s m e : is_nan x = false -> is_nan (f64_mul x (S754_finite s m e)) = false.
Proof. destruct x; cbn; try done. intros _. by apply binary_round_aux_number. Qed.

(** The literals of the witnesses: [m / 10 ^ k] rounded. *)
Definition dec (m k : Z) : f64 := f64_div (f64_of_Z m) (f64_of_Z (10 ^ k)).

(** The compensation recovers what a plain fold loses: [1e16 + 1 - 1e16] is one. *)
Example py_sum_compensates :
  py_sum [f64_of_Z (10 ^ 16); f64_of_Z 1; f64_of_Z (- 10 ^ 16)] = f64_of_Z 1.
Proof. by vm_compute. Qed.

Example py_sum_tenths : f64_eq (py_sum (repeat (dec 1 1) 10)) (f64_of_Z 1) = true.
Proof. by vm_compute. Qed.

(** ** The integers a double reaches *)
Lemma digits2_pos_le m : 2 ^ (Z.pos (digits2_pos m) - 1) <= Z.pos m.
Proof.
  induction m as [m IH|m IH|]; cbn [digits2_pos]; [| |done].
  all: rewrite Pos2Z.inj_succ; replace (Z.succ (Z.pos (digits2_pos m)) - 1) with (Z.succ (Z.pos (digits2_pos m) - 1)) by lia.
  all: rewrite Z.pow_succ_r by lia; lia.
Qed.
Lemma Zdigits2_le m b : 0 <= m < 2 ^ b -> 0 <= b -> Zdigits2 m <= b.
Proof.
  intros Hm Hb. destruct m as [|m|m]; [done| |lia]. cbn. pose proof (digits2_pos_le m).
  destruct (Z.le_gt_cases (Z.pos (digits2_pos m)) b) as [|Hlt]; [done|].
  assert (2 ^ b <= 2 ^ (Z.pos (digits2_pos m) - 1)) by (apply Z.pow_le_mono_r; lia). lia.
Qed.
Lemma shr_bound mrs e n : 0 <= shr_m mrs -> 0 <= shr_m (fst (shr mrs e n)) <= shr_m mrs /\ snd (shr mrs e n) = e + Z.max 0 n.
Proof.
  assert (forall r, 0 <= shr_m r -> 0 <= shr_m (shr_1 r) <= shr_m r) as H1 by (intros [[|[]|[]] r s]; cbn; lia).
  intros Hm. unfold shr. destruct n as [|p|p]; cbn; [lia| |lia]. split; [|lia]. clear e. revert mrs Hm.
  induction p as [p IH|p IH|]; intros mrs Hm; cbn [SpecFloat.iter_pos]; [| |by apply H1].
  - destruct (H1 mrs Hm). destruct (IH (shr_1 mrs)); [done|]. destruct (IH (SpecFloat.iter_pos shr_1 p (shr_1 mrs))); [done|]. lia.
  - destruct (IH mrs Hm). destruct (IH (SpecFloat.iter_pos shr_1 p mrs)); [done|]. lia.
Qed.
Lemma shr_fexp_bound m e l b : 0 <= m < 2 ^ b -> 0 <= b ->
  0 <= shr_m (fst (shr_fexp prec emax m e l)) <= m /\ snd (shr_fexp prec emax m e l) <= Z.max e (Z.max (b + e - 53) (-1074)).
Proof.
  intros Hm Hb. unfold shr_fexp. assert (shr_m (shr_record_of_loc m l) = m) as Hr by by destruct l as [|[]].
  destruct (shr_bound (shr_record_of_loc m l) e (fexp prec emax (Zdigits2 m + e) - e)) as [H1 H2]; [lia|]. rewrite H2. split; [lia|].
  pose proof (Zdigits2_le m b Hm Hb). unfold fexp, SpecFloat.emin, prec, emax. lia.
Qed.
Lemma binary_round_aux_finite s m e : 0 <= m < 2 ^ 117 -> e <= 0 -> is_finite (binary_round_aux prec emax s m e loc_Exact) = true.
Proof.
  intros Hm He. unfold binary_round_aux. destruct (shr_fexp_bound m e loc_Exact 117 Hm ltac:(lia)) as [H1 H2].
  destruct (shr_fexp prec emax m e loc_Exact) as [r1 e1]. cbn [fst snd] in *.
  set (m2 := round_nearest_even (shr_m r1) (loc_of_shr_record r1)).
  assert (0 <= m2 < 2 ^ 118) as Hm2.
  { assert (0 <= m2 <= shr_m r1 + 1) by (subst m2; unfold round_nearest_even; repeat case_match; lia).
    change (2 ^ 118) with (2 ^ 117 + 2 ^ 117). assert (1 <= 2 ^ 117) by done. lia. }
  destruct (shr_fexp_bound m2 e1 loc_Exact 118 Hm2 ltac:(lia)) as [H3 H4].
  destruct (shr_fexp prec emax m2 e1 loc_Exact) as [r2 e2]. cbn [fst snd] in *.
  destruct (shr_m r2); [done| |lia]. destruct (Z.leb_spec e2 (emax - prec)); [done|]. unfold prec, emax in *. lia.
Qed.
Lemma iter_xO m d : Z.pos (Pos.iter xO m d) = Z.pos m * 2 ^ Z.pos d.
Proof.
  induction d as [|d IH] using Pos.peano_ind; [cbn; lia|]. rewrite Pos.iter_succ, Pos2Z.inj_succ, Z.pow_succ_r by lia.
  change (Z.pos (xO (Pos.iter xO m d))) with (2 * Z.pos (Pos.iter xO m d)). lia.
Qed.
(** An integer within 64 bits is a finite double. *)
Lemma f64_of_Z_finite n : Z.abs n <= 2 ^ 64 -> is_finite (f64_of_Z n) = true.
Proof.
  assert (forall s p, Z.pos p <= 2 ^ 64 -> is_finite (binary_round prec emax s p 0) = true) as Hp.
  { intros s p Hp. unfold binary_round, shl_align. set (e := fexp prec emax (Z.pos (digits2_pos p) + 0)).
    assert (-52 <= e) as He by (subst e; unfold fexp, prec; lia). rewrite Z.sub_0_r. destruct e as [|e|e]; [apply binary_round_aux_finite; lia..|].
    apply binary_round_aux_finite; [|lia]. rewrite iter_xO. split; [lia|].
    assert (2 ^ Z.pos e <= 2 ^ 52) by (apply Z.pow_le_mono_r; lia). change (2 ^ 117) with (2 ^ 64 * (2 * 2 ^ 52)). nia. }
  intros Hn. unfold f64_of_Z, binary_normalize. destruct n as [|p|p]; [done|by apply Hp|by apply Hp].
Qed.
