(* ===== verification/PyText.v ===== *)
(** The [str] methods the source leans on: [crates/fastbrowse-core/src/py/text.rs].

    The Unicode tables behind [char::is_alphanumeric] and the case mappings are an
    interface, [Unicode], whose laws fix their ASCII part; [ascii_unicode] is the instance
    the concrete examples compute with.  The percent encoder of the [percent_encoding]
    crate is the interface [PercentEncoding]. *)

From S2P Require Import Prelude.

(** Rust's Unicode tables, as far as the source uses them. *)
Class Unicode := {
  is_alphanumeric : Z -> bool;
  is_alphabetic : Z -> bool;
  to_lowercase : Z -> text;
  to_uppercase : Z -> text;
  is_cased : Z -> bool;
}.

(** [str::to_lowercase], which reads the letters around a final sigma. *)
Class UnicodeStr := { str_lowercase : text -> text }.

(** What the tables say of ASCII. *)
Class UnicodeAscii (U : Unicode) := {
  ascii_alphanumeric c : 0 <= c < 128 -> is_alphanumeric c = is_ascii_alphanumeric c;
  ascii_to_lowercase c : 0 <= c < 128 -> to_lowercase c = [to_ascii_lowercase c];
}.

(** Tables that know ASCII alone. *)
#[export] Instance ascii_unicode : Unicode := {
  is_alphanumeric := is_ascii_alphanumeric;
  is_alphabetic := is_ascii_alphabetic;
  to_lowercase c := [to_ascii_lowercase c];
  to_uppercase c := [to_ascii_uppercase c];
  is_cased := is_ascii_alphabetic;
}.

#[export] Instance ascii_unicode_str : UnicodeStr := { str_lowercase := ascii_lower }.

#[export] Instance ascii_unicode_ascii : UnicodeAscii ascii_unicode.
Proof. by split. Qed.

(** [len]: code points, not bytes. *)
Definition len (t : text) : Z := Z.of_nat (length t).

(** [prefix]: [text[:count]] by code points. *)
Definition prefix (t : text) (count : nat) : text := take count t.

(** [str.isspace] for one character: White_Space and the four information separators. *)
Definition is_space (c : Z) : bool := is_whitespace c || in_range 0x1c 0x1f c.

(** [str.split()] with no arguments. *)
Definition split (t : text) : list text :=
  base.filter (fun part => part <> []) (split_parts is_space t).

(** [" ".join(text.split())]. *)
Definition squash (t : text) : text := join (lit " ") (split t).

(** [str.strip()]. *)
Definition strip (t : text) : text := trim_matches is_space t.

(** [\w] in a [str] pattern. *)
Definition is_word `{Unicode} (c : Z) : bool := is_alphanumeric c || (c =? chr "_").

(** The characters [str.casefold] folds to other than their lowercase. *)
Definition casefold_char `{Unicode} (c : Z) : text :=
  if one_of [0xdf; 0x1e9e] c then lit "ss"
  else if c =? 0x3c2 then [0x3c3]
  else if c =? 0xfb00 then lit "ff"
  else if c =? 0xfb01 then lit "fi"
  else if c =? 0xfb02 then lit "fl"
  else if c =? 0xfb03 then lit "ffi"
  else if c =? 0xfb04 then lit "ffl"
  else if one_of [0xfb05; 0xfb06] c then lit "st"
  else if c =? 0x130 then [chr "i"; 0x307]
  else to_lowercase c.

Definition casefold `{Unicode} (t : text) : text := concat (map casefold_char t).

(** [str.title()]. *)
Fixpoint title_from `{Unicode} (previous_cased : bool) (t : text) : text :=
  match t with
  | [] => []
  | c :: t' =>
      (if previous_cased then to_lowercase c else to_uppercase c) ++ title_from (is_cased c) t'
  end.

Definition title `{Unicode} (t : text) : text := title_from false t.

Definition same_letter `{Unicode} (a b : Z) : bool :=
  (a =? b) || teqb (to_lowercase a) (to_lowercase b).

(** [starts_with_ignore_case]: the length matched. *)
Fixpoint starts_with_ignore_case `{Unicode} (t word : text) : option nat :=
  match word with
  | [] => Some 0%nat
  | w :: word' =>
      match t with
      | [] => None
      | c :: t' => if same_letter c w then S <$> starts_with_ignore_case t' word' else None
      end
  end.

(** [or_list]: [a, b or c]. *)
Definition or_list (items : list text) : text :=
  match rev items with
  | [] => []
  | [last] => last
  | last :: rest => join (lit ", ") (rev rest) ++ lit " or " ++ last
  end.

(** Lowercase hexadecimal digits, zero padded to [width]. *)
Definition hex_digit (n : Z) : Z := if n <? 10 then 48 + n else 87 + n.

Fixpoint hex (width : nat) (n : Z) : text :=
  match width with
  | O => []
  | S width => hex width (n / 16) ++ [hex_digit (n mod 16)]
  end.

(** The ranges of [unprintable] beyond controls and spaces. *)
Definition unprintable_ranges : list (Z * Z) :=
  [ (0xad, 0xad); (0x600, 0x605); (0x61c, 0x61c); (0x6dd, 0x6dd); (0x70f, 0x70f);
    (0x890, 0x891); (0x8e2, 0x8e2); (0x180e, 0x180e); (0x200b, 0x200f); (0x202a, 0x202e);
    (0x2060, 0x2064); (0x2066, 0x206f); (0xe000, 0xf8ff); (0xfeff, 0xfeff);
    (0xfff9, 0xfffb); (0x110bd, 0x110bd); (0x110cd, 0x110cd); (0x13430, 0x1343f);
    (0x1bca0, 0x1bca3); (0x1d173, 0x1d17a); (0xe0001, 0xe0001); (0xe0020, 0xe007f);
    (0xf0000, 0xffffd); (0x100000, 0x10fffd) ].

Definition unprintable (c : Z) : bool :=
  (is_control c || (is_space c && negb (c =? chr " ")))
  || existsb (fun '(lo, hi) => in_range lo hi c) unprintable_ranges.

Definition dquote : Z := 34.
Definition squote : Z := 39.
Definition backslash : Z := 92.

(** One character of [repr] between quotes [quote]. *)
Definition repr_char (quote c : Z) : text :=
  if c =? backslash then [backslash; backslash]
  else if c =? 10 then backslash :: lit "n"
  else if c =? 13 then backslash :: lit "r"
  else if c =? 9 then backslash :: lit "t"
  else if c =? quote then [backslash; c]
  else if unprintable c then
    (if c <? 0x100 then backslash :: lit "x" ++ hex 2 c
     else if c <? 0x10000 then backslash :: lit "u" ++ hex 4 c
     else backslash :: lit "U" ++ hex 8 c)
  else [c].

Definition repr_quote (t : text) : Z :=
  if existsb (Z.eqb squote) t && negb (existsb (Z.eqb dquote) t) then dquote else squote.

Definition repr (t : text) : text :=
  let quote := repr_quote t in
  [quote] ++ concat (map (repr_char quote) t) ++ [quote].

(** The percent encoder: an ASCII set to encode and the text. *)
Class PercentEncoding := { utf8_percent_encode : (Z -> bool) -> text -> text }.

(** What [urllib.parse.quote] never encodes, and the two variants. *)
Definition ALWAYS_SAFE (c : Z) : bool :=
  negb (is_ascii_alphanumeric c || one_of (lit "_.-~") c).
Definition SAFE_SLASH (c : Z) : bool := ALWAYS_SAFE c && negb (c =? chr "/").
Definition SAFE_SPACE (c : Z) : bool := ALWAYS_SAFE c && negb (c =? chr " ").

Definition quote `{PercentEncoding} (t : text) : text := utf8_percent_encode ALWAYS_SAFE t.
Definition quote_path `{PercentEncoding} (t : text) : text := utf8_percent_encode SAFE_SLASH t.
Definition quote_plus `{PercentEncoding} (t : text) : text :=
  map (fun c => if c =? chr " " then chr "+" else c) (utf8_percent_encode SAFE_SPACE t).

(** ** [squash] *)
Lemma split_parts_nonempty f t : split_parts f t <> [].
Proof. destruct t; simpl; [done|]. destruct (f _); [done|]. by destruct (split_parts f t). Qed.

Lemma split_parts_word f w : Forall (fun c => f c = false) w -> split_parts f w = [w].
Proof.
  induction w as [|c w IH]; simpl; [done|]. intros [Hc Hw]%Forall_cons. by rewrite Hc, IH.
Qed.

Lemma split_parts_app_sep f w s t :
  Forall (fun c => f c = false) w -> f s = true ->
  split_parts f (w ++ s :: t) = w :: split_parts f t.
Proof.
  intros Hw Hs. induction w as [|c w IH]; simpl.
  - by rewrite Hs.
  - apply Forall_cons in Hw as [Hc Hw]. by rewrite Hc, IH.
Qed.

Lemma split_parts_clean f t : Forall (Forall (fun c => f c = false)) (split_parts f t).
Proof.
  induction t as [|c t IH]; simpl; [by repeat constructor|].
  destruct (f c) eqn:E; [by repeat constructor|].
  destruct (split_parts f t) as [|p ps]; [by repeat constructor|].
  apply Forall_cons in IH as [Hp Hps]. by repeat constructor.
Qed.

(** A word: what [split] yields. *)
Definition is_split_word (w : text) : Prop := w <> [] /\ Forall (fun c => is_space c = false) w.

Lemma split_words t : Forall is_split_word (split t).
Proof.
  apply Forall_forall. intros w [Hne Hin]%list_elem_of_filter. split; [done|].
  by eapply Forall_forall in Hin; [|apply split_parts_clean].
Qed.

Lemma split_join ws : Forall is_split_word ws -> split (join (lit " ") ws) = ws.
Proof.
  unfold split, join. destruct ws as [|w ws]; [done|].
  intros [[Hne Hw] Hws]%Forall_cons. revert w Hne Hw.
  induction Hws as [|v ws [Hv Hv'] _ IH]; intros w Hne Hw; cbn [map concat].
  - rewrite app_nil_r, split_parts_word by done. rewrite filter_cons_True by done. done.
  - change (lit " " ++ v) with (32 :: v). cbn [app].
    rewrite split_parts_app_sep by done.
    rewrite filter_cons_True by done. f_equal. by apply IH.
Qed.

(** Squashing is a normal form: it loses no word and squashing again changes nothing. *)
Lemma split_squash t : split (squash t) = split t.
Proof. apply split_join, split_words. Qed.

Lemma squash_idem t : squash (squash t) = squash t.
Proof. unfold squash. by rewrite split_join by apply split_words. Qed.

(** ** Hexadecimal round trip *)
Definition hex_value (c : Z) : Z := if c <? 58 then c - 48 else c - 87.
Definition read_hex (digits : text) : Z := fold_left (fun n c => n * 16 + hex_value c) digits 0.

Lemma hex_value_digit n : 0 <= n < 16 -> hex_value (hex_digit n) = n.
Proof.
  unfold hex_value, hex_digit. intros H.
  destruct (n <? 10) eqn:E; bool_hyps.
  - destruct (48 + n <? 58) eqn:F; bool_hyps; lia.
  - destruct (87 + n <? 58) eqn:F; bool_hyps; lia.
Qed.

Lemma hex_length w n : length (hex w n) = w.
Proof. revert n. induction w as [|w IH]; intros n; simpl; [done|]. rewrite length_app, IH. simpl. lia. Qed.

Lemma read_hex_hex w n : 0 <= n < 16 ^ Z.of_nat w -> read_hex (hex w n) = n.
Proof.
  revert n. induction w as [|w IH]; intros n H; simpl.
  - cbn. cbn in H. lia.
  - unfold read_hex. rewrite fold_left_app. fold (read_hex (hex w (n / 16))).
    rewrite Nat2Z.inj_succ, Z.pow_succ_r in H by lia.
    rewrite IH by (Z.div_mod_to_equations; lia). cbn [fold_left].
    rewrite hex_value_digit by (apply Z.mod_pos_bound; lia). Z.div_mod_to_equations. lia.
Qed.

Lemma hex_digit_printable n : 0 <= n < 16 -> 33 <= hex_digit n <= 126.
Proof. unfold hex_digit. intros H. destruct (n <? 10) eqn:E; bool_hyps; lia. Qed.

Lemma hex_printable w n : 0 <= n -> Forall (fun c => 33 <= c <= 126) (hex w n).
Proof.
  revert n. induction w as [|w IH]; intros n H; simpl; [done|].
  apply Forall_app. split; [apply IH; Z.div_mod_to_equations; lia|].
  repeat constructor; apply hex_digit_printable; Z.div_mod_to_equations; lia.
Qed.

(** ** Reading a [repr] literal back

    The reader of the specification: what a Python string literal denotes. *)
Definition scalar (c : Z) : Prop := 0 <= c < 0x110000.

Definition read_escape (s : text) : option (Z * text) :=
  match s with
  | [] => None
  | c :: s' =>
      let sized w := Some (read_hex (take w s'), drop w s') in
      if c =? chr "n" then Some (10, s')
      else if c =? chr "r" then Some (13, s')
      else if c =? chr "t" then Some (9, s')
      else if c =? chr "x" then sized 2%nat
      else if c =? chr "u" then sized 4%nat
      else if c =? chr "U" then sized 8%nat
      else Some (c, s')
  end.

(** The text a literal closed by [quote] denotes, and what follows its closing quote. *)
Fixpoint read_literal (fuel : nat) (quote : Z) (s : text) : option (text * text) :=
  match fuel, s with
  | O, _ | _, [] => None
  | S fuel, c :: s' =>
      if c =? quote then Some ([], s')
      else
        match (if c =? backslash then read_escape s' else Some (c, s')) with
        | None => None
        | Some (d, rest) =>
            match read_literal fuel quote rest with
            | Some (t, rest) => Some (d :: t, rest)
            | None => None
            end
        end
  end.

Definition is_quote (q : Z) : Prop := q = squote \/ q = dquote.

Lemma read_literal_char fuel q c rest :
  is_quote q -> scalar c ->
  read_literal (S fuel) q (repr_char q c ++ rest) =
  match read_literal fuel q rest with Some (t, rest) => Some (c :: t, rest) | None => None end.
Proof.
  unfold is_quote, scalar. intros Hq Hc.
  assert (Hsized : forall w k, (k = chr "x" /\ w = 2 \/ k = chr "u" /\ w = 4 \/ k = chr "U" /\ w = 8)%nat ->
    c < 16 ^ Z.of_nat w ->
    read_literal (S fuel) q ((backslash :: k :: hex w c) ++ rest) =
    match read_literal fuel q rest with Some (t, rest) => Some (c :: t, rest) | None => None end).
  { intros w k Hk Hw.
    assert (backslash =? q = false) as Hb by (destruct Hq as [-> | ->]; done).
    cbn [app read_literal]. rewrite Hb. cbn [Z.eqb backslash Pos.eqb].
    assert (take w (hex w c ++ rest) = hex w c) as Ht by (apply take_app_length'; by rewrite hex_length).
    assert (drop w (hex w c ++ rest) = rest) as Hd by (apply drop_app_length'; by rewrite hex_length).
    unfold read_escape.
    destruct Hk as [[-> ->]|[[-> ->]|[-> ->]]]; cbv zeta; rewrite Ht, Hd, read_hex_hex by lia; done. }
  unfold repr_char.
  destruct (c =? backslash) eqn:E1; [bool_hyps; subst; by destruct Hq as [-> | ->]|].
  destruct (c =? 10) eqn:E2; [bool_hyps; subst; by destruct Hq as [-> | ->]|].
  destruct (c =? 13) eqn:E3; [bool_hyps; subst; by destruct Hq as [-> | ->]|].
  destruct (c =? 9) eqn:E4; [bool_hyps; subst; by destruct Hq as [-> | ->]|].
  destruct (c =? q) eqn:E5; [bool_hyps; subst; by destruct Hq as [-> | ->]|].
  destruct (unprintable c).
  - destruct (c <? 0x100) eqn:F; [|destruct (c <? 0x10000) eqn:G]; bool_hyps;
      apply Hsized; first [tauto|lia].
  - cbn [app read_literal]. by rewrite E5, E1.
Qed.

(** A page-derived label quoted by [repr] stays inside its quotes: reading the literal
    from its opening quote gives back exactly the label, and whatever prompt text follows the
    closing quote is untouched, whichever characters the label holds. *)
Theorem repr_reads_back t rest :
  Forall scalar t ->
  exists q body, repr t = q :: body /\
    read_literal (S (length t)) q (body ++ rest) = Some (t, rest).
Proof.
  intros Ht. exists (repr_quote t), (concat (map (repr_char (repr_quote t)) t) ++ [repr_quote t]).
  split; [done|].
  assert (Hq : is_quote (repr_quote t)) by (unfold repr_quote, is_quote; destruct (_ && _); auto).
  generalize dependent (repr_quote t). intros q Hq. rewrite <- app_assoc. cbn [app].
  induction Ht as [|c t Hc Ht IH]; cbn [map concat length app].
  - cbn. by rewrite Z.eqb_refl.
  - rewrite <- app_assoc, read_literal_char by done. by rewrite IH.
Qed.

Theorem repr_reads_back_witness :
  exists q body, repr (lit "it's" ++ [10; 0x202e]) = q :: body /\
    read_literal 7 q (body ++ lit " while doing") =
    Some (lit "it's" ++ [10; 0x202e], lit " while doing").
Proof.
  apply (repr_reads_back (lit "it's" ++ [10; 0x202e]) (lit " while doing")).
  repeat constructor; unfold scalar; simpl; lia.
Defined.

(** The printed literal holds no control character, line break or format character. *)
Example repr_its : repr (lit "it's") = dquote :: lit "it's" ++ [dquote].
Proof. by vm_compute. Qed.

Example repr_both : repr (lit "a'b" ++ [dquote] ++ lit "c") =
  squote :: lit "a" ++ [backslash; squote] ++ lit "b" ++ [dquote] ++ lit "c" ++ [squote].
Proof. by vm_compute. Qed.

Example title_snake : title (lit "capture_sha256") = lit "Capture_Sha256".
Proof. by vm_compute. Qed.

Example casefold_sharp_s : casefold (lit "Stra" ++ [0xdf] ++ lit "e") = lit "strasse".
Proof. by vm_compute. Qed.

Example squash_page : squash (lit "  next" ++ [10; 0x1c] ++ lit "page ") = lit "next page".
Proof. by vm_compute. Qed.
