(* ===== verification/Json.v ===== *)
(** JSON text as the Python side writes it: [crates/fastbrowse-core/src/py/json.rs].

    [value] is [serde_json::Value] (its maps keep insertion order); [write] is the writer in
    each of the source's styles, [write_string] its string literals and [dumped_len] the
    length the prompt budgets count without writing.  The digits of a finite float are the
    ones Rust's shortest [{:e}] formatting picks, the interface [FloatFormat]; how they are
    laid out is [float]. *)

From S2P Require Import Prelude Float64 PyText.

(** The shortest decimal digits of a finite non-negative float, and its decimal exponent. *)
Class FloatFormat := { scientific : f64 -> text * Z }.

Inductive Floats := Repr | Pydantic.
#[export] Instance Floats_eq_dec : EqDecision Floats.
Proof. solve_decision. Defined.

Record Style := mkStyle {
  item_separator : text;
  key_separator : text;
  ensure_ascii : bool;
  sort_keys : bool;
  floats : Floats;
  indent : option nat;
}.

Definition DUMPS : Style := mkStyle (lit ", ") (lit ": ") true false Repr None.
Definition HTTPX : Style := mkStyle (lit ",") (lit ":") false false Repr None.
Definition PYDANTIC : Style := mkStyle (lit ",") (lit ":") false false Pydantic None.

Definition sorted (s : Style) : Style :=
  mkStyle (item_separator s) (key_separator s) (ensure_ascii s) true (floats s) (indent s).
Definition unicode (s : Style) : Style :=
  mkStyle (item_separator s) (key_separator s) false (sort_keys s) (floats s) (indent s).
Definition indented (s : Style) (spaces : nat) : Style :=
  mkStyle (lit ",") (lit ": ") (ensure_ascii s) (sort_keys s) (floats s) (Some spaces).

Inductive number := Int (n : Z) | Float (x : f64).

Inductive value :=
| Null
| Bool (b : bool)
| Number (n : number)
| Str (t : text)
| Array (items : list value)
| Object (fields : list (text * value)).

(** [char::encode_utf16]. *)
Definition encode_utf16 (c : Z) : list Z :=
  if c <? 0x10000 then [c]
  else [0xd800 + (c - 0x10000) / 0x400; 0xdc00 + (c - 0x10000) mod 0x400].

Definition unicode_escape (u : Z) : text := backslash :: chr "u" :: hex 4 u.

(** One character inside a JSON string literal. *)
Definition write_char (ascii : bool) (c : Z) : text :=
  if c =? dquote then [backslash; dquote]
  else if c =? backslash then [backslash; backslash]
  else if c =? 10 then backslash :: lit "n"
  else if c =? 13 then backslash :: lit "r"
  else if c =? 9 then backslash :: lit "t"
  else if c =? 8 then backslash :: lit "b"
  else if c =? 12 then backslash :: lit "f"
  else if (c <? 0x20) || (ascii && negb (in_range 32 126 c))
    then concat (map unicode_escape (encode_utf16 c))
  else [c].

Definition write_string (t : text) (ascii : bool) : text :=
  [dquote] ++ concat (map (write_char ascii) t) ++ [dquote].

Definition dumped_len_char (c : Z) : nat :=
  if one_of [dquote; backslash; 10; 13; 9; 8; 12] c then 2
  else if in_range 32 126 c then 1
  else if Nat.eqb (length (encode_utf16 c)) 2 then 12
  else 6.

Definition dumped_len (t : text) : nat := sum_list (map dumped_len_char t).

Definition zeros (n : Z) : text := replicate (Z.to_nat n) (chr "0").

Section Writer.
Context `{FF : FloatFormat}.

(** [float]: the digits laid out as [repr] or pydantic-core spells a float. *)
Definition float (x : f64) (style : Floats) : text :=
  if is_nan x then lit "NaN"
  else if is_infinite x then (if is_sign_negative x then lit "-Infinity" else lit "Infinity")
  else
    let '(digits, exponent) := scientific (f64_abs x) in
    let sign := if is_sign_negative x then lit "-" else [] in
    let positional :=
      match style with
      | Repr => (-4 <=? exponent) && (exponent <? 16)
      | Pydantic => (-5 <=? exponent) && (exponent <? 16)
      end in
    let body :=
      if positional then
        let point := exponent + 1 in
        let count := len digits in
        if point <=? 0 then lit "0." ++ zeros (- point) ++ digits
        else if count <=? point then digits ++ zeros (point - count) ++ lit ".0"
        else take (Z.to_nat point) digits ++ lit "." ++ drop (Z.to_nat point) digits
      else
        let mantissa :=
          if len digits =? 1 then digits else take 1 digits ++ lit "." ++ drop 1 digits in
        let magnitude := Z.abs exponent in
        let exponent_sign := if exponent <? 0 then lit "-" else lit "+" in
        match style with
        | Repr => mantissa ++ lit "e" ++ exponent_sign
                    ++ (if magnitude <? 10 then zeros 1 else []) ++ show_Z magnitude
        | Pydantic => mantissa ++ lit "e" ++ exponent_sign ++ show_Z magnitude
        end in
    sign ++ body.

(** [float_str]: [str(value)] for a float. *)
Definition float_str (x : f64) : text :=
  if is_nan x then lit "nan"
  else if is_infinite x then (if is_sign_negative x then lit "-inf" else lit "inf")
  else float x Repr.

Definition newline (style : Style) (depth : nat) : text :=
  match indent style with
  | None => []
  | Some spaces => 10 :: replicate (spaces * depth) (chr " ")
  end.

(** Insertion sort of an object's entries by key ([sort_by] is stable). *)
Fixpoint text_le (a b : text) : bool :=
  match a, b with
  | [], _ => true
  | _, [] => false
  | c :: a', d :: b' => (c <? d) || ((c =? d) && text_le a' b')
  end.

Fixpoint insert_entry {A} (e : text * A) (es : list (text * A)) : list (text * A) :=
  match es with
  | [] => [e]
  | f :: es' => if text_le e.1 f.1 then e :: es else f :: insert_entry e es'
  end.

Definition sort_entries {A} (es : list (text * A)) : list (text * A) :=
  fold_right insert_entry [] es.

(** The items of an array or an object, already written, between their brackets. *)
Definition write_items (style : Style) (depth : nat) (opening closing : text)
    (items : list text) : text :=
  match items with
  | [] => opening ++ closing
  | _ => opening
           ++ join (item_separator style) (map (app (newline style (S depth))) items)
           ++ newline style depth ++ closing
  end.

Fixpoint write_value (v : value) (style : Style) (depth : nat) : text :=
  match v with
  | Null => lit "null"
  | Bool true => lit "true"
  | Bool false => lit "false"
  | Number (Int n) => show_Z n
  | Number (Float x) => float x (floats style)
  | Str t => write_string t (ensure_ascii style)
  | Array items =>
      write_items style depth (lit "[") (lit "]")
        (map (fun item => write_value item style (S depth)) items)
  | Object fields =>
      let entries :=
        map (fun kv => (kv.1, write_string kv.1 (ensure_ascii style) ++ key_separator style
                                ++ write_value kv.2 style (S depth))) fields in
      write_items style depth (lit "{") (lit "}")
        (map snd (if sort_keys style then sort_entries entries else entries))
  end.

Definition write (v : value) (style : Style) : text := write_value v style 0.
Definition dumps (v : value) : text := write v DUMPS.
Definition dump_json (v : value) : text := write v PYDANTIC.

End Writer.

(** ** The budget length is the written length *)
Lemma unicode_escape_length u : length (unicode_escape u) = 6%nat.
Proof. unfold unicode_escape. cbn [length]. by rewrite hex_length. Qed.

Lemma write_char_length c : length (write_char true c) = dumped_len_char c.
Proof.
  unfold write_char, dumped_len_char, one_of. cbn [existsb].
  repeat (match goal with |- context [if c =? ?k then _ else _] => destruct (c =? k) eqn:? end;
          [rewrite ?orb_true_r; done|]).
  cbn [orb].
  destruct (in_range 32 126 c) eqn:E; cbn [andb negb orb].
  - unfold in_range in E. bool_hyps. by rewrite (proj2 (Z.ltb_ge c 32)) by lia.
  - rewrite orb_true_r. unfold encode_utf16.
    destruct (c <? 0x10000); cbn [map concat length Nat.eqb];
      rewrite ?app_nil_r, ?length_app, !unicode_escape_length; done.
Qed.

(** The length budgets count without writing ([dumped_len]) is the length the writer
    produces for the same text, its two quotes apart, for every text. *)
Theorem dumped_len_written t : (dumped_len t + 2)%nat = length (write_string t true).
Proof.
  unfold dumped_len, write_string. rewrite !length_app. simpl.
  enough (length (concat (map (write_char true) t)) = sum_list (map dumped_len_char t)) by lia.
  induction t as [|c t IH]; simpl; [done|]. by rewrite length_app, write_char_length, IH.
Qed.

(** ** Reading a JSON string back

    The reader of the specification: what a JSON string literal denotes, surrogate pairs
    joined. *)
Definition surrogate (c : Z) : bool := in_range 0xd800 0xdfff c.
Definition rust_char (c : Z) : Prop := scalar c /\ surrogate c = false.

Definition read_unit (s : text) : option (Z * text) :=
  match s with
  | b :: u :: s' =>
      if (b =? backslash) && (u =? chr "u") then Some (PyText.read_hex (take 4 s'), drop 4 s')
      else None
  | _ => None
  end.

Definition read_json_escape (s : text) : option (Z * text) :=
  match s with
  | [] => None
  | c :: s' =>
      if c =? chr "n" then Some (10, s')
      else if c =? chr "r" then Some (13, s')
      else if c =? chr "t" then Some (9, s')
      else if c =? chr "b" then Some (8, s')
      else if c =? chr "f" then Some (12, s')
      else if c =? chr "u" then
        match read_unit (backslash :: s) with
        | Some (hi, rest) =>
            if in_range 0xd800 0xdbff hi then
              match read_unit rest with
              | Some (lo, rest) => Some (0x10000 + (hi - 0xd800) * 0x400 + (lo - 0xdc00), rest)
              | None => None
              end
            else Some (hi, rest)
        | None => None
        end
      else Some (c, s')
  end.

Fixpoint read_json_string (fuel : nat) (s : text) : option (text * text) :=
  match fuel, s with
  | O, _ | _, [] => None
  | S fuel, c :: s' =>
      if c =? dquote then Some ([], s')
      else
        match (if c =? backslash then read_json_escape s' else Some (c, s')) with
        | None => None
        | Some (d, rest) =>
            match read_json_string fuel rest with
            | Some (t, rest) => Some (d :: t, rest)
            | None => None
            end
        end
  end.

Lemma read_unit_escape u rest :
  0 <= u < 0x10000 -> read_unit (unicode_escape u ++ rest) = Some (u, rest).
Proof.
  intros H. unfold unicode_escape. cbn [app read_unit].
  replace ((backslash =? backslash) && (chr "u" =? chr "u")) with true by done.
  rewrite take_app_length', drop_app_length' by (by rewrite hex_length).
  by rewrite read_hex_hex by lia.
Qed.

Lemma read_json_escape_unit u s :
  read_json_escape (chr "u" :: hex 4 u ++ s) =
  match read_unit (unicode_escape u ++ s) with
  | Some (hi, rest) =>
      if in_range 0xd800 0xdbff hi then
        match read_unit rest with
        | Some (lo, rest) => Some (0x10000 + (hi - 0xd800) * 0x400 + (lo - 0xdc00), rest)
        | None => None
        end
      else Some (hi, rest)
  | None => None
  end.
Proof. done. Qed.

Lemma read_escaped_units c rest :
  rust_char c ->
  exists s', concat (map unicode_escape (encode_utf16 c)) ++ rest = backslash :: s' /\
    read_json_escape s' = Some (c, rest).
Proof.
  intros [Hc Hs]. unfold scalar, surrogate, in_range in *. unfold encode_utf16.
  destruct (c <? 0x10000) eqn:E; bool_hyps; cbn [map concat]; rewrite app_nil_r.
  - exists (chr "u" :: hex 4 c ++ rest). split; [done|].
    rewrite read_json_escape_unit, read_unit_escape by lia.
    destruct (in_range 0xd800 0xdbff c) eqn:F; [|done].
    unfold in_range in F. bool_hyps. apply andb_false_iff in Hs as [?|?]; bool_hyps; lia.
  - set (hi := 0xd800 + (c - 0x10000) / 0x400). set (lo := 0xdc00 + (c - 0x10000) mod 0x400).
    assert (0xd800 <= hi <= 0xdbff) by (unfold hi; Z.div_mod_to_equations; lia).
    assert (0xdc00 <= lo <= 0xdfff) by (unfold lo; Z.div_mod_to_equations; lia).
    exists (chr "u" :: hex 4 hi ++ unicode_escape lo ++ rest). split; [by rewrite <- !app_assoc|].
    rewrite read_json_escape_unit, read_unit_escape by lia.
    replace (in_range 0xd800 0xdbff hi) with true
      by (symmetry; unfold in_range; apply andb_true_iff; split; apply Z.leb_le; lia).
    rewrite read_unit_escape by lia. do 2 f_equal. unfold hi, lo. Z.div_mod_to_equations. lia.
Qed.

Lemma read_json_char fuel ascii c rest :
  rust_char c ->
  read_json_string (S fuel) (write_char ascii c ++ rest) =
  match read_json_string fuel rest with Some (t, rest) => Some (c :: t, rest) | None => None end.
Proof.
  intros Hc. unfold write_char.
  destruct (c =? dquote) eqn:E1; [bool_hyps; by subst|].
  destruct (c =? backslash) eqn:E2; [bool_hyps; by subst|].
  destruct (c =? 10) eqn:E3; [bool_hyps; by subst|].
  destruct (c =? 13) eqn:E4; [bool_hyps; by subst|].
  destruct (c =? 9) eqn:E5; [bool_hyps; by subst|].
  destruct (c =? 8) eqn:E6; [bool_hyps; by subst|].
  destruct (c =? 12) eqn:E7; [bool_hyps; by subst|].
  destruct ((c <? 0x20) || _).
  - destruct (read_escaped_units c rest Hc) as (s' & -> & Hr).
    cbn [read_json_string]. by rewrite Hr.
  - cbn [app read_json_string]. by rewrite E1, E2.
Qed.

(** C40: every string literal the writer emits, escaped to ASCII or not, reads back as exactly
    the text written, astral characters included, and stops at its own closing quote: text
    taken from a page cannot end a prompt's JSON string early. *)
Theorem write_string_reads_back ascii t rest :
  Forall rust_char t ->
  exists body, write_string t ascii = dquote :: body /\
    read_json_string (S (length t)) (body ++ rest) = Some (t, rest).
Proof.
  intros Ht. exists (concat (map (write_char ascii) t) ++ [dquote]). split; [done|].
  rewrite <- app_assoc. cbn [app].
  induction Ht as [|c t Hc Ht IH]; cbn [map concat length app]; [done|].
  rewrite <- app_assoc, read_json_char by done. by rewrite IH.
Qed.

Theorem write_string_reads_back_witness :
  exists body, write_string [dquote; 0x1f600; 7; 0xe9] true = dquote :: body /\
    read_json_string 5 (body ++ lit ", 1]") = Some ([dquote; 0x1f600; 7; 0xe9], lit ", 1]").
Proof.
  apply (write_string_reads_back true [dquote; 0x1f600; 7; 0xe9] (lit ", 1]")).
  repeat constructor; unfold scalar, dquote; simpl; lia.
Defined.

(** ** What [{:e}] promises, and a format that keeps it *)
(** The digits are digits, and the exponent is a double's. *)
Class FloatFormatSpec (FF : FloatFormat) := {
  scientific_digits x : is_finite x = true ->
    fst (scientific x) <> [] /\ forallb is_ascii_digit (fst (scientific x)) = true;
  scientific_exponent x : is_finite x = true -> - 2000 <= snd (scientific x) <= 2000;
}.

(** The exact decimal expansion of a double, for the examples. *)
Definition exact_scientific (x : f64) : text * Z :=
  match x with
  | S754_finite _ m e =>
      if (Z.pos m <? 2 ^ 53) && in_range (-1074) 971 e then
        let n := if 0 <=? e then Z.pos m * 2 ^ e else Z.pos m * 5 ^ (- e) in
        let digits := show_nat n in
        (digits, len digits - 1 + Z.min e 0)
      else (lit "0", 0)
  | _ => (lit "0", 0)
  end.
Definition exact_format : FloatFormat := {| scientific := exact_scientific |}.

#[export] Instance exact_format_spec : FloatFormatSpec exact_format.
Proof.
  split; intros [s|s| |s m e] _; unfold exact_format, scientific, exact_scientific; try done.
  - destruct (_ && _) eqn:E; [|done]. cbn [fst]. split; [apply show_nat_nonempty|].
    apply show_nat_spec. case_match; lia.
  - destruct (_ && _) eqn:E; [|done]. unfold in_range in E. bool_hyps. cbn [snd].
    set (n := if 0 <=? e then _ else _).
    assert (Hn : 0 <= n < 10 ^ Z.of_nat 900).
    { assert (H53 : 2 ^ 53 * 2 ^ 971 < 10 ^ Z.of_nat 900) by (vm_compute; done).
      assert (H5 : 2 ^ 53 * 5 ^ 1074 < 10 ^ Z.of_nat 900) by (vm_compute; done).
      unfold n. destruct (0 <=? e) eqn:Ee; bool_hyps.
      - assert (2 ^ e <= 2 ^ 971) by (apply Z.pow_le_mono_r; lia). split; [lia|].
        eapply Z.le_lt_trans; [|exact H53]. apply Z.mul_le_mono_nonneg; lia.
      - assert (5 ^ (- e) <= 5 ^ 1074) by (apply Z.pow_le_mono_r; lia). split; [lia|].
        eapply Z.le_lt_trans; [|exact H5]. apply Z.mul_le_mono_nonneg; lia. }
    pose proof (digits_of_length (S (Z.to_nat (Z.log2 n))) n 900 Hn ltac:(lia)) as Hl.
    fold (show_nat n) in Hl. unfold len. lia.
Qed.
