(* ===== verification/Dump.v ===== *)
(** Models as JSON values: [crates/fastbrowse-core/src/py/dump.rs].

    [Serial] is a value as its [Serialize] impl hands it to a serializer - serde's data model - and
    [to_value] the source's serializer over it, with and without [exclude_none]; [key] is the one
    for the keys of a map.  A model's fields serialized as null are dropped where asked, and a
    dict's entries kept, which [without_none] states as a change of the model instead. *)

From S2P Require Import Prelude Float64 PyText Json.

(** One call of the data model. [SSeq] is a sequence or a tuple, with a variant's name for a tuple variant;
    [SMap] says whether the map opened with its length; [SCustom] is an impl that reports an error of its own. *)
Inductive Serial :=
| SBool (b : bool) | SInt (n : Z) | SFloat (x : f64) | SChar (c : Z) | SStr (t : text) | SBytes
| SNone | SSome (v : Serial) | SUnit | SUnitVariant (variant : text)
| SNewtypeStruct (v : Serial) | SNewtypeVariant (variant : text) (v : Serial)
| SSeq (variant : option text) (items : list Serial)
| SMap (sized : bool) (entries : list (Serial * Serial))
| SStruct (variant : option text) (fields : list (text * Serial))
| SCustom (m : text).

Definition BYTES_ERROR : text := lit "bytes have no JSON form; serialize them as base64 or text".
Definition key_error : text := lit "a JSON object key has to be a string".

Definition is_null (v : value) : bool := match v with Null => true | _ => false end.

Definition wrap (variant : option text) (v : value) : value :=
  match variant with Some name => Object [(name, v)] | None => v end.

(** [KeySerializer]. *)
Fixpoint key (k : Serial) : result text text :=
  match k with
  | SStr t => Ok t
  | SUnitVariant variant => Ok variant
  | SNewtypeStruct v | SSome v => key v
  | SChar c => Ok [c]
  | SInt n => Ok (show_Z n)
  | SCustom m => Err m
  | _ => Err key_error
  end.

Fixpoint push_all (items : list (result value text)) : result (list value) text :=
  match items with
  | [] => Ok []
  | item :: items => let? v := item in let? vs := push_all items in Ok (v :: vs)
  end.

(** The fields of an object in order, each key before its value; [drops] leaves out those that are null. *)
Fixpoint insert_all (drops : bool) (entries : list (result text text * result value text)) (m : list (text * value))
  : result (list (text * value)) text :=
  match entries with
  | [] => Ok m
  | (k, v) :: entries =>
      let? k := k in
      let? v := v in
      insert_all drops entries (if drops && is_null v then m else im_insert k v m)
  end.

(** [Dumper]. *)
Fixpoint to_value (t : Serial) (exclude_none : bool) : result value text :=
  match t with
  | SBool b => Ok (Bool b)
  | SInt n => Ok (Number (Int n))
  | SFloat x => Ok (if is_finite x then Number (Float x) else Null)
  | SChar c => Ok (Str [c])
  | SStr t => Ok (Str t)
  | SBytes => Err BYTES_ERROR
  | SNone | SUnit => Ok Null
  | SSome v | SNewtypeStruct v => to_value v exclude_none
  | SUnitVariant variant => Ok (Str variant)
  | SNewtypeVariant variant v => let? v := to_value v exclude_none in Ok (wrap (Some variant) v)
  | SSeq variant items =>
      let? items := push_all (map (fun v => to_value v exclude_none) items) in Ok (wrap variant (Array items))
  | SMap sized entries =>
      let? m := insert_all (negb sized && exclude_none) (map (fun kv => (key kv.1, to_value kv.2 exclude_none)) entries) [] in
      Ok (Object m)
  | SStruct variant fields =>
      let? m := insert_all exclude_none (map (fun kv => (Ok kv.1, to_value kv.2 exclude_none)) fields) [] in
      Ok (wrap variant (Object m))
  | SCustom m => Err m
  end.

(** [expect]: a model always dumps. *)
Definition dump (t : Serial) : option value := match to_value t false with Ok v => Some v | Err _ => None end.
Definition dump_exclude_none (t : Serial) : option value :=
  match to_value t true with Ok v => Some v | Err _ => None end.
Definition Dump_dump_json `{FloatFormat} (t : Serial) : option text := Json.dump_json <$> dump t.

Definition include (v : value) (names : list text) : value :=
  match v with Object m => Object (base.filter (fun kv => kv.1 ∈ names) m) | _ => v end.
Definition exclude (v : value) (names : list text) : value :=
  match v with Object m => Object (base.filter (fun kv => kv.1 ∉ names) m) | _ => v end.

(** * Properties *)
(** ** What leaving out nulls leaves *)
(** A value written as null. *)
Fixpoint none_like (t : Serial) : bool :=
  match t with
  | SNone | SUnit => true
  | SSome v | SNewtypeStruct v => none_like v
  | SFloat x => negb (is_finite x)
  | _ => false
  end.

(** The model without the fields of its structs, nested ones too, that are written as null. *)
Fixpoint without_none (t : Serial) : Serial :=
  match t with
  | SSome v => SSome (without_none v)
  | SNewtypeStruct v => SNewtypeStruct (without_none v)
  | SNewtypeVariant variant v => SNewtypeVariant variant (without_none v)
  | SSeq variant items => SSeq variant (map without_none items)
  | SMap true entries => SMap true (map (fun kv => (kv.1, without_none kv.2)) entries)
  | SMap false entries =>
      SMap false (concat (map (fun kv => if none_like kv.2 then [] else [(kv.1, without_none kv.2)]) entries))
  | SStruct variant fields =>
      SStruct variant (concat (map (fun kv => if none_like kv.2 then [] else [(kv.1, without_none kv.2)]) fields))
  | _ => t
  end.

Section Induction.
Context (P : Serial -> Prop).
Context (leaf : forall t, match t with
  | SSome _ | SNewtypeStruct _ | SNewtypeVariant _ _ | SSeq _ _ | SMap _ _ | SStruct _ _ => True
  | _ => P t end).
Context (some : forall v, P v -> P (SSome v)).
Context (newtype : forall v, P v -> P (SNewtypeStruct v)).
Context (variant : forall n v, P v -> P (SNewtypeVariant n v)).
Context (seq : forall n items, Forall P items -> P (SSeq n items)).
Context (map : forall sized entries, Forall (fun kv => P kv.2) entries -> P (SMap sized entries)).
Context (struct : forall n fields, Forall (fun kv => P kv.2) fields -> P (SStruct n fields)).

(** Induction on a serialized value, with the items of its lists. *)
Lemma Serial_nested_ind : forall t, P t.
Proof.
  fix go 1. intros t. destruct t.
  all: try (match goal with |- P ?t => exact (leaf t) end).
  - apply some, go.
  - apply newtype, go.
  - apply variant, go.
  - apply seq. revert items. fix gos 1. intros [|v items]; constructor; [apply go|apply gos].
  - apply map. revert entries. fix gos 1. intros [|[k v] entries]; constructor; [apply go|apply gos].
  - apply struct. revert fields. fix gos 1. intros [|[k v] fields]; constructor; [apply go|apply gos].
Qed.
End Induction.

Lemma to_value_null t e v : to_value t e = Ok v -> is_null v = none_like t.
Proof.
  revert v. pattern t. apply Serial_nested_ind; clear t; cbn [to_value none_like].
  - intros []; try done; cbn; intros v [= <-]; try done. by destruct (is_finite x).
  - auto.
  - auto.
  - intros n v _ w. destruct (to_value v e); [|done]. by intros [= <-].
  - intros n items _ w. destruct (push_all _); [|done]. intros [= <-]. by destruct n.
  - intros sized entries _ w. destruct (insert_all _ _ _); [|done]. by intros [= <-].
  - intros n fields _ w. destruct (insert_all _ _ _); [|done]. intros [= <-]. by destruct n.
Qed.

(** Two serializations that go alike: the same error, or each its own value. *)
Definition alike (t : Serial) : Prop :=
  match to_value t false with
  | Ok _ => is_ok (to_value t true) = true /\ to_value t true = to_value (without_none t) false
  | Err m => to_value t true = Err m
  end.

Lemma push_all_alike items : Forall alike items ->
  match push_all (map (fun v => to_value v false) items) with
  | Ok _ => is_ok (push_all (map (fun v => to_value v true) items)) = true /\
            push_all (map (fun v => to_value v true) items)
            = push_all (map (fun v => to_value v false) (map without_none items))
  | Err m => push_all (map (fun v => to_value v true) items) = Err m
  end.
Proof.
  induction 1 as [|v items Hv _ IH]; [done|]. unfold alike in Hv. cbn [map push_all].
  destruct (to_value v false); [|by rewrite Hv].
  destruct Hv as [Hok Hv]. rewrite <- Hv. destruct (to_value v true); [|done].
  destruct (push_all (map (fun v => to_value v false) items)); [|by rewrite IH].
  destruct IH as [Hoks IH]. rewrite <- IH. by destruct (push_all (map (fun v => to_value v true) items)).
Qed.

(** Fields in order, some of them dropped: as many errors, and what is left of the model. *)
Definition kept_fields {K} (fields : list (K * Serial)) : list (K * Serial) :=
  concat (map (fun kv => if none_like kv.2 then [] else [(kv.1, without_none kv.2)]) fields).
Definition entered {K} (key : K -> result text text) (e : bool) (fields : list (K * Serial)) :=
  map (fun kv => (key kv.1, to_value kv.2 e)) fields.

Lemma insert_all_dropping {K} (key : K -> result text text) fields : Forall (fun kv => alike kv.2) fields ->
  forall m m', 
  match insert_all false (entered key false fields) m with
  | Ok _ => is_ok (insert_all true (entered key true fields) m') = true /\
            insert_all true (entered key true fields) m' = insert_all false (entered key false (kept_fields fields)) m'
  | Err err => insert_all true (entered key true fields) m' = Err err
  end.
Proof.
  induction 1 as [|[k v] fields Hv _ IH]; intros m m'; [done|]. unfold alike in Hv. cbn [snd] in Hv.
  unfold entered, kept_fields in *. cbn [map insert_all concat fst snd andb]. destruct (key k) eqn:Ek; [|done].
  destruct (to_value v false) as [x|] eqn:Ef; [|by rewrite Hv].
  destruct Hv as [Hok Hv]. destruct (to_value v true) as [y|] eqn:Et; [|done].
  pose proof (to_value_null v true y Et) as Hn. rewrite Hn. destruct (none_like v); [apply IH|].
  cbn [app map insert_all fst snd andb]. rewrite Ek, <- Hv. apply IH.
Qed.

Lemma insert_all_keeping fields : Forall (fun kv => alike kv.2) fields ->
  forall m m',
  match insert_all false (entered key false fields) m with
  | Ok _ => is_ok (insert_all false (entered key true fields) m') = true /\
            insert_all false (entered key true fields) m'
            = insert_all false (entered key false (map (fun kv => (kv.1, without_none kv.2)) fields)) m'
  | Err err => insert_all false (entered key true fields) m' = Err err
  end.
Proof.
  induction 1 as [|[k v] fields Hv _ IH]; intros m m'; [done|]. unfold alike in Hv. cbn [snd] in Hv.
  unfold entered in *. cbn [map insert_all fst snd andb]. destruct (key k); [|done].
  destruct (to_value v false) as [x|]; [|by rewrite Hv].
  destruct Hv as [Hok Hv]. rewrite <- Hv. destruct (to_value v true) as [y|]; [|done]. apply IH.
Qed.

(** C37: Dumping with [exclude_none] is dumping the model without the fields written as null, those of nested models too:
    it fails where the whole dump fails and with its error, and a dict's entry is kept whatever it holds. *)
Theorem exclude_none_exact t :
  match to_value t false with
  | Ok _ => is_ok (to_value t true) = true /\ to_value t true = to_value (without_none t) false
  | Err m => to_value t true = Err m
  end.
Proof.
  change (alike t). apply Serial_nested_ind; clear t; unfold alike.
  - by intros [].
  - done.
  - done.
  - intros n v IH. cbn [to_value without_none]. destruct (to_value v false); [|by rewrite IH].
    destruct IH as [Hok IH]. rewrite <- IH. by destruct (to_value v true).
  - intros n items H. cbn [to_value without_none]. apply push_all_alike in H. destruct (push_all (map (fun v => to_value v false) items)); [|by rewrite H].
    destruct H as [Hok H]. rewrite <- H. by destruct (push_all (map (fun v => to_value v true) items)).
  - intros sized entries H. destruct sized; cbn [to_value without_none negb andb].
    + pose proof (insert_all_keeping entries H [] []) as Hk. unfold entered in Hk.
      destruct (insert_all false (map _ entries) []); [|by rewrite Hk].
      destruct Hk as [Hok Hk]. rewrite <- Hk. by destruct (insert_all false (map _ entries) []).
    + pose proof (insert_all_dropping key entries H [] []) as Hk. unfold entered, kept_fields in Hk.
      destruct (insert_all false (map _ entries) []); [|by rewrite Hk].
      destruct Hk as [Hok Hk]. rewrite <- Hk. by destruct (insert_all true (map _ entries) []).
  - intros n fields H. cbn [to_value without_none]. pose proof (insert_all_dropping (@Ok text text) fields H [] []) as Hk.
    unfold entered, kept_fields in Hk. destruct (insert_all false (map _ fields) []); [|by rewrite Hk].
    destruct Hk as [Hok Hk]. rewrite <- Hk. by destruct (insert_all true (map _ fields) []).
Qed.

(** ** What a dump says *)
(** A text standing somewhere in another. *)
Definition infix (a t : text) : Prop := exists p q, t = p ++ a ++ q.

Lemma infix_here a : infix a a.
Proof. exists [], []. by rewrite app_nil_r. Qed.
Lemma infix_left a t u : infix a t -> infix a (t ++ u).
Proof. intros (p & q & ->). exists p, (q ++ u). by rewrite <- !app_assoc. Qed.
Lemma infix_right a t u : infix a u -> infix a (t ++ u).
Proof. intros (p & q & ->). exists (t ++ p), q. by rewrite <- !app_assoc. Qed.
Lemma infix_trans a b c : infix a b -> infix b c -> infix a c.
Proof. intros Hab (p & q & ->). by apply infix_right, infix_left. Qed.
Lemma infix_found a t : infix a t <-> exists i, starts_with (drop i t) a = true.
Proof.
  split.
  - intros (p & q & ->). exists (length p). apply starts_with_spec. exists q. by rewrite drop_app_length.
  - intros [i Hi]. apply starts_with_spec in Hi as [q Hq]. exists (take i t), q. by rewrite <- Hq, take_drop.
Qed.
#[export] Hint Resolve infix_here infix_left infix_right : fb.

(** A string of a JSON value, at any depth. *)
Inductive says (t : text) : value -> Prop :=
| says_here : says t (Str t)
| says_item items v : v ∈ items -> says t v -> says t (Array items)
| says_field fields k v : (k, v) ∈ fields -> says t v -> says t (Object fields).

Lemma join_infix sep parts part : part ∈ parts -> infix part (join sep parts).
Proof.
  destruct parts as [|p rest]; [set_solver|]. intros [->|Hin]%elem_of_cons; unfold join; auto with fb.
  apply infix_right. apply list_elem_of_In, in_split in Hin as (l1 & l2 & ->).
  rewrite map_app, concat_app. cbn [map concat]. auto with fb.
Qed.

Lemma write_items_infix style depth opening closing items item : item ∈ items ->
  infix item (write_items style depth opening closing items).
Proof.
  intros Hin. unfold write_items. destruct items as [|i items]; [set_solver|].
  apply infix_right, infix_left. eapply infix_trans; [|apply join_infix, list_elem_of_fmap; by exists item].
  auto with fb.
Qed.

Lemma says_written `{FloatFormat} t v : says t v -> forall depth, infix (write_string t false) (write_value v PYDANTIC depth).
Proof.
  induction 1 as [|items v Hin _ IH|fields k v Hin _ IH]; intros depth; cbn [write_value]; [apply infix_here| |].
  - eapply infix_trans; [apply (IH (S depth))|]. apply write_items_infix, list_elem_of_fmap. by exists v.
  - change (sort_keys PYDANTIC) with false. cbn iota. rewrite map_map.
    eapply infix_trans; [apply (IH (S depth))|]. eapply infix_trans; [|apply write_items_infix, list_elem_of_fmap; by exists (k, v)].
    cbn [fst snd]. auto with fb.
Qed.

(** A string of a model, where no struct above it names a field twice. *)
Inductive speaks (t : text) : Serial -> Prop :=
| speaks_here : speaks t (SStr t)
| speaks_some v : speaks t v -> speaks t (SSome v)
| speaks_item items v : v ∈ items -> speaks t v -> speaks t (SSeq None items)
| speaks_field fields k v : NoDup (map fst fields) -> (k, v) ∈ fields -> speaks t v -> speaks t (SStruct None fields).

Lemma pushed_elem items r vs : push_all items = Ok vs -> r ∈ items -> exists v, r = Ok v /\ v ∈ vs.
Proof.
  revert vs. induction items as [|i items IH]; intros vs; [set_solver|]. cbn [push_all].
  destruct i as [v|]; [|done]. destruct (push_all items) as [vs'|]; [|done]. intros [= <-].
  intros [->|Hin]%elem_of_cons; [exists v; split; [done|set_solver]|].
  destruct (IH vs' eq_refl Hin) as (w & -> & Hw). exists w. split; [done|set_solver].
Qed.

Lemma insert_all_get (entries : list (text * result value text)) : forall m m', NoDup (map fst entries) ->
  insert_all false (map (fun kv => (Ok kv.1, kv.2)) entries) m = Ok m' ->
  (forall k r, (k, r) ∈ entries -> exists v, r = Ok v /\ im_get k m' = Some v) /\
  (forall k, k ∉ map fst entries -> im_get k m' = im_get k m).
Proof.
  induction entries as [|[k r] entries IH]; intros m m' Hn; cbn [map insert_all fst snd andb].
  { intros [= <-]. split; [set_solver|done]. }
  destruct r as [v|]; [|done]. cbn in Hn. apply NoDup_cons in Hn as [Hk Hn]. intros Hi.
  destruct (IH _ _ Hn Hi) as [Hin Hout]. split.
  - intros k' r' [[= -> ->]|He]%elem_of_cons; [|by apply Hin]. exists v. split; [done|].
    rewrite (Hout k Hk). apply im_get_insert_eq.
  - intros k' [Hne Hk']%not_elem_of_cons. rewrite (Hout k' Hk'). by apply im_get_insert_ne.
Qed.

Lemma speaks_says t m : speaks t m -> forall v, to_value m false = Ok v -> says t v.
Proof.
  induction 1 as [|m _ IH|items m Hin _ IH|fields k m Hn Hin _ IH]; intros w; cbn [to_value].
  - intros [= <-]. constructor.
  - apply IH.
  - destruct (push_all _) as [vs|] eqn:Ep; [|done]. intros [= <-].
    destruct (pushed_elem _ (to_value m false) vs Ep) as (v & Hv & Hvs); [apply list_elem_of_fmap; by exists m|].
    by apply (says_item _ _ v); [|apply IH].
  - destruct (insert_all _ _ _) as [fs|] eqn:Ei; [|done]. intros [= <-].
    assert (He : map (fun kv : text * Serial => (@Ok text text kv.1, to_value kv.2 false)) fields
                 = map (fun kv => (Ok kv.1, kv.2)) (map (fun kv => (kv.1, to_value kv.2 false)) fields))
      by (by rewrite map_map).
    rewrite He in Ei. apply insert_all_get in Ei as [Hget _].
    2: { rewrite map_map. by replace (map (fun x : text * Serial => _) fields) with (map fst fields). }
    destruct (Hget k (to_value m false)) as (v & Hv & Hg); [apply list_elem_of_fmap; by exists (k, m)|].
    apply (says_field _ _ k v); [by apply im_get_elem|by apply IH].
Qed.

(** A model whose serialization cannot fail: no bytes, no map, no error of its own. *)
Fixpoint always_dumps (t : Serial) : bool :=
  match t with
  | SBytes | SCustom _ | SMap _ _ => false
  | SSome v | SNewtypeStruct v | SNewtypeVariant _ v => always_dumps v
  | SSeq _ items => forallb always_dumps items
  | SStruct _ fields => forallb (fun kv => always_dumps kv.2) fields
  | _ => true
  end.

Lemma always_dumps_ok t e : always_dumps t = true -> is_ok (to_value t e) = true.
Proof.
  pattern t. apply Serial_nested_ind; clear t; cbn [to_value always_dumps]; auto.
  - by intros [].
  - intros n v IH Hv. specialize (IH Hv). by destruct (to_value v e).
  - intros n items Hall Hi. assert (is_ok (push_all (map (fun v => to_value v e) items)) = true) as Hp.
    { induction Hall as [|v items Hv _ IH]; [done|]. cbn [forallb map push_all] in *. apply andb_prop in Hi as [H1 H2].
      specialize (Hv H1). specialize (IH H2). destruct (to_value v e); [|done]. by destruct (push_all _). }
    by destruct (push_all _).
  - done.
  - intros n fields Hall Hf.
    assert (forall m, is_ok (insert_all e (map (fun kv => (@Ok text text kv.1, to_value kv.2 e)) fields) m) = true) as Hp.
    { induction Hall as [|[k v] fields Hv _ IH]; intros m; [done|]. cbn [forallb map insert_all fst snd] in *.
      apply andb_prop in Hf as [H1 H2]. specialize (Hv H1). destruct (to_value v e); [|done]. by apply IH. }
    specialize (Hp []). by destruct (insert_all _ _ _).
Qed.

(** What a model says, its dump says: each string of it stands there as its JSON literal. *)
Lemma speaks_dumped `{FloatFormat} t m : speaks t m -> always_dumps m = true ->
  exists j, Dump_dump_json m = Some j /\ infix (write_string t false) j.
Proof.
  intros Hs Hm. apply (always_dumps_ok _ false) in Hm. unfold Dump_dump_json, dump.
  destruct (to_value m false) as [v|] eqn:Ev; [|done]. exists (dump_json v). split; [done|].
  apply says_written. by apply (speaks_says _ _ Hs).
Qed.

(** ** The source's own example *)
Example dict_entries_stay :
  let model := SStruct None [(lit "inner", SStruct None [(lit "a", SNone); (lit "b", SInt 1)]);
                             (lit "dict", SMap true [(SStr (lit "x"), SNone)]);
                             (lit "json", SMap true [(SStr (lit "k"), SUnit)]); (lit "gone", SNone)] in
  to_value model true =
    Ok (Object [(lit "inner", Object [(lit "b", Number (Int 1))]); (lit "dict", Object [(lit "x", Null)]);
                (lit "json", Object [(lit "k", Null)])]).
Proof. vm_compute. reflexivity. Qed.
