(* ===== verification/Base64.v ===== *)
(** Base64 as the Python runtime writes and reads it: [crates/fastbrowse-core/src/py/base64.rs].

    [encode] is the standard alphabet with padding.  [decode] is the state machine of
    CPython's [b64decode] without [validate]: characters outside the alphabet are skipped
    and padding ends the input only when nothing of the alphabet follows it. *)

From S2P Require Import Prelude.

Definition ALPHABET : list Z :=
  lit "ABCDEFGHIJKLMNOPQRSTUVWXYZabcdefghijklmnopqrstuvwxyz0123456789+/".

Definition alphabet_at (i : Z) : Z := nth (Z.to_nat i) ALPHABET 0.

(** The four characters of one chunk of [len] bytes, missing bytes read as zero. *)
Definition encode_chunk (len : Z) (b0 b1 b2 : Z) : text :=
  let n := Z.lor (Z.lor (Z.shiftl b0 16) (Z.shiftl b1 8)) b2 in
  map (fun '(index, shift) =>
         if index <=? len then alphabet_at (Z.land (Z.shiftr n shift) 63) else chr "=")
      [(0, 18); (1, 12); (2, 6); (3, 0)].

Fixpoint encode (bytes : list Z) : text :=
  match bytes with
  | [] => []
  | [b0] => encode_chunk 1 b0 0 0
  | [b0; b1] => encode_chunk 2 b0 b1 0
  | b0 :: b1 :: b2 :: rest => encode_chunk 3 b0 b1 b2 ++ encode rest
  end.

Definition sextet (byte : Z) : option Z := Z.of_nat <$> find_char (Z.eqb byte) ALPHABET.

Record decoder := Decoder {
  out : list Z; quad : Z; pads : Z; left : Z; data_chars : Z
}.

Definition start : decoder := Decoder [] 0 0 0 0.

(** One character of the alphabet. *)
Definition push (st : decoder) (value : Z) : decoder :=
  let '(out', left') :=
    if quad st =? 0 then (out st, value)
    else if quad st =? 1
      then (out st ++ [u8 (Z.lor (Z.shiftl (left st) 2) (Z.shiftr value 4))], Z.land value 0x0f)
    else if quad st =? 2
      then (out st ++ [u8 (Z.lor (Z.shiftl (left st) 4) (Z.shiftr value 2))], Z.land value 0x03)
    else (out st ++ [u8 (Z.lor (Z.shiftl (left st) 6) value)], 0) in
  Decoder out' ((quad st + 1) mod 4) 0 left' (data_chars st + 1).

Definition finish (st : decoder) : result (list Z) text :=
  if quad st =? 0 then Ok (out st)
  else if quad st =? 1 then
    Err (lit "Invalid base64-encoded string: number of data characters (" ++ show_Z (data_chars st)
         ++ lit ") cannot be 1 more than a multiple of 4")
  else Err (lit "Incorrect padding").

Definition in_alphabet (byte : Z) : bool :=
  match sextet byte with Some _ => true | None => false end.

Fixpoint decode_from (bytes : list Z) (st : decoder) : result (list Z) text :=
  match bytes with
  | [] => finish st
  | byte :: rest =>
      if byte =? chr "=" then
        let pads' := pads st + 1 in
        if (2 <=? quad st) && (4 <=? quad st + pads') && negb (existsb in_alphabet rest)
        then Ok (out st)
        else decode_from rest (Decoder (out st) (quad st) pads' (left st) (data_chars st))
      else match sextet byte with
           | None => decode_from rest st
           | Some value => decode_from rest (push st value)
           end
  end.

Definition decode (bytes : list Z) : result (list Z) text := decode_from bytes start.

Definition is_byte (b : Z) : Prop := 0 <= b < 256.

(** The characters a decoder reads: the alphabet and the padding sign. *)
Definition significant (byte : Z) : Prop := in_alphabet byte = true \/ byte = chr "=".
#[export] Instance significant_dec byte : Decision (significant byte) := _.

(** ** The alphabet *)
Lemma sextet_alphabet i : 0 <= i < 64 -> sextet (alphabet_at i) = Some i.
Proof.
  intros H.
  pose proof (below_by_enum
    (fun i => match sextet (alphabet_at i) with Some j => j =? i | None => false end)
    64 i ltac:(by vm_compute) H) as E.
  simpl in E. destruct (sextet (alphabet_at i)); [|done]. by apply Z.eqb_eq in E as ->.
Qed.

Lemma alphabet_no_pad i : 0 <= i < 64 -> (alphabet_at i =? chr "=") = false.
Proof.
  intros H. apply negb_true_iff.
  apply (below_by_enum (fun i => negb (alphabet_at i =? chr "=")) 64); [by vm_compute|lia].
Qed.

Lemma decode_alphabet i rest st :
  0 <= i < 64 -> decode_from (alphabet_at i :: rest) st = decode_from rest (push st i).
Proof. intros H. cbn [decode_from]. by rewrite alphabet_no_pad, sextet_alphabet. Qed.

(** ** One chunk

    The four sextets of a chunk, in arithmetic. *)
Lemma chunk_sextets b0 b1 b2 :
  is_byte b0 -> is_byte b1 -> is_byte b2 ->
  let n := Z.lor (Z.lor (Z.shiftl b0 16) (Z.shiftl b1 8)) b2 in
  Z.land (Z.shiftr n 18) 63 = b0 / 4 /\
  Z.land (Z.shiftr n 12) 63 = b0 mod 4 * 16 + b1 / 16 /\
  Z.land (Z.shiftr n 6) 63 = b1 mod 16 * 4 + b2 / 64 /\
  Z.land (Z.shiftr n 0) 63 = b2 mod 64.
Proof.
  intros H0 H1 H2 n. unfold is_byte in *.
  assert (n = b0 * 65536 + b1 * 256 + b2) as ->.
  { unfold n. rewrite (Z.shiftl_mul_pow2 b1), (lor_shiftl_add b0 16 (b1 * 2 ^ 8)) by lia.
    replace (b0 * 2 ^ 16 + b1 * 2 ^ 8) with (Z.shiftl (b0 * 256 + b1) 8)
      by (rewrite Z.shiftl_mul_pow2 by lia; lia).
    rewrite lor_shiftl_add by lia. lia. }
  change 63 with (2 ^ 6 - 1). rewrite !land_mask, !Z.shiftr_div_pow2 by lia.
  change (2 ^ 18) with 262144. change (2 ^ 12) with 4096. change (2 ^ 6) with 64.
  change (2 ^ 0) with 1. Z.div_mod_to_equations. lia.
Qed.

(** What the decoder rebuilds from the four sextets. *)
Lemma unpack_sextets b0 b1 b2 :
  is_byte b0 -> is_byte b1 -> is_byte b2 ->
  u8 (Z.lor (Z.shiftl (b0 / 4) 2) (Z.shiftr (b0 mod 4 * 16 + b1 / 16) 4)) = b0 /\
  u8 (Z.lor (Z.shiftl (Z.land (b0 mod 4 * 16 + b1 / 16) 0x0f) 4)
            (Z.shiftr (b1 mod 16 * 4 + b2 / 64) 2)) = b1 /\
  u8 (Z.lor (Z.shiftl (Z.land (b1 mod 16 * 4 + b2 / 64) 0x03) 6) (b2 mod 64)) = b2.
Proof.
  unfold is_byte, u8. intros H0 H1 H2.
  change 0x0f with (2 ^ 4 - 1). change 0x03 with (2 ^ 2 - 1).
  rewrite !land_mask, !Z.shiftr_div_pow2 by lia.
  rewrite !lor_shiftl_add by (try lia; Z.div_mod_to_equations; lia).
  change (2 ^ 4) with 16. change (2 ^ 2) with 4. change (2 ^ 6) with 64.
  Z.div_mod_to_equations. lia.
Qed.

Lemma sextet_bounds b0 b1 b2 :
  is_byte b0 -> is_byte b1 -> is_byte b2 ->
  0 <= b0 / 4 < 64 /\ 0 <= b0 mod 4 * 16 + b1 / 16 < 64 /\
  0 <= b1 mod 16 * 4 + b2 / 64 < 64 /\ 0 <= b2 mod 64 < 64.
Proof. unfold is_byte. intros. Z.div_mod_to_equations. lia. Qed.

(** [push] at each position of a group of four. *)
Lemma push_at_0 o p l d v : push (Decoder o 0 p l d) v = Decoder o 1 0 v (d + 1).
Proof. done. Qed.

Lemma push_at_1 o p l d v :
  push (Decoder o 1 p l d) v =
  Decoder (o ++ [u8 (Z.lor (Z.shiftl l 2) (Z.shiftr v 4))]) 2 0 (Z.land v 0x0f) (d + 1).
Proof. done. Qed.

Lemma push_at_2 o p l d v :
  push (Decoder o 2 p l d) v =
  Decoder (o ++ [u8 (Z.lor (Z.shiftl l 4) (Z.shiftr v 2))]) 3 0 (Z.land v 0x03) (d + 1).
Proof. done. Qed.

Lemma push_at_3 o p l d v :
  push (Decoder o 3 p l d) v =
  Decoder (o ++ [u8 (Z.lor (Z.shiftl l 6) v)]) 0 0 0 (d + 1).
Proof. done. Qed.

(** Positions 0 to [k] of a chunk of [k] bytes are its sextets, the others padding. *)
Lemma encode_chunk_sextets len b0 b1 b2 :
  is_byte b0 -> is_byte b1 -> is_byte b2 ->
  encode_chunk len b0 b1 b2 =
  [ if 0 <=? len then alphabet_at (b0 / 4) else chr "=";
    if 1 <=? len then alphabet_at (b0 mod 4 * 16 + b1 / 16) else chr "=";
    if 2 <=? len then alphabet_at (b1 mod 16 * 4 + b2 / 64) else chr "=";
    if 3 <=? len then alphabet_at (b2 mod 64) else chr "=" ].
Proof.
  intros H0 H1 H2. destruct (chunk_sextets b0 b1 b2 H0 H1 H2) as (E0 & E1 & E2 & E3).
  unfold encode_chunk. cbn [map]. by rewrite E0, E1, E2, E3.
Qed.

Ltac chunk_steps :=
  repeat first [rewrite decode_alphabet by lia | rewrite push_at_0 | rewrite push_at_1
               | rewrite push_at_2 | rewrite push_at_3].

Lemma decode_chunk_3 b0 b1 b2 rest o p l d :
  is_byte b0 -> is_byte b1 -> is_byte b2 ->
  decode_from (encode_chunk 3 b0 b1 b2 ++ rest) (Decoder o 0 p l d) =
  decode_from rest (Decoder (o ++ [b0; b1; b2]) 0 0 0 (d + 4)).
Proof.
  intros H0 H1 H2. rewrite encode_chunk_sextets by done.
  destruct (unpack_sextets b0 b1 b2 H0 H1 H2) as (U0 & U1 & U2).
  destruct (sextet_bounds b0 b1 b2 H0 H1 H2) as (? & ? & ? & ?).
  cbn [Z.leb Z.compare Pos.compare Pos.compare_cont app].
  chunk_steps. rewrite U0, U1, U2, <- !app_assoc. do 2 f_equal. lia.
Qed.

Lemma decode_chunk_2 b0 b1 o p l d :
  is_byte b0 -> is_byte b1 ->
  decode_from (encode_chunk 2 b0 b1 0) (Decoder o 0 p l d) = Ok (o ++ [b0; b1]).
Proof.
  intros H0 H1. assert (H2 : is_byte 0) by (unfold is_byte; lia).
  rewrite encode_chunk_sextets by done.
  destruct (unpack_sextets b0 b1 0 H0 H1 H2) as (U0 & U1 & _).
  destruct (sextet_bounds b0 b1 0 H0 H1 H2) as (? & ? & ? & ?).
  cbn [Z.leb Z.compare Pos.compare Pos.compare_cont].
  chunk_steps. rewrite U0, U1, <- !app_assoc. done.
Qed.

Lemma decode_chunk_1 b0 o p l d :
  is_byte b0 -> decode_from (encode_chunk 1 b0 0 0) (Decoder o 0 p l d) = Ok (o ++ [b0]).
Proof.
  intros H0. assert (H2 : is_byte 0) by (unfold is_byte; lia).
  rewrite encode_chunk_sextets by done.
  destruct (unpack_sextets b0 0 0 H0 H2 H2) as (U0 & _ & _).
  destruct (sextet_bounds b0 0 0 H0 H2 H2) as (? & ? & ? & ?).
  cbn [Z.leb Z.compare Pos.compare Pos.compare_cont].
  chunk_steps. by rewrite U0.
Qed.

Lemma decode_from_encode bs o p l d :
  Forall is_byte bs -> decode_from (encode bs) (Decoder o 0 p l d) = Ok (o ++ bs).
Proof.
  revert o p l d. induction bs as [bs IH] using list_len_ind. intros o p l d Hbs.
  destruct bs as [|b0 [|b1 [|b2 rest]]]; cbn [encode].
  - cbn. by rewrite app_nil_r.
  - apply Forall_cons in Hbs as [H0 _]. by apply decode_chunk_1.
  - rewrite !Forall_cons in Hbs. destruct Hbs as (H0 & H1 & _). by apply decode_chunk_2.
  - rewrite !Forall_cons in Hbs. destruct Hbs as (H0 & H1 & H2 & Hrest).
    rewrite decode_chunk_3 by done. rewrite IH by (simpl; first [lia|done]).
    by rewrite <- app_assoc.
Qed.

Lemma existsb_in_alphabet_filter bs :
  existsb in_alphabet (filter significant bs) = existsb in_alphabet bs.
Proof.
  induction bs as [|b bs IH]; [done|]. rewrite filter_cons. cbn [existsb].
  case_decide as Hs; cbn [existsb]; [by rewrite IH|]. rewrite IH.
  destruct (in_alphabet b) eqn:E; [|done]. exfalso. apply Hs. by left.
Qed.

(** The decoder reads its input through the significant characters only. *)
Lemma decode_from_filter bs st : decode_from (filter significant bs) st = decode_from bs st.
Proof.
  revert st. induction bs as [|b bs IH]; [done|]. intros st. rewrite filter_cons.
  case_decide as Hs; cbn [decode_from].
  - rewrite existsb_in_alphabet_filter, !IH. destruct (sextet b); [by rewrite IH|done].
  - destruct (b =? chr "=") eqn:E.
    { exfalso. apply Hs. right. by apply Z.eqb_eq. }
    destruct (sextet b) eqn:Es; [|done].
    exfalso. apply Hs. left. unfold in_alphabet. by rewrite Es.
Qed.

(** Decoding undoes encoding for every byte string, and the decoder still reads the same
    bytes when any characters outside the alphabet are mixed into the text (line breaks,
    spaces), the padding lookahead included. *)
Theorem decode_encode bs t :
  Forall is_byte bs -> filter significant t = encode bs -> decode t = Ok bs.
Proof.
  intros Hbs Ht. unfold decode. rewrite <- decode_from_filter, Ht.
  exact (decode_from_encode bs [] 0 0 0 Hbs).
Qed.

Theorem decode_encode_witness :
  Forall is_byte [104; 101; 108; 108; 111] /\
  decode (lit "aGVs bG8=!") = Ok [104; 101; 108; 108; 111].
Proof.
  assert (H : Forall is_byte [104; 101; 108; 108; 111])
    by (repeat constructor; unfold is_byte; lia).
  split; [exact H|]. apply decode_encode; [exact H|vm_compute; reflexivity].
Defined.

Example encode_hello : encode [104; 101; 108; 108; 111] = lit "aGVsbG8=".
Proof. by vm_compute. Qed.

Example decode_incorrect_padding : decode (lit "aGVsbG8=junk!") = Err (lit "Incorrect padding").
Proof. by vm_compute. Qed.

Example decode_late_padding : decode (lit "aGVsbA=x=") = Ok (lit "hell" ++ [12]).
Proof. by vm_compute. Qed.
