(* ===== verification/DateTime.v ===== *)
(** [datetime] as pydantic reads and writes it: [crates/fastbrowse-core/src/py/datetime.rs],
    and the calendar a run shows its model: [Observation::today] and [month_calendar] of
    [crates/fastbrowse-core/src/page.rs].

    The day and time fields hold calendar values, far from the bounds of their types; the
    year is an [i32] and wraps, which a timestamp of twenty digits reaches.  Reading a
    string of digits as a timestamp goes through [str::parse::<f64>], the interface
    [ReadFloat]. *)

From S2P Require Import Prelude Float64 PyText.

Record DateTime := mkDateTime {
  year : Z; month : Z; day : Z; hour : Z; minute : Z; second : Z;
  microsecond : Z;
  offset : option Z;
}.

#[export] Instance DateTime_eq_dec : EqDecision DateTime.
Proof. solve_decision. Defined.

Definition MONTHS : list text :=
  map lit ["January"; "February"; "March"; "April"; "May"; "June"; "July"; "August";
           "September"; "October"; "November"; "December"]%string.
Definition WEEKDAYS : list text :=
  map lit ["Monday"; "Tuesday"; "Wednesday"; "Thursday"; "Friday"; "Saturday"; "Sunday"]%string.

Definition days_from_civil (year month day : Z) : Z :=
  let y := year - (if month <=? 2 then 1 else 0) in
  let era := y / 400 in
  let yoe := y - era * 400 in
  let m := month in
  let doy := (153 * (if 2 <? m then m - 3 else m + 9) + 2) / 5 + day - 1 in
  let doe := yoe * 365 + yoe / 4 - yoe / 100 + doy in
  era * 146097 + doe - 719468.

Definition civil_from_days (days : Z) : Z * Z * Z :=
  let z := days + 719468 in
  let era := z / 146097 in
  let doe := z - era * 146097 in
  let yoe := (doe - doe / 1460 + doe / 36524 - doe / 146096) / 365 in
  let doy := doe - (365 * yoe + yoe / 4 - yoe / 100) in
  let mp := (5 * doy + 2) / 153 in
  let day := doy - (153 * mp + 2) / 5 + 1 in
  let month := if mp <? 10 then mp + 3 else mp - 9 in
  let year := wrap32 (yoe + era * 400 + (if month <=? 2 then 1 else 0)) in
  (year, month, day).

Definition is_leap (year : Z) : bool :=
  ((year mod 4 =? 0) && negb (year mod 100 =? 0)) || (year mod 400 =? 0).

Definition days_in_month (year month : Z) : option Z :=
  if one_of [1; 3; 5; 7; 8; 10; 12] month then Some 31
  else if one_of [4; 6; 9; 11] month then Some 30
  else if (month =? 2) && is_leap year then Some 29
  else if month =? 2 then Some 28
  else None.

Definition new_datetime (year month day hour minute second : Z) : DateTime :=
  mkDateTime year month day hour minute second 0 None.

Definition utc (d : DateTime) : DateTime :=
  mkDateTime (year d) (month d) (day d) (hour d) (minute d) (second d) (microsecond d) (Some 0).

Definition from_timestamp (seconds microsecond : Z) : DateTime :=
  let '(year, month, day) := civil_from_days (seconds / 86400) in
  let of_day := seconds mod 86400 in
  mkDateTime year month day (of_day / 3600) (of_day / 60 mod 60) (of_day mod 60)
    microsecond (Some 0).

(** [timestamp] in whole seconds (the source then adds the microseconds as a float). *)
Definition timestamp_seconds (d : DateTime) : option Z :=
  match offset d with
  | None => None
  | Some offset =>
      let days := days_from_civil (year d) (month d) (day d) in
      let seconds := days * 86400 + hour d * 3600 + minute d * 60 + second d in
      Some (seconds - offset)
  end.

Definition timestamp (d : DateTime) : option f64 :=
  match timestamp_seconds d with
  | None => None
  | Some seconds =>
      Some (f64_add (f64_of_Z seconds) (f64_div (f64_of_Z (microsecond d)) (f64_of_Z 1000000)))
  end.

Definition weekday (d : DateTime) : Z := (days_from_civil (year d) (month d) (day d) + 3) mod 7.
Definition weekday_name (d : DateTime) : text := nth (Z.to_nat (weekday d)) WEEKDAYS [].
Definition month_name (d : DateTime) : text := nth (Z.to_nat (month d - 1)) MONTHS [].

Definition with_date (d : DateTime) (ymd : Z * Z * Z) : DateTime :=
  let '(year, month, day) := ymd in
  mkDateTime year month day (hour d) (minute d) (second d) (microsecond d) (offset d).

Definition add_days (d : DateTime) (days : Z) : DateTime :=
  with_date d (civil_from_days (days_from_civil (year d) (month d) (day d) + days)).

Definition first_of_month (d : DateTime) : DateTime := with_date d (year d, month d, 1).

(** [{:0width$}]: zero padded to [width], after the sign. *)
Definition pad (width : nat) (n : Z) : text :=
  let digits := show_nat (Z.abs n) in
  let sign := if n <? 0 then lit "-" else [] in
  sign ++ replicate (width - length sign - length digits) (chr "0") ++ digits.

Definition date_string (d : DateTime) : text :=
  pad 4 (year d) ++ lit "-" ++ pad 2 (month d) ++ lit "-" ++ pad 2 (day d).

Definition offset_string (offset : Z) : text :=
  let sign := if offset <? 0 then lit "-" else lit "+" in
  let magnitude := Z.abs offset in
  sign ++ pad 2 (magnitude / 3600) ++ lit ":" ++ pad 2 (magnitude / 60 mod 60)
  ++ (if magnitude mod 60 =? 0 then [] else lit ":" ++ pad 2 (magnitude mod 60)).

Definition isoformat (d : DateTime) : text :=
  date_string d ++ lit "T" ++ pad 2 (hour d) ++ lit ":" ++ pad 2 (minute d) ++ lit ":"
  ++ pad 2 (second d)
  ++ (if microsecond d =? 0 then [] else lit "." ++ pad 6 (microsecond d))
  ++ match offset d with
     | None => []
     | Some 0 => lit "Z"
     | Some offset => offset_string offset
     end.

Definition invalid : text := lit "Input should be a valid datetime".

(** [str::parse] of ASCII digits; none when the text is empty. *)
Definition parse_digits (t : text) : option Z :=
  if is_empty t then None else Some (fold_left (fun n c => n * 10 + (c - 48)) t 0).

(** [digits(start..end)]: the number written there, in digits alone. *)
Definition digits_at (t : text) (start stop : nat) : option Z :=
  if (length t <? stop)%nat then None
  else
    let part := take (stop - start) (drop start t) in
    if forallb is_ascii_digit part then parse_digits part else None.

Definition byte_is (t : text) (at_ : nat) (c : Z) : bool :=
  match t !! at_ with Some d => d =? c | None => false end.

(** [floor] read as an integer; an infinity saturates, as [as i64] does. *)
Definition f64_floor (x : f64) : Z :=
  match x with
  | S754_finite s m e => Z.shiftl (if s then - Z.pos m else Z.pos m) e
  | S754_infinity s => if s then i64_min else i64_max
  | _ => 0
  end.

(** [f64::round] of a finite float: half away from zero. *)
Definition f64_round (x : f64) : Z :=
  match x with
  | S754_finite s m e =>
      let n := Z.shiftr (Z.shiftl (Z.pos m) (e + 1) + 1) 1 in
      if s then - n else n
  | _ => 0
  end.

Class ReadFloat := { read_float : text -> option f64 }.

(** pydantic reads a timestamp above 2e10 as milliseconds. *)
Definition from_unix (x : f64) : DateTime :=
  let seconds :=
    if f64_gt (f64_abs x) (f64_of_Z 20000000000) then f64_div x (f64_of_Z 1000) else x in
  let whole := f64_floor seconds in
  let micros := f64_round (f64_mul (f64_sub seconds (f64_of_Z whole)) (f64_of_Z 1000000)) in
  from_timestamp (Z.max i64_min (Z.min i64_max whole)) (Z.min (Z.max 0 micros) 999999).

(** The time of day after the date: hour, minute, second, microsecond and where it ends. *)
Definition parse_time (t : text) : result (Z * Z * Z * Z * nat) text :=
  let? hour := ok_or (digits_at t 11 13) invalid in
  if negb (byte_is t 13 (chr ":")) then Err invalid
  else
    let? minute := ok_or (digits_at t 14 16) invalid in
    if byte_is t 16 (chr ":") then
      let? second := ok_or (digits_at t 17 19) invalid in
      if byte_is t 19 (chr ".") || byte_is t 19 (chr ",") then
        let rest := drop 20 t in
        let count := default (length rest) (find_char (fun c => negb (is_ascii_digit c)) rest) in
        if Nat.eqb count 0 then Err invalid
        else
          let fraction := take (Nat.min count 6) rest in
          let? micros := ok_or (parse_digits fraction) invalid in
          Ok (hour, minute, second, micros * 10 ^ (6 - len fraction), (20 + count)%nat)
      else Ok (hour, minute, second, 0, 19%nat)
    else Ok (hour, minute, 0, 0, 16%nat).

Definition parse_offset (rest : text) : result (option Z) text :=
  match rest with
  | [] => Ok None
  | c :: body =>
      if teqb rest (lit "Z") || teqb rest (lit "z") then Ok (Some 0)
      else
        let? sign := (if c =? chr "+" then Ok 1 else if c =? chr "-" then Ok (-1) else Err invalid) in
        let body := base.filter (fun d => d <> chr ":") body in
        if negb (Nat.eqb (length body) 4) || negb (forallb is_ascii_digit body) then Err invalid
        else
          let? hours := ok_or (parse_digits (take 2 body)) invalid in
          let? minutes := ok_or (parse_digits (drop 2 body)) invalid in
          if (23 <? hours) || (59 <? minutes) then Err invalid
          else Ok (Some (sign * (hours * 3600 + minutes * 60)))
  end.

(** A date and, after it, a time of day and an offset. *)
Definition parse_calendar (t : text) : result DateTime text :=
  let? year := ok_or (digits_at t 0 4) invalid in
  if negb (byte_is t 4 (chr "-")) || negb (byte_is t 7 (chr "-")) then Err invalid
  else
    let? month := ok_or (digits_at t 5 7) invalid in
    let? day := ok_or (digits_at t 8 10) invalid in
    let? days := ok_or (days_in_month year month) invalid in
    if (day =? 0) || (days <? day) then Err invalid
    else if Nat.eqb (length t) 10 then Ok (new_datetime year month day 0 0 0)
    else if negb (existsb (byte_is t 10) (lit "Tt _")) then Err invalid
    else
      let? (hour, minute, second, micros, at_) := parse_time t in
      if (23 <? hour) || (59 <? minute) || (59 <? second) then Err invalid
      else
        let? offset := parse_offset (drop at_ t) in
        Ok (mkDateTime year month day hour minute second micros offset).

Definition parse_str `{ReadFloat} (t : text) : result DateTime text :=
  let unsigned := default t (strip_prefix t (lit "-")) in
  let timestamp :=
    if negb (is_empty unsigned)
       && forallb (fun c => is_ascii_digit c || (c =? chr ".")) unsigned
    then read_float t else None in
  match timestamp with
  | Some number => Ok (from_unix number)
  | None => parse_calendar t
  end.

(** ** The civil calendar *)
Definition valid_date (year month day : Z) : Prop :=
  exists days, days_in_month year month = Some days /\ 1 <= day <= days.

(** The month counted from March, and the day of the year that starts in March. *)
Lemma march_day doy mp :
  0 <= doy <= 365 -> mp = (5 * doy + 2) / 153 ->
  0 <= mp <= 11 /\ 1 <= doy - (153 * mp + 2) / 5 + 1 <= 31.
Proof. intros H ->. Z.div_mod_to_equations. lia. Qed.

Lemma march_year doe yoe :
  0 <= doe < 146097 -> yoe = (doe - doe / 1460 + doe / 36524 - doe / 146096) / 365 ->
  0 <= yoe <= 399 /\ 0 <= doe - (365 * yoe + yoe / 4 - yoe / 100) <= 365 /\
  (doe - (365 * yoe + yoe / 4 - yoe / 100) = 365 ->
     (yoe + 1) mod 4 = 0 /\ ((yoe + 1) mod 100 <> 0 \/ (yoe + 1) mod 400 = 0)).
Proof. intros H ->. Z.div_mod_to_equations. lia. Qed.

Lemma march_year_inv yoe doy :
  0 <= yoe <= 399 -> 0 <= doy <= 365 ->
  (doy = 365 -> (yoe + 1) mod 4 = 0 /\ ((yoe + 1) mod 100 <> 0 \/ (yoe + 1) mod 400 = 0)) ->
  0 <= yoe * 365 + yoe / 4 - yoe / 100 + doy < 146097 /\
  forall doe, doe = yoe * 365 + yoe / 4 - yoe / 100 + doy ->
  (doe - doe / 1460 + doe / 36524 - doe / 146096) / 365 = yoe.
Proof.
  intros H1 H2 H3. split; [|intros doe ->]; Z.div_mod_to_equations; lia.
Qed.

(** The length of the month [mp] months after March (February at its longest). *)
Definition march_month_days (mp : Z) : Z :=
  if one_of [1; 3; 6; 8] mp then 30 else if mp =? 11 then 29 else 31.

Lemma march_month_inv mp day :
  0 <= mp <= 11 -> 1 <= day <= march_month_days mp ->
  (5 * ((153 * mp + 2) / 5 + day - 1) + 2) / 153 = mp /\
  0 <= (153 * mp + 2) / 5 + day - 1 <= 365 /\
  ((153 * mp + 2) / 5 + day - 1 = 365 -> mp = 11 /\ day = 29).
Proof.
  intros Hm Hd.
  assert (mp = 0 \/ mp = 1 \/ mp = 2 \/ mp = 3 \/ mp = 4 \/ mp = 5 \/ mp = 6 \/ mp = 7
          \/ mp = 8 \/ mp = 9 \/ mp = 10 \/ mp = 11) as H by lia.
  repeat destruct H as [-> | H]; try subst mp;
    match type of Hd with context [march_month_days ?k] =>
      let n := eval vm_compute in (march_month_days k) in change (march_month_days k) with n in Hd
    end; Z.div_mod_to_equations; lia.
Qed.

Lemma is_leap_spec y :
  is_leap y = true <-> y mod 4 = 0 /\ (y mod 100 <> 0 \/ y mod 400 = 0).
Proof.
  unfold is_leap. rewrite orb_true_iff, andb_true_iff, negb_true_iff, !Z.eqb_eq, Z.eqb_neq.
  Z.div_mod_to_equations. lia.
Qed.

Ltac eval_in_goal t := let v := eval vm_compute in t in change t with v.
Ltac eval_month :=
  match goal with |- context [if ?a <? ?k then ?x else ?y] =>
    eval_in_goal (if a <? k then x else y) end;
  match goal with |- context [march_month_days ?k] => eval_in_goal (march_month_days k) end.

(** A date of the calendar, counted from March. *)
Lemma valid_date_march y m d :
  valid_date y m d ->
  1 <= m <= 12 /\
  let mp := if 2 <? m then m - 3 else m + 9 in
  0 <= mp <= 11 /\ 1 <= d <= march_month_days mp /\ (mp = 11 -> d = 29 -> is_leap y = true).
Proof.
  unfold valid_date, days_in_month. intros (n & Hn & Hd).
  assert (1 <= m <= 12).
  { unfold one_of in Hn. simpl in Hn. repeat case_match; simplify_eq; bool_hyps; lia. }
  split; [done|].
  assert (m = 1 \/ m = 2 \/ m = 3 \/ m = 4 \/ m = 5 \/ m = 6 \/ m = 7 \/ m = 8
          \/ m = 9 \/ m = 10 \/ m = 11 \/ m = 12) as Hm by lia.
  cbv zeta.
  repeat destruct Hm as [-> | Hm]; try subst m; simpl in Hn; eval_month;
    try destruct (is_leap y); simplify_eq; split_and!; first [lia | by intros; lia | done].
Qed.

Lemma march_month_cases mp :
  0 <= mp <= 11 -> mp = 0 \/ mp = 1 \/ mp = 2 \/ mp = 3 \/ mp = 4 \/ mp = 5 \/ mp = 6
                   \/ mp = 7 \/ mp = 8 \/ mp = 9 \/ mp = 10 \/ mp = 11 \/ False.
Proof. lia. Qed.

(** The day of the month a day of the March year falls on is within its month. *)
Lemma march_day_month doy mp :
  0 <= doy <= 365 -> mp = (5 * doy + 2) / 153 ->
  doy - (153 * mp + 2) / 5 + 1 <= march_month_days mp /\
  (mp = 11 -> doy - (153 * mp + 2) / 5 + 1 = 29 -> doy = 365).
Proof.
  intros Hdoy Hmp. destruct (march_day doy mp Hdoy Hmp) as [Hr _].
  destruct (march_month_cases mp Hr) as [-> | H]; repeat destruct H as [-> | H]; try done;
    match goal with |- context [march_month_days ?k] => eval_in_goal (march_month_days k) end;
    Z.div_mod_to_equations; lia.
Qed.

(** The converse of [valid_date_march]. *)
Lemma march_valid_date y mp d :
  0 <= mp <= 11 -> 1 <= d <= march_month_days mp -> (mp = 11 -> d = 29 -> is_leap y = true) ->
  valid_date y (if mp <? 10 then mp + 3 else mp - 9) d.
Proof.
  intros Hmp Hd Hleap. unfold valid_date, days_in_month.
  destruct (march_month_cases mp Hmp) as [-> | H]; repeat destruct H as [-> | H]; try done;
    match type of Hd with context [march_month_days ?k] =>
      let n := eval vm_compute in (march_month_days k) in change (march_month_days k) with n in Hd
    end; simpl.
  12: { destruct (is_leap y); [eexists; split; [done|lia]|].
        eexists; split; [done|]. enough (d <> 29) by lia. by intros ->; discriminate (Hleap eq_refl eq_refl). }
  all: eexists; split; [done|lia].
Qed.

(** Days in the range of instants the program meets: a million years either way. *)
Definition day_range (n : Z) : Prop := - 364000000 <= n <= 364000000.

Lemma civil_of_days_march era yoe doy mp :
  0 <= yoe <= 399 -> 0 <= doy <= 365 -> mp = (5 * doy + 2) / 153 ->
  (doy = 365 -> (yoe + 1) mod 4 = 0 /\ ((yoe + 1) mod 100 <> 0 \/ (yoe + 1) mod 400 = 0)) ->
  civil_from_days (era * 146097 + (yoe * 365 + yoe / 4 - yoe / 100 + doy) - 719468) =
  let month := if mp <? 10 then mp + 3 else mp - 9 in
  (wrap32 (yoe + era * 400 + (if month <=? 2 then 1 else 0)), month,
   doy - (153 * mp + 2) / 5 + 1).
Proof.
  intros H1 H2 -> H3. destruct (march_year_inv yoe doy H1 H2 H3) as [Hdoe Hyoe].
  specialize (Hyoe _ eq_refl). unfold civil_from_days.
  set (doe := yoe * 365 + yoe / 4 - yoe / 100 + doy) in *.
  replace (era * 146097 + doe - 719468 + 719468) with (doe + era * 146097) by lia.
  rewrite Z.div_add, (Z.div_small doe) by lia. cbv zeta.
  replace (doe + era * 146097 - (0 + era) * 146097) with doe by lia. rewrite Hyoe.
  replace (doe - (365 * yoe + yoe / 4 - yoe / 100)) with doy by (unfold doe; lia).
  done.
Qed.

(** The day count of a date and back. *)
Lemma civil_of_days y m d :
  valid_date y m d -> - 1000000 <= y <= 1000000 ->
  civil_from_days (days_from_civil y m d) = (y, m, d).
Proof.
  intros Hv Hy. destruct (valid_date_march y m d Hv) as (Hm & Hmp & Hd & Hleap).
  unfold days_from_civil.
  set (mp := if 2 <? m then m - 3 else m + 9) in *.
  destruct (march_month_inv mp d Hmp Hd) as (Hdiv & Hdoy & Hlast).
  set (b := if m <=? 2 then 1 else 0).
  assert (Hb : (m <= 2 /\ b = 1 /\ mp = m + 9) \/ (2 < m /\ b = 0 /\ mp = m - 3)).
  { unfold b, mp. destruct (m <=? 2) eqn:E, (2 <? m) eqn:F; bool_hyps; lia. }
  set (doy := (153 * mp + 2) / 5 + d - 1) in *.
  set (era := (y - b) / 400). set (yoe := y - b - era * 400).
  assert (Hyoe : 0 <= yoe <= 399) by (unfold yoe, era; Z.div_mod_to_equations; lia).
  replace (yoe * 365 + yoe / 4 - yoe / 100 + ((153 * mp + 2) / 5 + d - 1))
    with (yoe * 365 + yoe / 4 - yoe / 100 + doy) by done.
  rewrite (civil_of_days_march era yoe doy mp Hyoe Hdoy).
  - cbv zeta.
    replace (if mp <? 10 then mp + 3 else mp - 9) with m
      by (destruct (mp <? 10) eqn:E; bool_hyps; lia).
    fold b. rewrite wrap32_id by (unfold yoe; lia). f_equal; [f_equal|]; unfold yoe, doy; lia.
  - by rewrite <- Hdiv.
  - intros H365. destruct (Hlast H365) as [H11 H29]. specialize (Hleap H11 H29).
    apply is_leap_spec in Hleap. assert (y = yoe + 1 + era * 400) as Ey by (unfold yoe; lia).
    rewrite Ey in Hleap. Z.div_mod_to_equations. lia.
Qed.

(** A day count is a date of the calendar, and counting it again gives it back. *)
Lemma days_of_civil n :
  day_range n ->
  let '(y, m, d) := civil_from_days n in
  valid_date y m d /\ - 1000000 <= y <= 1000000 /\ days_from_civil y m d = n.
Proof.
  unfold day_range. intros Hn.
  set (era := (n + 719468) / 146097).
  assert (Hera : - 2499 <= era <= 2499) by (unfold era; Z.div_mod_to_equations; lia).
  set (doe := n + 719468 - era * 146097).
  assert (Hdoe : 0 <= doe < 146097) by (unfold doe, era; Z.div_mod_to_equations; lia).
  set (yoe := (doe - doe / 1460 + doe / 36524 - doe / 146096) / 365).
  destruct (march_year doe yoe Hdoe eq_refl) as (Hyoe & Hdoy & Hlast).
  set (doy := doe - (365 * yoe + yoe / 4 - yoe / 100)) in *.
  set (mp := (5 * doy + 2) / 153).
  destruct (march_day doy mp Hdoy eq_refl) as (Hmp & Hd).
  replace n with (era * 146097 + (yoe * 365 + yoe / 4 - yoe / 100 + doy) - 719468)
    by (unfold doy, doe; lia).
  rewrite (civil_of_days_march era yoe doy mp Hyoe Hdoy eq_refl Hlast). cbv zeta.
  set (m := if mp <? 10 then mp + 3 else mp - 9). set (d := doy - (153 * mp + 2) / 5 + 1) in *.
  set (b := if m <=? 2 then 1 else 0).
  assert (Hb : (m <= 2 /\ b = 1 /\ mp = m + 9) \/ (2 < m <= 12 /\ b = 0 /\ mp = m - 3)).
  { unfold b, m. destruct (mp <? 10) eqn:E, (_ <=? 2) eqn:F; bool_hyps; lia. }
  destruct (march_day_month doy mp Hdoy eq_refl) as [Hdm H29].
  rewrite wrap32_id by lia. set (y := yoe + era * 400 + b). split_and!; [|lia..|].
  - apply march_valid_date; [done|lia|]. intros E11 E29. apply is_leap_spec.
    specialize (Hlast (H29 E11 E29)). assert (b = 1) by lia.
    unfold y. Z.div_mod_to_equations. lia.
  - unfold days_from_civil. fold b.
    replace (if 2 <? m then m - 3 else m + 9) with mp
      by (destruct (2 <? m) eqn:F; bool_hyps; lia).
    replace (y - b) with (yoe + era * 400) by (unfold y; lia).
    rewrite Z.div_add, (Z.div_small yoe) by lia.
    replace (yoe + era * 400 - (0 + era) * 400) with yoe by lia. unfold d. lia.
Qed.

(** The number of a weekday, and moving a date by whole days. *)
Lemma add_days_count d n :
  day_range (days_from_civil (year d) (month d) (day d) + n) ->
  let d' := add_days d n in
  valid_date (year d') (month d') (day d') /\
  days_from_civil (year d') (month d') (day d') = days_from_civil (year d) (month d) (day d) + n.
Proof.
  intros H. pose proof (days_of_civil _ H) as Hc. unfold add_days.
  destruct (civil_from_days _) as [[y m] k]. simpl. tauto.
Qed.

(** The civil calendar is exact.  Every valid date within a million years survives the
    round trip through its day count; moving a date by whole days gives a valid date, moves
    its weekday by as many, composes, and is undone by moving back; the time of day stays. *)
Theorem calendar_exact d a b :
  valid_date (year d) (month d) (day d) -> - 900000 <= year d <= 900000 ->
  - 1000000 <= a <= 1000000 -> - 1000000 <= b <= 1000000 ->
  civil_from_days (days_from_civil (year d) (month d) (day d)) = (year d, month d, day d) /\
  valid_date (year (add_days d a)) (month (add_days d a)) (day (add_days d a)) /\
  weekday (add_days d a) = (weekday d + a) mod 7 /\
  add_days (add_days d a) b = add_days d (a + b) /\
  add_days (add_days d a) (- a) = d.
Proof.
  intros Hv Hy Ha Hb. pose proof (civil_of_days _ _ _ Hv ltac:(lia)) as Hrt.
  assert (Hbound : - 363000000 + 4000000 <= days_from_civil (year d) (month d) (day d) <= 363000000 - 4000000).
  { destruct (valid_date_march _ _ _ Hv) as (Hm & Hmp & Hd & _).
    destruct (march_month_inv _ _ Hmp Hd) as (_ & Hdoy & _).
    unfold days_from_civil. set (doy := _ / 5 + _ - 1) in *. clearbody doy.
    destruct (month d <=? 2); Z.div_mod_to_equations; lia. }
  assert (Hcount : forall n, - 3000000 <= n <= 3000000 ->
    day_range (days_from_civil (year d) (month d) (day d) + n)) by (unfold day_range; lia).
  destruct (add_days_count d a (Hcount a ltac:(lia))) as [Hva Hda].
  assert (Hcomp : forall n, add_days (add_days d a) n = add_days d (a + n)).
  { intros n. unfold add_days at 1. rewrite Hda.
    replace (days_from_civil (year d) (month d) (day d) + a + n)
      with (days_from_civil (year d) (month d) (day d) + (a + n)) by lia.
    unfold add_days. by destruct (civil_from_days _) as [[? ?] ?], (civil_from_days (_ + a)) as [[? ?] ?]. }
  split_and!; [done|done| |by apply Hcomp|].
  - unfold weekday. rewrite Hda. rewrite Zplus_mod_idemp_l. f_equal. lia.
  - rewrite Hcomp. replace (a + - a) with 0 by lia. unfold add_days.
    rewrite Z.add_0_r, Hrt. by destruct d.
Qed.

Theorem calendar_exact_witness :
  let d := new_datetime 2026 9 27 0 0 0 in
  date_string (add_days d 32) = lit "2026-10-29" /\
  weekday (add_days d 32) = (weekday d + 32) mod 7.
Proof.
  split; [vm_compute; reflexivity|].
  apply (calendar_exact (new_datetime 2026 9 27 0 0 0) 32 0); simpl; try lia.
  exists 30. split; [reflexivity|lia].
Defined.

(** ** The written form reads back *)
(** A padded number is [w] digits that read as it. *)
Lemma pad_spec w n :
  (1 <= w)%nat -> 0 <= n < 10 ^ Z.of_nat w ->
  length (pad w n) = w /\ forallb is_ascii_digit (pad w n) = true /\ digits_value (pad w n) = n.
Proof.
  intros Hw H. unfold pad. rewrite (proj2 (Z.ltb_ge n 0)), Z.abs_eq by lia. cbn [app length].
  destruct (show_nat_spec n ltac:(lia)) as [Hv Hd].
  pose proof (digits_of_length (S (Z.to_nat (Z.log2 n))) n w H Hw) as Hl.
  fold (show_nat n) in Hl. split_and!.
  - rewrite length_app, length_replicate. lia.
  - rewrite forallb_app, Hd, andb_true_r. apply forallb_forall. intros c Hc.
    apply list_elem_of_In, elem_of_replicate in Hc as [-> _]. done.
  - by rewrite digits_value_zeros.
Qed.

Lemma pad_2 n :
  0 <= n < 100 -> exists a b, pad 2 n = [a; b] /\ is_ascii_digit a = true /\
    is_ascii_digit b = true /\ parse_digits [a; b] = Some n.
Proof.
  intros H. destruct (pad_spec 2 n) as (Hl & Hd & Hv); [lia|simpl; lia|].
  destruct (pad 2 n) as [|a [|b [|]]]; try done. exists a, b. simpl in Hd. bool_hyps.
  split_and!; try done. unfold parse_digits. simpl. by rewrite <- Hv.
Qed.

Lemma pad_4 n :
  0 <= n < 10000 -> exists a b c d, pad 4 n = [a; b; c; d] /\
    forallb is_ascii_digit [a; b; c; d] = true /\ parse_digits [a; b; c; d] = Some n.
Proof.
  intros H. destruct (pad_spec 4 n) as (Hl & Hd & Hv); [lia|simpl; lia|].
  destruct (pad 4 n) as [|a [|b [|c [|d [|]]]]]; try done. exists a, b, c, d.
  split_and!; try done. unfold parse_digits. simpl. by rewrite <- Hv.
Qed.

(** A datetime whose fields are in range and whose offset is whole minutes below a day. *)
Definition well_formed (d : DateTime) : Prop :=
  valid_date (year d) (month d) (day d) /\ 0 <= year d <= 9999 /\
  0 <= hour d <= 23 /\ 0 <= minute d <= 59 /\ 0 <= second d <= 59 /\
  0 <= microsecond d <= 999999 /\
  match offset d with None => True | Some o => o mod 60 = 0 /\ - 86400 < o < 86400 end.

Lemma digit_not_colon c : is_ascii_digit c = true -> c <> chr ":".
Proof. intros H ->. done. Qed.

Definition zone (o : option Z) : text :=
  match o with None => [] | Some 0 => lit "Z" | Some o => offset_string o end.

Lemma parse_offset_zone o :
  match o with None => True | Some o => o mod 60 = 0 /\ - 86400 < o < 86400 end ->
  parse_offset (zone o) = Ok o.
Proof.
  destruct o as [o|]; [|done]. intros [Hmod Hr].
  destruct (decide (o = 0)) as [->|Hne]; [done|].
  replace (zone (Some o)) with (offset_string o) by (destruct o; done).
  unfold offset_string.
  replace (Z.abs o mod 60 =? 0) with true
    by (symmetry; apply Z.eqb_eq; destruct (Z.abs_spec o) as [[_ ->]|[_ ->]];
        Z.div_mod_to_equations; lia).
  assert (Hh : 0 <= Z.abs o / 3600 < 24) by (Z.div_mod_to_equations; lia).
  assert (Hm : 0 <= Z.abs o / 60 mod 60 < 60) by (Z.div_mod_to_equations; lia).
  destruct (pad_2 (Z.abs o / 3600)) as (a & b & -> & Ha & Hb & Hab); [lia|].
  destruct (pad_2 (Z.abs o / 60 mod 60)) as (c & d & -> & Hc & Hd & Hcd); [lia|].
  set (sign := if o <? 0 then lit "-" else lit "+").
  assert (Hsign : exists s, sign = [s] /\ ((s = chr "-" /\ o < 0) \/ (s = chr "+" /\ 0 < o)))
    by (unfold sign; destruct (o <? 0) eqn:E; bool_hyps; eexists; (split; [done|]); [left|right]; split; done || lia).
  destruct Hsign as (s & -> & Hs).
  cbn [app parse_offset lit].
  replace (teqb _ (lit "Z")) with false by (symmetry; apply bool_decide_eq_false; done).
  replace (teqb _ (lit "z")) with false by (symmetry; apply bool_decide_eq_false; done).
  cbn [orb]. cbv zeta.
  rewrite !filter_cons_True by (by apply digit_not_colon).
  rewrite filter_cons_False by (intros Hc'; by apply Hc').
  rewrite !filter_cons_True by (by apply digit_not_colon). rewrite filter_nil.
  cbn [length Nat.eqb negb forallb take drop orb]. rewrite Ha, Hb, Hc, Hd, Hab, Hcd. cbn [ok_or andb negb].
  replace ((23 <? Z.abs o / 3600) || (59 <? Z.abs o / 60 mod 60)) with false
    by (symmetry; apply orb_false_iff; split; apply Z.ltb_ge; lia).
  destruct Hs as [[-> Ho]|[-> Ho]]; simpl; do 2 f_equal; Z.div_mod_to_equations; lia.
Qed.

Lemma zone_head o :
  match zone o with [] => True | c :: _ => is_ascii_digit c = false /\ c <> chr "." /\ c <> chr "," end.
Proof.
  destruct o as [o|]; [|done]. destruct (decide (o = 0)) as [->|]; [done|].
  replace (zone (Some o)) with (offset_string o) by (destruct o; done).
  unfold offset_string. by destruct (o <? 0).
Qed.

Lemma find_non_digit t rest :
  forallb is_ascii_digit t = true ->
  match rest with [] => True | c :: _ => is_ascii_digit c = false end ->
  default (length (t ++ rest)) (find_char (fun c => negb (is_ascii_digit c)) (t ++ rest)) = length t.
Proof.
  induction t as [|c t IH]; simpl; intros Ht Hr.
  - destruct rest as [|c rest]; simpl; [done|]. by rewrite Hr.
  - apply andb_true_iff in Ht as [Hc Ht]. rewrite Hc. simpl. specialize (IH Ht Hr).
    destruct (find_char _ _); simpl in *; lia.
Qed.

(** Digits written after [pre] are read there. *)
Lemma digits_at_run pre ds post :
  forallb is_ascii_digit ds = true ->
  digits_at (pre ++ ds ++ post) (length pre) (length pre + length ds) = parse_digits ds.
Proof.
  intros Hd. unfold digits_at. autorewrite with fb_len.
  replace (_ <? _)%nat with false by (symmetry; apply Nat.ltb_ge; lia).
  replace (length pre + length ds - length pre)%nat with (length ds) by lia.
  by rewrite drop_app_length, take_app_length, Hd.
Qed.

Lemma digits_at_pair pre a b post :
  is_ascii_digit a = true -> is_ascii_digit b = true ->
  digits_at (pre ++ a :: b :: post) (length pre) (length pre + 2) = parse_digits [a; b].
Proof. intros Ha Hb. apply (digits_at_run pre [a; b]). simpl. by rewrite Ha, Hb. Qed.

(** The time of day of an explicit prefix, with the fraction and the offset after it. *)
Lemma parse_time_written p1 p2 p3 p4 p5 p6 p7 p8 p9 p10 p11 h1 h2 i1 i2 s1 s2 h i s us o :
  forallb is_ascii_digit [h1; h2; i1; i2; s1; s2] = true ->
  parse_digits [h1; h2] = Some h -> parse_digits [i1; i2] = Some i ->
  parse_digits [s1; s2] = Some s -> 0 <= us <= 999999 ->
  let fraction := if us =? 0 then [] else lit "." ++ pad 6 us in
  let t := [p1; p2; p3; p4; p5; p6; p7; p8; p9; p10; p11; h1; h2; chr ":"; i1; i2; chr ":"; s1; s2]
           ++ fraction ++ zone o in
  exists at_, parse_time t = Ok (h, i, s, us, at_) /\ drop at_ t = zone o.
Proof.
  intros Hd Hh Hi Hs Hus fraction t. cbn [forallb] in Hd. bool_hyps.
  pose proof (digits_at_pair [p1; p2; p3; p4; p5; p6; p7; p8; p9; p10; p11] h1 h2) as E1.
  pose proof (digits_at_pair [p1; p2; p3; p4; p5; p6; p7; p8; p9; p10; p11; h1; h2; chr ":"] i1 i2) as E2.
  pose proof (digits_at_pair [p1; p2; p3; p4; p5; p6; p7; p8; p9; p10; p11; h1; h2; chr ":"; i1; i2; chr ":"]
                s1 s2 (fraction ++ zone o)) as E3.
  cbn [length app Nat.add] in E1, E2, E3.
  unfold parse_time, t. cbn [app]. rewrite E1, E2, E3 by done. rewrite Hh, Hi, Hs. cbn [ok_or].
  unfold byte_is. simpl (_ !! 13%nat). simpl (_ !! 16%nat).
  cbv iota. rewrite !Z.eqb_refl. cbn [negb].
  pose proof (zone_head o) as Hz. unfold fraction. destruct (us =? 0) eqn:E; bool_hyps; cbn [app].
  - exists 19%nat. split; [|done].
    destruct (zone o) as [|c z]; [simpl; by subst|]. destruct Hz as (_ & Hp & Hq).
    simpl (_ !! 19%nat). apply Z.eqb_neq in Hp, Hq. cbv iota. rewrite Hp, Hq. simpl. by subst.
  - destruct (pad_spec 6 us) as (Hl & Hdig & Hv); [lia|simpl; lia|].
    exists 26%nat. simpl (_ !! 19%nat). cbn [drop].
    change ((lit "." ++ pad 6 us) ++ zone o) with (chr "." :: pad 6 us ++ zone o).
    rewrite skipn_cons, drop_0, Z.eqb_refl. cbn [orb].
    rewrite find_non_digit; [|done|destruct (zone o); tauto]. rewrite Hl.
    cbn [Nat.eqb Nat.min Nat.add]. rewrite take_app_length' by done.
    unfold parse_digits. fold (digits_value (pad 6 us)). rewrite Hv.
    replace (is_empty (pad 6 us)) with false by (by destruct (pad 6 us)).
    cbn [ok_or]. unfold len. rewrite Hl. split; [|rewrite skipn_cons; by apply drop_app_length'].
    simpl. do 2 f_equal. f_equal. f_equal. lia.
Qed.

(** The text form is lossless: every well-formed datetime, with or without microseconds
    and offset, reads back from its [isoformat] as itself. *)
Theorem isoformat_reads_back d : well_formed d -> parse_calendar (isoformat d) = Ok d.
Proof.
  intros (Hv & Hy & Hh & Hi & Hs & Hus & Ho).
  destruct (valid_date_march _ _ _ Hv) as (Hm & _ & _ & _). destruct Hv as (n & Hn & Hd).
  assert (Hn31 : n <= 31) by (unfold days_in_month in Hn; repeat case_match; simplify_eq; lia).
  destruct (pad_4 (year d)) as (y1 & y2 & y3 & y4 & Ey & Dy & Vy); [lia|].
  destruct (pad_2 (month d)) as (m1 & m2 & Em & Dm1 & Dm2 & Vm); [lia|].
  destruct (pad_2 (day d)) as (d1 & d2 & Ed & Dd1 & Dd2 & Vd); [lia|].
  destruct (pad_2 (hour d)) as (h1 & h2 & Eh & Dh1 & Dh2 & Vh); [lia|].
  destruct (pad_2 (minute d)) as (i1 & i2 & Ei & Di1 & Di2 & Vi); [lia|].
  destruct (pad_2 (second d)) as (s1 & s2 & Es & Ds1 & Ds2 & Vs); [lia|].
  pose proof (parse_time_written y1 y2 y3 y4 (chr "-") m1 m2 (chr "-") d1 d2 (chr "T") h1 h2 i1 i2 s1 s2
                (hour d) (minute d) (second d) (microsecond d) (offset d)) as Htime.
  destruct Htime as (at_ & Ht & Hdrop);
    [simpl; by rewrite Dh1, Dh2, Di1, Di2, Ds1, Ds2|done..|lia|].
  unfold isoformat, date_string. rewrite Ey, Em, Ed, Eh, Ei, Es.
  fold (zone (offset d)).
  set (tail := (if microsecond d =? 0 then [] else _) ++ zone (offset d)) in *.
  pose proof (digits_at_run [] [y1; y2; y3; y4]) as E1.
  pose proof (digits_at_pair [y1; y2; y3; y4; chr "-"] m1 m2) as E2.
  pose proof (digits_at_pair [y1; y2; y3; y4; chr "-"; m1; m2; chr "-"] d1 d2) as E3.
  cbn [length app Nat.add] in E1, E2, E3.
  change (lit "-") with [chr "-"]. change (lit "T") with [chr "T"]. change (lit ":") with [chr ":"].
  cbn [app] in *. unfold parse_calendar. rewrite E1, E2, E3, Vy, Vm, Vd by done. cbn [ok_or].
  unfold byte_is at 1 2. simpl (_ !! 4%nat). simpl (_ !! 7%nat). cbv iota.
  rewrite !Z.eqb_refl. cbn [negb orb]. rewrite Hn. cbn [ok_or].
  replace ((day d =? 0) || (n <? day d)) with false
    by (symmetry; apply orb_false_iff; split; [apply Z.eqb_neq|apply Z.ltb_ge]; lia).
  cbn [length Nat.eqb].
  replace (existsb _ (lit "Tt _")) with true by done. cbn [negb].
  rewrite Ht.
  replace ((23 <? hour d) || (59 <? minute d) || (59 <? second d)) with false
    by (symmetry; rewrite !orb_false_iff, !Z.ltb_ge; lia).
  rewrite Hdrop, parse_offset_zone by done. by destruct d.
Qed.

Theorem isoformat_reads_back_witness :
  let d := mkDateTime 2026 1 2 3 4 5 123000 (Some 19800) in
  isoformat d = lit "2026-01-02T03:04:05.123000+05:30" /\ parse_calendar (isoformat d) = Ok d.
Proof.
  split; [vm_compute; reflexivity|]. apply isoformat_reads_back.
  unfold well_formed. simpl. split_and!; try lia; try reflexivity. exists 31. split; [reflexivity|lia].
Defined.
