(* ===== verification/Models.v ===== *)
(** What a caller passes in and what a run returns: [crates/fastbrowse-core/src/models.rs].

    The enums with the spelling each serializes to, the receipts of a run ([CostLine],
    [CostBreakdown]) and its [Limits].  A [str_enum!] is the Inductive of its variants and
    [as_str]; where two enums share a variant name the constructors carry the enum's name. *)

From S2P Require Import Prelude Float64.

Inductive Status :=
| Complete | Unverified | NeedsConfirmation | NeedsLogin | Blocked | NeedsInput | Stuck
| StatusBudgetExceeded | ObservationLimit | Unavailable | Cancelled | StatusError.
#[export] Instance Status_eq_dec : EqDecision Status.
Proof. solve_decision. Defined.

Definition Status_as_str (s : Status) : text :=
  match s with
  | Complete => lit "complete" | Unverified => lit "unverified"
  | NeedsConfirmation => lit "needs_confirmation" | NeedsLogin => lit "needs_login"
  | Blocked => lit "blocked" | NeedsInput => lit "needs_input" | Stuck => lit "stuck"
  | StatusBudgetExceeded => lit "budget_exceeded" | ObservationLimit => lit "observation_limit"
  | Unavailable => lit "unavailable" | Cancelled => lit "cancelled" | StatusError => lit "error"
  end.

Inductive Operation :=
| Click | Hover | Drag | Fill | Blur | Select | Enter | Escape | Scroll | ScrollUp | Back
| SwitchTab | Upload | Dialog | Wait | Read | Done | Navigate.
#[export] Instance Operation_eq_dec : EqDecision Operation.
Proof. solve_decision. Defined.

Definition Operation_as_str (o : Operation) : text :=
  match o with
  | Click => lit "click" | Hover => lit "hover" | Drag => lit "drag" | Fill => lit "fill"
  | Blur => lit "blur" | Select => lit "select" | Enter => lit "enter" | Escape => lit "escape"
  | Scroll => lit "scroll" | ScrollUp => lit "scroll_up" | Back => lit "back"
  | SwitchTab => lit "switch_tab" | Upload => lit "upload" | Dialog => lit "dialog"
  | Wait => lit "wait" | Read => lit "read" | Done => lit "done" | Navigate => lit "navigate"
  end.

Definition SCROLLING : list Operation := [Scroll; ScrollUp].
Definition TARGETED : list Operation := [Click; Hover; Drag; Fill; Blur; Select; Enter; Upload].
Definition is_targeted (o : Operation) : bool := bool_decide (o ∈ TARGETED).

Inductive StepOutcome := Executed | Covered | Stale | Failed.
#[export] Instance StepOutcome_eq_dec : EqDecision StepOutcome.
Proof. solve_decision. Defined.

Inductive FactReader := JevChoice | LlmImage.
#[export] Instance FactReader_eq_dec : EqDecision FactReader.
Proof. solve_decision. Defined.

Inductive CostComponent := Jev | Llm | Browser | Proxy.
#[export] Instance CostComponent_eq_dec : EqDecision CostComponent.
Proof. solve_decision. Defined.

Definition CostComponent_as_str (c : CostComponent) : text :=
  match c with
  | Jev => lit "jev" | Llm => lit "llm" | Browser => lit "browser" | Proxy => lit "proxy"
  end.

Inductive CostBasis := Metered | Estimated | Bounded | Unsettled | Unknown.
#[export] Instance CostBasis_eq_dec : EqDecision CostBasis.
Proof. solve_decision. Defined.

Inductive LLMPurpose := Start | Compose | ImageRead | LLMFill.
Definition LLMPurpose_as_str (p : LLMPurpose) : text :=
  match p with
  | Start => lit "start" | Compose => lit "compose" | ImageRead => lit "image_read"
  | LLMFill => lit "fill"
  end.

Inductive JevPurpose := JevAction | Authorization | Relevance | JevRead | Verify | Locate.
Definition JevPurpose_as_str (p : JevPurpose) : text :=
  match p with
  | JevAction => lit "action" | Authorization => lit "authorization"
  | Relevance => lit "relevance" | JevRead => lit "read" | Verify => lit "verify"
  | Locate => lit "locate"
  end.

Record CostLine := mkCostLine {
  component : CostComponent;
  basis : CostBasis;
  line_dollars : option f64;
  purpose : option LLMPurpose;
  decision_purpose : option JevPurpose;
  input_tokens : Z;
  output_tokens : Z;
  seconds : option f64;
  physical_requests : option Z;
}.

Definition new_cost_line (c : CostComponent) (b : CostBasis) (d : option f64) : CostLine :=
  mkCostLine c b d None None 0 0 None None.

Definition label (l : CostLine) : text :=
  match decision_purpose l with
  | Some p =>
      if decide (component l = Jev)
      then CostComponent_as_str (component l) ++ lit ":" ++ JevPurpose_as_str p
      else match purpose l with
           | None => CostComponent_as_str (component l)
           | Some p => CostComponent_as_str (component l) ++ lit ":" ++ LLMPurpose_as_str p
           end
  | None =>
      match purpose l with
      | None => CostComponent_as_str (component l)
      | Some p => CostComponent_as_str (component l) ++ lit ":" ++ LLMPurpose_as_str p
      end
  end.

(** The weakest claim among the lines, [Metered] for none. *)
Definition combined_basis (lines : list CostLine) : CostBasis :=
  let bases := map basis lines in
  default Metered
    (find (fun b => bool_decide (b ∈ bases)) [Unknown; Unsettled; Estimated; Bounded; Metered]).

(** A [CostBreakdown] is its lines. *)
Definition CostBreakdown := list CostLine.

Definition known_dollars (lines : CostBreakdown) : f64 := py_sum (omap line_dollars lines).
Definition is_unknown (l : CostLine) : bool :=
  match basis l with Unknown | Unsettled => true | _ => false end.
Definition has_unknown (lines : CostBreakdown) : bool := existsb is_unknown lines.

Inductive BudgetResource := Steps | Dollars | Seconds | JevCalls | LlmCalls.
#[export] Instance BudgetResource_eq_dec : EqDecision BudgetResource.
Proof. solve_decision. Defined.

Record BudgetStop := mkBudgetStop { resource : BudgetResource; limit : f64 }.

Inductive WallKind := Password | OneTimeCode | SignIn | BotCheck.
#[export] Instance WallKind_eq_dec : EqDecision WallKind.
Proof. solve_decision. Defined.

Record Attachment := mkAttachment { att_name : text; mime_type : text; content : list Z }.

Record Limits := mkLimits {
  max_steps : option Z;
  max_jev_calls : option Z;
  max_llm_calls : option Z;
  max_dollars : option f64;
  max_seconds : option f64;
}.

(** [combined_basis] is the strength order's minimum: no line's claim is weaker than it. *)
Definition strength (b : CostBasis) : Z :=
  match b with Unknown => 0 | Unsettled => 1 | Estimated => 2 | Bounded => 3 | Metered => 4 end.

Lemma has_unknown_app a b : has_unknown (a ++ b) = has_unknown a || has_unknown b.
Proof. unfold has_unknown. apply existsb_app. Qed.

Lemma has_unknown_spec lines :
  has_unknown lines = true <->
  exists l, l ∈ lines /\ (basis l = Unknown \/ basis l = Unsettled).
Proof.
  unfold has_unknown. rewrite existsb_exists. split; intros (l & Hl & H).
  - exists l. split; [by apply list_elem_of_In|]. unfold is_unknown in H.
    destruct (basis l); auto; done.
  - exists l. split; [by apply list_elem_of_In|]. unfold is_unknown. by destruct H as [-> | ->].
Qed.

(** A sum of receipts claims exactly as much as its weakest line: the combined basis is
    one of the lines' and none of them claims less, and no line at all is metered. *)
Theorem combined_basis_weakest lines :
  (lines = [] -> combined_basis lines = Metered) /\
  (lines <> [] -> combined_basis lines ∈ map basis lines) /\
  Forall (fun l => strength (combined_basis lines) <= strength (basis l)) lines.
Proof.
  unfold combined_basis. cbn [find]. split_and!.
  - intros ->. done.
  - destruct lines as [|l lines]; [done|]. intros _.
    repeat (case_bool_decide; simpl; [done|]).
    exfalso. destruct (basis l) eqn:E; set_solver.
  - apply Forall_forall. intros l Hl.
    assert (Hin : basis l ∈ map basis lines) by (apply list_elem_of_fmap; eauto).
    repeat (case_bool_decide; simpl; [destruct (basis l) eqn:E; simpl; lia || set_solver|]).
    destruct (basis l); done.
Qed.
