(* ===== verification/Ledger.v ===== *)
(** Spend and call accounting against [Limits]: [crates/fastbrowse-core/src/telemetry.rs], with
    the limits the command line and the MCP server build ([fastbrowse-cli/src/cli.rs],
    [fastbrowse-cli/src/mcp/mod.rs]) and the ones a browser run is left after a fetched attempt
    ([remaining] of [fastbrowse-run/src/lib.rs]).

    A ledger's counters ([LedgerState]) and clock are shared by every handle made from it:
    [for_answer] is a handle with other limits over the same state.  An operation is a function
    of the handle's limits, the clock's reading [elapsed] (None while the clock is stopped) and
    the shared state; [run_events] runs any interleaving of the operations of both handles. *)

From S2P Require Import Prelude Float64 PyText Json Models.

Record BudgetExceeded := mkBudgetExceeded { reason : text; budget : BudgetStop }.
Definition exceeded (reason : text) (r : BudgetResource) (l : f64) : BudgetExceeded :=
  mkBudgetExceeded reason (mkBudgetStop r l).

Record LedgerState := mkLedgerState {
  lines : list CostLine;
  steps : Z;
  jev_calls : Z;
  llm_calls : Z;
}.
Definition empty_state : LedgerState := mkLedgerState [] 0 0 0.

Section Ledger.
Context `{FF : FloatFormat}.

(** [format(Decimal(repr(amount)), "f")]. *)
Definition dollars (amount : f64) : text :=
  let written := float_str amount in
  match split_once (chr "e") written with
  | None => written
  | Some (mantissa, exponent) =>
      let exponent := default 0 (parse_i32 exponent) in
      let negative := starts_with mantissa (lit "-") in
      let unsigned := trim_start (Z.eqb (chr "-")) mantissa in
      let '(whole, fraction) := default (mantissa, []) (split_once (chr ".") unsigned) in
      let digits := whole ++ fraction in
      let point := len whole + exponent in
      let body :=
        if point <=? 0 then lit "0." ++ zeros (- point) ++ digits
        else if len digits <=? point then digits ++ zeros (point - len digits)
        else take (Z.to_nat point) digits ++ lit "." ++ drop (Z.to_nat point) digits in
      (if negative then lit "-" else []) ++ body
  end.

Definition spend_reached (max : f64) : BudgetExceeded :=
  exceeded (lit "spend limit $" ++ dollars max ++ lit " reached") Dollars max.

Definition check_spend (limits : Limits) (st : LedgerState) (extra : f64)
  : result unit BudgetExceeded :=
  match max_dollars limits with
  | Some max =>
      if has_unknown (lines st) then
        Err (exceeded (lit "spend limit $" ++ dollars max
                        ++ lit " cannot be enforced: a call reported no cost") Dollars max)
      else if f64_gt (f64_add (known_dollars (lines st)) extra) max then Err (spend_reached max)
      else Ok tt
  | None => Ok tt
  end.

Definition check_state (limits : Limits) (elapsed : option f64) (st : LedgerState) (extra : f64)
  : result unit BudgetExceeded :=
  let? _ :=
    (match max_seconds limits with
     | Some max =>
         if (match elapsed with Some e => f64_gt e max | None => false end)
         then Err (exceeded (lit "time limit " ++ float_str max ++ lit "s reached") Seconds max)
         else Ok tt
     | None => Ok tt
     end) in
  let? _ := check_spend limits st extra in
  match max_steps limits with
  | Some max =>
      if max <=? steps st
      then Err (exceeded (lit "step limit " ++ show_Z max ++ lit " reached") Steps (f64_of_Z max))
      else Ok tt
  | None => Ok tt
  end.

(** [state.jev_calls + calls > max] and its like, at the counter's width. *)
Definition call_limit (max : option Z) (used calls : Z) (name : text) (r : BudgetResource)
  : result unit BudgetExceeded :=
  match max with
  | Some max =>
      if max <? wrap64 (used + calls)
      then Err (exceeded (name ++ lit " call limit " ++ show_Z max ++ lit " reached") r (f64_of_Z max))
      else Ok tt
  | None => Ok tt
  end.

(** Everything a reservation checks, in the code's order. *)
Definition reservation (limits : Limits) (elapsed : option f64) (st : LedgerState)
    (c : CostComponent) (estimate : f64) (calls : Z) : result unit BudgetExceeded :=
  let? _ :=
    (match c with
     | Jev => call_limit (max_jev_calls limits) (jev_calls st) calls (lit "Jev") JevCalls
     | Llm => call_limit (max_llm_calls limits) (llm_calls st) calls (lit "LLM") LlmCalls
     | Browser | Proxy => Ok tt
     end) in
  let? _ := check_state limits elapsed st estimate in
  match max_dollars limits with
  | Some max => if f64_ge (known_dollars (lines st)) max then Err (spend_reached max) else Ok tt
  | None => Ok tt
  end.

Definition count_calls (st : LedgerState) (c : CostComponent) (calls : Z) : LedgerState :=
  match c with
  | Jev => mkLedgerState (lines st) (steps st) (wrap64 (jev_calls st + calls)) (llm_calls st)
  | Llm => mkLedgerState (lines st) (steps st) (jev_calls st) (wrap64 (llm_calls st + calls))
  | Browser | Proxy => st
  end.

Definition reserve (limits : Limits) (elapsed : option f64) (st : LedgerState)
    (c : CostComponent) (estimate : f64) (calls : Z) : result unit BudgetExceeded * LedgerState :=
  match reservation limits elapsed st c estimate calls with
  | Ok _ => (Ok tt, count_calls st c calls)
  | Err e => (Err e, st)
  end.

Definition check := check_state.

(** Keep the lines, then check. *)
Definition record (limits : Limits) (elapsed : option f64) (st : LedgerState)
    (new : list CostLine) : result unit BudgetExceeded * LedgerState :=
  let st := mkLedgerState (lines st ++ new) (steps st) (jev_calls st) (llm_calls st) in
  (check_state limits elapsed st f64_zero, st).

(** [state().steps += 1], for a step that was dispatched. *)
Definition count_step (st : LedgerState) (outcome : StepOutcome) : LedgerState :=
  if decide (outcome = Stale) then st
  else mkLedgerState (lines st) (wrap64 (steps st + 1)) (jev_calls st) (llm_calls st).

(** The handle final reporting uses: no step limit, the same counters. *)
Definition for_answer (l : Limits) : Limits :=
  mkLimits None (max_jev_calls l) (max_llm_calls l) (max_dollars l) (max_seconds l).

Definition capped (l : Limits) : bool :=
  bool_decide (is_Some (max_dollars l)) || bool_decide (is_Some (max_llm_calls l))
  || bool_decide (is_Some (max_jev_calls l)).

(** ** One run's operations, in any order, through either handle *)
Inductive event :=
| Reserve (answer : bool) (elapsed : option f64) (c : CostComponent) (estimate : f64) (calls : Z)
| Record_ (answer : bool) (elapsed : option f64) (new : list CostLine)
| Step (outcome : StepOutcome)
| Check (answer : bool) (elapsed : option f64) (extra : f64).

Definition handle (limits : Limits) (answer : bool) : Limits :=
  if answer then for_answer limits else limits.

Definition run_event (limits : Limits) (st : LedgerState) (e : event) : LedgerState :=
  match e with
  | Reserve answer elapsed c estimate calls =>
      snd (reserve (handle limits answer) elapsed st c estimate calls)
  | Record_ answer elapsed new => snd (record (handle limits answer) elapsed st new)
  | Step outcome => count_step st outcome
  | Check answer elapsed extra => st
  end.

Definition run_events (limits : Limits) (st : LedgerState) (es : list event) : LedgerState :=
  fold_left (run_event limits) es st.

(** The calls of component [c] that reservations were granted along [es]. *)
Definition event_granted (limits : Limits) (c : CostComponent) (st : LedgerState) (e : event) : Z :=
  match e with
  | Reserve answer elapsed c' estimate calls =>
      if decide (c = c')
      then if is_ok (fst (reserve (handle limits answer) elapsed st c' estimate calls))
           then calls else 0
      else 0
  | _ => 0
  end.

Fixpoint granted (limits : Limits) (c : CostComponent) (st : LedgerState) (es : list event) : Z :=
  match es with
  | [] => 0
  | e :: es => event_granted limits c st e + granted limits c (run_event limits st e) es
  end.

(** Calls reserved together are a list's length. *)
Definition sane (e : event) : Prop :=
  match e with Reserve _ _ _ _ calls => 0 <= calls < 2 ^ 32 | _ => True end.

Definition counted (c : CostComponent) (st : LedgerState) : Z :=
  match c with Jev => jev_calls st | Llm => llm_calls st | _ => 0 end.
Definition cap_of (c : CostComponent) (l : Limits) : option Z :=
  match c with Jev => max_jev_calls l | Llm => max_llm_calls l | _ => None end.

(** ** What a fetched attempt leaves for the browser run after it *)
Definition count_left (bound : option Z) (used : Z) (r : BudgetResource)
  : result (option Z) BudgetStop :=
  match bound with
  | Some bound =>
      if bound <=? used then Err (mkBudgetStop r (f64_of_Z bound))
      else Ok (Some (wrap64 (bound - used)))
  | None => Ok None
  end.

Definition amount_left (bound : option f64) (used : f64) (r : BudgetResource)
  : result (option f64) BudgetStop :=
  match bound with
  | Some bound =>
      if f64_le bound used then Err (mkBudgetStop r bound) else Ok (Some (f64_sub bound used))
  | None => Ok None
  end.

Definition remaining (limits : option Limits) (spent : LedgerState) (secs : f64)
  : result (option Limits) BudgetStop :=
  match limits with
  | None => Ok None
  | Some limits =>
      let? _ :=
        (match max_dollars limits with
         | Some max => if has_unknown (lines spent) then Err (mkBudgetStop Dollars max) else Ok tt
         | None => Ok tt
         end) in
      let? s := count_left (max_steps limits) (steps spent) Steps in
      let? j := count_left (max_jev_calls limits) (jev_calls spent) JevCalls in
      let? l := count_left (max_llm_calls limits) (llm_calls spent) LlmCalls in
      let? d := amount_left (max_dollars limits) (known_dollars (lines spent)) Dollars in
      let? t := amount_left (max_seconds limits) secs Seconds in
      Ok (Some (mkLimits s j l d t))
  end.

End Ledger.

(** ** Limits as the command line and the MCP server read them *)
(** [lower]: the lesser of what was asked and the ceiling, by the type's partial order. *)
Definition lower {T} (lt : T -> T -> bool) (asked ceiling : option T) : option T :=
  match asked, ceiling with
  | None, ceiling => ceiling
  | Some asked, None => Some asked
  | Some asked, Some ceiling => Some (if lt ceiling asked then ceiling else asked)
  end.

Definition bounded (ceilings : Limits) (steps : option Z) (dollars seconds : option f64) : Limits :=
  mkLimits (lower Z.ltb steps (max_steps ceilings)) (max_jev_calls ceilings)
    (max_llm_calls ceilings) (lower f64_lt dollars (max_dollars ceilings))
    (lower f64_lt seconds (max_seconds ceilings)).

(** [limits(args)] of the command line. *)
Definition cli_limits (steps : option Z) (dollars : option f64) : result Limits text :=
  let bad :=
    (match steps with Some s => if s <=? 0 then [lit "--max-steps"] else [] | None => [] end) ++
    (match dollars with
     | Some d => if f64_le d f64_zero then [lit "--max-dollars"] else []
     | None => []
     end) in
  if is_empty bad then Ok (mkLimits steps None None dollars None)
  else Err (join (lit ", ") bad ++ lit " must be greater than zero").

(** * Properties *)
Section LedgerFacts.
Context `{FF : FloatFormat}.

(** The reservation's conditions, each limit that is set read as a proposition. *)
Definition within (limits : Limits) (elapsed : option f64) (st : LedgerState)
    (c : CostComponent) (estimate : f64) (calls : Z) : Prop :=
  (forall m, cap_of c limits = Some m -> wrap64 (counted c st + calls) <= m) /\
  (forall m e, max_seconds limits = Some m -> elapsed = Some e -> f64_gt e m = false) /\
  (forall m, max_dollars limits = Some m ->
     Forall (fun l => basis l <> Unknown /\ basis l <> Unsettled) (lines st) /\
     f64_gt (f64_add (known_dollars (lines st)) estimate) m = false /\
     f64_ge (known_dollars (lines st)) m = false) /\
  (forall m, max_steps limits = Some m -> steps st < m).

Lemma has_unknown_false ls :
  has_unknown ls = false <-> Forall (fun l => basis l <> Unknown /\ basis l <> Unsettled) ls.
Proof.
  rewrite <- not_true_iff_false, has_unknown_spec, Forall_forall. split.
  - intros H l Hl. split; intros E; apply H; exists l; auto.
  - intros H (l & Hl & [E|E]); by destruct (H l Hl).
Qed.

Lemma check_spend_ok limits st extra :
  check_spend limits st extra = Ok tt <->
  forall m, max_dollars limits = Some m ->
    has_unknown (lines st) = false /\ f64_gt (f64_add (known_dollars (lines st)) extra) m = false.
Proof.
  unfold check_spend. destruct (max_dollars limits) as [m|]; [|by split].
  split.
  - intros H m' [= <-]. by repeat case_match.
  - intros H. destruct (H m eq_refl) as [-> ->]. done.
Qed.

Lemma call_limit_ok max used calls name r :
  call_limit max used calls name r = Ok tt <-> forall m, max = Some m -> wrap64 (used + calls) <= m.
Proof.
  unfold call_limit. destruct max as [m|]; [|by split]. case_match; bool_hyps.
  - split; [done|]. intros Hm. specialize (Hm m eq_refl). lia.
  - split; [|done]. by intros _ m' [= <-].
Qed.

Lemma check_state_ok limits elapsed st extra :
  check_state limits elapsed st extra = Ok tt <->
  (forall m e, max_seconds limits = Some m -> elapsed = Some e -> f64_gt e m = false) /\
  check_spend limits st extra = Ok tt /\
  (forall m, max_steps limits = Some m -> steps st < m).
Proof.
  unfold check_state. split.
  - destruct (check_spend limits st extra) as [[]|]; [|by repeat case_match].
    destruct (max_seconds limits) as [m|], (max_steps limits) as [n|], elapsed as [e|];
      intros H; repeat case_match; bool_hyps; split_and!; intros; simplify_eq; done || lia.
  - intros (Ht & Hs & Hst).
    destruct (max_seconds limits) as [m|], elapsed as [e|]; try rewrite (Ht m e) by done;
      rewrite Hs; (destruct (max_steps limits) as [n|]; [|done]);
      specialize (Hst n eq_refl); by rewrite (proj2 (Z.leb_gt _ _)) by lia.
Qed.

Lemma reservation_ok limits elapsed st c estimate calls :
  reservation limits elapsed st c estimate calls = Ok tt <->
  within limits elapsed st c estimate calls.
Proof.
  unfold reservation, within.
  set (first := match c with Jev => _ | Llm => _ | _ => _ end).
  assert (Hfirst : first = Ok tt <->
    forall m, cap_of c limits = Some m -> wrap64 (counted c st + calls) <= m)
    by (unfold first; destruct c; simpl; rewrite ?call_limit_ok; done).
  rewrite <- Hfirst. clear Hfirst. destruct first as [[]|e]; [|by split; [|intros [? _]]].
  pose proof (check_state_ok limits elapsed st estimate) as Hc.
  destruct (check_state limits elapsed st estimate) as [[]|e].
  - destruct (proj1 Hc eq_refl) as (Ht & Hs & Hst). rewrite check_spend_ok in Hs.
    destruct (max_dollars limits) as [m|].
    + destruct (Hs m eq_refl) as [Hu Hk]. rewrite has_unknown_false in Hu. split.
      * intros H. case_match; [done|]. split_and!; try done. by intros m' [= <-].
      * intros (_ & _ & Hd & _). destruct (Hd m eq_refl) as (_ & _ & ->). done.
    + split; [intros _; by split_and!|done].
  - split; [done|]. intros (_ & Ht & Hd & Hst). destruct Hc as [_ Hc].
    exfalso. enough (Err e = @Ok unit BudgetExceeded tt) by done. apply Hc. split_and!; try done.
    apply check_spend_ok. intros m Hm. destruct (Hd m Hm) as (Hu & Hk & _).
    by rewrite has_unknown_false.
Qed.

Lemma reserve_spec limits elapsed st c estimate calls :
  (within limits elapsed st c estimate calls /\
     reserve limits elapsed st c estimate calls = (Ok tt, count_calls st c calls)) \/
  (~ within limits elapsed st c estimate calls /\
     exists e, reserve limits elapsed st c estimate calls = (Err e, st)).
Proof.
  rewrite <- reservation_ok. unfold reserve.
  destruct (reservation limits elapsed st c estimate calls) as [[]|e]; [left|right]; [done|].
  split; [done|by exists e].
Qed.

(** A reservation is granted exactly when every limit of the handle leaves room for it (the
    calls together, the clock, the priced spend with the estimate, the steps), and then counts
    all of its calls at once; refused, it leaves every counter as it was. *)
Theorem reserve_exact limits elapsed st c estimate calls :
  (fst (reserve limits elapsed st c estimate calls) = Ok tt <->
     within limits elapsed st c estimate calls) /\
  snd (reserve limits elapsed st c estimate calls) =
    (if is_ok (fst (reserve limits elapsed st c estimate calls))
     then count_calls st c calls else st).
Proof.
  destruct (reserve_spec limits elapsed st c estimate calls) as [[H ->]|[H [e ->]]]; simpl.
  - by split.
  - by split; [split|].
Qed.

(** ** The caps over any interleaving of both handles *)
Lemma counted_other c c' st calls : c <> c' -> counted c (count_calls st c' calls) = counted c st.
Proof. by destruct c, c'. Qed.

Lemma handle_cap limits answer c : cap_of c (handle limits answer) = cap_of c limits.
Proof. by destruct answer, c. Qed.

(** One event moves a component's counter by the calls it was granted, and never past its cap. *)
Lemma run_event_counted limits c m st e :
  sane e -> cap_of c limits = Some m -> m <= i64_max - 2 ^ 32 -> 0 <= counted c st <= m ->
  counted c (run_event limits st e) = counted c st + event_granted limits c st e /\
  counted c (run_event limits st e) <= m /\ 0 <= event_granted limits c st e.
Proof.
  intros Hsane Hcap Hm Hst. destruct e as [answer elapsed c' estimate calls|answer elapsed new|outcome|];
    cbn [run_event event_granted].
  - simpl in Hsane. destruct (reserve_spec (handle limits answer) elapsed st c' estimate calls)
      as [[Hw ->]|[Hw [e ->]]]; cbn [fst snd is_ok]; [|destruct (decide (c = c')); lia].
    destruct (decide (c = c')) as [<-|Hne]; [|rewrite counted_other by done; lia].
    destruct Hw as [Hw _]. rewrite handle_cap in Hw. specialize (Hw m Hcap).
    assert (Hin : i64_min <= counted c st + calls <= i64_max) by (unfold i64_min, i64_max in *; lia).
    rewrite wrap64_id in Hw by done.
    assert (Hc : counted c (count_calls st c calls) = counted c st + calls)
      by (destruct c; simpl in *; try done; by rewrite wrap64_id).
    rewrite Hc. lia.
  - destruct c; simpl in *; lia.
  - unfold count_step. destruct (decide _); destruct c; simpl in *; lia.
  - lia.
Qed.

Lemma run_events_counted limits c m es : forall st,
  Forall sane es -> cap_of c limits = Some m -> m <= i64_max - 2 ^ 32 -> 0 <= counted c st <= m ->
  counted c (run_events limits st es) = counted c st + granted limits c st es /\
  counted c (run_events limits st es) <= m /\ 0 <= granted limits c st es.
Proof.
  induction es as [|e es IH]; intros st Hs Hcap Hm Hst; [simpl; lia|].
  apply Forall_cons in Hs as [He Hs].
  destruct (run_event_counted limits c m st e He Hcap Hm Hst) as (H1 & H2 & H3).
  assert (Hb : 0 <= counted c (run_event limits st e) <= m) by lia.
  destruct (IH _ Hs Hcap Hm Hb) as (H4 & H5 & H6).
  cbn [granted]. unfold run_events in *. cbn [fold_left]. lia.
Qed.

(** C16: over any interleaving of reservations, receipts and steps through the run's ledger and
    its answer handle, the calls counted are exactly the calls granted, and never more than the
    limit on that kind of call. *)
Theorem call_caps_hold limits c m es :
  Forall sane es -> cap_of c limits = Some m -> 0 <= m <= i64_max - 2 ^ 32 ->
  counted c (run_events limits empty_state es) = granted limits c empty_state es /\
  granted limits c empty_state es <= m.
Proof.
  intros Hs Hcap Hm.
  assert (H0 : counted c empty_state = 0) by (by destruct c).
  destruct (run_events_counted limits c m es empty_state Hs Hcap ltac:(lia) ltac:(lia)). lia.
Qed.

(** ** An unpriced call under a dollar cap *)
Lemma run_event_unknown limits st e :
  has_unknown (lines st) = true -> has_unknown (lines (run_event limits st e)) = true.
Proof.
  intros H. destruct e as [answer elapsed c estimate calls|answer elapsed new|outcome|]; simpl.
  - unfold reserve. case_match; [by destruct c|done].
  - by rewrite has_unknown_app, H.
  - unfold count_step. by destruct (decide _).
  - done.
Qed.

Lemma run_events_unknown limits es st :
  has_unknown (lines st) = true -> has_unknown (lines (run_events limits st es)) = true.
Proof.
  revert st. induction es as [|e es IH]; intros st H; [done|].
  apply (IH (run_event limits st e)). by apply run_event_unknown.
Qed.

(** Under a dollar cap a call that reported no settled cost ends the spending: after its
    receipt is recorded, whatever happens next, no reservation through either handle is granted. *)
Theorem unpriced_call_ends_spending limits max answer elapsed new st es answer' elapsed' c est calls :
  max_dollars limits = Some max -> Exists (fun l => basis l = Unknown \/ basis l = Unsettled) new ->
  let st' := run_events limits (snd (record (handle limits answer) elapsed st new)) es in
  is_ok (fst (reserve (handle limits answer') elapsed' st' c est calls)) = false.
Proof.
  intros Hmax Hnew st'.
  assert (Hu : has_unknown (lines st') = true).
  { apply run_events_unknown. simpl. rewrite has_unknown_app. apply orb_true_iff. right.
    apply has_unknown_spec. apply Exists_exists in Hnew as (l & Hl & H). eauto. }
  destruct (reserve_spec (handle limits answer') elapsed' st' c est calls) as [[Hw _]|[_ [e ->]]]; [|done].
  exfalso. destruct Hw as (_ & _ & Hd & _).
  assert (Hcap : max_dollars (handle limits answer') = Some max) by (by destruct answer').
  destruct (Hd max Hcap) as [Hall _]. apply has_unknown_false in Hall. congruence.
Qed.

(** ** The browser run after a fetched attempt *)
Lemma count_left_ok bound used r left_ :
  count_left bound used r = Ok left_ ->
  match bound with
  | Some b => used < b /\ left_ = Some (wrap64 (b - used))
  | None => left_ = None
  end.
Proof. unfold count_left. destruct bound; [|congruence]. case_match; bool_hyps; [done|]. by intros [= <-]. Qed.

Lemma remaining_cap limits spent secs left_ c m :
  remaining (Some limits) spent secs = Ok (Some left_) -> cap_of c limits = Some m ->
  counted c spent < m /\ cap_of c left_ = Some (wrap64 (m - counted c spent)).
Proof.
  unfold remaining. intros H.
  destruct (match max_dollars limits with Some _ => _ | None => _ end) as [[]|]; [|done].
  destruct (count_left (max_steps limits) _ _) as [s|]; [|done].
  destruct (count_left (max_jev_calls limits) _ _) as [j|] eqn:Ej; [|done].
  destruct (count_left (max_llm_calls limits) _ _) as [l|] eqn:El; [|done].
  destruct (amount_left (max_dollars limits) _ _) as [d|]; [|done].
  destruct (amount_left (max_seconds limits) _ _) as [t|]; [|done].
  injection H as <-. apply count_left_ok in Ej, El.
  destruct c; simpl; try done; intros Hc; rewrite Hc in *; simpl in *; tauto.
Qed.

(** A run that starts over HTTP and carries on in a browser spends one allowance: the calls
    granted to the fetched attempt and those granted under the limits [remaining] leaves never
    exceed the caller's cap together. *)
Theorem two_attempts_share_caps limits c m es spent secs left_ es' :
  Forall sane es -> Forall sane es' -> cap_of c limits = Some m -> 0 <= m <= i64_max - 2 ^ 32 ->
  spent = run_events limits empty_state es ->
  remaining (Some limits) spent secs = Ok (Some left_) ->
  granted limits c empty_state es + granted left_ c empty_state es' <= m.
Proof.
  intros Hs Hs' Hcap Hm Hspent Hleft.
  assert (H0 : counted c empty_state = 0) by (by destruct c).
  destruct (run_events_counted limits c m es empty_state Hs Hcap ltac:(lia) ltac:(lia)) as (H1 & H2 & H3).
  rewrite <- Hspent in H1, H2.
  destruct (remaining_cap _ _ _ _ c m Hleft Hcap) as [Hlt Hcap'].
  rewrite wrap64_id in Hcap' by (unfold i64_min, i64_max in *; lia).
  destruct (run_events_counted left_ c _ es' empty_state Hs' Hcap' ltac:(lia) ltac:(lia)). lia.
Qed.

End LedgerFacts.

(** ** Limits as they are written *)
(** A fixed-point numeral: digits with at most one point, as its digits and decimal exponent. *)
Definition read_fixed (t : text) : option (Z * Z) :=
  match split_once (chr ".") t with
  | Some (w, f) =>
      if forallb is_ascii_digit (w ++ f) then Some (digits_value (w ++ f), - len f) else None
  | None => if forallb is_ascii_digit t then Some (digits_value t, 0) else None
  end.

(** [m * 10 ^ e] and [n * 10 ^ f] are the same number. *)
Definition same_decimal (a b : Z * Z) : Prop :=
  let low := Z.min a.2 b.2 in a.1 * 10 ^ (a.2 - low) = b.1 * 10 ^ (b.2 - low).

Lemma same_decimal_refl a : same_decimal a a.
Proof. done. Qed.

Lemma digit_ne t c : forallb is_ascii_digit t = true -> is_ascii_digit c = false -> c ∉ t.
Proof.
  intros H Hc Hin. rewrite forallb_forall in H.
  specialize (H c (proj1 (list_elem_of_In _ _) Hin)). congruence.
Qed.

Lemma zeros_digits k : forallb is_ascii_digit (zeros k) = true.
Proof.
  apply forallb_forall. intros c Hc. apply list_elem_of_In, elem_of_replicate in Hc as [-> _]. done.
Qed.

Lemma read_fixed_point w f :
  forallb is_ascii_digit w = true -> forallb is_ascii_digit f = true ->
  read_fixed (w ++ lit "." ++ f) = Some (digits_value (w ++ f), - len f).
Proof.
  intros Hw Hf. unfold read_fixed. change (w ++ lit "." ++ f) with (w ++ chr "." :: f).
  rewrite split_once_app by (by apply digit_ne). by rewrite forallb_app, Hw, Hf.
Qed.

Lemma read_fixed_whole w :
  forallb is_ascii_digit w = true -> read_fixed w = Some (digits_value w, 0).
Proof. intros Hw. unfold read_fixed. rewrite split_once_none by (by apply digit_ne). by rewrite Hw. Qed.

(** The three layouts of digits around a point, [point] places after their start. *)
Lemma layout_below ds point :
  forallb is_ascii_digit ds = true -> point <= 0 ->
  exists v, read_fixed (lit "0." ++ zeros (- point) ++ ds) = Some v /\
    same_decimal v (digits_value ds, point - len ds).
Proof.
  intros Hd Hp. change (lit "0." ++ zeros (- point) ++ ds) with ([chr "0"] ++ lit "." ++ zeros (- point) ++ ds).
  rewrite read_fixed_point by (rewrite ?forallb_app, ?zeros_digits; done).
  eexists. split; [done|].
  replace (digits_value ([chr "0"] ++ zeros (- point) ++ ds)) with (digits_value ds)
    by (unfold zeros; rewrite (digits_value_zeros 1); by rewrite digits_value_zeros).
  replace (- len (zeros (- point) ++ ds)) with (point - len ds); [done|].
  unfold len, zeros. rewrite length_app, length_replicate. lia.
Qed.

Lemma digits_value_scaled ds k :
  0 <= k -> digits_value (ds ++ zeros k) = digits_value ds * 10 ^ k.
Proof.
  intros Hk. rewrite digits_value_cat. unfold zeros. rewrite digits_value_all_zeros, length_replicate.
  rewrite Z2Nat.id by lia. lia.
Qed.

Lemma layout_above ds point tail :
  forallb is_ascii_digit ds = true -> len ds <= point -> tail = [] \/ tail = lit ".0" ->
  exists v, read_fixed (ds ++ zeros (point - len ds) ++ tail) = Some v /\
    same_decimal v (digits_value ds, point - len ds).
Proof.
  intros Hd Hp Ht. set (k := point - len ds) in *.
  assert (Hk : 0 <= k) by (unfold k; lia).
  destruct Ht as [-> | ->].
  - rewrite app_nil_r, read_fixed_whole by (by rewrite forallb_app, Hd, zeros_digits).
    eexists. split; [done|]. unfold same_decimal. cbn [fst snd].
    rewrite digits_value_scaled, Z.min_l, !Z.sub_0_r, Z.pow_0_r by lia. lia.
  - change (lit ".0") with (lit "." ++ zeros 1). rewrite app_assoc, read_fixed_point
      by (rewrite ?forallb_app, ?Hd, ?zeros_digits; done).
    eexists. split; [done|]. unfold same_decimal. cbn [fst snd].
    replace (len (zeros 1)) with 1 by done.
    rewrite (digits_value_scaled (ds ++ zeros k) 1), digits_value_scaled by lia.
    rewrite Z.min_l by lia. replace (-1 - -1) with 0 by lia.
    replace (k - - (1)) with (k + 1) by lia. rewrite (Z.pow_add_r 10 k 1) by lia. lia.
Qed.

Lemma layout_inside ds point :
  forallb is_ascii_digit ds = true -> 0 < point < len ds ->
  exists v, read_fixed (take (Z.to_nat point) ds ++ lit "." ++ drop (Z.to_nat point) ds) = Some v /\
    same_decimal v (digits_value ds, point - len ds).
Proof.
  intros Hd Hp.
  assert (Hall : forallb is_ascii_digit (take (Z.to_nat point) ds ++ drop (Z.to_nat point) ds) = true)
    by (by rewrite take_drop).
  rewrite forallb_app in Hall. apply andb_true_iff in Hall as [H1 H2].
  rewrite read_fixed_point, take_drop by done. eexists. split; [done|].
  replace (- len (drop (Z.to_nat point) ds)) with (point - len ds); [done|].
  unfold len in *. rewrite length_drop. lia.
Qed.

Section DollarFacts.
Context `{FFS : FloatFormatSpec}.

Lemma not_in_app (c : Z) (a b : text) : c ∉ a -> c ∉ b -> c ∉ a ++ b.
Proof. set_solver. Qed.

Lemma e_not_digit ds : forallb is_ascii_digit ds = true -> chr "e" ∉ ds.
Proof. intros H. by apply digit_ne. Qed.

Lemma e_not_lit s : forallb (fun c => negb (c =? chr "e")) (lit s) = true -> chr "e" ∉ lit s.
Proof.
  intros H Hin. rewrite forallb_forall in H.
  specialize (H _ (proj1 (list_elem_of_In _ _) Hin)). by rewrite Z.eqb_refl in H.
Qed.

Lemma digits_take n ds : forallb is_ascii_digit ds = true -> forallb is_ascii_digit (take n ds) = true.
Proof. intros H. rewrite <- (take_drop n ds), forallb_app in H. by apply andb_true_iff in H as [? _]. Qed.

Lemma digits_drop n ds : forallb is_ascii_digit ds = true -> forallb is_ascii_digit (drop n ds) = true.
Proof. intros H. rewrite <- (take_drop n ds), forallb_app in H. by apply andb_true_iff in H as [_ ?]. Qed.

Lemma exponent_reads e :
  - 2000 <= e <= 2000 ->
  parse_i32 ((if e <? 0 then lit "-" else lit "+")
    ++ (if Z.abs e <? 10 then zeros 1 else []) ++ show_Z (Z.abs e)) = Some e.
Proof.
  intros He. unfold show_Z. replace (Z.abs e <? 0) with false by (symmetry; apply Z.ltb_ge; lia).
  cbv iota.
  destruct (show_nat_spec (Z.abs e)) as [Hv Hd]; [lia|].
  set (ds := (if Z.abs e <? 10 then zeros 1 else []) ++ show_nat (Z.abs e)).
  assert (Hds : digits_value ds = Z.abs e /\ forallb is_ascii_digit ds = true /\ is_empty ds = false).
  { unfold ds. split_and!.
    - destruct (_ <? _); [by rewrite (digits_value_zeros 1)|done].
    - rewrite forallb_app, Hd. by destruct (_ <? _).
    - pose proof (show_nat_nonempty (Z.abs e)). destruct (_ <? _); [done|]. by destruct (show_nat _). }
  destruct Hds as (Hval & Hdig & Hne). unfold parse_i32, parse_int.
  assert (Hr : in_range (- 2 ^ 31) (2 ^ 31 - 1) e = true)
    by (unfold in_range; apply andb_true_iff; split; apply Z.leb_le; lia).
  destruct (e <? 0) eqn:E; bool_hyps; cbn [app lit]; simpl (_ =? _); cbn [andb orb]; rewrite ?(eq_refl : (- 2 ^ 31 <? 0) = true); cbv iota;
    rewrite Hne, Hdig, Hval; cbn [orb negb].
  - replace (-1 * Z.abs e) with e by lia. by rewrite Hr.
  - replace (1 * Z.abs e) with e by lia. by rewrite Hr.
Qed.

Lemma mantissa_splits ds :
  ds <> [] -> forallb is_ascii_digit ds = true ->
  let mantissa := if len ds =? 1 then ds else take 1 ds ++ lit "." ++ drop 1 ds in
  chr "e" ∉ mantissa /\ starts_with mantissa (lit "-") = false /\
  default (mantissa, []) (split_once (chr ".") (trim_start (Z.eqb (chr "-")) mantissa)) = (take 1 ds, drop 1 ds).
Proof.
  intros Hne Hd mantissa. destruct ds as [|d ds]; [done|].
  assert (Hd1 : is_ascii_digit d = true) by (simpl in Hd; by apply andb_true_iff in Hd as [? _]).
  assert (Hm : mantissa = d :: (if len (d :: ds) =? 1 then ds else lit "." ++ ds))
    by (unfold mantissa; by destruct (_ =? 1)).
  assert (Hminus : (chr "-" =? d) = false) by (apply Z.eqb_neq; by intros <-).
  split_and!.
  - unfold mantissa. destruct (_ =? 1); [by apply e_not_digit|].
    apply not_in_app; [apply e_not_digit; by apply digits_take|].
    apply not_in_app; [by apply e_not_lit|apply e_not_digit; by apply digits_drop].
  - rewrite Hm. set (rest := if _ =? 1 then _ else _).
    change (starts_with (d :: rest) (lit "-")) with ((chr "-" =? d) && true). by rewrite Hminus.
  - rewrite Hm. cbn [trim_start]. rewrite Hminus.
    destruct (len (d :: ds) =? 1) eqn:E; bool_hyps.
    + destruct ds; [|unfold len in E; simpl in E; lia].
      rewrite split_once_none; [done|]. by apply (digit_ne [d]).
    + change (d :: lit "." ++ ds) with ([d] ++ chr "." :: ds). rewrite split_once_app; [done|].
      apply (digit_ne [d]); [|done]. simpl. by rewrite Hd1.
Qed.

(** A spend limit is shown in full, never with an exponent: what [dollars] writes for a
    non-negative amount is digits with at most one point, and denotes exactly the number the
    shortest scientific form denotes. *)
Theorem dollars_fixed_point amount ds e :
  is_finite amount = true -> is_sign_negative amount = false ->
  scientific (f64_abs amount) = (ds, e) ->
  exists v, read_fixed (dollars amount) = Some v /\ same_decimal v (digits_value ds, e + 1 - len ds).
Proof.
  intros Hfin Hpos Hsci.
  assert (Habs : is_finite (f64_abs amount) = true) by (by destruct amount).
  destruct (scientific_digits (f64_abs amount) Habs) as [Hne Hd].
  pose proof (scientific_exponent (f64_abs amount) Habs) as He.
  rewrite Hsci in Hne, Hd, He. cbn [fst snd] in *.
  assert (Hnn : is_nan amount = false /\ is_infinite amount = false) by (by destruct amount).
  destruct Hnn as [Hnan Hinf].
  assert (Hwritten : float_str amount = float amount Repr) by (unfold float_str; by rewrite Hnan, Hinf).
  unfold dollars. rewrite Hwritten. unfold float. rewrite Hnan, Hinf, Hsci, Hpos. cbn [app].
  destruct ((-4 <=? e) && (e <? 16)) eqn:Epos.
  - rewrite split_once_none.
    + repeat case_match; bool_hyps; [apply layout_below|apply layout_above|apply layout_inside]; auto; lia.
    + repeat case_match; repeat apply not_in_app; try (by apply e_not_lit);
        apply e_not_digit; auto using zeros_digits, digits_take, digits_drop.
  - destruct (mantissa_splits ds Hne Hd) as (He' & Hm & Hsplit).
    match goal with |- context [?m ++ lit "e" ++ ?r] =>
      change (m ++ lit "e" ++ r) with (m ++ chr "e" :: r) end.
    rewrite split_once_app by done. rewrite exponent_reads by done.
    change (default 0 (Some e)) with e.
    rewrite Hm, Hsplit, take_drop. cbn [app]. clear He' Hm Hsplit.
    replace (len (take 1 ds) + e) with (e + 1)
      by (destruct ds; [done|]; unfold len; simpl; lia).
    repeat case_match; bool_hyps; [by apply layout_below| |apply layout_inside; auto; lia].
    rewrite <- (app_nil_r (zeros _)). apply layout_above; auto.
Qed.

End DollarFacts.

(** A negative amount with a one-digit mantissa keeps its sign in the middle of the digits. *)
Example dollars_negative :
  dollars (FF := {| scientific := fun _ => (lit "1", -5) |}) (dec (-1) 5) = lit "-0.000-1".
Proof. by vm_compute. Qed.

(** ** Limits that bind nothing *)
Lemma f64_lt_irrefl x : f64_lt x x = false.
Proof.
  destruct x as [s|s| |s m e]; [by destruct s..|done|].
  unfold f64_lt, SFltb, SFcompare.
  assert (Hm : (m ?= m)%positive = Eq) by apply Pos.compare_refl.
  assert (He : (e ?= e) = Eq) by apply Z.compare_refl.
  destruct s; rewrite He; cbn; rewrite Pos.compare_cont_refl || rewrite Hm; done.
Qed.

(** A server's ceilings bound every call: no limit a caller asks for puts the call's own
    above the ceiling, the step count by [<=] and the amounts by [f64]'s order. *)
Theorem bounded_never_above ceilings s d t :
  (forall m, max_steps ceilings = Some m ->
     exists n, max_steps (bounded ceilings s d t) = Some n /\ n <= m) /\
  (forall m, max_dollars ceilings = Some m ->
     exists n, max_dollars (bounded ceilings s d t) = Some n /\ f64_lt m n = false) /\
  (forall m, max_seconds ceilings = Some m ->
     exists n, max_seconds (bounded ceilings s d t) = Some n /\ f64_lt m n = false) /\
  max_jev_calls (bounded ceilings s d t) = max_jev_calls ceilings /\
  max_llm_calls (bounded ceilings s d t) = max_llm_calls ceilings.
Proof.
  unfold bounded, lower. simpl. split_and!; try done; intros m ->.
  - destruct s as [s|]; [|eauto with lia]. eexists. split; [done|]. case_match; bool_hyps; lia.
  - destruct d as [d|]; [|eauto using f64_lt_irrefl]. eexists. split; [done|].
    case_match; [apply f64_lt_irrefl|done].
  - destruct t as [t|]; [|eauto using f64_lt_irrefl]. eexists. split; [done|].
    case_match; [apply f64_lt_irrefl|done].
Qed.

Section Nan.
Context `{FF : FloatFormat}.

(** A dollar limit of NaN passes the command line's "greater than zero" check and then
    limits nothing: whatever has been spent and whatever a priced call may cost, no LLM call is
    ever refused under it. *)
Theorem nan_dollars_bind_nothing elapsed st estimate calls :
  has_unknown (lines st) = false ->
  exists limits, cli_limits None (Some f64_nan) = Ok limits /\
    fst (reserve limits elapsed st Llm estimate calls) = Ok tt.
Proof.
  intros Hu. eexists. split; [done|].
  destruct (reserve_spec (mkLimits None None None (Some f64_nan) None) elapsed st Llm estimate calls)
    as [[_ ->]|[Hw _]]; [done|].
  exfalso. apply Hw. split_and!; try done. intros m [= <-].
  rewrite f64_gt_nan, f64_ge_nan. by rewrite has_unknown_false in Hu.
Qed.
End Nan.

(** ** Witnesses *)
#[local] Existing Instance exact_format.

Definition priced (c : CostComponent) (d : f64) : CostLine := new_cost_line c Metered (Some d).
Definition example_limits : Limits :=
  mkLimits (Some 5) (Some 3) (Some 2) (Some (dec 25 2)) None.
Definition example_events : list event :=
  [Reserve false None Jev (dec 1 2) 2; Record_ false None [priced Jev (dec 1 2)];
   Reserve true None Jev (dec 1 2) 2; Step Executed; Step Stale;
   Reserve true None Jev (dec 1 2) 1; Reserve false None Llm (dec 2 1) 1;
   Record_ true None [priced Llm (dec 2 1)]; Reserve false None Llm (dec 2 1) 1].

Lemma example_sane : Forall sane example_events.
Proof. repeat (apply Forall_cons; split; [simpl; lia || done|]). apply Forall_nil_2. Qed.

Theorem call_caps_hold_witness :
  counted Jev (run_events example_limits empty_state example_events) = 3 /\
  granted example_limits Jev empty_state example_events <= 3 /\
  granted example_limits Llm empty_state example_events = 1.
Proof.
  split; [vm_compute; reflexivity|]. split; [|vm_compute; reflexivity].
  apply (call_caps_hold example_limits Jev 3 example_events);
    [apply example_sane|reflexivity|unfold i64_max; lia].
Defined.

Theorem unpriced_call_ends_spending_witness :
  let st := snd (record (handle example_limits false) None empty_state
                   [new_cost_line Llm Unknown None]) in
  is_ok (fst (reserve (handle example_limits true) None st Jev f64_zero 1)) = false.
Proof.
  apply (unpriced_call_ends_spending example_limits (dec 25 2) false None
           [new_cost_line Llm Unknown None] empty_state [] true None Jev f64_zero 1).
  - reflexivity.
  - constructor. by left.
Defined.

Definition fetch_limits : Limits := mkLimits None (Some 9) (Some 3) None None.

Theorem two_attempts_share_caps_witness :
  let spent := run_events fetch_limits empty_state example_events in
  let left_ := mkLimits None (Some 4) (Some 1) None None in
  remaining (Some fetch_limits) spent f64_zero = Ok (Some left_) /\
  granted fetch_limits Jev empty_state example_events
    + granted left_ Jev empty_state example_events <= 9.
Proof.
  cbv zeta. split; [vm_compute; reflexivity|].
  eapply (two_attempts_share_caps fetch_limits Jev 9 example_events _ f64_zero _ example_events);
    [apply example_sane|apply example_sane|reflexivity|unfold i64_max; lia|reflexivity
    |vm_compute; reflexivity].
Defined.

Theorem dollars_fixed_point_witness :
  dollars (f64_of_Z (10 ^ 20)) = lit "100000000000000000000" /\
  exists v, read_fixed (dollars (f64_of_Z (10 ^ 20))) = Some v /\
    same_decimal v (digits_value (lit "100000000000000000000"), 21 - 21).
Proof.
  split; [vm_compute; reflexivity|].
  apply (dollars_fixed_point (f64_of_Z (10 ^ 20)) (lit "100000000000000000000") 20);
    vm_compute; reflexivity.
Defined.

Theorem nan_dollars_bind_nothing_witness :
  exists limits, cli_limits None (Some f64_nan) = Ok limits /\
    fst (reserve limits None (mkLedgerState [priced Llm (f64_of_Z 1000000)] 0 0 0) Llm
           (f64_of_Z 1000) 1) = Ok tt.
Proof. apply nan_dollars_bind_nothing. reflexivity. Defined.
