(* ===== verification/Lax.v ===== *)
(** pydantic's lax reading of scalars: [crates/fastbrowse-core/src/py/lax.rs].

    [int_of], [float_of], [bool_of] and [strict_int_of] read a JSON value, [check] and
    [check_float] apply a field's bound, and [de_int] to [de_opt_float] are the readers the
    models' fields name.  [f64::from_str] is the interface [ReadFloat] of DateTime; how Rust
    prints a float bound in a message is [F64Display]. *)

From S2P Require Import Prelude Float64 PyText Json DateTime.

Class F64Display := { f64_display : f64 -> text }.

Definition int_from_str (s : text) : option Z :=
  let trimmed := trim_matches is_whitespace s in
  match (match split_once (chr ".") trimmed with
         | Some (whole, fraction) => if forallb (Z.eqb (chr "0")) fraction then Some whole else None
         | None => Some trimmed
         end) with
  | None => None
  | Some whole =>
      let digits :=
        match whole with
        | c :: rest => if (c =? chr "+") || (c =? chr "-") then rest else whole
        | [] => []
        end in
      if is_empty digits || starts_with digits (lit "_") || ends_with digits (lit "_")
         || contains_sub digits (lit "__") then None
      else if negb (forallb (fun b => is_ascii_digit b || (b =? chr "_")) digits) then None
      else parse_i64 (replace_char (chr "_") [] whole)
  end.

Definition not_an_int : text := lit "Input should be a valid integer".

Definition int_of (v : value) : result Z text :=
  match v with
  | Bool b => Ok (if b then 1 else 0)
  | Number (Int n) =>
      if in_range i64_min i64_max n then Ok n
      else
        let f := f64_of_Z n in
        if f64_integral f && is_finite f && f64_lt (f64_abs f) (f64_of_Z 9200000000000000000)
        then Ok (f64_trunc f)
        else Err (not_an_int ++ lit ", got a number with a fractional part")
  | Number (Float f) =>
      if f64_integral f && is_finite f && f64_lt (f64_abs f) (f64_of_Z 9200000000000000000)
      then Ok (f64_trunc f)
      else Err (not_an_int ++ lit ", got a number with a fractional part")
  | Str s => ok_or (int_from_str s) (not_an_int ++ lit ", unable to parse string as an integer")
  | _ => Err not_an_int
  end.

(** [as_f64] of a number. *)
Definition as_f64 (n : number) : f64 := match n with Int n => f64_of_Z n | Float f => f end.

Section Floats.
Context `{ReadFloat}.

(** [float(text)]. *)
Definition py_float (t : text) : option f64 :=
  let trimmed := trim_matches is_whitespace t in
  let lower := ascii_lower trimmed in
  let unsigned := trim_start (one_of (lit "+-")) lower in
  if existsb (teqb unsigned) [lit "inf"; lit "infinity"; lit "nan"]
  then read_float (replace (lit "infinity") (lit "inf") lower)
  else
    let parts := split_parts (Z.eqb (chr "_")) trimmed in
    let starts_digit (p : text) := match p with c :: _ => is_ascii_digit c | [] => false end in
    let ends_digit (p : text) := match rev p with c :: _ => is_ascii_digit c | [] => false end in
    let bad_underscore :=
      starts_with trimmed (lit "_") || ends_with trimmed (lit "_")
      || contains_sub trimmed (lit "__")
      || existsb (fun p => negb (starts_digit p)) (tail parts)
      || existsb (fun p => negb (ends_digit p)) (tail (rev parts)) in
    if is_empty trimmed || bad_underscore
       || negb (forallb (fun b => is_ascii_digit b || one_of (lit "+-.eE_") b) trimmed)
    then None
    else read_float (replace_char (chr "_") [] trimmed).

Definition float_of (v : value) : result f64 text :=
  match v with
  | Bool b => Ok (f64_of_Z (if b then 1 else 0))
  | Number n => Ok (as_f64 n)
  | Str s =>
      ok_or (py_float s) (lit "Input should be a valid number, unable to parse string as a number")
  | _ => Err (lit "Input should be a valid number")
  end.
End Floats.

Definition not_a_bool : text := lit "Input should be a valid boolean".

Definition bool_of (v : value) : result bool text :=
  match v with
  | Bool b => Ok b
  | Number n =>
      if f64_eq (as_f64 n) f64_zero then Ok false
      else if f64_eq (as_f64 n) (f64_of_Z 1) then Ok true
      else Err not_a_bool
  | Str s =>
      let word := ascii_lower s in
      if existsb (teqb word) [lit "0"; lit "off"; lit "f"; lit "false"; lit "n"; lit "no"]
      then Ok false
      else if existsb (teqb word) [lit "1"; lit "on"; lit "t"; lit "true"; lit "y"; lit "yes"]
      then Ok true
      else Err not_a_bool
  | _ => Err not_a_bool
  end.

Definition strict_int_of (v : value) : result Z text :=
  match v with
  | Number (Int n) => if in_range i64_min i64_max n then Ok n else Err not_an_int
  | _ => Err not_an_int
  end.

Inductive Bound (T : Type) :=
| NoBound
| Ge (b : T)
| Gt (b : T)
| Unit.
Arguments NoBound {T}.
Arguments Ge {T} b.
Arguments Gt {T} b.
Arguments Unit {T}.

(** [check] over a type's [<] and [<=] and its printing. *)
Definition check {T} (lt le : T -> T -> bool) (show : T -> text) (v : T) (bound : Bound T)
  : result T text :=
  match bound with
  | Ge b => if lt v b then Err (lit "Input should be greater than or equal to " ++ show b) else Ok v
  | Gt b => if le v b then Err (lit "Input should be greater than " ++ show b) else Ok v
  | _ => Ok v
  end.

Definition check_int : Z -> Bound Z -> result Z text := check Z.ltb Z.leb show_Z.

Section Readers.
Context `{ReadFloat} `{F64Display}.

Definition check_float (v : f64) (bound : Bound f64) : result f64 text :=
  match bound with
  | Unit =>
      if f64_le f64_zero v && f64_le v (f64_of_Z 1) then Ok v
      else if f64_lt v f64_zero then Err (lit "Input should be greater than or equal to 0")
      else Err (lit "Input should be less than or equal to 1")
  | other => check f64_lt f64_le f64_display v other
  end.

Definition de_int (v : value) (bound : Bound Z) : result Z text :=
  let? i := int_of v in check_int i bound.

Definition de_opt_int (v : value) (bound : Bound Z) : result (option Z) text :=
  match v with
  | Null => Ok None
  | v => let? i := int_of v in let? i := check_int i bound in Ok (Some i)
  end.

Definition de_float (v : value) (bound : Bound f64) : result f64 text :=
  let? f := float_of v in check_float f bound.

Definition de_opt_float (v : value) (bound : Bound f64) : result (option f64) text :=
  match v with
  | Null => Ok None
  | v => let? f := float_of v in let? f := check_float f bound in Ok (Some f)
  end.
End Readers.

(** * Properties *)
Lemma whole_part n :
  exists c rest, show_Z n = c :: rest /\
    forallb is_ascii_digit rest = true /\
    (is_ascii_digit c = true \/ (c = chr "-" /\ rest <> [])).
Proof.
  unfold show_Z. destruct (n <? 0) eqn:E; bool_hyps.
  - exists 45, (show_nat (- n)). split_and!; [done|by apply show_nat_spec; lia|].
    right. split; [done|apply show_nat_nonempty].
  - pose proof (show_nat_nonempty n). destruct (show_nat_spec n) as [_ Hd]; [done|].
    destruct (show_nat n) as [|c rest]; [done|]. simpl in Hd. apply andb_true_iff in Hd as [Hc Hd].
    exists c, rest. split_and!; auto.
Qed.

Lemma digit_not_space c : is_ascii_digit c = true -> is_whitespace c = false.
Proof.
  intros H. unfold is_ascii_digit, in_range in H. bool_hyps.
  assert (Hall : forallb (fun k => negb (is_whitespace (Z.of_nat k))) (seq 48 10) = true) by done.
  rewrite forallb_forall in Hall. apply negb_true_iff.
  rewrite <- (Z2Nat.id c) by lia. apply Hall, in_seq. lia.
Qed.

Lemma forallb_rev {A} (f : A -> bool) l : forallb f (rev l) = forallb f l.
Proof.
  induction l as [|x l IH]; simpl; [done|]. rewrite forallb_app, IH. simpl.
  by destruct (f x), (forallb f l).
Qed.

Lemma digits_no_underscore ds :
  forallb is_ascii_digit ds = true ->
  starts_with ds (lit "_") = false /\ ends_with ds (lit "_") = false /\
  contains_sub ds (lit "__") = false /\
  forallb (fun b => is_ascii_digit b || (b =? chr "_")) ds = true.
Proof.
  intros H.
  assert (Hstart : forall ds p, forallb is_ascii_digit ds = true -> starts_with ds (chr "_" :: p) = false).
  { intros [|d ds'] p Hd; [done|]. simpl in Hd. apply andb_true_iff in Hd as [Hd _].
    cbn [starts_with]. by replace (chr "_" =? d) with false by (symmetry; apply Z.eqb_neq; by intros <-). }
  split_and!.
  - by apply Hstart.
  - unfold ends_with. by apply Hstart; rewrite forallb_rev.
  - unfold contains_sub. destruct (find_sub (lit "__") ds) as [i|] eqn:E; [|done].
    apply find_sub_some in E as [E _]. rewrite (Hstart _ (lit "_")) in E; [done|].
    rewrite <- (take_drop i ds), forallb_app in H. by apply andb_true_iff in H as [_ ?].
  - rewrite forallb_forall in H |- *. intros x Hx. by rewrite H.
Qed.

Lemma replace_char_none c r t : c ∉ t -> replace_char c r t = t.
Proof.
  unfold replace_char. induction t as [|d t IH]; simpl; [done|]. intros H.
  rewrite (proj2 (Z.eqb_neq d c)) by set_solver. rewrite IH by set_solver. done.
Qed.

Lemma not_in_show c n : is_ascii_digit c = false -> c <> chr "-" -> c ∉ show_Z n.
Proof.
  intros Hc Hm. destruct (whole_part n) as (d & rest & -> & Hr & Hd). rewrite not_elem_of_cons. split.
  - intros ->. destruct Hd as [Hd|[-> _]]; congruence.
  - intros Hin. rewrite forallb_forall in Hr. apply list_elem_of_In in Hin. by rewrite Hr in Hc.
Qed.

Lemma int_from_whole n :
  i64_min <= n <= i64_max ->
  match show_Z n with
  | c :: rest => if (c =? chr "+") || (c =? chr "-") then rest else show_Z n
  | [] => []
  end <> [] /\
  forallb is_ascii_digit
    match show_Z n with
    | c :: rest => if (c =? chr "+") || (c =? chr "-") then rest else show_Z n
    | [] => []
    end = true /\
  parse_i64 (replace_char (chr "_") [] (show_Z n)) = Some n.
Proof.
  intros Hn. assert (Hp : parse_i64 (replace_char (chr "_") [] (show_Z n)) = Some n).
  { rewrite replace_char_none by (by apply not_in_show). by apply parse_int_show. }
  destruct (whole_part n) as (c & rest & E & Hr & Hd). rewrite E in *.
  destruct Hd as [Hc|[-> Hrest]].
  - replace (c =? chr "+") with false by (symmetry; apply Z.eqb_neq; by intros ->).
    replace (c =? chr "-") with false by (symmetry; apply Z.eqb_neq; by intros ->).
    split_and!; [done| |done]. simpl. by rewrite Hc.
  - by split_and!.
Qed.

(** A whole number written as text is read as that number: any [i64], with any whitespace
    around it and any run of zeros after a point. *)
Theorem int_from_str_reads n before after tail :
  i64_min <= n <= i64_max ->
  Forall (fun c => is_whitespace c = true) before -> Forall (fun c => is_whitespace c = true) after ->
  tail = [] \/ (exists k, tail = lit "." ++ replicate k (chr "0")) ->
  int_from_str (before ++ (show_Z n ++ tail) ++ after) = Some n.
Proof.
  intros Hn Hb Ha Ht. unfold int_from_str.
  destruct (whole_part n) as (c & rest & E & Hr & Hd).
  assert (Hlast : exists d, last (show_Z n ++ tail) = Some d /\ is_whitespace d = false).
  { destruct Ht as [-> | [k ->]].
    - rewrite app_nil_r, E. destruct (last (c :: rest)) as [d|] eqn:El; [|by apply last_None in El].
      exists d. split; [done|]. destruct rest as [|r rest].
      + simpl in El. injection El as <-. destruct Hd as [Hd|[-> ?]]; [by apply digit_not_space|done].
      + apply digit_not_space. rewrite last_cons_cons in El.
        apply last_Some_elem_of in El. rewrite forallb_forall in Hr.
        by apply Hr, list_elem_of_In.
    - destruct k as [|k].
      + change (lit "." ++ replicate 0 (chr "0")) with [chr "."]. rewrite last_snoc. by exists (chr ".").
      + rewrite app_assoc. exists (chr "0"). split; [|done]. rewrite replicate_S_end, app_assoc. by rewrite last_snoc. }
  destruct Hlast as (d & Hlast & Hdw).
  rewrite (trim_matches_around is_whitespace before (show_Z n ++ tail) after c d); try done;
    [|by rewrite E|destruct Hd as [Hd|[-> _]]; [by apply digit_not_space|done]].
  replace (match split_once (chr ".") (show_Z n ++ tail) with _ => _ end) with (Some (show_Z n)).
  - destruct (int_from_whole n Hn) as (Hne & Hdig & Hp).
    set (digits := match show_Z n with [] => [] | c :: rest => _ end) in *.
    destruct (digits_no_underscore digits Hdig) as (-> & -> & -> & ->).
    replace (is_empty digits) with false by (by destruct digits). done.
  - destruct Ht as [-> | [k ->]].
    + by rewrite app_nil_r, split_once_none by (by apply not_in_show).
    + change (lit "." ++ replicate k (chr "0")) with (chr "." :: replicate k (chr "0")).
      rewrite split_once_app by (by apply not_in_show).
      replace (forallb _ _) with true; [done|]. symmetry. apply forallb_forall.
      intros x Hx. apply list_elem_of_In, elem_of_replicate in Hx as [-> _]. done.
Qed.

Theorem int_from_str_reads_witness : int_from_str (lit "  -42.00 ") = Some (-42).
Proof.
  apply (int_from_str_reads (-42) (lit "  ") (lit " ") (lit ".00")).
  - unfold i64_min, i64_max. lia.
  - repeat constructor.
  - repeat constructor.
  - right. by exists 2%nat.
Defined.

(** A text limit of NaN passes the [Gt 0.0] bound of the [Limits] fields. *)
Lemma nan_text_is_a_limit `{ReadFloat} `{F64Display} :
  read_float (lit "nan") = Some f64_nan ->
  de_opt_float (Str (lit "NaN")) (Gt f64_zero) = Ok (Some f64_nan).
Proof.
  intros Hr. assert (E : py_float (lit "NaN") = read_float (lit "nan")) by (vm_compute; reflexivity).
  unfold de_opt_float, float_of. by rewrite E, Hr.
Qed.
