(* ===== verification/Config.v ===== *)
(** Run configuration and what a decision model allows: [crates/fastbrowse-core/src/config.rs]
    and [DecisionProfile] of [decision.rs]. *)

From S2P Require Import Prelude Float64 PyText.

Record Thresholds := mkThresholds {
  login_required_above : f64;
  bot_check_above : f64;
  irreversible_above : f64;
  requested_above : f64;
}.
Definition default_thresholds : Thresholds := mkThresholds (dec 70 2) (dec 70 2) (dec 50 2) (dec 50 2).

Record ObservationLimits := mkObservationLimits { group_size : Z }.
Definition default_observation : ObservationLimits := mkObservationLimits 30.

Definition JSON_CHARS_PER_TOKEN : f64 := dec 15 1.

Record TokenBudget := mkTokenBudget {
  state_plus_largest_question : Z;
  state_plus_all_questions : Z;
  batch_tokens : Z;
  chars_per_token : f64;
  decision_chars : option (Z * Z);
}.
Definition default_tokens : TokenBudget := mkTokenBudget 32000 64000 8000 (f64_of_Z 3) None.

(** Characters of state that fit beside [questions]. *)
Definition input_chars (b : TokenBudget) (questions : list text) : Z :=
  let sizes := map (fun q => f64_of_Z (len q)) questions in
  let '(largest, total) :=
    match decision_chars b with
    | None => (f64_mul (f64_of_Z (state_plus_largest_question b)) JSON_CHARS_PER_TOKEN,
               f64_mul (f64_of_Z (state_plus_all_questions b)) JSON_CHARS_PER_TOKEN)
    | Some (most, all) => (f64_of_Z most, f64_of_Z all)
    end in
  let biggest := fold_left f64_max sizes f64_zero in
  let room := f64_min (f64_sub largest biggest) (f64_sub total (py_sum sizes)) in
  Z.max (f64_to_i64 room) 0.

Record StallRules := mkStallRules { unchanged_actions : Z; max_recoveries : Z }.
Definition default_stall : StallRules := mkStallRules 3 1.

Record Config := mkConfig {
  thresholds : Thresholds;
  observation : ObservationLimits;
  tokens : TokenBudget;
  stall : StallRules;
  refuse_cookie_banners : bool;
  step_frames : bool;
  step_choices : bool;
  max_upload_bytes : Z;
  max_download_bytes : Z;
}.
Definition default_config : Config :=
  mkConfig default_thresholds default_observation default_tokens default_stall true false false
    (25 * 1024 * 1024) (512 * 1024 * 1024).

(** ** What a decision model allows *)
Definition MAX_CHOICE_OPTIONS : Z := 255.
Definition JEV_DOLLARS_PER_INPUT_TOKEN : f64 := f64_div (dec 42 3) (f64_of_Z 1000000).
Definition JEV_LONG_CONTEXT_TOKENS : Z := 262144.

Record DecisionProfile := mkDecisionProfile {
  max_choice_options : Z;
  max_score_levels : Z;
  max_questions : option nat;
  max_largest_tokens : Z;
  max_total_tokens : Z;
  max_request_bytes : option Z;
  dollars_per_input_token : option f64;
  images : bool;
  profile_thresholds : option Thresholds;
}.

Definition jev : DecisionProfile :=
  mkDecisionProfile MAX_CHOICE_OPTIONS 10 None 32000 64000 None (Some JEV_DOLLARS_PER_INPUT_TOKEN)
    false (Some default_thresholds).
Definition unknown : DecisionProfile :=
  mkDecisionProfile 26 10 (Some 64%nat) 32000 64000 (Some (64 * 1024)) None false None.
Definition perplexity (dollars_per_million : f64) : DecisionProfile :=
  mkDecisionProfile 255 10 (Some 128%nat) 256000 256000 (Some (32 * 1024 * 1024))
    (Some (f64_div dollars_per_million (f64_of_Z 1000000))) false None.

(** [rsplit('/').next()]. *)
Definition bare_name (model : text) : text :=
  match rsplit_once (chr "/") model with Some (_, bare) => bare | None => model end.

Definition for_model (model : text) : DecisionProfile :=
  let bare := bare_name model in
  if teqb bare (lit "jev") || starts_with bare (lit "jev-1.13") || starts_with bare (lit "jev-1.14") then jev
  else if starts_with bare (lit "jev-") then
    mkDecisionProfile MAX_CHOICE_OPTIONS 10 None 32000 64000 None (Some JEV_DOLLARS_PER_INPUT_TOKEN) false None
  else
    let name :=
      match strip_prefix model (lit "perplexity/") with
      | Some name => name
      | None => default model (strip_prefix model (lit "openai/"))
      end in
    let named (s : string) := teqb name (lit s) in
    if named "telnyx/decision-flash" || named "telnyx/decision-pro" then
      mkDecisionProfile 64 64 (Some 64%nat) 32000 64000 None None false None
    else if named "gpt-6-luna" then
      mkDecisionProfile 255 10 (Some 400%nat) 32000 64000 None
        (Some (f64_div (dec 10 2) (f64_of_Z 1000000))) false None
    else if named "pplx-decider-v1.2" || named "pplx-decider-latest"
            || named "pplx-decider-v1.1-27b" || named "pplx-decider-v1-27b" then
      perplexity (dec 2 2)
    else if named "pplx-decider-flash-v1.2" || named "pplx-decider-flash-latest" then
      perplexity (dec 1 2)
    else if named "liquid/d1" then
      mkDecisionProfile 26 10 (Some 64%nat) 32000 32768 (Some (64 * 1024)) None false None
    else if named "nimble" || named "tev1" then
      mkDecisionProfile 26 26 (Some 64%nat) 32000 64000 (Some (64 * 1024)) None false None
    else unknown.

Definition long_context (p : DecisionProfile) : DecisionProfile :=
  mkDecisionProfile (max_choice_options p) (max_score_levels p) (max_questions p)
    JEV_LONG_CONTEXT_TOKENS JEV_LONG_CONTEXT_TOKENS (max_request_bytes p) (dollars_per_input_token p)
    (images p) (profile_thresholds p).

Definition validated (p : DecisionProfile) : bool := bool_decide (is_Some (profile_thresholds p)).
#[export] Instance is_some_thresholds_dec (o : option Thresholds) : Decision (is_Some o) := is_Some_dec o.

(** The request's token limits once its byte cap is counted. *)
Definition total_limit (p : DecisionProfile) : Z :=
  match max_request_bytes p with
  | Some bytes => Z.min (max_total_tokens p) (f64_to_i64 (f64_div (f64_of_Z bytes) JSON_CHARS_PER_TOKEN))
  | None => max_total_tokens p
  end.
Definition largest_limit (p : DecisionProfile) : Z := Z.min (max_largest_tokens p) (total_limit p).

Definition fit (p : DecisionProfile) (config : option Config) : Config :=
  let config :=
    match config with
    | Some c => c
    | None =>
        mkConfig (default default_thresholds (profile_thresholds p)) default_observation default_tokens
          default_stall true false false (25 * 1024 * 1024) (512 * 1024 * 1024)
    end in
  let given := tokens config in
  let total := total_limit p in
  let largest := largest_limit p in
  let scale := f64_div (f64_of_Z (max_largest_tokens p)) (f64_of_Z (max_largest_tokens jev)) in
  let fitted budget limit :=
    f64_to_i64 (f64_mul (f64_min (f64_mul (f64_of_Z budget) scale) (f64_of_Z limit)) JSON_CHARS_PER_TOKEN) in
  mkConfig (thresholds config)
    (mkObservationLimits (Z.min (group_size (observation config)) (Z.max (max_choice_options p) 2)))
    (mkTokenBudget (Z.max (Z.min (state_plus_largest_question given) largest) 1)
       (Z.max (Z.min (state_plus_all_questions given) total) 1)
       (batch_tokens given) (chars_per_token given)
       (if f64_gt scale (f64_of_Z 1)
        then Some (fitted (state_plus_largest_question given) largest,
                   fitted (state_plus_all_questions given) total)
        else None))
    (stall config) (refuse_cookie_banners config) (step_frames config) (step_choices config)
    (max_upload_bytes config) (max_download_bytes config).

Definition input_dollars (p : DecisionProfile) (input_tokens : f64) : option f64 :=
  (fun price => f64_mul input_tokens price) <$> dollars_per_input_token p.

Example jev_leaves_the_default_config : fit jev None = default_config.
Proof. vm_compute. reflexivity. Qed.

Example long_context_fits : decision_chars (tokens (fit (long_context jev) None)) = Some (393216, 393216).
Proof. vm_compute. reflexivity. Qed.

(** Fitting a configuration to a model only ever tightens it: a choice offers no more options
    than the model takes, the token budgets are positive and within the model's request limits
    (its byte cap included) whenever those are, and nothing else the caller set changes. *)
Theorem fit_tightens p c :
  let c' := fit p (Some c) in
  group_size (observation c') <= group_size (observation c) /\
  group_size (observation c') <= Z.max (max_choice_options p) 2 /\
  1 <= state_plus_largest_question (tokens c') /\
  state_plus_largest_question (tokens c') <= Z.max 1 (Z.min (max_largest_tokens p) (total_limit p)) /\
  1 <= state_plus_all_questions (tokens c') <= Z.max 1 (total_limit p) /\
  state_plus_largest_question (tokens c') <= Z.max 1 (state_plus_largest_question (tokens c)) /\
  state_plus_all_questions (tokens c') <= Z.max 1 (state_plus_all_questions (tokens c)) /\
  thresholds c' = thresholds c /\ stall c' = stall c /\
  max_upload_bytes c' = max_upload_bytes c /\ max_download_bytes c' = max_download_bytes c.
Proof. cbv zeta. unfold fit, largest_limit. cbn. split_and!; try done; lia. Qed.
