(* ===== verification/Receipts.v ===== *)
(** What a decision request costs: the receipts of [crates/fastbrowse-clients/src/validation.rs].

    [reported_cost] and [estimated_cost] price an answered request, [input_cost] one that may
    never be answered, [with_discarded] adds the requests sent but not delivered, and
    [merged_cost] makes one receipt of several.  [current] is always the purpose of the enclosing
    [jev_purpose] scope. *)

From S2P Require Import Prelude Float64 PyText Json DateTime Models Ledger Lax Config.

(** ** Merged receipts *)
(** [Option]'s [Sum]: None if any is. *)
Fixpoint sum_options (l : list (option Z)) : option Z :=
  match l with
  | [] => Some 0
  | Some n :: l => (fun m => wrap64 (n + m)) <$> sum_options l
  | None :: _ => None
  end.
Definition sum_wrap (l : list Z) : Z := fold_left (fun a b => wrap64 (a + b)) l 0.

#[export] Instance JevPurpose_eq_dec : EqDecision JevPurpose.
Proof. solve_decision. Defined.

Definition merged_purpose (lines : list CostLine) : option JevPurpose :=
  match lines with
  | [] => None
  | l :: _ =>
      match decision_purpose l with
      | Some p => if forallb (fun l => bool_decide (decision_purpose l = Some p)) lines then Some p else None
      | None => None
      end
  end.

(** [current] is the purpose of the enclosing scope, if any. *)
Definition merged_cost (current : option JevPurpose) (lines : list CostLine) : CostLine :=
  let basis :=
    default Metered (find (fun b => existsb (fun l => bool_decide (basis l = b)) lines) [Unknown; Estimated]) in
  mkCostLine Jev basis
    (if existsb (fun l => match line_dollars l with None => true | Some _ => false end) lines then None
     else Some (py_sum (map (fun l => default f64_zero (line_dollars l)) lines)))
    None
    (match current with Some p => Some p | None => merged_purpose lines end)
    (sum_wrap (map input_tokens lines)) (sum_wrap (map output_tokens lines))
    (Some (py_sum (map (fun l => default f64_zero (seconds l)) lines)))
    (sum_options (map physical_requests lines)).

(** How a retried call is described: [{seconds:.1}] and [{seconds:.0}]. *)
Class FixedFormat := { one_decimal : f64 -> text; no_decimals : f64 -> text }.

Section Texts.
Context `{FixedFormat}.
Definition attempts_text (requests : Z) (seconds : f64) : text :=
  show_Z requests ++ lit " request" ++ (if requests =? 1 then [] else lit "s") ++ lit " in "
    ++ one_decimal seconds ++ lit "s".
Definition exhausted_text (requests : Z) (seconds : f64) (last : text) : text :=
  lit "Jev request failed after " ++ attempts_text requests seconds ++ lit "; last: " ++ last.
End Texts.

(** ** Prices *)
(** At the model's list price; without one the cost is unknown. *)
Definition estimated_cost (current : option JevPurpose) (price : option f64) (input output : Z) : CostLine :=
  mkCostLine Jev (match price with Some _ => Estimated | None => Unknown end)
    ((fun p => f64_mul (f64_of_Z input) p) <$> price) None current input output None None.

(** [number] and [dollars] of the wire values, and what a provider says a call cost. *)
Definition number_of (v : option value) : result f64 text :=
  match v with
  | Some (Number n) => if is_finite (as_f64 n) then Ok (as_f64 n) else Err (lit "expected a finite number")
  | _ => Err (lit "expected a finite number")
  end.

Definition probability (v : option value) : result f64 text :=
  let? p := number_of v in
  if f64_le f64_zero p && f64_le p (f64_of_Z 1) then Ok p else Err (lit "probability outside [0, 1]").

Definition token_count (v : option value) : result Z text :=
  match v with
  | Some (Number (Int n)) =>
      if in_range 0 i64_max n then Ok n else Err (lit "expected a nonnegative integer token count")
  | _ => Err (lit "expected a nonnegative integer token count")
  end.

Section Reported.
Context `{RF : ReadFloat}.

Definition wire_dollars (v : option value) : result f64 text :=
  let? amount :=
    (match v with
     | Some (Str t) =>
         match float_of (Str t) with
         | Ok x => Ok x
         | Err _ => Err (lit "could not convert string to float: " ++ repr t)
         end
     | other => number_of other
     end) in
  if negb (is_finite amount) || f64_lt amount f64_zero then Err (lit "expected a finite nonnegative cost")
  else Ok amount.

Definition reported_cost (current : option JevPurpose) (v : option value) (input output : Z) (price : option f64)
  : result CostLine text :=
  let? cost :=
    (match v with
     | None | Some Null => Ok None
     | Some v => let? c := wire_dollars (Some v) in Ok (Some c)
     end) in
  Ok (match cost with
      | Some c =>
          if negb (f64_eq c f64_zero) || (input =? 0)
          then mkCostLine Jev Metered (Some c) None current input output None None
          else estimated_cost current price input output
      | None => estimated_cost current price input output
      end).
End Reported.

(** ** Requests sent *)
(** A call's usage, shared with the request in flight. *)
Record RequestUsage := mkUsage {
  us_requests : Z;
  consecutive_5xx : Z;
  us_unaccounted : Z;
  failures : list text;
}.
Definition no_usage : RequestUsage := mkUsage 0 0 0 [].

Definition history `{FixedFormat} (u : RequestUsage) (secs : f64) : text := attempts_text (us_requests u) secs.

(** Each request sent but not delivered is charged as the one that answered. *)
Definition with_discarded (c : CostLine) (u : RequestUsage) : CostLine :=
  if us_unaccounted u =? 0 then
    mkCostLine (component c) (basis c) (line_dollars c) (purpose c) (decision_purpose c) (input_tokens c)
      (output_tokens c) (seconds c) (if 0 <? us_requests u then Some (us_requests u) else None)
  else
    let sent := wrap64 (1 + us_unaccounted u) in
    let b := match basis c with Unknown | Bounded => basis c | _ => Estimated end in
    mkCostLine (component c) (match line_dollars c with None => Unknown | Some _ => b end)
      ((fun d => f64_mul d (f64_of_Z sent)) <$> line_dollars c) (purpose c) (decision_purpose c)
      (wrap64 (input_tokens c * sent)) (output_tokens c) (seconds c) (Some (us_requests u)).

(** An answered response's [cost], timed. *)
Definition timed (c : CostLine) (u : RequestUsage) (secs : f64) : CostLine :=
  let c := with_discarded c u in
  mkCostLine (component c) (basis c) (line_dollars c) (purpose c) (decision_purpose c) (input_tokens c)
    (output_tokens c) (Some secs) (Some (us_requests u)).

Section InputCost.
Context `{FF : FloatFormat}.

Definition dumped_chars (body : value) : Z := Z.of_nat (length (dumps body)).

(** The text-only estimate of a request's input tokens. *)
Definition body_tokens (body : value) : f64 :=
  f64_div (f64_of_Z (dumped_chars body)) (chars_per_token default_tokens).

(** [image_context] is the route's documented context, for a request that carries images. *)
Definition input_cost (current : option JevPurpose) (body : value) (price : option f64)
    (image_context : option Z) : CostLine :=
  match image_context with
  | Some context =>
      mkCostLine Jev (match price with Some _ => Bounded | None => Unknown end)
        ((fun p => f64_mul (f64_of_Z context) p) <$> price) None current 0 0 None None
  | None => estimated_cost current price (f64_ceil_i64 (body_tokens body)) 0
  end.
End InputCost.

(** ** What a merged receipt claims *)
Lemma find_existsb (l : list CostBasis) (lines : list CostLine) :
  find (fun b => existsb (fun c => bool_decide (basis c = b)) lines) l
  = find (fun b => bool_decide (b ∈ map basis lines)) l.
Proof.
  induction l as [|b l IH]; [done|]. cbn [find]. rewrite IH.
  replace (existsb (fun c => bool_decide (basis c = b)) lines) with (bool_decide (b ∈ map basis lines)); [done|].
  apply eq_true_iff_eq. rewrite bool_decide_eq_true, existsb_exists, list_elem_of_fmap. split.
  - intros (c & -> & Hc). exists c. split; [by apply list_elem_of_In|by apply bool_decide_eq_true].
  - intros (c & Hc & E). exists c. bool_hyps. split; [done|by apply list_elem_of_In].
Qed.

(** A merged receipt claims what its lines do, as [combined_basis] reads them, when none is
    only bounded or not yet settled; and it adds their token counts up. *)
Theorem merged_basis_agrees current lines :
  Forall (fun l => basis l <> Bounded /\ basis l <> Unsettled) lines ->
  basis (merged_cost current lines) = combined_basis lines /\
  input_tokens (merged_cost current lines) = sum_wrap (map input_tokens lines).
Proof.
  intros Hl. split; [|done]. unfold merged_cost, combined_basis. cbn [basis]. rewrite find_existsb.
  rewrite Forall_forall in Hl. cbn [find].
  repeat case_bool_decide; cbn; try done.
  all: try match goal with Hin : Unsettled ∈ _ |- _ =>
    apply list_elem_of_fmap in Hin as (l & E & Hin); destruct (Hl l Hin); congruence end.
  all: match goal with Hin : Bounded ∈ _ |- _ =>
    apply list_elem_of_fmap in Hin as (l & E & Hin); destruct (Hl l Hin); congruence end.
Qed.

(** A bound merged with a metered receipt is claimed as metered, which no provider reported. *)
Theorem merged_cost_overclaims :
  let lines := [new_cost_line Jev Bounded (Some (dec 5 2)); new_cost_line Jev Metered (Some (dec 1 2))] in
  basis (merged_cost None lines) = Metered /\ combined_basis lines = Bounded.
Proof. vm_compute. split; reflexivity. Qed.

(** ** Examples *)
Definition floor_format : FixedFormat :=
  {| one_decimal x := show_Z (f64_trunc x) ++ lit ".0"; no_decimals x := show_Z (f64_trunc x) |}.

Theorem merged_basis_agrees_witness :
  basis (merged_cost None [new_cost_line Jev Estimated (Some (dec 5 2)); new_cost_line Jev Metered None])
  = combined_basis [new_cost_line Jev Estimated (Some (dec 5 2)); new_cost_line Jev Metered None].
Proof.
  apply (merged_basis_agrees None [new_cost_line Jev Estimated (Some (dec 5 2)); new_cost_line Jev Metered None]).
  repeat constructor; discriminate.
Defined.
