(* ===== verification/Spend.v ===== *)
(** The spend scopes a Jev call runs in: [JevSpend] of
    [crates/fastbrowse-clients/src/validation.rs].

    A scope's [Frame] says where its receipts go, which ledger handle prices its requests and
    which pending set it shares with the scopes around it.  Receipts and pending sets are shared
    objects, so they live in a store ([World]) and frames hold their addresses; handles of one
    run share its [LedgerState] and differ in their limits.  [scope_step] is one operation of any
    task, so a run of steps is any interleaving of the calls a run has under way. *)

From S2P Require Import Prelude Float64 PyText Json Models Ledger Lax Config Receipts.

(** [Lines]: the ledger's own list, by the handle it was passed as, or a caller's. *)
Inductive Lines := LedgerLines (handle : nat) | PaidLines (list_id : nat).
#[export] Instance Lines_eq_dec : EqDecision Lines.
Proof. solve_decision. Defined.

Record Frame := mkFrame { fr_lines : Lines; fr_ledger : option nat; fr_pending : nat }.

(** What a scope's end removes. *)
Record Registration := mkRegistration { rg_pending : nat; rg_lines : Lines; owned : bool }.

Record World := mkWorld {
  w_state : LedgerState;
  w_handles : list Limits;
  w_paid : list (list CostLine);
  w_pending : list (list Lines);
}.

Section Spend.
Context `{FF : FloatFormat}.

Definition snapshot (w : World) (l : Lines) : list CostLine :=
  match l with
  | LedgerLines _ => lines (w_state w)
  | PaidLines p => default [] (w_paid w !! p)
  end.

Definition extend (w : World) (l : Lines) (costs : list CostLine) : World :=
  match l with
  | LedgerLines _ =>
      let st := w_state w in
      mkWorld (mkLedgerState (lines st ++ costs) (steps st) (jev_calls st) (llm_calls st))
        (w_handles w) (w_paid w) (w_pending w)
  | PaidLines p => mkWorld (w_state w) (w_handles w) (alter (fun held => held ++ costs) p (w_paid w)) (w_pending w)
  end.

(** A Jev line recorded without a purpose takes the enclosing one. *)
Definition with_purpose (current : option JevPurpose) (c : CostLine) : CostLine :=
  match component c, decision_purpose c with
  | Jev, None =>
      mkCostLine (component c) (basis c) (line_dollars c) (purpose c) current (input_tokens c) (output_tokens c)
        (seconds c) (physical_requests c)
  | _, _ => c
  end.

(** [JevSpend::record]. *)
Definition record_spend (current : option JevPurpose) (w : World) (f : Frame) (costs : list CostLine) : World :=
  extend w (fr_lines f) (map (with_purpose current) costs).

(** [jev_spend] up to where its future runs: the store, the scope's frame and its registration. *)
Definition enter_scope (w : World) (parent : option Frame) (l : Lines) (ledger : option nat)
  : World * Frame * Registration :=
  let ledger := match ledger with Some h => Some h | None => parent ≫= fr_ledger end in
  let shared :=
    match parent with
    | Some p => if bool_decide (fr_ledger p = ledger) then Some (fr_pending p) else None
    | None => None
    end in
  let '(pending, sets) :=
    match shared with
    | Some p => (p, w_pending w)
    | None => (length (w_pending w), w_pending w ++ [[]])
    end in
  let owned := negb (bool_decide (l ∈ default [] (sets !! pending))) in
  let sets := if owned then alter (fun held => held ++ [l]) pending sets else sets in
  (mkWorld (w_state w) (w_handles w) (w_paid w) sets, mkFrame l ledger pending, mkRegistration pending l owned).

(** [Registration]'s drop. *)
Definition leave_scope (w : World) (r : Registration) : World :=
  if owned r
  then mkWorld (w_state w) (w_handles w) (w_paid w)
         (alter (base.filter (fun l => l <> rg_lines r)) (rg_pending r) (w_pending w))
  else w.

(** Every receipt held by a scope of the pending set, the ledger's own list apart. *)
Definition held_receipts (w : World) (pending handle : nat) : list CostLine :=
  concat (map (snapshot w)
    (base.filter (fun l => l <> LedgerLines handle) (default [] (w_pending w !! pending)))).

Definition check_jev_spend (elapsed : option f64) (w : World) (spend : option Frame) (estimate : f64)
  : result unit BudgetExceeded :=
  match spend with
  | None => Ok tt
  | Some f =>
      match fr_ledger f with
      | None => Ok tt
      | Some h =>
          match w_handles w !! h with
          | None => Ok tt
          | Some limits =>
              let st := w_state w in
              fst (reserve limits elapsed
                     (mkLedgerState (lines st ++ held_receipts w (fr_pending f) h) (steps st) (jev_calls st)
                        (llm_calls st)) Jev estimate 0)
          end
      end
  end.

(** ** Any interleaving of scopes *)
(** The store with the registrations of the scopes still open.  A task may enter a scope under
    any frame it has, or none; a dropped future leaves its scopes in any order. *)
Inductive scope_step : World * list Registration -> World * list Registration -> Prop :=
| step_enter w opened parent l ledger w' f r :
    (forall p, parent = Some p -> (fr_pending p < length (w_pending w))%nat) ->
    enter_scope w parent l ledger = (w', f, r) ->
    scope_step (w, opened) (w', r :: opened)
| step_leave w before r after :
    scope_step (w, before ++ r :: after) (leave_scope w r, before ++ after)
| step_record w opened current f costs :
    scope_step (w, opened) (record_spend current w f costs, opened)
| step_paid w opened :
    scope_step (w, opened)
      (mkWorld (w_state w) (w_handles w) (w_paid w ++ [[]]) (w_pending w), opened)
| step_ledger w opened st :
    scope_step (w, opened) (mkWorld st (w_handles w) (w_paid w) (w_pending w), opened).

Definition start_world (handles : list Limits) : World * list Registration :=
  (mkWorld empty_state handles [] [], []).
End Spend.

(** * Properties *)
Section SpendFacts.
Context `{FF : FloatFormat}.

(** The lists the open scopes of a pending set registered. *)
Definition registered (p : nat) (opened : list Registration) : list Lines :=
  map rg_lines (base.filter (fun r => owned r = true /\ rg_pending r = p) opened).

#[local] Arguments registered : simpl never.

Definition pending_exact (s : World * list Registration) : Prop :=
  (forall p held, w_pending s.1 !! p = Some held -> NoDup held /\ Permutation held (registered p s.2)) /\
  (forall r, r ∈ s.2 -> (rg_pending r < length (w_pending s.1))%nat).

Lemma registered_cons p r opened :
  registered p (r :: opened)
  = (if decide (owned r = true /\ rg_pending r = p) then [rg_lines r] else []) ++ registered p opened.
Proof. unfold registered. rewrite filter_cons. by destruct (decide _). Qed.

Lemma registered_app p a b : registered p (a ++ b) = registered p a ++ registered p b.
Proof. unfold registered. by rewrite filter_app, map_app. Qed.

(** Adding or removing one list of a set. *)
Lemma set_add (held : list Lines) l : NoDup held -> l ∉ held -> NoDup (held ++ [l]).
Proof. intros Hn Hl. apply NoDup_app. split_and!; [done| |apply NoDup_singleton]. set_solver. Qed.

Lemma set_remove (held : list Lines) l rest :
  NoDup held -> Permutation held (l :: rest) ->
  NoDup (base.filter (fun x => x <> l) held) /\ Permutation (base.filter (fun x => x <> l) held) rest.
Proof.
  intros Hn Hp. split; [by apply NoDup_filter|].
  assert (Hnr : NoDup (l :: rest)) by (by rewrite <- Hp). apply NoDup_cons in Hnr as [Hl Hnr].
  apply NoDup_Permutation; [by apply NoDup_filter|done|]. intros x.
  rewrite list_elem_of_filter, Hp, elem_of_cons. split; [naive_solver|]. intros Hx. split; [|by right].
  intros ->. done.
Qed.

Lemma registered_cons_other p r opened :
  ~ (owned r = true /\ rg_pending r = p) -> registered p (r :: opened) = registered p opened.
Proof. intros H. rewrite registered_cons. by destruct (decide _). Qed.

Lemma registered_cons_same r opened :
  owned r = true -> registered (rg_pending r) (r :: opened) = rg_lines r :: registered (rg_pending r) opened.
Proof. intros H. rewrite registered_cons. by rewrite decide_True by done. Qed.

Lemma registered_nil p opened : (forall r, r ∈ opened -> rg_pending r <> p) -> registered p opened = [].
Proof.
  induction opened as [|r opened IH]; intros H; [done|].
  rewrite registered_cons_other by (intros [_ E]; by apply (H r); [left|]).
  apply IH. intros r' Hr. apply H. by right.
Qed.

(** ** The pending sets stay exact *)
Lemma enter_scope_sets w parent l ledger w' f r :
  enter_scope w parent l ledger = (w', f, r) ->
  exists sets, (sets = w_pending w /\ (exists p, parent = Some p /\ rg_pending r = fr_pending p) \/
                sets = w_pending w ++ [[]] /\ rg_pending r = length (w_pending w)) /\
    rg_lines r = l /\
    owned r = negb (bool_decide (l ∈ default [] (sets !! rg_pending r))) /\
    w_pending w' = (if owned r then alter (fun held => held ++ [l]) (rg_pending r) sets else sets) /\
    fr_pending f = rg_pending r.
Proof.
  unfold enter_scope. cbv zeta. destruct parent as [p|]; cbn.
  - case_bool_decide; cbn; intros [= <- <- <-]; cbn; eexists; (split; [|done]); eauto.
  - intros [= <- <- <-]. cbn. eexists. split; [|done]. by right.
Qed.

Lemma pending_exact_grow w opened :
  pending_exact (w, opened) ->
  pending_exact (mkWorld (w_state w) (w_handles w) (w_paid w) (w_pending w ++ [[]]), opened).
Proof.
  intros [Hs Hr]. split; cbn in *.
  - intros p held Hp. apply lookup_app_Some in Hp as [Hp|[Hp E]]; [by apply Hs|].
    destruct (p - length (w_pending w))%nat eqn:Ep; cbn in E; [|done]. simplify_eq.
    rewrite (registered_nil p opened); [split; [constructor|done]|].
    intros r Hin E'. specialize (Hr r Hin). lia.
  - intros r Hin. specialize (Hr r Hin). rewrite length_app. lia.
Qed.

Lemma pending_exact_push w opened r :
  pending_exact (w, opened) -> (rg_pending r < length (w_pending w))%nat ->
  owned r = negb (bool_decide (rg_lines r ∈ default [] (w_pending w !! rg_pending r))) ->
  pending_exact
    (mkWorld (w_state w) (w_handles w) (w_paid w)
       (if owned r then alter (fun held => held ++ [rg_lines r]) (rg_pending r) (w_pending w) else w_pending w),
     r :: opened).
Proof.
  intros [Hs Hr] Hlt Ho. split; cbn in *.
  - intros p held Hp. destruct (owned r) eqn:Eo.
    + destruct (decide (p = rg_pending r)) as [->|Hne].
      * rewrite list_lookup_alter, decide_True in Hp by done. apply fmap_Some in Hp as (old & Hold & ->).
        rewrite Hold in Ho. cbn in Ho. symmetry in Ho. bool_hyps. destruct (Hs _ _ Hold) as [Hn Hp].
        rewrite registered_cons_same by done. split; [by apply set_add|].
        by rewrite Permutation_app_comm, Hp.
      * rewrite list_lookup_alter_ne in Hp by done. rewrite registered_cons_other by naive_solver. by apply Hs.
    + rewrite registered_cons_other by (rewrite Eo; naive_solver). by apply Hs.
  - intros r' Hin. assert (length (if owned r then alter (fun held => held ++ [rg_lines r]) (rg_pending r) (w_pending w)
                                   else w_pending w) = length (w_pending w)) as ->
      by (destruct (owned r); [apply length_alter|done]).
    apply elem_of_cons in Hin as [->|Hin]; [done|by apply Hr].
Qed.

Lemma registered_middle p before r after :
  Permutation (registered p (before ++ r :: after)) (registered p (r :: before ++ after)).
Proof.
  rewrite registered_app, !registered_cons, registered_app.
  destruct (decide _); cbn; [by rewrite <- Permutation_middle|done].
Qed.

Lemma scope_step_exact s s' : scope_step s s' -> pending_exact s -> pending_exact s'.
Proof.
  destruct 1 as [w opened parent l ledger w' f r Hparent He| | | |]; intros Hx.
  - destruct (enter_scope_sets _ _ _ _ _ _ _ He) as (sets & Hsets & Hl & Ho & Hw & _).
    assert (Hbase : pending_exact (mkWorld (w_state w) (w_handles w) (w_paid w) sets, opened) /\
    (rg_pending r < length sets)%nat).
    { destruct Hsets as [[-> (p & Hp & ->)]|[-> ->]].
      - split; [by destruct w|]. by apply Hparent.
      - split; [by apply pending_exact_grow|]. rewrite length_app. cbn. lia. }
    destruct Hbase as [Hbase Hlt]. pose proof (pending_exact_push _ _ r Hbase Hlt) as H.
    cbn in H. rewrite Hl in H. specialize (H Ho). destruct H as [H1 H2]. split; cbn in *; rewrite Hw; done.
  - unfold leave_scope. destruct Hx as [Hs Hr]. split; cbn in *.
    + intros p held Hp.
      destruct (owned r) eqn:Eo; cbn in Hp.
      * destruct (decide (p = rg_pending r)) as [->|Hne].
        -- rewrite list_lookup_alter, decide_True in Hp by done. apply fmap_Some in Hp as (old & Hold & ->).
           destruct (Hs _ _ Hold) as [Hn Hp]. rewrite registered_middle, registered_cons_same in Hp by done.
           by apply set_remove.
        -- rewrite list_lookup_alter_ne in Hp by done. destruct (Hs _ _ Hp) as [Hn Hq]. split; [done|].
           rewrite Hq, registered_middle. by rewrite registered_cons_other by naive_solver.
      * destruct (Hs _ _ Hp) as [Hn Hq]. split; [done|].
        rewrite Hq, registered_middle. by rewrite registered_cons_other by (rewrite Eo; naive_solver).
    + intros r' Hin. replace (length _) with (length (w_pending w)).
      * apply Hr. set_solver.
      * destruct (owned r); cbn; [by rewrite length_alter|done].
  - destruct Hx as [Hs Hr]. unfold record_spend, extend. by destruct (fr_lines f).
  - done.
  - done.
Qed.

Lemma scope_steps_exact handles s : rtc scope_step (start_world handles) s -> pending_exact s.
Proof.
  intros H. assert (Hstart : pending_exact (start_world handles)) by (split; cbn; [done|set_solver]).
  induction H; [done|]. eauto using scope_step_exact.
Qed.

(** Before a Jev request is sent, everything spent counts once.  However scopes were entered
    and left, the check of a request under a frame passes exactly when the frame's limits have
    room for its estimate beside the ledger's lines and the receipts of each list an open scope
    of its pending set holds, every such list counted a single time. *)
Theorem check_counts_each_receipt_once handles s f h limits elapsed estimate :
  rtc scope_step (start_world handles) s ->
  fr_ledger f = Some h -> w_handles s.1 !! h = Some limits -> (fr_pending f < length (w_pending s.1))%nat ->
  let st := w_state s.1 in
  exists scopes, NoDup scopes /\
    (forall l, l ∈ scopes <-> l <> LedgerLines h /\ l ∈ registered (fr_pending f) s.2) /\
    (check_jev_spend elapsed s.1 (Some f) estimate = Ok tt <->
     within limits elapsed
       (mkLedgerState (lines st ++ concat (map (snapshot s.1) scopes)) (steps st) (jev_calls st) (llm_calls st))
       Jev estimate 0).
Proof.
  intros Hs Hf Hh Hp st. apply scope_steps_exact in Hs as [Hs _].
  destruct (w_pending s.1 !! fr_pending f) as [held|] eqn:Eh; [|apply lookup_ge_None in Eh; lia].
  destruct (Hs _ _ Eh) as [Hn Hq]. exists (base.filter (fun l => l <> LedgerLines h) held). split_and!.
  - by apply NoDup_filter.
  - intros l. by rewrite list_elem_of_filter, Hq.
  - unfold check_jev_spend. rewrite Hf, Hh. unfold held_receipts. rewrite Eh. cbn.
    rewrite <- reservation_ok. unfold reserve. fold st.
    destruct (reservation _ _ _ _ _ _) as [[]|e]; done.
Qed.

(** Once a run has taken its last step, no Jev request is sent in its scope: the scope's
    frame prices every request against the run's own handle, whose step limit is reached, also
    when the request belongs to the final report, whose handle has no step limit. *)
Theorem step_limit_refuses_reporting limits m elapsed w f h estimate :
  fr_ledger f = Some h -> w_handles w !! h = Some limits ->
  max_steps limits = Some m -> m <= steps (w_state w) ->
  is_ok (check_jev_spend elapsed w (Some f) estimate) = false.
Proof.
  intros Hf Hh Hm Hle. unfold check_jev_spend. rewrite Hf, Hh.
  destruct (reserve_spec limits elapsed
    (mkLedgerState (lines (w_state w) ++ held_receipts w (fr_pending f) h) (steps (w_state w))
       (jev_calls (w_state w)) (llm_calls (w_state w))) Jev estimate 0) as [[Hw _]|[_ [e ->]]]; [|done].
  destruct Hw as (_ & _ & _ & Hs). specialize (Hs m Hm). cbn in Hs. lia.
Qed.
End SpendFacts.

(** ** Examples *)
#[local] Existing Instance exact_format.

Definition ten_cents : Limits := mkLimits (Some 3) None None (Some (dec 10 2)) None.
Definition five_cents : CostLine := new_cost_line Jev Metered (Some (dec 5 2)).

(** A run's scope on its ledger, a failover's list inside it and one receipt held there. *)
Definition sample_scopes : World * list Registration * Frame :=
  let w := fst (start_world [ten_cents]) in
  let '(w, run, r1) := enter_scope w None (LedgerLines 0) (Some 0%nat) in
  let w := mkWorld (w_state w) (w_handles w) (w_paid w ++ [[]]) (w_pending w) in
  let '(w, inner, r2) := enter_scope w (Some run) (PaidLines 0) None in
  (record_spend None w inner [five_cents], [r2; r1], inner).

(** The held receipt counts: six more cents do not fit, four do. *)
Theorem check_counts_each_receipt_once_witness :
  let '(w, opened, f) := sample_scopes in
  check_jev_spend None w (Some f) (dec 4 2) = Ok tt /\ is_ok (check_jev_spend None w (Some f) (dec 6 2)) = false /\
  exists scopes, NoDup scopes /\
    forall l, l ∈ scopes <-> l <> LedgerLines 0 /\ l ∈ registered (fr_pending f) opened.
Proof.
  unfold sample_scopes. cbv zeta.
  destruct (enter_scope (fst (start_world [ten_cents])) None (LedgerLines 0) (Some 0%nat)) as [[w1 f1] r1] eqn:E1.
  destruct (enter_scope (mkWorld (w_state w1) (w_handles w1) (w_paid w1 ++ [[]]) (w_pending w1)) (Some f1)
              (PaidLines 0) None) as [[w2 f2] r2] eqn:E2.
  assert (Hr : rtc scope_step (start_world [ten_cents]) (record_spend None w2 f2 [five_cents], [r2; r1])).
  { eapply rtc_l; [eapply (step_enter _ _ None (LedgerLines 0)); [done|exact E1]|].
    eapply rtc_l; [apply step_paid|].
    eapply rtc_l; [eapply step_enter; [|exact E2]|].
    - intros p [= <-]. vm_compute in E1. simplify_eq. cbn. lia.
    - eapply rtc_l; [apply step_record|]. apply rtc_refl. }
  destruct (check_counts_each_receipt_once [ten_cents] (record_spend None w2 f2 [five_cents], [r2; r1]) f2 0 ten_cents
              None (dec 4 2) Hr) as (scopes & Hn & Hin & _).
  - vm_compute in E1. simplify_eq. vm_compute in E2. by simplify_eq.
  - vm_compute in E1. simplify_eq. vm_compute in E2. by simplify_eq.
  - vm_compute in E1. simplify_eq. vm_compute in E2. simplify_eq. cbn. lia.
  - vm_compute in E1. simplify_eq. vm_compute in E2. simplify_eq.
    split; [vm_compute; reflexivity|]. split; [vm_compute; reflexivity|]. exists scopes. split; [done|]. exact Hin.
Defined.

(** Three steps of three taken: the report's reservation is granted and its request refused. *)
Definition stopped_world : World :=
  mkWorld (mkLedgerState [] 3 1 1) [ten_cents; for_answer ten_cents] [] [[LedgerLines 0]].
Theorem step_limit_refuses_reporting_witness :
  fst (reserve (for_answer ten_cents) None (w_state stopped_world) Jev f64_zero 1) = Ok tt /\
  is_ok (check_jev_spend None stopped_world (Some (mkFrame (LedgerLines 0) (Some 0%nat) 0)) f64_zero) = false.
Proof.
  split; [vm_compute; reflexivity|].
  apply (step_limit_refuses_reporting ten_cents 3 None stopped_world (mkFrame (LedgerLines 0) (Some 0%nat) 0) 0);
    [reflexivity|reflexivity|reflexivity|simpl; lia].
Defined.
