(* ===== verification/Decision.v ===== *)
(** The decision model's contract: [crates/fastbrowse-core/src/decision.rs], with the wire form
    of its questions and the strict reading of its answers in
    [crates/fastbrowse-clients/src/validation.rs] and [openai_decisions.rs].

    [Question] and [Answer] are the typed questions and calibrated answers, [Evaluation] and
    [DecisionError] what a call ends in; [parse_answers] is the one check every client's response
    passes through.  A criterion's description is a JSON value. *)

From S2P Require Import Prelude Float64 PyText Json DateTime Models Ledger Lax Config Receipts.

(** What a call answered and cost, over the type of its answers. *)
Record Evaluation (A : Type) := mkEvaluation {
  model : text;
  answers : list (text * A);
  ev_input_tokens : Z;
  ev_cost : CostLine;
  requests : Z;
}.
Arguments mkEvaluation {A}.
Arguments model {A}.
Arguments answers {A}.
Arguments ev_input_tokens {A}.
Arguments ev_cost {A}.
Arguments requests {A}.

Record RetriesExhausted (A : Type) := mkRetriesExhausted {
  message : text;
  ex_seconds : f64;
  unaccounted_requests : Z;
  ex_requests : Z;
  answered : list (Evaluation A);
  last_response : text;
}.
Arguments mkRetriesExhausted {A}.
Arguments message {A}.
Arguments ex_seconds {A}.
Arguments unaccounted_requests {A}.
Arguments ex_requests {A}.
Arguments answered {A}.
Arguments last_response {A}.

Inductive DecisionError (A : Type) :=
| DecisionFailed (m : text)
| InputTooLarge (m : text)
| TransportFailed (m : text)
| Exhausted (e : RetriesExhausted A)
| Rejected (m : text)
| Budget (e : BudgetExceeded).
Arguments DecisionFailed {A}.
Arguments InputTooLarge {A}.
Arguments TransportFailed {A}.
Arguments Exhausted {A}.
Arguments Rejected {A}.
Arguments Budget {A}.

Definition is_unavailable {A} (e : DecisionError A) : bool :=
  match e with TransportFailed _ | Exhausted _ => true | _ => false end.

(** ** Questions and answers *)
Record ChoiceQuestion := mkChoiceQuestion { ch_instructions : text; ch_criteria : list (text * value) }.
Record NoulQuestion := mkNoulQuestion {
  instructions : text; q_true : option text; q_false : option text;
}.
Record ScoreQuestion := mkScoreQuestion { sc_instructions : text; sc_criteria : list text }.

Inductive Question :=
| QChoice (q : ChoiceQuestion) | QNoul (q : NoulQuestion) | QScore (q : ScoreQuestion)
| QBox (box_instructions : text).

Record Edges := mkEdges { top : f64; bottom : f64; left_edge : f64; right_edge : f64 }.

Inductive Answer :=
| AChoice (choice : text) (probabilities : list (text * f64)) (confidence : f64)
| ANoul (p : f64)
| AScore (score : f64) (probabilities : list (text * f64)) (confidence : f64)
| ABox (edges : Edges) (confidence : option f64).

Definition EVEN_ODDS : f64 := dec 5 1.

Definition centre (e : Edges) : f64 * f64 :=
  (f64_div (f64_add (left_edge e) (right_edge e)) (f64_of_Z 2),
   f64_div (f64_add (top e) (bottom e)) (f64_of_Z 2)).

(** [Answer::probability]. *)
Definition noul_probability (a : Answer) : option f64 := match a with ANoul p => Some p | _ => None end.

(** The length a score question's levels may have. *)
Definition score_criteria (criteria : list text) : result (list text) text :=
  if (length criteria <? 2)%nat then Err (lit "Tuple should have at least 2 items after validation")
  else if (10 <? length criteria)%nat then Err (lit "Tuple should have at most 10 items after validation")
  else Ok criteria.

(** ** Images *)
Definition JEV_IMAGE_SIDE : Z := 1568.

Definition be32 (png : list Z) (at_ : nat) : Z :=
  fold_left (fun n b => n * 256 + b) (take 4 (drop at_ png)) 0.

Definition jev_takes_png (png : list Z) : bool :=
  if (length png <? 24)%nat || negb (starts_with png [0x89; 80; 78; 71; 13; 10; 0x1a; 10])
     || (16 * 1024 * 1024 <? Z.of_nat (length png)) then false
  else
    let width := be32 png 16 in
    let height := be32 png 20 in
    in_range 280 JEV_IMAGE_SIDE width && in_range 280 JEV_IMAGE_SIDE height
    && in_range 78400 2458624 (width * height).

(** The state without the values that name an image. *)
Definition names_image (images : list text) (v : value) : bool :=
  match v with Str t => bool_decide (t ∈ images) | _ => false end.

Fixpoint without_images (images : list text) (state : value) : value :=
  match state with
  | Object fields =>
      Object (concat (map (fun kv =>
        match kv with (k, v) => if names_image images v then [] else [(k, without_images images v)] end) fields))
  | Array items =>
      Array (concat (map (fun v => if names_image images v then [] else [without_images images v]) items))
  | other => other
  end.

(** ** The wire *)
Definition obj (fields : list (string * value)) : value := Object (map (fun kv => (lit kv.1, kv.2)) fields).

Definition wire_question (gateway : bool) (q : Question) : value :=
  match q with
  | QChoice q =>
      obj [("instructions"%string, Str (ch_instructions q)); ("type"%string, Str (lit "choice"));
           ("criteria"%string, Object (ch_criteria q))]
  | QNoul q =>
      let criteria :=
        match q_true q with Some yes => [("true"%string, Str yes)] | None => [] end
        ++ match q_false q with Some no => [("false"%string, Str no)] | None => [] end in
      obj ([("instructions"%string, Str (instructions q));
            ("type"%string, Str (if gateway then lit "boolean" else lit "noul"))]
           ++ if is_empty criteria then [] else [("criteria"%string, obj criteria)])
  | QScore q =>
      obj [("instructions"%string, Str (sc_instructions q)); ("type"%string, Str (lit "score"));
           ("criteria"%string, Array (map Str (sc_criteria q)))]
  | QBox i => obj [("instructions"%string, Str i); ("type"%string, Str (lit "box"))]
  end.

Definition wire_questions (questions : list (text * Question)) (gateway : bool) : value :=
  Object (map (fun kq => (kq.1, wire_question gateway kq.2)) questions).

Definition object_value (v : option value) : result (list (text * value)) text :=
  match v with Some (Object m) => Ok m | _ => Err (lit "expected an object") end.

Definition as_str (v : option value) : option text := match v with Some (Str t) => Some t | _ => None end.

(** *** [math.fsum] *)
(** One value folded into the partials: the nonzero remainders kept, and the running head. *)
Fixpoint grow (x : f64) (partials : list f64) : list f64 * f64 :=
  match partials with
  | [] => ([], x)
  | y :: partials =>
      let '(x, y) := if f64_lt (f64_abs x) (f64_abs y) then (y, x) else (x, y) in
      let high := f64_add x y in
      let low := f64_sub y (f64_sub high x) in
      let '(kept, x) := grow high partials in
      (if negb (f64_eq low f64_zero) then low :: kept else kept, x)
  end.

Definition partials_of (values : list f64) : list f64 :=
  fold_left (fun ps x => let '(kept, x) := grow x ps in kept ++ [x]) values [].

(** The partials from the largest down, until one leaves a remainder. *)
Fixpoint collapse (high low : f64) (rest : list f64) : f64 * f64 * list f64 :=
  match rest with
  | [] => (high, low, [])
  | y :: rest =>
      let x := high in
      let high := f64_add x y in
      let low := f64_sub y (f64_sub high x) in
      if negb (f64_eq low f64_zero) then (high, low, rest) else collapse high low rest
  end.

Definition fsum (values : list f64) : f64 :=
  match rev (partials_of values) with
  | [] => f64_zero
  | high :: rest =>
      let '(high, low, rest) := collapse high f64_zero rest in
      match rest with
      | next :: _ =>
          if (f64_lt low f64_zero && f64_lt next f64_zero) || (f64_gt low f64_zero && f64_gt next f64_zero)
          then
            let y := f64_mul low (f64_of_Z 2) in
            let x := f64_add high y in
            if f64_eq y (f64_sub x high) then x else high
          else high
      | [] => high
      end
  end.

(** *** Reading answers *)
Section Answers.
Context `{FF : FloatFormat}.

Fixpoint read_probabilities (fields : list (text * value)) (seen : list (text * f64))
  : result (list (text * f64)) text :=
  match fields with
  | [] => Ok seen
  | (k, v) :: fields => let? p := probability (Some v) in read_probabilities fields (im_insert k p seen)
  end.

(** How far rounded probabilities may drift from one. *)
Definition tolerance (n : nat) : f64 := f64_max (dec 2 2) (f64_mul (dec 5 3) (f64_of_Z (Z.of_nat n))).

Definition probabilities (v : option value) (keys : list text) : result (list (text * f64)) text :=
  let? raw := object_value v in
  if is_empty keys || negb (length raw =? length keys)%nat
     || negb (forallb (fun kv => bool_decide (kv.1 ∈ keys)) raw)
  then Err (lit "probability keys differ from criteria")
  else
    let? result := read_probabilities raw [] in
    let limit := tolerance (length result) in
    if f64_gt (f64_abs (f64_sub (fsum (map snd result)) (f64_of_Z 1))) (f64_add limit (dec 1 12))
    then Err (lit "probabilities do not sum to one within " ++ float_str limit)
    else Ok result.

Definition expected_type (gateway : bool) (q : Question) : text :=
  match q with
  | QChoice _ => lit "choice"
  | QNoul _ => if gateway then lit "boolean" else lit "noul"
  | QScore _ => lit "score"
  | QBox _ => lit "box"
  end.

Definition read_edges (answer : list (text * value)) (key : text) : result Edges text :=
  let? edges := object_value (im_get (lit "box") answer) in
  let? t := probability (im_get (lit "top") edges) in
  let? b := probability (im_get (lit "bottom") edges) in
  let? l := probability (im_get (lit "left") edges) in
  let? r := probability (im_get (lit "right") edges) in
  if f64_gt t b || f64_gt l r then Err (lit "box edges cross for " ++ key) else Ok (mkEdges t b l r).

(** One question's answer. *)
Definition parse_answer (gateway : bool) (confidence : option (list (text * value)))
    (key : text) (q : Question) (answer : list (text * value)) : result Answer text :=
  if negb (bool_decide (as_str (im_get (lit "type") answer) = Some (expected_type gateway q)))
  then Err (lit "incorrect answer type for " ++ key)
  else
    let confidence :=
      if gateway then confidence ≫= im_get key else im_get (lit "confidence") answer in
    match q with
    | QChoice q =>
        let? probs := probabilities (im_get (lit "probabilities") answer) (map fst (ch_criteria q)) in
        let? choice :=
          (match as_str (im_get (lit "choice") answer) with
           | Some choice => if im_contains choice probs then Ok choice
                            else Err (lit "choice outside criteria for " ++ key)
           | None => Err (lit "choice outside criteria for " ++ key)
           end) in
        let? c := probability confidence in
        Ok (AChoice choice probs c)
    | QNoul _ =>
        let? p := probability (im_get (if gateway then lit "probability" else lit "noul") answer) in
        Ok (ANoul p)
    | QScore q =>
        let levels := map (fun i => show_Z (Z.of_nat i)) (seq 0 (length (sc_criteria q))) in
        let? probs := probabilities (im_get (lit "probabilities") answer) levels in
        let? score := number_of (im_get (lit "score") answer) in
        if negb (f64_le f64_zero score && f64_le score (f64_of_Z (Z.of_nat (length (sc_criteria q)) - 1)))
        then Err (lit "score outside levels for " ++ key)
        else
          let? c := probability confidence in
          Ok (AScore score probs c)
    | QBox _ =>
        let? edges := read_edges answer key in
        let? c :=
          (match confidence with
           | None | Some Null => Ok None
           | v => let? p := probability v in Ok (Some p)
           end) in
        Ok (ABox edges c)
    end.

(** The loop over the questions. *)
Fixpoint parse_each (raw : list (text * value)) (gateway : bool) (confidence : option (list (text * value)))
    (questions : list (text * Question)) : result (list (text * Answer)) text :=
  match questions with
  | [] => Ok []
  | (key, q) :: questions =>
      let? answer := object_value (im_get key raw) in
      let? parsed := parse_answer gateway confidence key q answer in
      let? rest := parse_each raw gateway confidence questions in
      Ok ((key, parsed) :: rest)
  end.

Definition parse_answers (v : option value) (questions : list (text * Question)) (gateway : bool)
    (confidence : option (list (text * value))) : result (list (text * Answer)) text :=
  let? raw := object_value v in
  if negb (length raw =? length questions)%nat || negb (forallb (fun kv => im_contains kv.1 questions) raw)
  then Err (lit "answer ids differ from question ids")
  else parse_each raw gateway confidence questions.

(** ** OpenAI's Decisions API *)
Definition description (key : text) (criterion : value) : text :=
  match criterion with Str t => t | Null => key | other => dumps other end.

Definition decisions_question (name : text) (q : Question) : value :=
  match q with
  | QNoul q =>
      let means (answer : text) (m : option text) :=
        match m with Some m => [10] ++ answer ++ lit " means: " ++ m | None => [] end in
      obj [("type"%string, Str (lit "predicate")); ("name"%string, Str name);
           ("instructions"%string,
            Str (instructions q ++ means (lit "Yes") (q_true q) ++ means (lit "No") (q_false q)))]
  | QChoice q =>
      obj [("type"%string, Str (lit "choice")); ("name"%string, Str name);
           ("instructions"%string, Str (ch_instructions q));
           ("choices"%string, Array (map (fun kc =>
              obj [("value"%string, Str kc.1); ("description"%string, Str (description kc.1 kc.2))]) (ch_criteria q)))]
  | QScore q =>
      obj [("type"%string, Str (lit "score")); ("name"%string, Str name);
           ("instructions"%string, Str (sc_instructions q));
           ("levels"%string, Array (imap (fun i level =>
              obj [("label"%string, Str (show_Z (Z.of_nat i))); ("description"%string, Str level)]) (sc_criteria q)))]
  | QBox i =>
      obj [("type"%string, Str (lit "box")); ("name"%string, Str name); ("instructions"%string, Str i)]
  end.

Definition decisions_questions (questions : list (text * Question)) : value :=
  Array (map (fun kq => decisions_question kq.1 kq.2) questions).
End Answers.

(** A JSON value as [serde_json] displays it. *)
Class ValueText := { value_text : value -> text }.

Section SystemOne.
Context `{ValueText}.

Definition null_or (v : option value) : value := default Null v.

(** [{value, probability}] items keyed by [field]. *)
Fixpoint keyed_from (items : list value) (field : text) (seen : list (text * value))
  : result (list (text * value)) text :=
  match items with
  | [] => Ok seen
  | item :: items =>
      let? item := object_value (Some item) in
      let? key :=
        (match im_get field item with
         | Some (Str key) => Ok key
         | Some (Number n) => Ok (value_text (Number n))
         | _ => Err (lit "a probability without its " ++ field)
         end) in
      keyed_from items field (im_insert key (null_or (im_get (lit "probability") item)) seen)
  end.

Definition keyed_probabilities (v : option value) (field : text) : result value text :=
  match v with
  | Some (Array items) => let? keyed := keyed_from items field [] in Ok (Object keyed)
  | _ => Err (lit "probabilities are not a list")
  end.

Definition system_one_answer (name : text) (item : list (text * value)) : result value text :=
  let get := fun k => null_or (im_get (lit k) item) in
  match as_str (im_get (lit "type") item) with
  | None => Err (lit "incorrect answer type for " ++ name)
  | Some kind =>
      if teqb kind (lit "predicate") then
        Ok (obj [("type"%string, Str (lit "noul")); ("noul"%string, get "probability"%string)])
      else if teqb kind (lit "choice") then
        let? probs := keyed_probabilities (im_get (lit "probabilities") item) (lit "value") in
        Ok (obj [("type"%string, Str (lit "choice")); ("choice"%string, get "choice"%string);
                 ("probabilities"%string, probs); ("confidence"%string, get "confidence"%string)])
      else if teqb kind (lit "score") then
        let? probs := keyed_probabilities (im_get (lit "probabilities") item) (lit "label") in
        Ok (obj [("type"%string, Str (lit "score")); ("score"%string, get "score"%string);
                 ("probabilities"%string, probs); ("confidence"%string, get "confidence"%string)])
      else if teqb kind (lit "refusal") then Err (lit "the model refused " ++ name)
      else Err (lit "incorrect answer type for " ++ name)
  end.

Fixpoint system_one_from (items : list value) (seen : list (text * value)) : result value text :=
  match items with
  | [] => Ok (Object seen)
  | item :: items =>
      let? item := object_value (Some item) in
      match im_get (lit "name") item with
      | Some (Str name) =>
          let? answer := system_one_answer name item in
          if im_contains name seen then Err (lit "two answers for " ++ name)
          else system_one_from items (im_insert name answer seen)
      | _ => Err (lit "an answer without its name")
      end
  end.

(** The answers array rewritten as System One's object. *)
Definition system_one_answers (v : option value) : result value text :=
  match v with
  | Some (Array items) => system_one_from items []
  | _ => Err (lit "answers are not a list")
  end.

Definition decisions_input (state : value) : value :=
  match state with
  | Str t => Str t
  | other =>
      Array [obj [("role"%string, Str (lit "user"));
                  ("content"%string, Array [obj [("type"%string, Str (lit "input_json")); ("data"%string, other)]])]]
  end.
End SystemOne.

(** * Properties *)
Definition unit_interval (p : f64) : Prop := f64_le f64_zero p = true /\ f64_le p (f64_of_Z 1) = true.

(** What an accepted answer to a question is. *)
Definition answers_question (q : Question) (a : Answer) : Prop :=
  match q, a with
  | QChoice q, AChoice choice probs c =>
      choice ∈ map fst (ch_criteria q) /\ choice ∈ map fst probs /\
      (forall k, k ∈ map fst probs -> k ∈ map fst (ch_criteria q)) /\
      Forall (fun kp => unit_interval kp.2) probs /\ unit_interval c
  | QNoul _, ANoul p => unit_interval p
  | QScore q, AScore score probs c =>
      f64_le f64_zero score = true /\ f64_le score (f64_of_Z (Z.of_nat (length (sc_criteria q)) - 1)) = true /\
      Forall (fun kp => unit_interval kp.2) probs /\ unit_interval c
  | QBox _, ABox e c =>
      unit_interval (top e) /\ unit_interval (bottom e) /\ unit_interval (left_edge e) /\
      unit_interval (right_edge e) /\ f64_gt (top e) (bottom e) = false /\
      f64_gt (left_edge e) (right_edge e) = false /\ (forall p, c = Some p -> unit_interval p)
  | _, _ => False
  end.

Lemma bind_ok {A B E} (r : result A E) (k : A -> result B E) b :
  (let? x := r in k x) = Ok b -> exists a, r = Ok a /\ k a = Ok b.
Proof. destruct r as [a|e]; [eauto|done]. Qed.

(** Peels the [let?]s and tests of a reading known to succeed. *)
Ltac peel_reading :=
  repeat match goal with
  | H : (let? _ := _ in _) = Ok _ |- _ =>
      apply bind_ok in H; let a := fresh "got" in let E := fresh "Egot" in destruct H as (a & E & H)
  | H : (if ?b then Err _ else _) = Ok _ |- _ => let E := fresh "Eif" in destruct b eqn:E; [done|]
  end.

Lemma probability_unit v p : probability v = Ok p -> unit_interval p.
Proof.
  unfold probability. intros H. peel_reading.
  destruct (f64_le f64_zero got && f64_le got (f64_of_Z 1)) eqn:E; [|done].
  injection H as <-. bool_hyps. by split.
Qed.

Lemma read_probabilities_spec fields : forall seen out,
  read_probabilities fields seen = Ok out -> Forall (fun kp => unit_interval kp.2) seen ->
  Forall (fun kp => unit_interval kp.2) out /\
  forall k, k ∈ im_keys out <-> k ∈ im_keys seen \/ k ∈ map fst fields.
Proof.
  induction fields as [|[k v] fields IH]; intros seen out H Hs; cbn in H.
  - injection H as <-. split; [done|]. intros k. set_solver.
  - peel_reading. apply probability_unit in Egot. destruct (IH _ _ H) as [Hu Hk].
    + apply Forall_forall. intros x Hx. apply im_insert_elem in Hx as [->|Hx]; [done|].
      rewrite Forall_forall in Hs. by apply Hs.
    + split; [done|]. intros k'. rewrite Hk, im_keys_insert. cbn. set_solver.
Qed.

Section AnswerFacts.
Context `{FF : FloatFormat}.

Lemma probabilities_spec v keys out :
  probabilities v keys = Ok out ->
  Forall (fun kp => unit_interval kp.2) out /\ forall k, k ∈ im_keys out -> k ∈ keys.
Proof.
  unfold probabilities. intros H. peel_reading. injection H as <-.
  destruct (read_probabilities_spec _ _ _ Egot0 ltac:(constructor)) as [Hu Hk]. split; [done|].
  intros k Hin. apply Hk in Hin as [Hin|Hin]; [by apply elem_of_nil in Hin|].
  bool_hyps. rewrite forallb_forall in *.
  apply list_elem_of_fmap in Hin as (kv & -> & Hkv).
  match goal with Hall : forall x, In x _ -> _ |- _ => specialize (Hall kv (proj1 (list_elem_of_In _ _) Hkv)) end.
  by bool_hyps.
Qed.

Lemma read_edges_spec answer key e :
  read_edges answer key = Ok e ->
  unit_interval (top e) /\ unit_interval (bottom e) /\ unit_interval (left_edge e) /\ unit_interval (right_edge e) /\
  f64_gt (top e) (bottom e) = false /\ f64_gt (left_edge e) (right_edge e) = false.
Proof.
  unfold read_edges. intros H. peel_reading. injection H as <-. cbn.
  apply orb_false_iff in Eif as [? ?]. split_and!; eauto using probability_unit.
Qed.

Lemma parse_answer_spec gateway confidence key q answer a :
  parse_answer gateway confidence key q answer = Ok a -> answers_question q a.
Proof.
  unfold parse_answer. destruct (negb _); [done|]. destruct q as [q|q|q|i]; intros H; peel_reading.
  - injection H as <-. destruct (probabilities_spec _ _ _ Egot) as [Hu Hk].
    destruct (as_str _) as [choice|]; [|done]. destruct (im_contains choice got) eqn:Ec; [|done].
    injection Egot0 as <-. apply im_contains_spec in Ec. cbn. split_and!; eauto using probability_unit.
  - injection H as <-. cbn. eauto using probability_unit.
  - injection H as <-. bool_hyps. destruct (probabilities_spec _ _ _ Egot) as [Hu _].
    cbn. split_and!; eauto using probability_unit.
  - injection H as <-. destruct (read_edges_spec _ _ _ Egot) as (? & ? & ? & ? & ? & ?). cbn.
    split_and!; try done. intros p ->.
    match goal with H : _ = Ok (Some p) |- _ => revert H end.
    intros Hc. repeat case_match; simplify_eq; peel_reading; simplify_eq; eauto using probability_unit.
Qed.

Lemma parse_answers_spec v questions gateway confidence answers :
  parse_answers v questions gateway confidence = Ok answers ->
  Forall2 (fun kq ka => ka.1 = kq.1 /\ answers_question kq.2 ka.2) questions answers.
Proof.
  unfold parse_answers. intros H. peel_reading. clear Eif Egot v. revert answers H.
  induction questions as [|[key q] questions IH]; intros answers H; cbn in H.
  - injection H as <-. constructor.
  - peel_reading. injection H as <-. constructor; [|by apply IH].
    split; [done|]. eapply parse_answer_spec; eauto.
Qed.

(** No answer reaches a run unless it answers its question: what [parse_answers] accepts has
    one answer per question, in the questions' order and of the question's kind, where a choice
    is one of the options offered, a score is on its scale, a box's edges do not cross, and every
    probability and confidence lies between zero and one (so none is NaN). *)
Theorem parse_answers_sound v questions gateway confidence answers :
  parse_answers v questions gateway confidence = Ok answers ->
  Forall2 (fun kq ka => ka.1 = kq.1 /\ answers_question kq.2 ka.2) questions answers.
Proof. apply parse_answers_spec. Qed.
End AnswerFacts.

(** ** Examples *)
#[local] Existing Instance exact_format.

Definition gateway_questions : list (text * Question) :=
  [(lit "green", QNoul (mkNoulQuestion (lit "Is it green?") None None));
   (lit "col", QChoice (mkChoiceQuestion (lit "Which colour?") [(lit "red", Null); (lit "blue", Null)]));
   (lit "sc", QScore (mkScoreQuestion (lit "How sure?") [lit "low"; lit "mid"; lit "high"]))].
Definition int_probabilities (ps : list (string * Z)) : value :=
  obj (map (fun kp => (kp.1, Number (Int kp.2))) ps).
Definition gateway_response : value :=
  obj [("green"%string, obj [("type"%string, Str (lit "boolean")); ("probability"%string, Number (Float (dec 2 2)))]);
       ("col"%string, obj [("type"%string, Str (lit "choice")); ("choice"%string, Str (lit "blue"));
                           ("probabilities"%string, int_probabilities [("blue"%string, 1); ("red"%string, 0)])]);
       ("sc"%string, obj [("type"%string, Str (lit "score")); ("score"%string, Number (Float (dec 199 2)));
                          ("probabilities"%string,
                           int_probabilities [("0"%string, 0); ("1"%string, 0); ("2"%string, 1)])])].
Definition gateway_confidence : list (text * value) :=
  [(lit "col", Number (Int 1)); (lit "sc", Number (Float (dec 99 2)))].

Theorem parse_answers_sound_witness :
  exists answers, parse_answers (Some gateway_response) gateway_questions true (Some gateway_confidence) = Ok answers /\
    Forall2 (fun kq ka => ka.1 = kq.1 /\ answers_question kq.2 ka.2) gateway_questions answers.
Proof.
  eexists. split; [vm_compute; reflexivity|].
  apply (parse_answers_sound (Some gateway_response) gateway_questions true (Some gateway_confidence)).
  vm_compute. reflexivity.
Defined.

(** A choice the question does not offer, and probabilities that do not sum to one, are refused. *)
Example other_choice_refused :
  is_ok (parse_answers (Some (obj [("col"%string, obj [("type"%string, Str (lit "choice")); ("choice"%string, Str (lit "green"));
    ("probabilities"%string, int_probabilities [("blue"%string, 1); ("red"%string, 0)]);
    ("confidence"%string, Number (Int 1))])])) (take 1 (drop 1 gateway_questions)) false None) = false.
Proof. vm_compute. reflexivity. Qed.

(** [fsum] is exact where a running total drifts: ten tenths are one. *)
Example fsum_tenths : fsum (repeat (dec 1 1) 10) = f64_of_Z 1.
Proof. vm_compute. reflexivity. Qed.
Example fsum_cancels : fsum [f64_of_Z (10 ^ 16); f64_of_Z 1; f64_of_Z (- 10 ^ 16)] = f64_of_Z 1.
Proof. vm_compute. reflexivity. Qed.
