(* ===== verification/Schema.v ===== *)
(** Types as their JSON Schema sees them: [crates/fastbrowse-core/src/schema.rs].

    [Ty] is the tree a response model describes itself with; [json_schema] writes it as
    pydantic's generator does.  The generator's state is [Generator]: the mode, the definitions
    written so far by name, and every distinct model under a name.  How a title capitalises is
    Unicode's ([PyText.title]). *)

From S2P Require Import Prelude Float64 PyText Json DateTime Lax Models Ledger Config Receipts Decision.

(** ** The tree *)
Record EnumTy := mkEnumTy { en_name : text; en_doc : option text; en_values : list value }.

Record Field (T : Type) := mkField {
  f_name : text;
  f_alias : option text;
  f_ty : T;
  f_default : option value;
  f_description : option text;
  f_factory : bool;
  f_exclude : bool;
  f_omitted_when_empty : bool;
}.
Arguments mkField {T}.
Arguments f_name {T}.
Arguments f_alias {T}.
Arguments f_ty {T}.
Arguments f_default {T}.
Arguments f_description {T}.
Arguments f_factory {T}.
Arguments f_exclude {T}.
Arguments f_omitted_when_empty {T}.

Record ModelTy (T : Type) := mkModelTy {
  m_name : text;
  m_module : text;
  m_doc : option text;
  forbid_extra : bool;
  m_fields : list (Field T);
}.
Arguments mkModelTy {T}.
Arguments m_name {T}.
Arguments m_module {T}.
Arguments m_doc {T}.
Arguments forbid_extra {T}.
Arguments m_fields {T}.

Inductive Ty :=
| TStr | TInt | TFloat | TBool | TNull | TAny | TJsonValue | TDateTime | TBytes | TBase64 | TImage | TPath
| TList (item : Ty)
| TTuple (items : list Ty)
| TSet (item : Ty)
| TMap (item : Ty)
| TOptional (inner : Ty)
| TUnion (options : list Ty)
| TLiteral (values : list value)
| TEnum (definition : EnumTy)
| TModel (model : ModelTy Ty)
| TAlias (name : text) (inner : Ty)
| TTagged (property : text) (variants : list (text * Ty))
| TConstrained (inner : Ty) (keywords : list (text * value)).

(** *** Builders *)
Definition ty_literal (v : text) : Ty := TLiteral [Str v].
Definition ty_literals (vs : list text) : Ty := TLiteral (map Str vs).
Definition constrained (t : Ty) (keyword : text) (bound : value) : Ty :=
  match t with
  | TConstrained inner keywords => TConstrained inner (keywords ++ [(keyword, bound)])
  | other => TConstrained other [(keyword, bound)]
  end.
Definition ty_ge (t : Ty) (bound : value) : Ty := constrained t (lit "minimum") bound.
Definition ty_gt (t : Ty) (bound : value) : Ty := constrained t (lit "exclusiveMinimum") bound.
Definition ty_le (t : Ty) (bound : value) : Ty := constrained t (lit "maximum") bound.

Fixpoint titled (t : Ty) : bool :=
  match t with
  | TModel _ | TEnum _ | TTagged _ _ | TAlias _ _ | TJsonValue => false
  | TOptional inner => titled inner
  | _ => true
  end.

Definition required_field (name : text) (t : Ty) : Field Ty := mkField name None t None None false false false.
Definition default_field (name : text) (t : Ty) (d : value) : Field Ty :=
  mkField name None t (Some d) None false false false.
Definition factory_field (name : text) (t : Ty) : Field Ty := mkField name None t None None true false false.
Definition excluded (f : Field Ty) : Field Ty :=
  mkField (f_name f) (f_alias f) (f_ty f) (f_default f) (f_description f) (f_factory f) true (f_omitted_when_empty f).
Definition omitted_when_empty (f : Field Ty) : Field Ty :=
  mkField (f_name f) (f_alias f) (f_ty f) (f_default f) (f_description f) (f_factory f) (f_exclude f) true.
Definition described (f : Field Ty) (doc : text) : Field Ty :=
  mkField (f_name f) (f_alias f) (f_ty f) (f_default f) (Some doc) (f_factory f) (f_exclude f) (f_omitted_when_empty f).
Definition f_key {T} (f : Field T) : text := default (f_name f) (f_alias f).
Definition is_required {T} (f : Field T) : bool :=
  match f_default f with None => negb (f_factory f) | Some _ => false end.
Definition frozen (name : text) (fields : list (Field Ty)) : ModelTy Ty :=
  mkModelTy name (lit "fastbrowse.models") None true fields.

(** *** Structure: a size that bounds recursion and an induction principle through the lists *)
Section Induction.
Context (P : Ty -> Prop).
Context (Hscalar : forall t, (match t with
  | TStr | TInt | TFloat | TBool | TNull | TAny | TJsonValue | TDateTime | TBytes | TBase64 | TImage | TPath
  | TLiteral _ | TEnum _ => True | _ => False end) -> P t).
Context (Hlist : forall t, P t -> P (TList t)) (Hset : forall t, P t -> P (TSet t)).
Context (Hmap : forall t, P t -> P (TMap t)) (Hoptional : forall t, P t -> P (TOptional t)).
Context (Halias : forall n t, P t -> P (TAlias n t)).
Context (Hconstrained : forall t ks, P t -> (match t with TList item | TSet item => P item | _ => True end) ->
  P (TConstrained t ks)).
Context (Htuple : forall ts, Forall P ts -> P (TTuple ts)) (Hunion : forall ts, Forall P ts -> P (TUnion ts)).
Context (Hmodel : forall m, Forall (fun f => P (f_ty f)) (m_fields m) -> P (TModel m)).
Context (Htagged : forall p vs, Forall (fun v => P v.2) vs -> P (TTagged p vs)).

Lemma Ty_induction : forall t, P t.
Proof.
  fix IH 1. intros t. destruct t as [| | | | | | | | | | | |t|ts|t|t|t|ts|vs|e|m|n t|p vs|t ks];
    try (apply Hscalar; exact I).
  - apply Hlist, IH.
  - apply Htuple. revert ts. fix go 1. intros [|t ts]; constructor; [apply IH|apply go].
  - apply Hset, IH.
  - apply Hmap, IH.
  - apply Hoptional, IH.
  - apply Hunion. revert ts. fix go 1. intros [|t ts]; constructor; [apply IH|apply go].
  - apply Hmodel. destruct m as [n mo d fe fs]. cbn. revert fs. fix go 1.
    intros [|f fs]; constructor; [destruct f; apply IH|apply go].
  - apply Halias, IH.
  - apply Htagged. revert vs. fix go 1. intros [|v vs]; constructor; [destruct v; apply IH|apply go].
  - apply Hconstrained; [apply IH|]. destruct t; try exact I; apply IH.
Qed.
End Induction.
