(* ===== verification/Validation.v ===== *)
(** pydantic's validation of a response over a [Ty] tree:
    [crates/fastbrowse-core/src/validation.rs].

    [check] is the validator's recursion: the value it would dump, or every issue in pydantic's
    order; [errors_json] is the text a re-ask carries.  How [serde_json] displays a value is the
    interface [ValueText], how Rust prints a float [F64Display], and a text that is not JSON
    comes with the parser's own error ([JsonError]). *)

From S2P Require Import Prelude Float64 PyText Json DateTime Lax Models Ledger Config Receipts Decision Schema.

(** ** Errors as they are written *)
Definition line_error (kind : text) (loc : list value) (msg : text) (ctx : option value) : value :=
  Object ([(lit "type", Str kind); (lit "loc", Array loc); (lit "msg", Str msg)]
          ++ match ctx with Some ctx => [(lit "ctx", ctx)] | None => [] end).

Definition errors_json `{FloatFormat} (errors : list value) : text := write (Array errors) PYDANTIC.

(** What the JSON parser says of a text it cannot read. *)
Record JsonError := mkJsonError { je_text : text; je_line : Z; je_column : Z }.

Definition json_invalid (t : text) (error : JsonError) : value :=
  let parts := split_parts (Z.eqb 10) t in
  let last := default [] (last parts) in
  let at_end := (Z.of_nat (length parts) <=? je_line error) && (len last <=? je_column error) in
  let reason :=
    match strip_prefix (je_text error) (lit "expected ident") with
    | Some position => if at_end then lit "EOF while parsing a value" ++ position else je_text error
    | None => je_text error
    end in
  line_error (lit "json_invalid") [] (lit "Invalid JSON: " ++ reason) (Some (obj [("error"%string, Str reason)])).

(** A model validator's refusal. *)
Definition value_error (message : text) : value :=
  let reason := default message (strip_prefix message (lit "Value error, ")) in
  line_error (lit "value_error") [] (lit "Value error, " ++ reason) (Some (obj [("error"%string, Str reason)])).

Record Issue := mkIssue { i_kind : text; i_loc : list value; i_msg : text; i_ctx : option value }.
Definition new_issue (kind msg : text) : Issue := mkIssue kind [] msg None.
Definition with_ctx (i : Issue) (ctx : value) : Issue := mkIssue (i_kind i) (i_loc i) (i_msg i) (Some ctx).
Definition issue_at (key : value) (i : Issue) : Issue := mkIssue (i_kind i) (key :: i_loc i) (i_msg i) (i_ctx i).
Definition written (i : Issue) : value := line_error (i_kind i) (i_loc i) (i_msg i) (i_ctx i).

Definition Checked : Type := result value (list Issue).
Definition fail (i : Issue) : Checked := Err [i].
Definition fails (kind msg : string) : Checked := fail (new_issue (lit kind) (lit msg)).

(** ** Scalars *)
Definition as_i64 (n : number) : option Z :=
  match n with Int n => if in_range i64_min i64_max n then Some n else None | Float _ => None end.
Definition as_u64 (v : value) : option Z :=
  match v with Number (Int n) => if in_range 0 (2 ^ 64 - 1) n then Some n else None | _ => None end.
Definition is_f64 (n : number) : bool :=
  match n with Int n => negb (in_range i64_min (2 ^ 64 - 1) n) | Float _ => true end.
(** [json!(x)] for a float: what is not finite is null. *)
Definition json_float (x : f64) : value := if is_finite x then Number (Float x) else Null.

Definition string (v : value) : Checked :=
  match v with Str _ => Ok v | _ => fails "string_type" "Input should be a valid string" end.
Definition scalar_string (v : value) (kind msg : String.string) : Checked :=
  match v with Str _ => Ok v | _ => fails kind msg end.

Section Scalars.
Context `{RF : ReadFloat}.

Definition int_value (v : value) : Checked :=
  match v with
  | Number n =>
      if is_f64 n then
        let given := as_f64 n in
        if negb (f64_integral given)
        then fails "int_from_float" "Input should be a valid integer, got a number with a fractional part"
        else if f64_ge (f64_abs given) (f64_of_Z 9223372036854775808)
        then fails "int_parsing_size" "Unable to parse input string as an integer, exceeded maximum size"
        else Ok (Number (Int (f64_to_i64 given)))
      else
        match as_i64 n with
        | None => Ok v
        | Some _ =>
            match int_of v with
            | Ok checked => Ok (Number (Int checked))
            | Err _ => fails "int_parsing" "Input should be a valid integer, unable to parse string as an integer"
            end
        end
  | Bool _ | Str _ =>
      match int_of v with
      | Ok checked => Ok (Number (Int checked))
      | Err _ => fails "int_parsing" "Input should be a valid integer, unable to parse string as an integer"
      end
  | _ => fails "int_type" "Input should be a valid integer"
  end.

Definition float_value (v : value) : Checked :=
  match v with
  | Null | Array _ | Object _ => fails "float_type" "Input should be a valid number"
  | _ =>
      match float_of v with
      | Ok checked => Ok (json_float checked)
      | Err _ => fails "float_parsing" "Input should be a valid number, unable to parse string as a number"
      end
  end.

Definition boolean (v : value) : Checked :=
  let parsing := fails "bool_parsing" "Input should be a valid boolean, unable to interpret input" in
  match v with
  | Bool _ => Ok v
  | Number n =>
      match as_i64 n with
      | Some 0 => Ok (Bool false)
      | Some 1 => Ok (Bool true)
      | Some _ => parsing
      | None =>
          if f64_eq (as_f64 n) f64_zero then Ok (Bool false)
          else if f64_eq (as_f64 n) (f64_of_Z 1) then Ok (Bool true)
          else fails "bool_type" "Input should be a valid boolean"
      end
  | Str _ => match bool_of v with Ok b => Ok (Bool b) | Err _ => parsing end
  | _ => fails "bool_type" "Input should be a valid boolean"
  end.
End Scalars.

(** [Value]'s equality: maps compare without order. *)
Fixpoint value_eqb (a b : value) {struct a} : bool :=
  match a, b with
  | Null, Null => true
  | Bool a, Bool b => Bool.eqb a b
  | Number (Int a), Number (Int b) => a =? b
  | Number (Float a), Number (Float b) => f64_eq a b
  | Str a, Str b => teqb a b
  | Array a, Array b =>
      (fix all (a b : list value) : bool :=
         match a, b with
         | [], [] => true
         | x :: a, y :: b => value_eqb x y && all a b
         | _, _ => false
         end) a b
  | Object a, Object b =>
      (length a =? length b)%nat
      && forallb (fun kv => match kv with (k, v) =>
                              match im_get k b with Some w => value_eqb v w | None => false end end) a
  | _, _ => false
  end.

(** A literal's comparison: [1.0] is [1], and [1] is not [true]. *)
Definition same (allowed v : value) : bool :=
  match allowed, v with
  | Number a, Number b => if is_f64 a || is_f64 b then f64_eq (as_f64 a) (as_f64 b) else value_eqb allowed v
  | _, _ => value_eqb allowed v
  end.

Section Validator.
Context `{FF : FloatFormat} `{RF : ReadFloat} `{VT : ValueText} `{FD : F64Display}.

(** ** Labels *)
(** Python's [repr] of a scalar ([py/json.rs]). *)
Definition scalar_repr (v : value) : text :=
  match v with
  | Null => lit "None"
  | Bool true => lit "True"
  | Bool false => lit "False"
  | Number n => if is_f64 n then float_str (as_f64 n) else value_text v
  | Str t => repr t
  | other => value_text other
  end.

Definition expected (values : list value) : text := or_list (map scalar_repr values).

Definition literal (values : list value) (v : value) : Checked :=
  if existsb (fun allowed => same allowed v) values then Ok v
  else
    let e := expected values in
    fail (with_ctx (new_issue (lit "literal_error") (lit "Input should be " ++ e)) (obj [("expected"%string, Str e)])).

Definition enumerated (values : list value) (v : value) : Checked :=
  if existsb (fun allowed => same allowed v) values then Ok v
  else
    let e := expected values in
    fail (with_ctx (new_issue (lit "enum") (lit "Input should be " ++ e)) (obj [("expected"%string, Str e)])).

(** Whether a value already has a branch's type. *)
Fixpoint exact (option : Ty) (v : value) : bool :=
  match option, v with
  | TStr, Str _ | TBool, Bool _ | TNull, Null => true
  | TInt, Number n => negb (is_f64 n)
  | TFloat, Number n => is_f64 n
  | TModel _, Object _ | TMap _, Object _ => true
  | TList _, Array _ | TTuple _, Array _ => true
  | TConstrained inner _, _ | TAlias _ inner, _ => exact inner v
  | _, _ => false
  end.

(** The label of a union branch in an error's location. *)
Fixpoint tag (option : Ty) : text :=
  match option with
  | TStr => lit "str" | TInt => lit "int" | TFloat => lit "float" | TBool => lit "bool" | TNull => lit "none"
  | TModel m => m_name m
  | TEnum e => en_name e
  | TConstrained inner _ => lit "constrained-" ++ tag inner
  | TList item => lit "tuple[" ++ tag item ++ lit ", ...]"
  | TMap item => lit "dict[str," ++ tag item ++ lit "]"
  | TLiteral values => lit "literal[" ++ replace (lit " or ") (lit ",") (expected values) ++ lit "]"
  | _ => lit "any"
  end.

(** ** Containers, given the check of what they hold *)
Definition length_issue (kind side : String.string) (limit actual : Z) : Issue :=
  let unit := if limit =? 1 then lit "item" else lit "items" in
  let field := if String.eqb kind "too_long" then lit "max_length" else lit "min_length" in
  with_ctx
    (new_issue (lit kind)
       (lit "Tuple should have at " ++ lit side ++ lit " " ++ show_Z limit ++ lit " " ++ unit
          ++ lit " after validation, not " ++ show_Z actual))
    (Object [(lit "field_type", Str (lit "Tuple")); (field, Number (Int limit));
             (lit "actual_length", Number (Int actual))]).

Definition close (issues : list Issue) (v : value) : Checked := if is_empty issues then Ok v else Err issues.

Definition index_value (i : nat) : value := Number (Int (Z.of_nat i)).

Definition bound_of (bounds : list (text * value)) (name : String.string) : option Z :=
  find (fun kb => teqb kb.1 (lit name)) bounds ≫= fun kb => as_u64 kb.2.

(** A list's elements in order; [None] where the cap was passed. *)
Fixpoint check_elements (f : value -> Checked) (max : option Z) (i : nat) (input output : list value)
    (issues : list Issue) : option (list value * list Issue) :=
  match input with
  | [] => Some (output, issues)
  | element :: input =>
      match f element with
      | Ok checked =>
          let output := output ++ [checked] in
          if match max with Some max => max <? Z.of_nat (length output) | None => false end then None
          else check_elements f max (S i) input output issues
      | Err found => check_elements f max (S i) input output (issues ++ map (issue_at (index_value i)) found)
      end
  end.

Definition check_items (f : value -> Checked) (bounds : list (text * value)) (kind msg : String.string) (v : value)
  : Checked :=
  match v with
  | Array input =>
      let max := bound_of bounds "maxItems" in
      match check_elements f max 0 input [] [] with
      | None => fail (length_issue "too_long" "most" (default 0 max) (Z.of_nat (length input)))
      | Some (output, issues) =>
          let issues :=
            issues ++
            match bound_of bounds "minItems" with
            | Some min =>
                if Z.of_nat (length output) <? min
                then [length_issue "too_short" "least" min (Z.of_nat (length output))] else []
            | None => []
            end in
          close issues (Array output)
      end
  | _ => fails kind msg
  end.

Fixpoint check_entries (f : value -> Checked) (input output : list (text * value)) (issues : list Issue) : Checked :=
  match input with
  | [] => close issues (Object output)
  | (key, item) :: input =>
      match f item with
      | Ok checked => check_entries f input (im_insert key checked output) issues
      | Err found => check_entries f input output (issues ++ map (issue_at (Str key)) found)
      end
  end.

Definition check_map (f : value -> Checked) (v : value) : Checked :=
  match v with
  | Object input => check_entries f input [] []
  | _ => fails "dict_type" "Input should be an object"
  end.

Fixpoint check_places (fs : list (value -> Checked)) (i : nat) (input : list value) (output : list value)
    (issues : list Issue) : list value * list Issue :=
  match fs with
  | [] => (output, issues)
  | f :: fs =>
      match input !! i with
      | Some element =>
          match f element with
          | Ok checked => check_places fs (S i) input (output ++ [checked]) issues
          | Err found => check_places fs (S i) input output (issues ++ map (issue_at (index_value i)) found)
          end
      | None =>
          check_places fs (S i) input output
            (issues ++ [issue_at (index_value i) (new_issue (lit "missing") (lit "Field required"))])
      end
  end.

Definition check_tuple (fs : list (value -> Checked)) (v : value) : Checked :=
  match v with
  | Array input =>
      let '(output, issues) := check_places fs 0 input [] [] in
      let issues :=
        issues ++
        if (length fs <? length input)%nat
        then [length_issue "too_long" "most" (Z.of_nat (length fs)) (Z.of_nat (length input))] else [] in
      close issues (Array output)
  | _ => fails "tuple_type" "Input should be a valid array"
  end.

Fixpoint try_options (options : list (text * (value -> Checked))) (v : value) (issues : list Issue) : Checked :=
  match options with
  | [] => Err issues
  | (label, f) :: options =>
      match f v with
      | Ok checked => Ok checked
      | Err found => try_options options v (issues ++ map (issue_at (Str label)) found)
      end
  end.

(** The branch the value already is, then the first that takes it. *)
Definition check_union (options : list (Ty * (value -> Checked))) (v : value) : Checked :=
  let first :=
    match find (fun o => exact o.1 v) options with
    | Some (_, f) => match f v with Ok checked => Some checked | Err _ => None end
    | None => None
    end in
  match first with
  | Some checked => Ok checked
  | None => try_options (map (fun o => (tag o.1, o.2)) options) v []
  end.

Definition check_tagged (property : text) (variants : list (text * (value -> Checked))) (v : value) : Checked :=
  let discriminator := lit "'" ++ property ++ lit "'" in
  match (match v with Object fields => im_get property fields | _ => None end) with
  | None =>
      fail (with_ctx
        (new_issue (lit "union_tag_not_found") (lit "Unable to extract tag using discriminator " ++ discriminator))
        (obj [("discriminator"%string, Str discriminator)]))
  | Some found =>
      let t := default [] (as_str (Some found)) in
      match find (fun nf => teqb nf.1 t) variants with
      | Some (name, f) =>
          match f v with Ok checked => Ok checked | Err issues => Err (map (issue_at (Str name)) issues) end
      | None =>
          let tags := join (lit ", ") (map (fun nf => lit "'" ++ nf.1 ++ lit "'") variants) in
          fail (with_ctx
            (new_issue (lit "union_tag_invalid")
               (lit "Input tag '" ++ t ++ lit "' found using " ++ discriminator
                  ++ lit " does not match any of the expected tags: " ++ tags))
            (obj [("discriminator"%string, Str discriminator); ("tag"%string, Str t);
                  ("expected_tags"%string, Str tags)]))
      end
  end.

(** One field of a model: what it adds to the output, or its issues. *)
Definition check_field (by_alias : bool) (input : list (text * value)) (field : Field (value -> Checked)) (empty : value)
    (acc : list (text * value) * list Issue) : list (text * value) * list Issue :=
  let '(output, issues) := acc in
  let key := f_key field in
  let name := if by_alias then key else f_name field in
  match im_get key input with
  | Some item =>
      match f_ty field item with
      | Ok checked => (im_insert name checked output, issues)
      | Err found => (output, issues ++ map (issue_at (Str key)) found)
      end
  | None =>
      match f_default field with
      | Some d => (im_insert name d output, issues)
      | None =>
          if f_factory field then (im_insert name empty output, issues)
          else (output, issues ++ [issue_at (Str key) (new_issue (lit "missing") (lit "Field required"))])
      end
  end.

Definition check_model (by_alias forbid : bool) (name : text)
    (fields : list (Field (value -> Checked) * value)) (v : value) : Checked :=
  match v with
  | Object input =>
      let extra :=
        if forbid then
          map (fun kv => issue_at (Str kv.1) (new_issue (lit "extra_forbidden") (lit "Extra inputs are not permitted")))
            (base.filter (fun kv => existsb (fun f => teqb (f_key f.1) kv.1) fields = false) input)
        else [] in
      let '(output, issues) :=
        fold_left (fun acc f => check_field by_alias input f.1 f.2 acc) fields ([], extra) in
      close issues (Object output)
  | _ =>
      fail (with_ctx (new_issue (lit "model_type") (lit "Input should be an object"))
              (obj [("class_name"%string, Str name)]))
  end.

(** ** Bounds *)
Fixpoint string_bounds (bounds : list (text * value)) (count : Z) : option Issue :=
  match bounds with
  | [] => None
  | (keyword, bound) :: bounds =>
      match as_u64 bound with
      | None => string_bounds bounds count
      | Some limit =>
          let unit := if limit =? 1 then lit "character" else lit "characters" in
          if teqb keyword (lit "minLength") && (count <? limit) then
            Some (with_ctx (new_issue (lit "string_too_short")
                    (lit "String should have at least " ++ show_Z limit ++ lit " " ++ unit))
                    (obj [("min_length"%string, Number (Int limit))]))
          else if teqb keyword (lit "maxLength") && (limit <? count) then
            Some (with_ctx (new_issue (lit "string_too_long")
                    (lit "String should have at most " ++ show_Z limit ++ lit " " ++ unit))
                    (obj [("max_length"%string, Number (Int limit))]))
          else string_bounds bounds count
      end
  end.

Record BoundKind := mkBoundKind {
  bk_keyword : String.string; bk_holds : f64 -> f64 -> bool; bk_kind : String.string;
  bk_words : String.string; bk_name : String.string;
}.
Definition NUMBER_BOUNDS : list BoundKind :=
  [mkBoundKind "maximum" f64_le "less_than_equal" "less than or equal to" "le";
   mkBoundKind "exclusiveMaximum" f64_lt "less_than" "less than" "lt";
   mkBoundKind "minimum" f64_ge "greater_than_equal" "greater than or equal to" "ge";
   mkBoundKind "exclusiveMinimum" f64_gt "greater_than" "greater than" "gt"].

Fixpoint number_bounds (kinds : list BoundKind) (float : bool) (bounds : list (text * value)) (given : f64)
  : option Issue :=
  match kinds with
  | [] => None
  | k :: kinds =>
      match find (fun kb => teqb kb.1 (lit (bk_keyword k))) bounds with
      | Some (_, bound) =>
          match bound with
          | Number n =>
              let limit := as_f64 n in
              if bk_holds k given limit then number_bounds kinds float bounds given
              else
                let shown := if float then f64_display limit else value_text bound in
                Some (with_ctx
                  (new_issue (lit (bk_kind k)) (lit "Input should be " ++ lit (bk_words k) ++ lit " " ++ shown))
                  (obj [(bk_name k, if float then json_float limit else bound)]))
          | _ => number_bounds kinds float bounds given
          end
      | None => number_bounds kinds float bounds given
      end
  end.

Definition check_bounds (float : bool) (bounds : list (text * value)) (checked : value) : Checked :=
  match (match checked with
         | Str t => string_bounds bounds (len t)
         | Number n => number_bounds NUMBER_BOUNDS float bounds (as_f64 n)
         | _ => None
         end) with
  | Some issue => fail issue
  | None => Ok checked
  end.

(** ** The validator *)
Definition empty_container (t : Ty) : value := match t with TMap _ => Object [] | _ => Array [] end.

Fixpoint check (by_alias : bool) (t : Ty) (v : value) {struct t} : Checked :=
  match t with
  | TStr => string v
  | TInt => int_value v
  | TFloat => float_value v
  | TBool => boolean v
  | TNull => match v with Null => Ok Null | _ => fails "none_required" "Input should be None" end
  | TAny | TJsonValue => Ok v
  | TDateTime => scalar_string v "datetime_type" "Input should be a valid datetime"
  | TBytes | TBase64 | TImage => scalar_string v "bytes_type" "Input should be a valid bytes"
  | TPath => scalar_string v "path_type" "Input is not a valid path"
  | TList item => check_items (check by_alias item) [] "tuple_type" "Input should be a valid array" v
  | TSet item => check_items (check by_alias item) [] "frozen_set_type" "Input should be a valid frozenset" v
  | TTuple items => check_tuple (map (check by_alias) items) v
  | TMap inner => check_map (check by_alias inner) v
  | TOptional inner => match v with Null => Ok Null | other => check by_alias inner other end
  | TUnion options => check_union (map (fun o => (o, check by_alias o)) options) v
  | TLiteral values => literal values v
  | TEnum e => enumerated (en_values e) v
  | TModel m =>
      check_model by_alias (forbid_extra m) (m_name m)
        (map (fun f => (mkField (f_name f) (f_alias f) (check by_alias (f_ty f)) (f_default f) (f_description f)
                          (f_factory f) (f_exclude f) (f_omitted_when_empty f), empty_container (f_ty f)))
           (m_fields m)) v
  | TAlias _ inner => check by_alias inner v
  | TTagged property variants =>
      check_tagged property (map (fun nv => match nv with (n, t) => (n, check by_alias t) end) variants) v
  | TConstrained inner keywords =>
      match inner with
      | TList item => check_items (check by_alias item) keywords "tuple_type" "Input should be a valid array" v
      | TSet item => check_items (check by_alias item) keywords "frozen_set_type" "Input should be a valid frozenset" v
      | _ =>
          let? checked := check by_alias inner v in
          check_bounds (match inner with TFloat => true | _ => false end) keywords checked
      end
  end.

(** [validate]: dumped under the Python names. *)
Definition validate (t : Ty) (v : value) : result value (list value) :=
  match check false t v with Ok w => Ok w | Err issues => Err (map written issues) end.

Definition parse_json (parsed : result value JsonError) (t : text) : result value text :=
  match parsed with Ok v => Ok v | Err e => Err (errors_json [json_invalid t e]) end.

Definition validate_json (ty : Ty) (parsed : result value JsonError) (t : text) : result value text :=
  let? v := parse_json parsed t in
  match validate ty v with Ok w => Ok w | Err errors => Err (errors_json errors) end.
End Validator.

(** * Properties *)
(** ** What a dumped value of a type is *)
(** The bounds declared on a list or a set, and those on a string or a number. *)
Definition array_bounds_hold (keywords : list (text * value)) (n : nat) : Prop :=
  (forall m, bound_of keywords "maxItems" = Some m -> Z.of_nat n <= m) /\
  (forall m, bound_of keywords "minItems" = Some m -> m <= Z.of_nat n).

Definition scalar_bounds_hold (keywords : list (text * value)) (w : value) : Prop :=
  (forall t k b limit, w = Str t -> (k, b) ∈ keywords -> as_u64 b = Some limit ->
     (k = lit "minLength" -> limit <= len t) /\ (k = lit "maxLength" -> len t <= limit)) /\
  (forall n kind k limit, w = Number n -> kind ∈ NUMBER_BOUNDS ->
     find (fun kb => teqb kb.1 (lit (bk_keyword kind))) keywords = Some (k, Number limit) ->
     bk_holds kind (as_f64 n) (as_f64 limit) = true).

Definition field_holds (by_alias : bool) (fP : Field Ty * (value -> Prop)) (kv : text * value) : Prop :=
  let '(f, P) := fP in
  kv.1 = (if by_alias then f_key f else f_name f) /\
  (P kv.2 \/ f_default f = Some kv.2 \/
   f_default f = None /\ f_factory f = true /\ kv.2 = empty_container (f_ty f)).

Fixpoint conforms (by_alias : bool) (t : Ty) (w : value) {struct t} : Prop :=
  let array item bounds :=
    exists items, w = Array items /\ Forall (conforms by_alias item) items /\ array_bounds_hold bounds (length items) in
  match t with
  | TStr | TDateTime | TBytes | TBase64 | TImage | TPath => exists s, w = Str s
  | TInt => exists n, w = Number (Int n)
  | TFloat => w = Null \/ exists x, w = Number (Float x) /\ is_finite x = true
  | TBool => exists b, w = Bool b
  | TNull => w = Null
  | TAny | TJsonValue => True
  | TList item => array item []
  | TSet item => array item []
  | TTuple items => exists ws, w = Array ws /\ Forall2 (fun P x => P x) (map (conforms by_alias) items) ws
  | TMap inner => exists fields, w = Object fields /\ Forall (fun kv => conforms by_alias inner kv.2) fields
  | TOptional inner => w = Null \/ conforms by_alias inner w
  | TUnion options => Exists (fun P => P w) (map (conforms by_alias) options)
  | TLiteral values => Exists (fun allowed => same allowed w = true) values
  | TEnum e => Exists (fun allowed => same allowed w = true) (en_values e)
  | TModel m =>
      exists fields, w = Object fields /\
        Forall2 (field_holds by_alias) (map (fun f => (f, conforms by_alias (f_ty f))) (m_fields m)) fields
  | TAlias _ inner => conforms by_alias inner w
  | TTagged _ variants =>
      Exists (fun P => P w) (map (fun nv => match nv with (_, t) => conforms by_alias t end) variants)
  | TConstrained inner keywords =>
      match inner with
      | TList item => array item keywords
      | TSet item => array item keywords
      | _ => conforms by_alias inner w /\ scalar_bounds_hold keywords w
      end
  end.

(** Fields are told apart by name, in JSON and in Python, and a union has a branch. *)
Fixpoint well_formed (t : Ty) : Prop :=
  match t with
  | TList t | TSet t | TMap t | TOptional t | TAlias _ t | TConstrained t _ => well_formed t
  | TTuple ts => Forall (fun P => P) (map well_formed ts)
  | TUnion ts => ts <> [] /\ Forall (fun P => P) (map well_formed ts)
  | TModel m =>
      NoDup (map f_name (m_fields m)) /\ NoDup (map f_key (m_fields m)) /\
      Forall (fun P => P) (map (fun f => well_formed (f_ty f)) (m_fields m))
  | TTagged _ variants => Forall (fun P => P) (map (fun nv => match nv with (_, t) => well_formed t end) variants)
  | _ => True
  end.

(** A check whose successes satisfy [Q] and whose failures say why. *)
Definition sound (Q : value -> Prop) (f : value -> Checked) : Prop :=
  forall v, match f v with Ok w => Q w | Err issues => issues <> [] end.

(** ** The combinators keep soundness *)
Lemma close_ok issues v w : close issues v = Ok w -> issues = [] /\ w = v.
Proof. unfold close. destruct issues; [|done]. by intros [= <-]. Qed.

Lemma sound_close (Q : value -> Prop) issues v :
  (issues = [] -> Q v) -> match close issues v with Ok w => Q w | Err issues => issues <> [] end.
Proof. intros H. unfold close. destruct issues; cbn; auto. Qed.

Lemma map_nonempty {A B} (f : A -> B) l : l <> [] -> map f l <> [].
Proof. by destruct l. Qed.

Lemma bound_of_nonneg bounds name m : bound_of bounds name = Some m -> 0 <= m.
Proof.
  unfold bound_of. destruct (find _ _) as [[k b]|]; cbn; [|done]. unfold as_u64.
  destruct b as [| |[n|]| | |]; try done. destruct (in_range 0 (2 ^ 64 - 1) n) eqn:E; [|done].
  intros [= <-]. unfold in_range in E. bool_hyps. lia.
Qed.

Section Combinators.
Context (Q : value -> Prop) (f : value -> Checked) (Hf : sound Q f).

Lemma check_elements_spec max input : forall i output issues out iss,
  check_elements f max i input output issues = Some (out, iss) -> Forall Q output ->
  (forall m, max = Some m -> Z.of_nat (length output) <= m) ->
  Forall Q out /\ (forall m, max = Some m -> Z.of_nat (length out) <= m).
Proof.
  induction input as [|v input IH]; intros i output issues out iss H Hq Hm; cbn in H.
  { by injection H as <- <-. }
  pose proof (Hf v) as Hv. destruct (f v) as [w|found]; [|by eapply IH].
  destruct max as [m|].
  - destruct (Z.ltb_spec m (Z.of_nat (length (output ++ [w])))); [done|].
    eapply IH; [exact H| |]; [apply Forall_app; eauto|]. intros m' [= <-]. lia.
  - eapply IH; [exact H| |done]. apply Forall_app; eauto.
Qed.

Lemma check_items_sound bounds kind msg :
  sound (fun w => exists items, w = Array items /\ Forall Q items /\ array_bounds_hold bounds (length items))
    (check_items f bounds kind msg).
Proof.
  intros v. unfold check_items. destruct v as [| | | |input|]; try done.
  destruct (check_elements _ _ _ _ _ _) as [[out iss]|] eqn:E; [|done].
  apply sound_close. intros Hnil. apply app_eq_nil in Hnil as [_ Hmin].
  destruct (check_elements_spec _ _ _ _ _ _ _ E) as [Hq Hmax]; [constructor| |].
  { intros m Hm. apply bound_of_nonneg in Hm. cbn. lia. }
  exists out. split_and!; [done|done|]. split; [done|]. intros m Hm. rewrite Hm in Hmin.
  destruct (Z.ltb_spec (Z.of_nat (length out)) m); [done|lia].
Qed.

Lemma check_entries_sound input : forall output issues, Forall (fun kv => Q kv.2) output ->
  match check_entries f input output issues with
  | Ok w => exists fields, w = Object fields /\ Forall (fun kv => Q kv.2) fields
  | Err found => found <> []
  end.
Proof.
  induction input as [|[k v] input IH]; intros output issues Hq; cbn.
  { apply (sound_close (fun w => exists fields, w = Object fields /\ Forall (fun kv => Q kv.2) fields)). eauto. }
  pose proof (Hf v) as Hv. destruct (f v) as [c|found]; [|by apply IH].
  apply IH. apply Forall_forall. intros x Hx.
  apply im_insert_elem in Hx as [->|Hx]; [done|]. rewrite Forall_forall in Hq. by apply Hq.
Qed.

Lemma check_map_sound :
  sound (fun w => exists fields, w = Object fields /\ Forall (fun kv => Q kv.2) fields) (check_map f).
Proof. intros v. destruct v as [| | | | |input]; try done. by apply check_entries_sound. Qed.
End Combinators.

Lemma check_places_spec (Qs : list (value -> Prop)) fs input :
  Forall2 sound Qs fs -> forall i output issues out before,
  check_places fs i input output issues = (out, []) -> Forall2 (fun Q w => Q w) before output ->
  issues = [] /\ Forall2 (fun Q w => Q w) (before ++ Qs) out.
Proof.
  induction 1 as [|Q f Qs fs Hf Hfs IH]; intros i output issues out before H Hd; cbn in H.
  { injection H as <- ->. by rewrite app_nil_r. }
  destruct (input !! i) as [v|].
  - pose proof (Hf v) as Hv. destruct (f v) as [w|found].
    + destruct (IH _ _ _ _ (before ++ [Q]) H) as [Hi Hout].
      * apply Forall2_app; [done|]. by repeat constructor.
      * by rewrite <- app_assoc in Hout.
    + exfalso. destruct (IH _ _ _ _ before H Hd) as [Hi _]. apply app_eq_nil in Hi as [_ Hi].
      by apply (map_nonempty (issue_at (index_value i)) found).
  - exfalso. destruct (IH _ _ _ _ before H Hd) as [Hi _]. by apply app_eq_nil in Hi as [_ Hi].
Qed.

Lemma check_tuple_sound (Qs : list (value -> Prop)) fs :
  Forall2 sound Qs fs ->
  sound (fun w => exists ws, w = Array ws /\ Forall2 (fun Q w => Q w) Qs ws) (check_tuple fs).
Proof.
  intros Hfs v. unfold check_tuple. destruct v as [| | | |input|]; try done.
  destruct (check_places fs 0 input [] []) as [out iss] eqn:E. apply sound_close.
  intros [-> _]%app_eq_nil.
  destruct (check_places_spec Qs fs input Hfs _ _ _ _ [] E) as [_ Hout]; [constructor|]. eauto.
Qed.

Lemma try_options_sound (Qs : list (value -> Prop)) (options : list (text * (value -> Checked))) v :
  Forall2 (fun Q o => sound Q o.2) Qs options -> forall issues, (issues <> [] \/ options <> []) ->
  match try_options options v issues with Ok w => Exists (fun Q => Q w) Qs | Err issues => issues <> [] end.
Proof.
  induction 1 as [|Q [label f] Qs options Hf Hfs IH]; intros issues Hne; cbn.
  { by destruct Hne. }
  pose proof (Hf v) as Hv. cbn in Hv. destruct (f v) as [w|found]; [by left|].
  assert (Hn : issues ++ map (issue_at (Str label)) found <> []).
  { intros [_ Hi]%app_eq_nil. by apply (map_nonempty (issue_at (Str label)) found). }
  specialize (IH _ (or_introl Hn)). destruct (try_options options v _); [by right|done].
Qed.

Lemma check_union_sound `{FloatFormat} `{ValueText} (Qs : list (value -> Prop)) (options : list (Ty * (value -> Checked))) :
  Forall2 (fun Q o => sound Q o.2) Qs options -> options <> [] ->
  sound (fun w => Exists (fun Q => Q w) Qs) (check_union options).
Proof.
  intros Hfs Hne v. unfold check_union.
  assert (Hrest : match try_options (map (fun o => (tag o.1, o.2)) options) v [] with
                  | Ok w => Exists (fun Q => Q w) Qs | Err issues => issues <> [] end).
  { apply try_options_sound; [|right; by apply map_nonempty]. apply Forall2_fmap_r. by eapply Forall2_impl. }
  destruct (find (fun o => exact o.1 v) options) as [[t f]|] eqn:Ef; [|done].
  apply find_some in Ef as [Hin _]. apply list_elem_of_In, list_elem_of_lookup in Hin as [i Hi].
  destruct (Forall2_lookup_r _ _ _ _ _ Hfs Hi) as (Q & HQ & Hf). specialize (Hf v). cbn in Hf.
  destruct (f v) as [w|]; [|done]. apply Exists_exists. exists Q. split; [|done].
  apply list_elem_of_lookup. eauto.
Qed.

Lemma check_tagged_sound (Qs : list (value -> Prop)) property (variants : list (text * (value -> Checked))) :
  Forall2 (fun Q nf => sound Q nf.2) Qs variants ->
  sound (fun w => Exists (fun Q => Q w) Qs) (check_tagged property variants).
Proof.
  intros Hfs v. unfold check_tagged. destruct (match v with Object _ => _ | _ => _ end) as [found|]; [|done].
  destruct (find _ variants) as [[name f]|] eqn:Ef; [|done].
  apply find_some in Ef as [Hin _]. apply list_elem_of_In, list_elem_of_lookup in Hin as [i Hi].
  destruct (Forall2_lookup_r _ _ _ _ _ Hfs Hi) as (Q & HQ & Hf). specialize (Hf v). cbn in Hf.
  destruct (f v) as [w|]; [|by apply map_nonempty]. apply Exists_exists. exists Q. split; [|done].
  apply list_elem_of_lookup. eauto.
Qed.

(** *** Models *)
Definition field_check (fQ : Field Ty * (value -> Prop)) (f : Field (value -> Checked) * value) : Prop :=
  let '(t, Q) := fQ in
  f_name f.1 = f_name t /\ f_key f.1 = f_key t /\ f_default f.1 = f_default t /\ f_factory f.1 = f_factory t /\
  f.2 = empty_container (f_ty t) /\ sound Q (f_ty f.1).

Definition output_name (by_alias : bool) (t : Field Ty) : text := if by_alias then f_key t else f_name t.

Lemma check_fields_spec by_alias input fQs fields :
  Forall2 field_check fQs fields -> NoDup (map (fun fQ => output_name by_alias fQ.1) fQs) ->
  forall output issues out,
  fold_left (fun acc f => check_field by_alias input f.1 f.2 acc) fields (output, issues) = (out, []) ->
  (forall fQ, fQ ∈ fQs -> output_name by_alias fQ.1 ∉ im_keys output) ->
  issues = [] /\ exists added, out = output ++ added /\ Forall2 (field_holds by_alias) fQs added.
Proof.
  induction 1 as [|[t Q] [f empty] fQs fields Hf Hfs IH]; intros Hn output issues out H Hfresh; cbn in H.
  { injection H as <- ->. split; [done|]. exists []. by rewrite app_nil_r. }
  cbn in Hn. apply NoDup_cons in Hn as [Hhd Hn].
  destruct Hf as (Hname & Hkey & Hd & Hfac & Hempty & Hsound). cbn in Hname, Hkey, Hd, Hfac, Hempty, Hsound.
  assert (Hlater : forall w fQ, fQ ∈ fQs -> output_name by_alias fQ.1 ∉ im_keys (output ++ [(output_name by_alias t, w)])).
  { intros w fQ Hin. unfold im_keys. rewrite map_app. cbn. intros Hc. apply elem_of_app in Hc as [Hc|Hc].
    - apply (Hfresh fQ); [by right|done].
    - apply list_elem_of_singleton in Hc. apply Hhd. rewrite <- Hc. by apply (list_elem_of_fmap_2 (fun fQ => output_name by_alias fQ.1)). }
  assert (Hins : forall w, im_insert (output_name by_alias t) w output = output ++ [(output_name by_alias t, w)]).
  { intros w. apply im_insert_fresh. apply (Hfresh (t, Q)). by left. }
  assert (Hgoal : forall w, Q w \/ f_default t = Some w \/ f_default t = None /\ f_factory t = true /\ w = empty_container (f_ty t) ->
    fold_left (fun acc f => check_field by_alias input f.1 f.2 acc) fields
      (im_insert (output_name by_alias t) w output, issues) = (out, []) ->
    issues = [] /\ exists added, out = output ++ added /\ Forall2 (field_holds by_alias) ((t, Q) :: fQs) added).
  { intros w Hw Hfold. rewrite Hins in Hfold.
    destruct (IH Hn _ _ _ Hfold (Hlater w)) as (-> & added & -> & Hadded). split; [done|].
    exists ((output_name by_alias t, w) :: added). rewrite <- app_assoc. split; [done|].
    constructor; [|done]. by split. }
  assert (Hname' : (if by_alias then f_key f else f_name f) = output_name by_alias t)
    by (unfold output_name; rewrite Hkey, Hname; done).
  rewrite Hname', Hkey in H.
  assert (Hmore : forall i more, more <> [] ->
    fold_left (fun acc f => check_field by_alias input f.1 f.2 acc) fields (output, i ++ more) = (out, []) -> False).
  { intros i more Hmore Hfold. destruct (IH Hn _ _ _ Hfold) as [Hnil _].
    - intros fQ Hin. apply Hfresh. by right.
    - by apply app_eq_nil in Hnil as [_ ->]. }
  destruct (im_get (f_key t) input) as [item|].
  - pose proof (Hsound item) as Hitem. destruct (f_ty f item) as [w|found]; [eauto|].
    exfalso. eapply Hmore; [|exact H]. by apply map_nonempty.
  - rewrite Hd, Hfac in H. destruct (f_default t) as [d|] eqn:Edef; [eauto|].
    destruct (f_factory t) eqn:Efac; [rewrite Hempty in H; eapply Hgoal; [|exact H]; by auto 6|].
    exfalso. eapply Hmore; [|exact H]. done.
Qed.

Lemma check_model_sound by_alias forbid name fQs fields :
  Forall2 field_check fQs fields -> NoDup (map (fun fQ => output_name by_alias fQ.1) fQs) ->
  sound (fun w => exists out, w = Object out /\ Forall2 (field_holds by_alias) fQs out)
    (check_model by_alias forbid name fields).
Proof.
  intros Hfs Hn v. unfold check_model. destruct v as [| | | | |input]; try done. cbv zeta.
  destruct (fold_left _ _ _) as [out issues] eqn:E. apply sound_close. intros ->.
  destruct (check_fields_spec by_alias input fQs fields Hfs Hn _ _ _ E) as (_ & added & -> & Ha); [|eauto].
  intros fQ _. by apply not_elem_of_nil.
Qed.

(** *** Scalars and bounds *)
Lemma option_cases (P : value -> Prop) (o : option Issue) w :
  (o = None -> P w) -> match match o with Some issue => fail issue | None => Ok w end with
                       | Ok w => P w | Err issues => issues <> [] end.
Proof. destruct o; cbn; auto. Qed.

Section Scalar_checks.
Context `{FF : FloatFormat} `{RF : ReadFloat} `{VT : ValueText} `{FD : F64Display}.

Lemma sound_string : sound (fun w => exists s, w = Str s) string.
Proof. intros v. destruct v; cbn; eauto; done. Qed.

Lemma sound_scalar_string kind msg : sound (fun w => exists s, w = Str s) (fun v => scalar_string v kind msg).
Proof. intros v. destruct v; cbn; eauto; done. Qed.

Lemma sound_int : sound (fun w => exists n, w = Number (Int n)) int_value.
Proof.
  intros v. unfold int_value.
  destruct v as [|b|n|t| |]; try done; [destruct (int_of _); eauto; done| |destruct (int_of _); eauto; done].
  destruct (is_f64 n) eqn:Ef.
  - destruct (negb _); [done|]. destruct (f64_ge _ _); eauto; done.
  - destruct (as_i64 n) eqn:Ei; [destruct (int_of _); eauto; done|]. destruct n; [eauto|done].
Qed.

Lemma json_float_holds x : json_float x = Null \/ exists y, json_float x = Number (Float y) /\ is_finite y = true.
Proof. unfold json_float. destruct (is_finite x) eqn:E; eauto. Qed.

Lemma sound_float :
  sound (fun w => w = Null \/ exists x, w = Number (Float x) /\ is_finite x = true) float_value.
Proof.
  intros v. unfold float_value. destruct v; try done; destruct (float_of _); try done; apply json_float_holds.
Qed.

Lemma sound_boolean : sound (fun w => exists b, w = Bool b) boolean.
Proof.
  intros v. unfold boolean. destruct v as [|b|n|t| |]; try done; [eauto| |destruct (bool_of _); eauto; done].
  destruct (as_i64 n) as [[|[]|]|]; eauto; try done.
  destruct (f64_eq _ _); [eauto|]. destruct (f64_eq _ _); eauto; done.
Qed.

Lemma sound_among values (f : value -> Checked) :
  (forall v, existsb (fun allowed => same allowed v) values = true -> f v = Ok v) ->
  (forall v, existsb (fun allowed => same allowed v) values = false -> exists i, f v = Err [i]) ->
  sound (fun w => Exists (fun allowed => same allowed w = true) values) f.
Proof.
  intros Ht Hf v. destruct (existsb (fun allowed => same allowed v) values) eqn:E.
  - rewrite (Ht v E). apply existsb_exists in E as (x & Hin & Hx). apply Exists_exists.
    exists x. by rewrite list_elem_of_In.
  - by destruct (Hf v E) as [i ->].
Qed.

Lemma sound_literal values :
  sound (fun w => Exists (fun allowed => same allowed w = true) values) (literal values).
Proof. apply sound_among; intros v E; unfold literal; rewrite E; [done|]. by eexists. Qed.

Lemma sound_enumerated values :
  sound (fun w => Exists (fun allowed => same allowed w = true) values) (enumerated values).
Proof. apply sound_among; intros v E; unfold enumerated; rewrite E; [done|]. by eexists. Qed.

Lemma string_bounds_none keywords t : string_bounds keywords (len t) = None ->
  forall k b limit, (k, b) ∈ keywords -> as_u64 b = Some limit ->
  (k = lit "minLength" -> limit <= len t) /\ (k = lit "maxLength" -> len t <= limit).
Proof.
  induction keywords as [|[k' b'] keywords IH]; intros H k b limit Hin Hb; [by apply not_elem_of_nil in Hin|].
  cbn [string_bounds] in H. apply elem_of_cons in Hin as [[= <- <-]|Hin].
  - rewrite Hb in H. split; intros ->.
    + replace (teqb (lit "minLength") (lit "minLength")) with true in H by reflexivity. cbn [andb] in H.
      destruct (Z.ltb_spec (len t) limit); [done|lia].
    + replace (teqb (lit "maxLength") (lit "minLength")) with false in H by reflexivity.
      replace (teqb (lit "maxLength") (lit "maxLength")) with true in H by reflexivity. cbn [andb] in H.
      destruct (Z.ltb_spec limit (len t)); [done|lia].
  - eapply IH; [|done|done]. destruct (as_u64 b'); [|done]. destruct (_ && _); [done|]. by destruct (_ && _).
Qed.

Lemma number_bounds_none kinds float keywords given : number_bounds kinds float keywords given = None ->
  forall kind k limit, kind ∈ kinds ->
  find (fun kb => teqb kb.1 (lit (bk_keyword kind))) keywords = Some (k, Number limit) ->
  bk_holds kind given (as_f64 limit) = true.
Proof.
  induction kinds as [|kind' kinds IH]; intros H kind k limit Hin Hfind; [by apply not_elem_of_nil in Hin|].
  cbn [number_bounds] in H. apply elem_of_cons in Hin as [->|Hin].
  - rewrite Hfind in H. by destruct (bk_holds kind' given (as_f64 limit)).
  - eapply IH; [|done|done]. destruct (find _ keywords) as [[k' b']|] in H; [|done].
    destruct b'; try done. by destruct (bk_holds _ _ _) in H.
Qed.

Lemma check_bounds_sound float keywords (Q : value -> Prop) w : Q w ->
  match check_bounds float keywords w with
  | Ok w => Q w /\ scalar_bounds_hold keywords w | Err issues => issues <> [] end.
Proof.
  intros Hq. unfold check_bounds.
  apply (option_cases (fun w => Q w /\ scalar_bounds_hold keywords w)).
  intros Hnone. split; [done|]. split.
  - intros t k b limit ->. by apply string_bounds_none.
  - intros n kind k limit ->. by apply number_bounds_none with float.
Qed.

Lemma sound_bind (Q R : value -> Prop) f g : sound Q f ->
  (forall w, Q w -> match g w with Ok w => R w | Err issues => issues <> [] end) ->
  sound R (fun v => let? w := f v in g w).
Proof. intros Hf Hg v. specialize (Hf v). destruct (f v) as [w|]; cbn; [by apply Hg|done]. Qed.

Lemma sound_mono (Q R : value -> Prop) f : (forall w, Q w -> R w) -> sound Q f -> sound R f.
Proof. intros HQR Hf v. specialize (Hf v). destruct (f v); auto. Qed.

Lemma Forall2_map_sound {A} (l : list A) (Q : A -> value -> Prop) (f : A -> value -> Checked) :
  Forall (fun a => sound (Q a) (f a)) l -> Forall2 sound (map Q l) (map f l).
Proof. induction 1; constructor; auto. Qed.

(** *** The recursion, one constructor at a time *)
Definition sound_at (by_alias : bool) (t : Ty) : Prop :=
  well_formed t -> sound (conforms by_alias t) (check by_alias t).

Lemma sounds_at by_alias ts :
  Forall (sound_at by_alias) ts -> Forall (fun P => P) (map well_formed ts) ->
  Forall (fun t => sound (conforms by_alias t) (check by_alias t)) ts.
Proof.
  intros Hs Hw. apply Forall_map in Hw. apply Forall_forall. intros t Ht.
  rewrite Forall_forall in Hs, Hw. by apply Hs, Hw.
Qed.

Lemma sound_at_tuple by_alias ts : Forall (sound_at by_alias) ts -> sound_at by_alias (TTuple ts).
Proof.
  intros Hs Hw. cbn [check conforms]. apply check_tuple_sound, Forall2_map_sound. by apply sounds_at.
Qed.

Lemma sound_at_union by_alias ts : Forall (sound_at by_alias) ts -> sound_at by_alias (TUnion ts).
Proof.
  intros Hs [Hne Hw]. cbn [check conforms].
  apply check_union_sound; [|by apply map_nonempty].
  pose proof (sounds_at _ _ Hs Hw) as H. clear Hs Hw Hne. by induction H; constructor.
Qed.

Lemma sound_at_tagged by_alias p vs :
  Forall (fun v => sound_at by_alias v.2) vs -> sound_at by_alias (TTagged p vs).
Proof.
  intros Hs Hw. cbn [check conforms]. cbn [well_formed] in Hw. apply check_tagged_sound.
  induction Hs as [|[n t] vs Ht Hs IH]; [constructor|]. apply Forall_cons in Hw as [Hwt Hw].
  constructor; [by apply Ht|by apply IH].
Qed.

Lemma sound_at_model by_alias m :
  Forall (fun f => sound_at by_alias (f_ty f)) (m_fields m) -> sound_at by_alias (TModel m).
Proof.
  intros Hs (Hnames & Hkeys & Hw). cbn [check conforms]. apply check_model_sound.
  - clear Hnames Hkeys. induction Hs as [|f fs Hf Hs IH]; [constructor|].
    apply Forall_cons in Hw as [Hwf Hw]. constructor; [|by apply IH].
    unfold field_check. cbn. split_and!; try done. by apply Hf.
  - rewrite map_map. unfold output_name. cbn. by destruct by_alias.
Qed.

Lemma sound_at_constrained by_alias t ks : sound_at by_alias t ->
  (match t with TList item | TSet item => sound_at by_alias item | _ => True end) ->
  sound_at by_alias (TConstrained t ks).
Proof.
  intros Ht Hitem Hw.
  assert (Hrest : forall float, sound (fun w => conforms by_alias t w /\ scalar_bounds_hold ks w)
    (fun v => let? w := check by_alias t v in check_bounds float ks w)).
  { intros float. eapply sound_bind; [by apply Ht|]. intros w Hwf. by apply check_bounds_sound. }
  destruct t; try exact (Hrest _); cbn [check conforms]; apply check_items_sound; by apply Hitem.
Qed.

Lemma sound_at_scalar by_alias t : (match t with
  | TStr | TInt | TFloat | TBool | TNull | TAny | TJsonValue | TDateTime | TBytes | TBase64 | TImage | TPath
  | TLiteral _ | TEnum _ => True | _ => False end) -> sound_at by_alias t.
Proof.
  intros Hs _. destruct t; try done; cbn [check conforms];
    first [apply sound_string|apply sound_scalar_string|apply sound_int|apply sound_float|apply sound_boolean
          |apply sound_literal|apply sound_enumerated|by intros v; destruct v].
Qed.

(** C38: what the validator accepts has the type it was asked for.  Whatever value a model returns
    and whatever well-formed type describes the answer, a successful check dumps a value of that
    type: a model has exactly its declared fields in order, under the names that were asked for,
    each of its type or its declared default; a list, set or scalar is within its declared bounds
    after coercion; a union's value is of one of its branches.  A failed check always names at
    least one issue. *)
Theorem check_sound by_alias t : well_formed t ->
  forall v, match check by_alias t v with
            | Ok w => conforms by_alias t w
            | Err issues => issues <> []
            end.
Proof.
  revert t. apply (Ty_induction (sound_at by_alias)).
  - apply sound_at_scalar.
  - intros t Ht Hw. cbn [check conforms]. apply check_items_sound. by apply Ht.
  - intros t Ht Hw. cbn [check conforms]. apply check_items_sound. by apply Ht.
  - intros t Ht Hw. cbn [check conforms]. apply check_map_sound. by apply Ht.
  - intros t Ht Hw v. specialize (Ht Hw v). cbn [check conforms].
    destruct v; [by left|..]; by destruct (check by_alias t _); [right|].
  - intros n t Ht Hw. by apply Ht.
  - apply sound_at_constrained.
  - apply sound_at_tuple.
  - apply sound_at_union.
  - apply sound_at_model.
  - apply sound_at_tagged.
Qed.
End Scalar_checks.

(** ** Examples *)
#[local] Existing Instances exact_format.

Section Examples.
(** The interfaces at concrete functions: no text reads as a float, values display as their kind. *)
#[local] Instance no_floats : ReadFloat := {| read_float _ := None |}.
#[local] Instance plain_values : ValueText := {| value_text v := match v with Str t => t | _ => lit "..." end |}.
#[local] Instance whole_floats : F64Display := {| f64_display x := show_Z (f64_trunc x) |}.

Definition example_score : Ty := ty_le (ty_ge TInt (Number (Int 0))) (Number (Int 5)).
Definition example_model : Ty :=
  TModel (frozen (lit "Reading")
    [required_field (lit "score") example_score;
     default_field (lit "note") (TOptional TStr) Null;
     required_field (lit "tags") (TConstrained (TList (TUnion [TInt; TStr])) [(lit "maxItems", Number (Int 2))])]).

Definition example_reading : value :=
  obj [("tags"%string, Array [Str (lit "a"); Number (Int 7)]); ("score"%string, Str (lit "4"))].

(** A digit string is coerced, the default filled in, and the fields put in their declared order. *)
Theorem check_sound_witness :
  check false example_model example_reading
  = Ok (obj [("score"%string, Number (Int 4)); ("note"%string, Null);
             ("tags"%string, Array [Str (lit "a"); Number (Int 7)])]) /\
  match check false example_model example_reading with
  | Ok w => conforms false example_model w
  | Err issues => issues <> []
  end.
Proof.
  split; [vm_compute; reflexivity|]. apply (check_sound false example_model).
  cbn. split_and!; repeat constructor; set_solver.
Defined.

Example extra_and_bounds :
  (match check false example_model
     (obj [("tags"%string, Array []); ("score"%string, Number (Int 9)); ("other"%string, Null)]) with
   | Ok _ => [] | Err issues => map i_kind issues end)
  = [lit "extra_forbidden"; lit "less_than_equal"].
Proof. vm_compute. reflexivity. Qed.
End Examples.
