(* ===== verification/Output.v ===== *)
(** A caller's output schema: [crates/fastbrowse-core/src/output_schema.rs].

    A JSON Schema becomes an [OutputModel] ([output_model]) or is refused with the keyword at fault.  The conversion threads a state,
    [Conversion]: the definitions already read and those being read, outermost first; [annotation] follows a [$ref] into them, so its
    recursion takes fuel, and [fuel_for] is enough for any schema.  The model then validates data ([validate]) and writes it under the
    caller's names.  What a schema asks of a value is stated apart from both, as the relation [satisfies]. *)

From S2P Require Import Prelude Float64 PyText Json DateTime Lax Models Ledger Config Receipts Decision Schema Validation.

(** ** Python's names: [crates/fastbrowse-core/src/py/text.rs] *)
Definition KEYWORDS : list text :=
  map lit ["False"; "None"; "True"; "and"; "as"; "assert"; "async"; "await"; "break"; "class"; "continue"; "def"; "del";
           "elif"; "else"; "except"; "finally"; "for"; "from"; "global"; "if"; "import"; "in"; "is"; "lambda"; "nonlocal";
           "not"; "or"; "pass"; "raise"; "return"; "try"; "while"; "with"; "yield"]%string.
Definition is_keyword (name : text) : bool := bool_decide (name ∈ KEYWORDS).
Definition is_identifier `{Unicode} (name : text) : bool :=
  match name with
  | c :: rest => (is_alphabetic c || (c =? chr "_")) && forallb (fun c => is_alphanumeric c || (c =? chr "_")) rest
  | [] => false
  end.

(** ** Keywords *)
Definition DRAFT : text := lit "https://json-schema.org/draft/2020-12/schema".
Definition BOUNDS : list text := map lit ["minimum"; "maximum"; "exclusiveMinimum"; "exclusiveMaximum"]%string.
Definition ANYWHERE : list text :=
  map lit ["type"; "properties"; "required"; "additionalProperties"; "items"; "enum"; "const"; "anyOf"; "$ref"; "description"; "title";
           "default"; "minimum"; "maximum"; "exclusiveMinimum"; "exclusiveMaximum"]%string.
Definition NOTES : list text := map lit ["description"; "title"; "default"; "$schema"; "$defs"]%string.
Definition OBJECT : list text := map lit ["properties"; "required"; "additionalProperties"]%string.
Definition KNOWN_TYPES : list text := map lit ["object"; "array"; "string"; "number"; "integer"; "boolean"; "null"]%string.
Definition MODEL_ATTRIBUTES : list text :=
  map lit ["construct"; "copy"; "dict"; "from_orm"; "json"; "model_computed_fields"; "model_config"; "model_construct"; "model_copy";
           "model_dump"; "model_dump_json"; "model_extra"; "model_fields"; "model_fields_set"; "model_json_schema";
           "model_parametrized_name"; "model_post_init"; "model_rebuild"; "model_validate"; "model_validate_json";
           "model_validate_strings"; "parse_file"; "parse_obj"; "parse_raw"; "schema"; "schema_json"; "update_forward_refs";
           "validate"]%string.

Record UnsupportedSchema := mkUnsupported { keyword : text; us_path : text; reason : text }.
Definition refuse {A} (keyword path reason : text) : result A UnsupportedSchema := Err (mkUnsupported keyword path reason).
Record ValidationError := mkValidationError { location : text; message : text }.
Definition invalid {A} (at_ message : text) : result A ValidationError := Err (mkValidationError at_ message).

(** ** The model *)
Record OutputField (T : Type) := mkOutputField {
  of_key : text; of_name : text; of_required : bool; of_description : option text; of_ty : T;
}.
Arguments mkOutputField {T}.
Arguments of_key {T}.
Arguments of_name {T}.
Arguments of_required {T}.
Arguments of_description {T}.
Arguments of_ty {T}.
Record ObjectType (T : Type) := mkObjectType { ob_name : text; closed : bool; ob_fields : list (OutputField T) }.
Arguments mkObjectType {T}.
Arguments ob_name {T}.
Arguments closed {T}.
Arguments ob_fields {T}.

Inductive OutputType :=
| OStr
| OInt (bounds : list (text * f64))
| ONumber (bounds : list (text * f64))
| OBool | ONull | OAny
| OList (item : OutputType)
| OObject (object : ObjectType OutputType)
| OUnion (members : list OutputType)
| OOneOf (allowed : list value) (literal : bool).
Definition is_null_type (t : OutputType) : bool := match t with ONull => true | _ => false end.

Record OutputModel := mkOutputModel { root : ObjectType OutputType }.

Definition pointer (path token : text) : text :=
  path ++ lit "/" ++ replace_char (chr "/") (lit "~1") (replace_char (chr "~") (lit "~0") token).

(** Whether a JSON value is of a JSON Schema type. *)
Definition has_type (v : value) (name : text) : bool :=
  if teqb name (lit "null") then match v with Null => true | _ => false end
  else if teqb name (lit "boolean") then match v with Bool _ => true | _ => false end
  else if teqb name (lit "integer") then match v with Number n => f64_integral (as_f64 n) | _ => false end
  else if teqb name (lit "number") then match v with Number _ => true | _ => false end
  else if teqb name (lit "string") then match v with Str _ => true | _ => false end
  else if teqb name (lit "array") then match v with Array _ => true | _ => false end
  else match v with Object _ => true | _ => false end.

(** Equality as JSON has it. *)
Fixpoint same (left_ right_ : value) {struct left_} : bool :=
  match left_, right_ with
  | Number a, Number b =>
      match as_i64 a, as_i64 b with
      | Some a, Some b => a =? b
      | _, _ => f64_eq (as_f64 a) (as_f64 b)
      end
  | Array a, Array b =>
      (fix all (a b : list value) : bool :=
         match a, b with
         | [], [] => true
         | x :: a, y :: b => same x y && all a b
         | _, _ => false
         end) a b
  | Object a, Object b =>
      (length a =? length b)%nat
      && forallb (fun kv => match kv with (k, v) => match im_get k b with Some other => same v other | None => false end end) a
  | _, _ => value_eqb left_ right_
  end.

Section Names.
Context `{Unicode}.
(** Whether a property name can be the field's own name. *)
Definition usable (name : text) : bool :=
  is_identifier name && negb (is_keyword name) && negb (starts_with name (lit "_")) && negb (bool_decide (name ∈ MODEL_ATTRIBUTES)).

Definition near_name (name : text) : text :=
  let field := map (fun c => if is_word c then c else chr "_") name in
  match field with
  | c :: _ => if is_alphabetic c then field else lit "field_" ++ field
  | [] => lit "field_" ++ field
  end.
(** [while taken.contains(&field) || !usable(&field) { field.push('_') }]. *)
Fixpoint free_name (fuel : nat) (taken : list text) (field : text) : option text :=
  if bool_decide (field ∈ taken) || negb (usable field) then
    match fuel with O => None | S fuel => free_name fuel taken (field ++ lit "_") end
  else Some field.
Definition name_fuel (taken : list text) : nat := length (taken ++ KEYWORDS ++ MODEL_ATTRIBUTES).
Fixpoint field_names_from (taken names : list text) : option (list (text * text)) :=
  match names with
  | [] => Some []
  | name :: names =>
      if usable name then (fun rest => (name, name) :: rest) <$> field_names_from taken names
      else
        field ← free_name (name_fuel taken) taken (near_name name);
        (fun rest => (name, field) :: rest) <$> field_names_from (field :: taken) names
  end.
(** A field name for each property: its own where that works, and otherwise the nearest name that does. *)
Definition field_names (properties : list (text * value)) : option (list (text * text)) :=
  field_names_from (im_keys properties) (im_keys properties).
End Names.

(** ** The conversion
    [None] is fuel run out, which [fuel_for] rules out. *)
Record Conversion := mkConversion { resolved : gmap text OutputType; resolving : list text }.
Definition Conv (A : Type) : Type := Conversion -> option (result (A * Conversion) UnsupportedSchema).
Definition conv_ret {A} (a : A) : Conv A := fun st => Some (Ok (a, st)).
Definition conv_bind {A B} (m : Conv A) (k : A -> Conv B) : Conv B :=
  fun st => match m st with Some (Ok (a, st)) => k a st | Some (Err e) => Some (Err e) | None => None end.
Definition conv_lift {A} (r : result A UnsupportedSchema) : Conv A :=
  fun st => Some (match r with Ok a => Ok (a, st) | Err e => Err e end).
Notation "'let#' x := m 'in' k" := (conv_bind m (fun x => k))
  (at level 10, x pattern, m at level 100, k at level 200, right associativity) : fb_scope.
Fixpoint conv_map {A B} (f : A -> Conv B) (l : list A) : Conv (list B) :=
  match l with
  | [] => conv_ret []
  | x :: l => let# y := f x in let# ys := conv_map f l in conv_ret (y :: ys)
  end.

(** *** Keywords that stand alone, types and bounds *)
Definition allowed_at (path key : text) : bool :=
  bool_decide (key ∈ ANYWHERE) || (teqb path (lit "#") && bool_decide (key ∈ [lit "$schema"; lit "$defs"])).
Definition known_keywords (map : list (text * value)) (path : text) : result unit UnsupportedSchema :=
  match find (fun key => negb (allowed_at path key)) (im_keys map) with
  | Some key => refuse key (pointer path key) (lit "this keyword is not supported")
  | None => Ok ()
  end.
Definition known_draft (map : list (text * value)) (path : text) : result unit UnsupportedSchema :=
  match im_get (lit "$schema") map with
  | Some draft =>
      if teqb path (lit "#") && negb (value_eqb draft (Str DRAFT))
      then refuse (lit "$schema") (lit "#/$schema") (lit "only " ++ DRAFT ++ lit " is supported") else Ok ()
  | None => Ok ()
  end.
Definition is_string (v : value) : bool := match v with Str _ => true | _ => false end.
Definition noted (map : list (text * value)) (path note : text) : result unit UnsupportedSchema :=
  match im_get note map with
  | Some v => if is_string v then Ok () else refuse note (pointer path note) (lit "has to be a string")
  | None => Ok ()
  end.

(** Refuse a keyword that would be ignored beside [key], which decides the value on its own. *)
Definition CLOSED : list text := [lit "enum"; lit "const"].
Definition beside (key other : text) : bool :=
  bool_decide (other ∈ NOTES) || teqb other key || (bool_decide (key ∈ CLOSED) && bool_decide (other ∈ [lit "type"; lit "enum"; lit "const"])).
Definition alone (map : list (text * value)) (path key : text) : result unit UnsupportedSchema :=
  match find (fun other => negb (beside key other)) (im_keys map) with
  | Some other => refuse other (pointer path other) (lit "is not supported beside " ++ [dquote] ++ key ++ [dquote])
  | None => Ok ()
  end.
Definition alone_if (map : list (text * value)) (path key : text) : result unit UnsupportedSchema :=
  if im_contains key map then alone map path key else Ok ().

Definition types (map : list (text * value)) (path : text) : result (list text) UnsupportedSchema :=
  match im_get (lit "type") map with
  | None => Ok []
  | Some named =>
      let listed := match named with Array items => items | one => [one] end in
      match mapM (fun one => name ← as_str (Some one); if bool_decide (name ∈ KNOWN_TYPES) then Some name else None) listed with
      | Some (t :: ts) => Ok (t :: ts)
      | _ => refuse (lit "type") (pointer path (lit "type")) (lit "has to be one or more of " ++ join (lit ", ") KNOWN_TYPES)
      end
  end.

Definition needs_beside (map : list (text * value)) (path : text) (types : list text) (key of_type : text) : result unit UnsupportedSchema :=
  if im_contains key map && negb (bool_decide (of_type ∈ types))
  then refuse key (pointer path key) (lit "needs " ++ [dquote] ++ lit "type" ++ [dquote] ++ lit ": " ++ [dquote] ++ of_type ++ [dquote] ++ lit " beside it")
  else Ok ().
Definition bound_allowed (map : list (text * value)) (path : text) (types : list text) (key : text) : result unit UnsupportedSchema :=
  match im_get key map with
  | None => Ok ()
  | Some bound =>
      if negb (existsb (fun t => teqb t (lit "integer") || teqb t (lit "number")) types)
      then refuse key (pointer path key)
             (lit "needs " ++ [dquote] ++ lit "type" ++ [dquote] ++ lit ": " ++ [dquote] ++ lit "integer" ++ [dquote] ++ lit " or " ++ [dquote] ++ lit "number"
                ++ [dquote] ++ lit " beside it")
      else if negb (has_type bound (lit "number")) then refuse key (pointer path key) (lit "has to be a number")
      else Ok ()
  end.
Fixpoint each_ok {A E} (f : A -> result unit E) (l : list A) : result unit E :=
  match l with [] => Ok () | x :: l => let? _ := f x in each_ok f l end.

Definition bounds_of (map : list (text * value)) : list (text * f64) :=
  omap (fun key => match im_get key map with Some (Number n) => Some (key, as_f64 n) | _ => None end) BOUNDS.

(** The values [enum] and [const] leave, of the types [type] leaves.  The source asks for them only where one is there. *)
Definition literal_value (v : value) : bool :=
  match v with Null | Str _ | Bool _ => true | Number n => negb (is_f64 n) | _ => false end.
Definition listed_values (map : list (text * value)) (path : text) : result (list value) UnsupportedSchema :=
  match im_get (lit "enum") map, im_get (lit "const") map with
  | Some (Array (v :: vs)), _ => Ok (v :: vs)
  | Some _, _ => refuse (lit "enum") (pointer path (lit "enum")) (lit "has to be a list with a value in it")
  | None, Some constant => Ok [constant]
  | None, None => Ok []
  end.
Definition kept_values (map : list (text * value)) (listed : list value) : list value :=
  match im_get (lit "enum") map, im_get (lit "const") map with
  | Some _, Some constant => base.filter (fun v => same v constant = true) listed
  | _, _ => listed
  end.
Definition closed_type (map : list (text * value)) (path : text) (types : list text) : result OutputType UnsupportedSchema :=
  let key := if im_contains (lit "enum") map then lit "enum" else lit "const" in
  let? listed := listed_values map path in
  let kept := kept_values map listed in
  let allowed := if is_empty types then kept else base.filter (fun v => existsb (has_type v) types = true) kept in
  if is_empty allowed then refuse key (pointer path key) (lit "no value passes this together with what is beside it")
  else Ok (OOneOf allowed (forallb literal_value allowed)).

(** [Iterator::position]. *)
Fixpoint position {A} (f : A -> bool) (l : list A) : option nat :=
  match l with [] => None | x :: l => if f x then Some 0%nat else S <$> position f l end.

(** [A | B]: one member stands alone, and a [None] among several goes last. *)
Definition flat_members (members : list OutputType) : list OutputType :=
  concat (map (fun m => match m with OUnion inner => inner | other => [other] end) members).
Definition union (members : list OutputType) : OutputType :=
  match flat_members members with
  | [only] => only
  | flat =>
      match position is_null_type flat with
      | Some index => OUnion (take index flat ++ drop (S index) flat ++ [ONull])
      | None => OUnion flat
      end
  end.

(** *** The open recursion: what each schema form needs of the type of another *)
Section Forms.
Context `{Unicode} (definitions : list (text * value)).
Context (recur : value -> text -> text -> Conv OutputType).

Definition properties_of (map : list (text * value)) (path : text) : result (list (text * value)) UnsupportedSchema :=
  match im_get (lit "properties") map with
  | None => Ok []
  | Some (Object properties) => Ok properties
  | Some _ => refuse (lit "properties") (pointer path (lit "properties")) (lit "has to be an object of schemas")
  end.
Definition property_name (properties : list (text * value)) (v : value) : option text :=
  match v with Str n => if im_contains n properties then Some n else None | _ => None end.
Definition required_of (map : list (text * value)) (path : text) (properties : list (text * value)) : result (list text) UnsupportedSchema :=
  let refused := refuse (lit "required") (pointer path (lit "required")) (lit "has to be a list of names in properties") in
  match im_get (lit "required") map with
  | None => Ok []
  | Some (Array names) => match mapM (property_name properties) names with Some names => Ok names | None => refused end
  | Some _ => refused
  end.
Definition closed_of (map : list (text * value)) (path : text) : result bool UnsupportedSchema :=
  match im_get (lit "additionalProperties") map with
  | None | Some (Bool true) => Ok false
  | Some (Object []) => Ok false
  | Some (Bool false) => Ok true
  | Some _ => refuse (lit "additionalProperties") (pointer path (lit "additionalProperties")) (lit "has to be true or false")
  end.
Definition description_of (property : value) : option text :=
  match property with Object map => as_str (im_get (lit "description") map) | _ => None end.
Definition output_field (path : text) (required : list text) (entry : (text * text) * value) : Conv (OutputField OutputType) :=
  let '((key, field_name), property) := entry in
  let# ty := recur property (pointer (pointer path (lit "properties")) key) key in
  conv_ret (mkOutputField key field_name (bool_decide (key ∈ required)) (description_of property) ty).
Definition object (map : list (text * value)) (path name : text) : Conv OutputType :=
  let# properties := conv_lift (properties_of map path) in
  let# required := conv_lift (required_of map path properties) in
  let# closed := conv_lift (closed_of map path) in
  match field_names properties with
  | None => fun _ => None
  | Some names =>
      let# fields := conv_map (output_field path required) (zip names (List.map snd properties)) in
      conv_ret (OObject (mkObjectType name closed fields))
  end.

Definition typed (type_name : text) (map : list (text * value)) (path name : text) : Conv OutputType :=
  if teqb type_name (lit "string") then conv_ret OStr
  else if teqb type_name (lit "integer") then conv_ret (OInt (bounds_of map))
  else if teqb type_name (lit "number") then conv_ret (ONumber (bounds_of map))
  else if teqb type_name (lit "boolean") then conv_ret OBool
  else if teqb type_name (lit "null") then conv_ret ONull
  else if teqb type_name (lit "object") then object map path name
  else
    match im_get (lit "items") map with
    | None => conv_ret (OList OAny)
    | Some items => let# item := recur items (pointer path (lit "items")) (name ++ lit "Item") in conv_ret (OList item)
    end.

Definition is_null_branch (branch : value) : bool :=
  match branch with
  | Object b =>
      match im_get (lit "type") b with Some v => value_eqb v (Str (lit "null")) | None => false end
      && forallb (fun k => bool_decide (k ∈ [lit "type"; lit "description"])) (im_keys b)
  | _ => false
  end.
Definition nullable (branches : value) (path name : text) : Conv OutputType :=
  let beside_null (other : value) (index : Z) : Conv OutputType :=
    let# inner := recur other (pointer path (show_Z index)) name in conv_ret (union [inner; ONull]) in
  let refused := conv_lift (refuse (lit "anyOf") path
    (lit "only a schema and {" ++ [dquote] ++ lit "type" ++ [dquote] ++ lit ": " ++ [dquote] ++ lit "null" ++ [dquote]
       ++ lit "} are supported, for a value that may be null")) in
  match branches with
  | Array [first; second] =>
      if is_null_branch first then beside_null second 1
      else if is_null_branch second then beside_null first 0 else refused
  | _ => refused
  end.

(** Only a definition not being read is read; one that turns up again refers to itself. *)
Definition definition (name asked_at : text) : Conv OutputType := fun st =>
  match position (teqb name) (resolving st) with
  | Some index =>
      conv_lift (refuse (lit "$ref") asked_at
        (lit "recursive schemas are not supported (" ++ join (lit " -> ") (drop index (resolving st) ++ [name]) ++ lit ")")) st
  | None =>
      match resolved st !! name with
      | Some ty => Some (Ok (ty, st))
      | None =>
          match im_get name definitions with
          | None => None
          | Some schema =>
              (let# ty := recur schema (pointer (lit "#/$defs") name) name in
               fun st => Some (Ok (ty, mkConversion (<[name := ty]> (resolved st)) (removelast (resolving st)))))
                (mkConversion (resolved st) (resolving st ++ [name]))
          end
      end
  end.
Definition reference_name (reference : value) : option text :=
  r ← as_str (Some reference);
  name ← strip_prefix r (lit "#/$defs/");
  if is_empty name then None else Some (replace (lit "~0") (lit "~") (replace (lit "~1") (lit "/") name)).
Definition reference (ref : value) (path : text) : Conv OutputType :=
  let refused := conv_lift (refuse (lit "$ref") path (lit "has to be #/$defs/ and the name of a definition in this schema")) in
  match reference_name ref with
  | Some name => if im_contains name definitions then definition name path else refused
  | None => refused
  end.

(** The type for one schema; [name] is what a model built for it is called. *)
Definition last_token (path : text) : text := match rsplit_once (chr "/") path with Some (_, last) => last | None => path end.
Definition typed_members (map : list (text * value)) (path name : text) : Conv OutputType :=
  let# types := conv_lift (types map path) in
  if im_contains (lit "enum") map || im_contains (lit "const") map then conv_lift (closed_type map path types)
  else
    let# _ := conv_lift (each_ok (fun key => needs_beside map path types key (lit "object")) OBJECT) in
    let# _ := conv_lift (needs_beside map path types (lit "items") (lit "array")) in
    let# _ := conv_lift (each_ok (bound_allowed map path types) BOUNDS) in
    if is_empty types then conv_ret OAny
    else
      let# members := conv_map (fun type_name => typed type_name map path name) types in
      conv_ret (union members).
Definition annotation_of (schema : value) (path name : text) : Conv OutputType :=
  match schema with
  | Object map =>
      let# _ := conv_lift (known_keywords map path) in
      let# _ := conv_lift (known_draft map path) in
      let# _ := conv_lift (each_ok (noted map path) [lit "description"; lit "title"]) in
      let# _ := conv_lift (each_ok (alone_if map path) [lit "$ref"; lit "anyOf"; lit "enum"; lit "const"]) in
      match im_get (lit "$ref") map, im_get (lit "anyOf") map with
      | Some ref, _ => reference ref (pointer path (lit "$ref"))
      | None, Some branches => nullable branches (pointer path (lit "anyOf")) name
      | None, None => typed_members map path name
      end
  | _ => conv_lift (refuse (last_token path) path (lit "has to be a schema object"))
  end.
End Forms.

Section Converting.
Context `{Unicode}.

Fixpoint annotation (definitions : list (text * value)) (fuel : nat) (schema : value) (path name : text) : Conv OutputType :=
  match fuel with
  | O => fun _ => None
  | S fuel => annotation_of definitions (annotation definitions fuel) schema path name
  end.

Fixpoint depth (v : value) : nat :=
  match v with
  | Array items => S (max_list_with depth items)
  | Object fields => S (max_list_with (fun kv => match kv with (_, v) => depth v end) fields)
  | _ => 1%nat
  end.

(** [Conversion::new]. *)
Definition definitions_of (schema : value) : result (list (text * value)) UnsupportedSchema :=
  match schema with
  | Object map =>
      match im_get (lit "$defs") map with
      | None => Ok []
      | Some (Object definitions) => Ok definitions
      | Some _ => refuse (lit "$defs") (lit "#/$defs") (lit "has to be an object of schemas")
      end
  | _ => Ok []
  end.
Definition fuel_for (schema : value) (definitions : list (text * value)) : nat := S ((S (length definitions)) * depth schema).

Definition model (schema : value) (definitions : list (text * value)) : Conv OutputModel :=
  let recur := annotation definitions (fuel_for schema definitions) in
  let# root := recur schema (lit "#") (lit "Output") in
  match root with
  | OObject root =>
      let# _ := conv_map (fun name => definition definitions recur name (pointer (lit "#/$defs") name)) (im_keys definitions) in
      conv_ret (mkOutputModel root)
  | _ => conv_lift (refuse (lit "type") (lit "#/type")
           (lit "a run returns an object, so the root has to be " ++ [dquote] ++ lit "type" ++ [dquote] ++ lit ": " ++ [dquote] ++ lit "object" ++ [dquote]))
  end.
Definition output_model (schema : value) : option (result OutputModel UnsupportedSchema) :=
  match definitions_of schema with
  | Err e => Some (Err e)
  | Ok definitions =>
      match model schema definitions (mkConversion ∅ []) with
      | Some (Ok (m, _)) => Some (Ok m)
      | Some (Err e) => Some (Err e)
      | None => None
      end
  end.
End Converting.

(** ** The schema pydantic writes for a type *)
Definition object_field (field : OutputField Ty) : Field Ty :=
  mkField (of_name field) (if teqb (of_name field) (of_key field) then None else Some (of_key field)) (of_ty field)
    (if of_required field then None else Some Null) (of_description field) false false false.
Definition object_ty (o : ObjectType Ty) : Ty :=
  TModel (mkModelTy (ob_name o) (lit "fastbrowse.output_schema") None (closed o) (map object_field (ob_fields o))).
Definition union_ty (members : list (OutputType * Ty)) : Ty :=
  let others := map snd (base.filter (fun m => is_null_type m.1 = false) members) in
  let inner := match others with [only] => only | others => TUnion others end in
  if (length others <? length members)%nat then TOptional inner else inner.
Definition with_type {T U} (f : OutputField T) (u : U) : OutputField U :=
  mkOutputField (of_key f) (of_name f) (of_required f) (of_description f) u.
Fixpoint ty (t : OutputType) : Ty :=
  match t with
  | OStr => TStr
  | OInt _ => TInt
  | ONumber _ => TFloat
  | OBool => TBool
  | ONull => TNull
  | OAny => TAny
  | OList item => TList (ty item)
  | OObject o => object_ty (mkObjectType (ob_name o) (closed o) (map (fun f => with_type f (ty (of_ty f))) (ob_fields o)))
  | OUnion members => union_ty (map (fun m => (m, ty m)) members)
  | OOneOf allowed true => TLiteral allowed
  | OOneOf _ false => TAny
  end.

(** ** Validation *)
Definition Valid : Type := result value ValidationError.
Definition bound_holds (x : f64) (kb : text * f64) : bool :=
  if teqb kb.1 (lit "minimum") then f64_ge x kb.2
  else if teqb kb.1 (lit "maximum") then f64_le x kb.2
  else if teqb kb.1 (lit "exclusiveMinimum") then f64_gt x kb.2
  else f64_lt x kb.2.
Definition beneath (at_ token : text) : text := if is_empty at_ then token else at_ ++ lit "." ++ token.

(** The first element that fails is the error. *)
Fixpoint valid_items (f : value -> text -> Valid) (at_ : text) (i : nat) (items : list value) : result (list value) ValidationError :=
  match items with
  | [] => Ok []
  | item :: items =>
      let? v := f item (at_ ++ lit "." ++ show_Z (Z.of_nat i)) in
      let? vs := valid_items f at_ (S i) items in
      Ok (v :: vs)
  end.
Fixpoint valid_fields (data : list (text * value)) (at_ : text) (fields : list (OutputField (value -> text -> Valid))) (dumped : list (text * value))
  : result (list (text * value)) ValidationError :=
  match fields with
  | [] => Ok dumped
  | field :: fields =>
      let here := beneath at_ (of_key field) in
      let given := match im_get (of_key field) data with Some v => Some v | None => im_get (of_name field) data end in
      match given with
      | Some item => let? v := of_ty field item here in valid_fields data at_ fields (im_insert (of_key field) v dumped)
      | None => if of_required field then invalid here (lit "Field required") else valid_fields data at_ fields dumped
      end
  end.
Definition named {T} (o : ObjectType T) (key : text) : bool := existsb (fun f => teqb (of_key f) key || teqb (of_name f) key) (ob_fields o).
Definition valid_object (o : ObjectType (value -> text -> Valid)) (v : value) (at_ : text) : Valid :=
  match v with
  | Object data =>
      let? dumped := valid_fields data at_ (ob_fields o) [] in
      match (if closed o then find (fun key => negb (named o key)) (im_keys data) else None) with
      | Some extra => invalid (beneath at_ extra) (lit "Extra inputs are not permitted")
      | None => Ok (Object dumped)
      end
  | _ => invalid at_ (lit "Input should be a valid dictionary or instance of the model")
  end.

(** pydantic's smart union: the member that takes the value most exactly, the first of equals. *)
Definition exactness (member : OutputType) (v : value) : nat :=
  match member, v with
  | ONumber _, Number n => if is_f64 n then 2%nat else 1%nat
  | ONumber _, _ => 1%nat
  | _, _ => 2%nat
  end.
Definition better (score : nat) (best : option (nat * value)) : bool :=
  match best with None => true | Some (s, _) => (s <? score)%nat end.
Fixpoint best_member (members : list (OutputType * (value -> text -> Valid))) (v : value) (at_ : text) (best : option (nat * value)) (errors : list text)
  : option (nat * value) * list text :=
  match members with
  | [] => (best, errors)
  | (member, f) :: members =>
      match f v at_ with
      | Ok valid =>
          let score := exactness member v in
          best_member members v at_ (if better score best then Some (score, valid) else best) errors
      | Err e => best_member members v at_ best (errors ++ [message e])
      end
  end.

Section Validating.
Context `{FF : FloatFormat} `{VT : ValueText}.

(** [repr(list)] of JSON values. *)
Fixpoint python_repr (v : value) : text :=
  match v with
  | Array items => lit "[" ++ join (lit ", ") (map python_repr items) ++ lit "]"
  | Object fields => lit "{" ++ join (lit ", ") (map (fun kv => match kv with (k, v) => repr k ++ lit ": " ++ python_repr v end) fields) ++ lit "}"
  | scalar => scalar_repr scalar
  end.
Definition python_list (values : list value) : text := python_repr (Array values).

Definition within (bounds : list (text * f64)) (x : f64) (at_ : text) : result unit ValidationError :=
  match find (fun kb => negb (bound_holds x kb)) bounds with
  | Some (key, bound) => invalid at_ (lit "outside " ++ key ++ lit " " ++ float_str bound)
  | None => Ok ()
  end.
(** A float with no fractional part is the int it is. *)
Definition whole_number (v : value) (at_ : text) : Valid :=
  let refused := invalid at_ (lit "Input should be a valid integer") in
  match v with
  | Number n =>
      if negb (is_f64 n) then Ok v
      else if f64_integral (as_f64 n) && f64_lt (f64_abs (as_f64 n)) (f64_of_Z 9200000000000000000)
      then Ok (Number (Int (f64_to_i64 (as_f64 n)))) else refused
  | _ => refused
  end.
Definition number_value (v : value) : f64 := match v with Number n => as_f64 n | _ => f64_nan end.
Definition valid_int (bounds : list (text * f64)) (v : value) (at_ : text) : Valid :=
  let? whole := whole_number v at_ in
  let? _ := within bounds (number_value whole) at_ in
  Ok whole.
Definition valid_number (bounds : list (text * f64)) (v : value) (at_ : text) : Valid :=
  match v with
  | Number n => let? _ := within bounds (as_f64 n) at_ in Ok (json_float (as_f64 n))
  | _ => invalid at_ (lit "Input should be a valid number")
  end.
Definition one_of_allowed (allowed : list value) (literal : bool) (v : value) (at_ : text) : Valid :=
  match find (same v) allowed with
  | Some option => Ok (if literal then option else v)
  | None => invalid at_ (lit "not one of " ++ python_list allowed)
  end.
Definition valid_union (members : list (OutputType * (value -> text -> Valid))) (v : value) (at_ : text) : Valid :=
  match best_member members v at_ None [] with
  | (Some (_, valid), _) => Ok valid
  | (None, errors) => invalid at_ (join (lit "; ") errors)
  end.

Fixpoint validate (t : OutputType) (v : value) (at_ : text) {struct t} : Valid :=
  match t with
  | OStr => if is_string v then Ok v else invalid at_ (lit "Input should be a valid string")
  | OBool => match v with Bool _ => Ok v | _ => invalid at_ (lit "Input should be a valid boolean") end
  | ONull => match v with Null => Ok Null | _ => invalid at_ (lit "Input should be None") end
  | OAny => Ok v
  | OInt bounds => valid_int bounds v at_
  | ONumber bounds => valid_number bounds v at_
  | OList item =>
      match v with
      | Array items => let? vs := valid_items (validate item) at_ 0 items in Ok (Array vs)
      | _ => invalid at_ (lit "Input should be a valid list")
      end
  | OObject o =>
      valid_object (mkObjectType (ob_name o) (closed o) (map (fun f => with_type f (validate (of_ty f))) (ob_fields o))) v at_
  | OUnion members => valid_union (map (fun m => (m, validate m)) members) v at_
  | OOneOf allowed literal => one_of_allowed allowed literal v at_
  end.
Definition model_validate (m : OutputModel) (data : value) : Valid := validate (OObject (root m)) data [].
(** [ResponseSchema::validate_json], the text parsed as [parsed]. *)
Definition validation_error_text (e : ValidationError) : text := location e ++ lit ": " ++ message e.
Definition model_validate_json (m : OutputModel) (parsed : result value JsonError) (t : text) : result value text :=
  let? data := parse_json parsed t in
  match model_validate m data with Ok v => Ok v | Err e => Err (validation_error_text e) end.
End Validating.

(** * Properties *)
(** ** Field names *)
(** What Rust's tables say of letters. *)
Class UnicodeLetters (U : Unicode) := {
  alphabetic_alphanumeric c : is_alphabetic c = true -> is_alphanumeric c = true;
  ascii_alphabetic c : 0 <= c < 128 -> is_alphabetic c = is_ascii_alphabetic c;
}.
#[export] Instance ascii_unicode_letters : UnicodeLetters ascii_unicode.
Proof. split; cbn; [|done]. intros c Hc. unfold is_ascii_alphanumeric. by rewrite Hc. Qed.

Section NamesProps.
Context {U : Unicode} {UL : UnicodeLetters U}.

(** A name that can be a field's, but for the names that are taken. *)
Definition name_shaped (field : text) : Prop :=
  exists c rest, field = c :: rest /\ is_alphabetic c = true /\ Forall (fun c => is_word c = true) rest.
Lemma name_shaped_usable field : name_shaped field -> usable field = negb (is_keyword field) && negb (bool_decide (field ∈ MODEL_ATTRIBUTES)).
Proof.
  intros (c & rest & -> & Hc & Hr). unfold usable, is_identifier. rewrite Hc.
  assert (forallb (fun c => is_alphanumeric c || (c =? chr "_")) rest = true) as ->.
  { apply forallb_forall. intros x Hx. rewrite Forall_forall in Hr. apply Hr. by apply list_elem_of_In. }
  assert (starts_with (c :: rest) (lit "_") = false) as ->; [|by rewrite !andb_true_r].
  assert (starts_with (c :: rest) (lit "_") = (95 =? c)) as -> by (destruct rest; apply andb_true_r). apply Z.eqb_neq. intros <-. by rewrite ascii_alphabetic in Hc.
Qed.
Lemma name_shaped_push field : name_shaped field -> name_shaped (field ++ lit "_").
Proof.
  intros (c & rest & -> & Hc & Hr). exists c, (rest ++ lit "_"). split_and!; [done..|]. apply Forall_app. split; [done|].
  constructor; [|done]. unfold is_word. cbn. by rewrite orb_true_r.
Qed.
Lemma near_name_shaped name : name_shaped (near_name name).
Proof.
  assert (Forall (fun c => is_word c = true) (map (fun c => if is_word c then c else chr "_") name)) as Hw.
  { apply Forall_forall. intros x (c & -> & _)%list_elem_of_fmap. destruct (is_word c) eqn:E; [done|]. unfold is_word. cbn. by rewrite orb_true_r. }
  assert (name_shaped (lit "field_" ++ map (fun c => if is_word c then c else chr "_") name)) as Hf.
  { exists 102, (lit "ield_" ++ map (fun c => if is_word c then c else chr "_") name). split; [done|]. split; [by apply ascii_alphabetic|].
    apply Forall_app. split; [|done]. assert (forall c, 0 <= c < 128 -> is_ascii_alphabetic c = true -> is_word c = true) as Ha.
    { intros c Hc Ht. unfold is_word. rewrite alphabetic_alphanumeric; [done|]. by rewrite ascii_alphabetic. }
    repeat constructor; try by apply Ha. unfold is_word. cbn. by rewrite orb_true_r. }
  unfold near_name. destruct (map _ name) as [|c rest]; [done|]. destruct (is_alphabetic c) eqn:E; [|done].
  exists c, rest. split_and!; [done..|]. by inversion Hw.
Qed.

(** Each name passed over is one of the blocked ones, and no two are the same length. *)
Definition blocked (taken : list text) : list text := taken ++ KEYWORDS ++ MODEL_ATTRIBUTES.
Definition longer (n : nat) (l : list text) : nat := length (base.filter (fun b => (n <= length b)%nat) l).
Lemma longer_drop l field : field ∈ l -> (longer (S (length field)) l < longer (length field) l)%nat.
Proof.
  unfold longer. induction l as [|b l IH]; intros Hin; [by apply not_elem_of_nil in Hin|]. rewrite !filter_cons.
  assert (forall l : list text, length (base.filter (fun b => (S (length field) <= length b)%nat) l) <= length (base.filter (fun b => (length field <= length b)%nat) l))%nat as Hle.
  { clear. induction l as [|b l IH]; [done|]. rewrite !filter_cons. repeat case_decide; cbn [length]; lia. }
  apply elem_of_cons in Hin as [->|Hin].
  - rewrite decide_False, decide_True by lia. cbn [length]. specialize (Hle l). lia.
  - specialize (IH Hin). repeat case_decide; cbn [length]; try lia; specialize (Hle l); lia.
Qed.
Lemma free_name_spec fuel : forall taken field, name_shaped field -> (longer (length field) (blocked taken) <= fuel)%nat ->
  exists name, free_name fuel taken field = Some name /\ name ∉ taken /\ usable name = true /\ field `prefix_of` name.
Proof.
  induction fuel as [|fuel IH]; intros taken field Hs Hl; cbn [free_name].
  all: destruct (bool_decide (field ∈ taken) || negb (usable field)) eqn:Eb;
    [|apply orb_false_iff in Eb as [Ht Hu%negb_false_iff]; apply bool_decide_eq_false in Ht; by exists field].
  all: assert (field ∈ blocked taken) as Hin by
    (apply orb_true_iff in Eb as [Ht%bool_decide_eq_true|Hu%negb_true_iff]; unfold blocked; [set_solver|];
     rewrite (name_shaped_usable _ Hs) in Hu; apply andb_false_iff in Hu as [Hk%negb_false_iff|Hk%negb_false_iff];
     apply bool_decide_eq_true in Hk; rewrite !elem_of_app; auto).
  all: apply longer_drop in Hin.
  { lia. }
  destruct (IH taken (field ++ lit "_")) as (name & Hn & Ht & Hu & Hp); [by apply name_shaped_push| |].
  { rewrite length_app. cbn [lit length]. replace (length field + 1)%nat with (S (length field)) by lia. lia. }
  exists name. split_and!; [done..|]. etrans; [|done]. by eexists.
Qed.
Lemma longer_le n l : (longer n l <= length l)%nat.
Proof. unfold longer. apply length_filter. Qed.

Lemma field_names_from_spec names : forall taken, (forall n, n ∈ names -> n ∈ taken) ->
  exists named, field_names_from taken names = Some named /\ map fst named = names /\
    Forall (fun kn => usable kn.2 = true /\ (kn.2 = kn.1 \/ usable kn.1 = false /\ kn.2 ∉ taken)) named /\ (NoDup names -> NoDup (map snd named)).
Proof.
  induction names as [|name names IH]; intros taken Ht; cbn [field_names_from]; [exists []; repeat split; constructor|].
  assert (forall field (named : list (text * text)), map fst named = names -> (field = name \/ field ∉ taken) ->
    Forall (fun kn => kn.2 = kn.1 \/ kn.2 ∉ taken /\ kn.2 <> field) named -> (NoDup names -> NoDup (map snd named)) ->
    NoDup (name :: names) -> NoDup (field :: map snd named)) as Hnew.
  { intros field named Hk Hfield Hf Hd [Hnew Hn]%NoDup_cons. constructor; [|by apply Hd].
    intros ([k n] & -> & Hin)%list_elem_of_fmap. rewrite Forall_forall in Hf. cbn [fst snd] in *.
    assert (k ∈ names) as Hin1 by (rewrite <- Hk; by apply (list_elem_of_fmap_2 fst _ (k, n))).
    destruct (Hf _ Hin) as [He|[Hnt Hne]]; cbn [fst snd] in *; [|done]. subst n.
    destruct Hfield as [->|Hfr]; [done|]. apply Hfr, Ht. by right. }
  destruct (usable name) eqn:Eu.
  - destruct (IH taken ltac:(set_solver)) as (named & -> & Hk & Hf & Hd). exists ((name, name) :: named). cbn [fmap option_fmap map fst snd].
    split; [done|]. split; [by rewrite Hk|]. split; [constructor; [auto|done]|]. apply (Hnew name named); [done|by left| |done].
    eapply Forall_impl; [exact Hf|]. intros kn [_ [He|[_ He]]]; [by left|]. right. split; [done|]. intros E. apply He. rewrite E. apply Ht. by left.
  - destruct (free_name_spec (name_fuel taken) taken (near_name name)) as (field & -> & Hfr & Hu & _);
      [apply near_name_shaped|apply longer_le|]. cbn [mbind option_bind].
    destruct (IH (field :: taken)) as (named & -> & Hk & Hf & Hd); [intros n Hin; right; set_solver|].
    exists ((name, field) :: named). cbn [fmap option_fmap map fst snd]. split; [done|]. split; [by rewrite Hk|].
    split; [constructor; [auto|]|apply (Hnew field named); [done|by right| |done]].
    all: eapply Forall_impl; [exact Hf|]; intros kn [H1 [H2|[H2 H3]]]; [by auto|].
    + split; [done|]. right. set_solver.
    + right. set_solver.
Qed.

(** C28: Every property gets a field name, whatever it is called: the names come in the properties' order, no two are the same, each is an
    identifier that is no keyword and no attribute of a model, and a property that has no such name of its own is given one no property has. *)
Theorem field_names_exact properties : NoDup (im_keys properties) ->
  exists named, field_names properties = Some named /\ map fst named = im_keys properties /\ NoDup (map snd named) /\
    Forall (fun kn => usable kn.2 = true /\ (kn.2 = kn.1 \/ usable kn.1 = false /\ kn.2 ∉ im_keys properties)) named.
Proof.
  intros Hn. destruct (field_names_from_spec (im_keys properties) (im_keys properties)) as (named & H1 & H2 & H3 & H4); [done|].
  exists named. auto.
Qed.
End NamesProps.

(** ** Induction through the lists of a type *)
Section Induction.
Context (P : OutputType -> Prop).
Context (Hscalar : forall t, (match t with OList _ | OObject _ | OUnion _ => False | _ => True end) -> P t).
Context (Hlist : forall t, P t -> P (OList t)) (Hobject : forall o, Forall (fun f => P (of_ty f)) (ob_fields o) -> P (OObject o)).
Context (Hunion : forall ms, Forall P ms -> P (OUnion ms)).
Lemma OutputType_induction : forall t, P t.
Proof.
  fix IH 1. intros t. destruct t as [| | | | | |t|o|ms|]; try (apply Hscalar; exact I).
  - apply Hlist, IH.
  - apply Hobject. destruct o as [n c fs]. cbn. revert fs. fix go 1. intros [|f fs]; constructor; [destruct f; apply IH|apply go].
  - apply Hunion. revert ms. fix go 1. intros [|m ms]; constructor; [apply IH|apply go].
Qed.
End Induction.

(** ** What a type says of the data it takes *)
(** The value itself, or one JSON calls equal to it. *)
Definition json_equal (w v : value) : Prop := w = v \/ same w v = true.
Definition of_type (w : value) (t : text) : Prop :=
  match w with Number (Int _) => t = lit "integer" \/ t = lit "number" | _ => has_type w t = true end.
(** An object's entries are each a field's, and a required field has one. *)
Definition object_holds {T} (fields : list (OutputField T)) (holds : OutputField T -> value -> Prop) (w : value) : Prop :=
  exists fs, w = Object fs /\ (forall k v, (k, v) ∈ fs -> exists f, f ∈ fields /\ of_key f = k /\ holds f v) /\
    (forall f, f ∈ fields -> of_required f = true -> of_key f ∈ im_keys fs).
Fixpoint conforms (t : OutputType) (w : value) {struct t} : Prop :=
  match t with
  | OStr => is_string w = true
  | OInt bounds => exists n, w = Number (Int n) /\ Forall (fun kb => bound_holds (number_value w) kb = true) bounds
  | ONumber bounds => exists x, w = Number (Float x) /\ Forall (fun kb => bound_holds x kb = true) bounds
  | OBool => exists b, w = Bool b
  | ONull => w = Null
  | OAny => True
  | OList item => exists l, w = Array l /\ Forall (conforms item) l
  | OObject o => object_holds (map (fun f => with_type f (conforms (of_ty f))) (ob_fields o)) of_ty w
  | OUnion ms => Exists (fun P => P w) (map conforms ms)
  | OOneOf allowed _ => Exists (json_equal w) allowed
  end.
(** Every number is one a double holds, as JSON's are read. *)
Fixpoint finite_numbers (v : value) : bool :=
  match v with
  | Number n => is_finite (as_f64 n)
  | Array items => forallb finite_numbers items
  | Object fields => forallb (fun kv => match kv with (_, v) => finite_numbers v end) fields
  | _ => true
  end.

Section Conforming.
Context `{FF : FloatFormat} `{VT : ValueText}.

Definition checks (Q : value -> Prop) (f : value -> text -> Valid) : Prop :=
  forall v at_ w, finite_numbers v = true -> f v at_ = Ok w -> Q w.

Lemma within_ok bounds x at_ u : within bounds x at_ = Ok u -> Forall (fun kb => bound_holds x kb = true) bounds.
Proof.
  unfold within. destruct (find _ bounds) as [[k b]|] eqn:E; [done|]. intros _. apply Forall_forall. intros kb Hin.
  apply list_elem_of_In in Hin. pose proof (find_none _ _ E _ Hin) as Hn. by apply negb_false_iff in Hn.
Qed.
Lemma whole_number_int v at_ w : whole_number v at_ = Ok w -> exists n, w = Number (Int n).
Proof.
  unfold whole_number. destruct v as [| |n| | |]; try done. destruct (negb (is_f64 n)) eqn:E.
  - intros [= <-]. destruct n; [eauto|done].
  - destruct (_ && _); [|done]. intros [= <-]. eauto.
Qed.
Lemma valid_items_checks Q f : checks Q f -> forall items at_ i l, forallb finite_numbers items = true -> valid_items f at_ i items = Ok l -> Forall Q l.
Proof.
  intros Hf. induction items as [|v items IH]; intros at_ i l Hn; cbn [valid_items]; [by intros [= <-]|].
  cbn in Hn. apply andb_true_iff in Hn as [Hv Hn]. destruct (f v _) as [w|] eqn:E; [|done].
  destruct (valid_items f at_ (S i) items) as [ws|] eqn:Es; [|done]. intros [= <-]. constructor; [by eapply Hf|by eapply IH].
Qed.
Lemma finite_entry (data : list (text * value)) k v : forallb (fun kv => match kv with (_, v) => finite_numbers v end) data = true -> im_get k data = Some v -> finite_numbers v = true.
Proof. intros Hn Hg%im_get_elem. rewrite forallb_forall in Hn. by apply (Hn (k, v)), list_elem_of_In. Qed.

Lemma valid_fields_checks {T} (holds : OutputField T -> value -> Prop) (data : list (text * value)) at_ fields fs :
  forallb (fun kv => match kv with (_, v) => finite_numbers v end) data = true ->
  Forall2 (fun f c => of_key c = of_key f /\ of_required c = of_required f /\ checks (holds f) (of_ty c)) fields fs ->
  forall dumped w, valid_fields data at_ fs dumped = Ok w ->
  (forall k v, (k, v) ∈ w -> (k, v) ∈ dumped \/ exists f, f ∈ fields /\ of_key f = k /\ holds f v) /\
  (forall k, k ∈ im_keys dumped -> k ∈ im_keys w) /\ (forall f, f ∈ fields -> of_required f = true -> of_key f ∈ im_keys w).
Proof.
  intros Hn. induction 1 as [|f c fields fs (Hk & Hr & Hc) Hfs IH]; intros dumped w; cbn [valid_fields].
  { intros [= <-]. split_and!; [auto|done|]. intros f Hf. by apply not_elem_of_nil in Hf. }
  destruct (match im_get (of_key c) data with Some v => Some v | None => im_get (of_name c) data end) as [item|] eqn:Eg.
  - assert (finite_numbers item = true) as Hi by (destruct (im_get (of_key c) data) eqn:E1; [injection Eg as <-|]; by eapply finite_entry).
    destruct (of_ty c item _) as [v|] eqn:Ev; [|done]. intros E. apply IH in E as (He & Hd & Hreq). apply (Hc _ _ _ Hi) in Ev. split_and!.
    + intros k x Hx. destruct (He k x Hx) as [Hin|(f' & ? & ? & ?)]; [|right; exists f'; split; [by right|done]].
      apply im_insert_elem in Hin as [[= -> ->]|Hin]; [|by left]. right. exists f. split; [by left|done].
    + intros k Hin. apply Hd. apply im_keys_insert. by right.
    + intros f' [->|Hf']%elem_of_cons Hq; [|by apply Hreq]. apply Hd. rewrite <- Hk. apply im_keys_insert. by left.
  - destruct (of_required c) eqn:Er; [done|]. intros E. apply IH in E as (He & Hd & Hreq). split_and!.
    + intros k x Hx. destruct (He k x Hx) as [Hin|(f' & ? & ? & ?)]; [by left|right; exists f'; split; [by right|done]].
    + done.
    + intros f' [->|Hf']%elem_of_cons Hq; [congruence|by apply Hreq].
Qed.
(** An entry comes of what was given for its field. *)
Lemma valid_fields_from (data : list (text * value)) at_ fields : forall dumped w, valid_fields data at_ fields dumped = Ok w -> forall k d, (k, d) ∈ w ->
  (k, d) ∈ dumped \/ exists (c : OutputField (value -> text -> Valid)) item here, c ∈ fields /\ of_key c = k /\ (im_get (of_key c) data = Some item \/ im_get (of_name c) data = Some item) /\
    of_ty c item here = Ok d.
Proof.
  induction fields as [|c fields IH]; intros dumped w; cbn [valid_fields]; [intros [= <-]; by left|].
  assert (forall k d, (exists (c' : OutputField (value -> text -> Valid)) item here, c' ∈ fields /\ of_key c' = k /\ (im_get (of_key c') data = Some item \/ im_get (of_name c') data = Some item) /\ of_ty c' item here = Ok d) ->
    exists (c' : OutputField (value -> text -> Valid)) item here, c' ∈ c :: fields /\ of_key c' = k /\ (im_get (of_key c') data = Some item \/ im_get (of_name c') data = Some item) /\ of_ty c' item here = Ok d) as Hin.
  { intros k d (c' & item & here & ? & ?). exists c', item, here. split; [by right|done]. }
  destruct (match im_get (of_key c) data with Some v => Some v | None => im_get (of_name c) data end) as [item|] eqn:Eg.
  - destruct (of_ty c item _) as [v|] eqn:Ev; [|done]. intros E k d Hd. destruct (IH _ _ E k d Hd) as [Hk|Hk]; [|right; by apply Hin].
    apply im_insert_elem in Hk as [[= -> ->]|Hk]; [|by left]. right. exists c, item, (beneath at_ (of_key c)). split; [by left|]. split; [done|]. split; [|done].
    destruct (im_get (of_key c) data) as [v0|] eqn:Ek; [left; congruence|by right].
  - destruct (of_required c); [done|]. intros E k d Hd. destruct (IH _ _ E k d Hd) as [Hk|Hk]; [by left|right; by apply Hin].
Qed.

Lemma valid_object_checks {T} (o : ObjectType T) (holds : OutputField T -> value -> Prop) fs b :
  Forall2 (fun f c => of_key c = of_key f /\ of_required c = of_required f /\ checks (holds f) (of_ty c)) (ob_fields o) fs ->
  checks (object_holds (ob_fields o) holds) (valid_object (mkObjectType (ob_name o) b fs)).
Proof.
  intros Hf v at_ w Hn. unfold valid_object. destruct v as [| | | | |data]; try done. cbn [closed ob_fields] in *.
  destruct (valid_fields data at_ fs []) as [dumped|] eqn:E; [|done]. destruct (if b then _ else _); [done|]. intros [= <-].
  destruct (valid_fields_checks holds data at_ _ _ Hn Hf [] dumped E) as (He & _ & Hr). exists dumped. split; [done|]. split; [|done].
  intros k x Hx. destruct (He k x Hx) as [Hin|Hex]; [by apply not_elem_of_nil in Hin|done].
Qed.
Lemma best_member_checks Qs members v at_ : finite_numbers v = true -> Forall2 (fun Q m => checks Q m.2) Qs members ->
  forall best errors score w errors', best_member members v at_ best errors = (Some (score, w), errors') ->
  (exists s, best = Some (s, w)) \/ Exists (fun Q : value -> Prop => Q w) Qs.
Proof.
  intros Hn. induction 1 as [|Q [m f] Qs members Hf Hfs IH]; intros best errors score w errors'; cbn [best_member].
  { intros [= -> _]. by left; eexists. }
  destruct (f v at_) as [valid|e] eqn:E.
  - intros [(s & Hs)|He]%IH; [|right; by right]. destruct (better _ best); [|left; by eexists].
    injection Hs as _ <-. right. left. by eapply Hf.
  - intros [Hs|He]%IH; [by left|right; by right].
Qed.

Lemma validate_conforms t : checks (conforms t) (validate t).
Proof.
  induction t as [t Ht|t IH|o IH|ms IH] using OutputType_induction; intros v at_ w Hn.
  - destruct t as [|bounds|bounds| | | | | | |allowed literal]; try done; cbn [validate conforms].
    + destruct (is_string v) eqn:E; [|done]. by intros [= <-].
    + unfold valid_int. destruct (whole_number v at_) as [whole|] eqn:Ew; [|done]. destruct (within _ _ _) eqn:Eb; [|done]. intros [= <-].
      apply whole_number_int in Ew as (n & ->). apply within_ok in Eb. eauto.
    + unfold valid_number. destruct v as [| |n| | |]; try done. destruct (within _ _ _) eqn:Eb; [|done]. intros [= <-].
      apply within_ok in Eb. unfold json_float. cbn in Hn. rewrite Hn. eauto.
    + destruct v; try done. intros [= <-]. eauto.
    + destruct v; try done. by intros [= <-].
    + unfold one_of_allowed. destruct (find (same v) allowed) as [o|] eqn:E; [|done]. apply find_some in E as [Hin%list_elem_of_In Hs].
      intros [= <-]. apply Exists_exists. exists o. split; [done|]. destruct literal; [by left|by right].
  - cbn [validate]. destruct v as [| | | |items|]; try done. destruct (valid_items _ _ _ _) as [l|] eqn:E; [|done]. intros [= <-].
    exists l. split; [done|]. by eapply valid_items_checks.
  - cbn [validate conforms]. intros E.
    refine (valid_object_checks (mkObjectType (ob_name o) (closed o) (map (fun f => with_type f (conforms (of_ty f))) (ob_fields o))) of_ty _ _ _ v at_ w Hn E).
    cbn [ob_fields]. apply Forall2_fmap. clear E. induction IH as [|f fs Hf _ IHf]; constructor; [done|done].
  - cbn [validate conforms]. unfold valid_union. destruct (best_member _ _ _ _ _) as [[[s valid]|] errors] eqn:E; [|done]. intros [= <-].
    eapply (best_member_checks (map conforms ms)) in E; [|done|]; [by destruct E as [[? ?]|E]|].
    apply Forall2_fmap. clear E. induction IH as [|m ms Hm _ IHm]; constructor; done.
Qed.
End Conforming.

(** ** What a schema asks of a value
    The supported keywords as JSON Schema reads them, bounds compared as doubles; a schema's keywords are all supported ones. *)
Definition type_names (named : value) : list value := match named with Array items => items | one => [one] end.
Inductive satisfies (definitions : list (text * value)) : value -> value -> Prop :=
| Satisfies keywords w :
    (forall key, key ∈ im_keys keywords -> key ∈ ANYWHERE \/ key = lit "$schema" \/ key = lit "$defs") ->
    (forall ref, im_get (lit "$ref") keywords = Some ref ->
       exists name s, reference_name ref = Some name /\ im_get name definitions = Some s /\ satisfies definitions s w) ->
    (forall branches, im_get (lit "anyOf") keywords = Some branches ->
       exists l branch, branches = Array l /\ branch ∈ l /\ satisfies definitions branch w) ->
    (forall named, im_get (lit "type") keywords = Some named ->
       exists t v, Str t ∈ type_names named /\ json_equal w v /\ of_type v t) ->
    (forall listed, im_get (lit "enum") keywords = Some listed -> exists l v, listed = Array l /\ v ∈ l /\ json_equal w v) ->
    (forall constant, im_get (lit "const") keywords = Some constant -> exists v, json_equal w v /\ json_equal v constant) ->
    (forall key bound, key ∈ BOUNDS -> im_get key keywords = Some bound ->
       exists b, bound = Number b /\ forall n, w = Number n -> bound_holds (as_f64 n) (key, as_f64 b) = true) ->
    (forall s l v, im_get (lit "items") keywords = Some s -> w = Array l -> v ∈ l -> satisfies definitions s v) ->
    (forall properties fields k v, im_get (lit "properties") keywords = Some (Object properties) -> w = Object fields -> (k, v) ∈ fields ->
       k ∈ im_keys properties -> exists s, (k, s) ∈ properties /\ satisfies definitions s v) ->
    (forall names fields name, im_get (lit "required") keywords = Some (Array names) -> w = Object fields -> Str name ∈ names -> name ∈ im_keys fields) ->
    (forall fields k, im_get (lit "additionalProperties") keywords = Some (Bool false) -> w = Object fields -> k ∈ im_keys fields ->
       exists properties, im_get (lit "properties") keywords = Some (Object properties) /\ k ∈ im_keys properties) ->
    satisfies definitions (Object keywords) w.

(** ** What a conversion's answers and its state keep *)
Lemma each_ok_all {A E} (f : A -> result unit E) l u : each_ok f l = Ok u -> Forall (fun x => exists u, f x = Ok u) l.
Proof.
  revert u. induction l as [|x l IH]; intros u; cbn [each_ok]; [by constructor|]. destruct (f x) as [u1|] eqn:Ex; [|done]. intros Hl.
  constructor; [eauto|by eapply IH].
Qed.
Lemma mapM_Forall2 {A B} (f : A -> option B) l l' : mapM f l = Some l' -> Forall2 (fun x y => f x = Some y) l l'.
Proof. apply mapM_Some_1. Qed.
Lemma find_none_in {A} (f : A -> bool) l x : find f l = None -> x ∈ l -> f x = false.
Proof. intros Hf Hx. apply (find_none _ _ Hf). by apply list_elem_of_In. Qed.
Lemma im_contains_keys (k : text) (m : list (text * value)) : im_contains k m = true <-> k ∈ im_keys m.
Proof. unfold im_contains. rewrite <- im_get_some_keys. destruct (im_get k m); naive_solver. Qed.
Lemma im_get_of_keys (k : text) (m : list (text * value)) v : im_get k m = Some v -> k ∈ im_keys m.
Proof. intros Hg. apply im_get_some_keys. by eexists. Qed.

Lemma union_conforms ms w : conforms (union ms) w -> Exists (fun m => conforms m w) ms.
Proof.
  assert (Exists (fun m => conforms m w) (flat_members ms) -> Exists (fun m => conforms m w) ms) as Hflat.
  { rewrite !Exists_exists. intros (m & Hm & Hc). unfold flat_members in Hm. apply list_elem_of_In, in_concat in Hm as (l & Hl & Hm).
    apply in_map_iff in Hl as (o & <- & Ho%list_elem_of_In). exists o. split; [done|]. apply list_elem_of_In in Hm.
    destruct o; try by apply list_elem_of_singleton in Hm as ->. cbn [conforms]. apply Exists_exists. exists (conforms m). split; [|done].
    by apply list_elem_of_fmap_2. }
  assert (forall l, conforms (OUnion l) w -> Exists (fun m => conforms m w) l) as Hu.
  { intros l. cbn [conforms]. rewrite !Exists_exists. intros (P & (m & -> & Hm)%list_elem_of_fmap & Hp). eauto. }
  intros Hc. apply Hflat. unfold union in Hc. destruct (flat_members ms) as [|m [|m' l]] eqn:Ef; [by apply Hu|by constructor|].
  destruct (position is_null_type (m :: m' :: l)) as [i|] eqn:Ep; [|by apply Hu].
  apply Hu in Hc. rewrite <- (take_drop i (m :: m' :: l)). rewrite Exists_app in Hc |- *. destruct Hc as [Hc|Hc]; [by left|]. right.
  assert (exists n, drop i (m :: m' :: l) = n :: drop (S i) (m :: m' :: l) /\ n = ONull) as (n & -> & ->).
  { clear -Ep. revert i Ep. induction (m :: m' :: l) as [|x xs IH]; intros i; cbn [position]; [done|]. destruct (is_null_type x) eqn:Ex.
    - intros [= <-]. exists x. split; [done|]. by destruct x.
    - destruct (position _ xs) as [j|] eqn:Ej; [|done]. intros [= <-]. by apply IH. }
  apply Exists_app in Hc as [Hc|Hc]; [by right|]. apply Exists_cons in Hc as [Hc|Hc]; [by left|by apply Exists_nil in Hc].
Qed.

Section Sound.
Context {U : Unicode} {UL : UnicodeLetters U} (definitions : list (text * value)).

Definition sound_for (schema : value) (t : OutputType) : Prop := forall w, conforms t w -> satisfies definitions schema w.
Definition definitions_sound (st : Conversion) : Prop :=
  forall name t, resolved st !! name = Some t -> exists s, im_get name definitions = Some s /\ sound_for s t.
(** What an answer promises, the definitions read before it and by it kept. *)
Definition answers {A} (m : Conv A) (Q : A -> Prop) : Prop :=
  forall st a st', m st = Some (Ok (a, st')) -> definitions_sound st -> definitions_sound st' /\ Q a.

Lemma answers_ret {A} (a : A) (Q : A -> Prop) : Q a -> answers (conv_ret a) Q.
Proof. by intros Hq st b st' [= <- <-]. Qed.
Lemma answers_lift {A} (r : result A UnsupportedSchema) (Q : A -> Prop) : (forall a, r = Ok a -> Q a) -> answers (conv_lift r) Q.
Proof. intros Hq st b st'. unfold conv_lift. destruct r; [|done]. intros [= -> ->]. auto. Qed.
Lemma answers_bind {A B} (m : Conv A) (k : A -> Conv B) Q R : answers m Q -> (forall a, Q a -> answers (k a) R) -> answers (conv_bind m k) R.
Proof.
  intros Hm Hk st b st'. unfold conv_bind. destruct (m st) as [[[a st1]|]|] eqn:E; try done. intros Eb Hs.
  destruct (Hm _ _ _ E Hs) as [Hs1 Hq]. by apply (Hk a Hq st1).
Qed.
(** A computed step's own answer as what is known of it. *)
Lemma answers_lift_bind {A B} (r : result A UnsupportedSchema) (k : A -> Conv B) R : (forall a, r = Ok a -> answers (k a) R) -> answers (conv_bind (conv_lift r) k) R.
Proof. intros Hk. apply (answers_bind _ _ (fun a => r = Ok a)); [by apply answers_lift|done]. Qed.
Lemma answers_map {A B} (f : A -> Conv B) (Q : A -> B -> Prop) l : (forall x, x ∈ l -> answers (f x) (Q x)) -> answers (conv_map f l) (Forall2 Q l).
Proof.
  induction l as [|x l IH]; intros Hf; cbn [conv_map]; [by apply answers_ret|].
  eapply answers_bind; [by apply Hf; left|]. intros y Hy. eapply answers_bind; [apply IH; intros z Hz; apply Hf; by right|].
  intros ys Hys. apply answers_ret. by constructor.
Qed.
End Sound.

(** ** The conversion keeps what the schema asks *)
Section SoundForms.
Context {U : Unicode} {UL : UnicodeLetters U} (definitions : list (text * value)).
Context (recur : value -> text -> text -> Conv OutputType).
Context (Hrecur : forall s path name, answers definitions (recur s path name) (sound_for definitions s)).
Notation sound_for := (sound_for definitions).
Notation answers := (answers definitions).

Ltac absent Hal :=
  match goal with
  | Hg : im_get ?k _ = Some _ |- _ => exfalso; apply im_get_of_keys in Hg; specialize (Hal _ Hg); vm_compute in Hal; discriminate
  | Hk : ?k ∈ BOUNDS |- _ => repeat (apply elem_of_cons in Hk as [->|Hk]; [absent Hal|]); by apply not_elem_of_nil in Hk
  end.
Definition stands_alone (key : text) (map : list (text * value)) : Prop := forall k, k ∈ im_keys map -> beside key k = true.
Definition supported (map : list (text * value)) : Prop := forall key, key ∈ im_keys map -> key ∈ ANYWHERE \/ key = lit "$schema" \/ key = lit "$defs".

Lemma alone_if_ok map path key u v : alone_if map path key = Ok u -> im_get key map = Some v -> stands_alone key map.
Proof.
  unfold alone_if. intros Ha Hg. assert (im_contains key map = true) as Hc by (apply im_contains_keys; by eapply im_get_of_keys).
  rewrite Hc in Ha. unfold alone in Ha. destruct (find _ _) eqn:E; [done|]. intros k Hk. pose proof (find_none_in _ _ _ E Hk) as Hn.
  by apply negb_false_iff in Hn.
Qed.
Lemma ref_satisfies map ref name s w : supported map -> stands_alone (lit "$ref") map -> im_get (lit "$ref") map = Some ref ->
  reference_name ref = Some name -> im_get name definitions = Some s -> satisfies definitions s w -> satisfies definitions (Object map) w.
Proof.
  intros Hsup Hal Hr Hn Hd Hs. constructor; [done| |intros; absent Hal..].
  intros ref' Hr'. rewrite Hr in Hr'. injection Hr' as <-. eauto.
Qed.
Lemma any_satisfies map l branch w : supported map -> stands_alone (lit "anyOf") map -> im_get (lit "anyOf") map = Some (Array l) ->
  branch ∈ l -> satisfies definitions branch w -> satisfies definitions (Object map) w.
Proof.
  intros Hsup Hal Ha Hb Hs. constructor; [done|intros; absent Hal| |intros; absent Hal..].
  intros bs Ha'. rewrite Ha in Ha'. injection Ha' as <-. eauto.
Qed.

(** A definition's type is sound for it, read now or before. *)
Lemma definition_answers name asked : answers (definition definitions recur name asked) (fun t => exists s, im_get name definitions = Some s /\ sound_for s t).
Proof.
  intros st t st'. unfold definition. destruct (position _ _); [done|]. destruct (resolved st !! name) as [known|] eqn:Er.
  { intros [= <- <-] Hs. split; [done|]. by apply Hs. }
  destruct (im_get name definitions) as [s|] eqn:Ed; [|done]. unfold conv_bind. destruct (recur s _ name _) as [[[t1 st1]|]|] eqn:E; try done.
  intros [= <- <-] Hs. destruct (Hrecur _ _ _ _ _ _ E) as [Hs1 Ht]; [done|]. split; [|eauto].
  intros n t' Hn. cbn [resolved] in Hn. apply lookup_insert_Some in Hn as [[<- <-]|[_ Hn]]; [eauto|by apply Hs1].
Qed.
Lemma reference_answers ref path :
  answers (reference definitions recur ref path) (fun t => exists name s, reference_name ref = Some name /\ im_get name definitions = Some s /\ sound_for s t).
Proof.
  unfold reference. destruct (reference_name ref) as [name|]; [|by apply answers_lift]. destruct (im_contains _ _); [|by apply answers_lift].
  intros st t st' E Hs. destruct (definition_answers name path st t st' E Hs) as [? (s & ? & ?)]. eauto 6.
Qed.
(** The null branch is a schema for null. *)
Lemma null_branch_satisfies branch w : is_null_branch branch = true -> w = Null -> satisfies definitions branch w.
Proof.
  unfold is_null_branch. destruct branch as [| | | | |b]; try done. intros [Ht Hk]%andb_true_iff ->.
  assert (forall k, k ∈ im_keys b -> k ∈ [lit "type"; lit "description"]) as Hal.
  { intros k Hin. rewrite forallb_forall in Hk. apply list_elem_of_In in Hin. specialize (Hk _ Hin). by apply bool_decide_eq_true in Hk. }
  assert (forall k, k ∈ im_keys b -> bool_decide (k ∈ [lit "type"; lit "description"]) = true) as Hal' by (intros k Hin; apply bool_decide_eq_true; auto).
  constructor; try (intros; absent Hal'); [|].
  - intros k [->|[->|Hf%not_elem_of_nil]%elem_of_cons]%Hal%elem_of_cons; [| |done]; left; (refine (bool_decide_unpack _ _); by vm_compute).
  - intros named Hn. rewrite Hn in Ht. destruct named as [| |[]| | |]; try done. cbn in Ht. apply teqb_spec in Ht as ->. exists (lit "null"), Null.
    split; [by left|]. split; [by left|done].
Qed.
Lemma nullable_answers map path branches name : supported map -> stands_alone (lit "anyOf") map -> im_get (lit "anyOf") map = Some branches ->
  answers (nullable recur branches path name) (sound_for (Object map)).
Proof.
  intros Hsup Hal Hg. unfold nullable. destruct branches as [| | | |[|first [|second [|]]]|]; try by apply answers_lift.
  assert (forall other null at_, other ∈ [first; second] -> null ∈ [first; second] -> is_null_branch null = true ->
    answers (conv_bind (recur other at_ name) (fun inner => conv_ret (union [inner; ONull]))) (sound_for (Object map))) as Hside.
  { intros other null at_ Ho Hn Hnull. eapply answers_bind; [apply Hrecur|]. intros inner Hi. apply answers_ret. intros w Hw%union_conforms.
    apply Exists_cons in Hw as [Hw|Hw%Exists_cons].
    - eapply any_satisfies; [done..|exact Ho|by apply Hi].
    - destruct Hw as [Hw|Hw%Exists_nil]; [|done]. eapply any_satisfies; [done..|exact Hn|by apply null_branch_satisfies]. }
  destruct (is_null_branch first) eqn:E1; [apply (Hside second first); [set_solver..|done]|].
  destruct (is_null_branch second) eqn:E2; [apply (Hside first second); [set_solver..|done]|]. by apply answers_lift.
Qed.

(** *** Types *)
Lemma types_names map path ts : types map path = Ok ts -> forall named, im_get (lit "type") map = Some named -> ts <> [] /\ forall t, t ∈ ts -> Str t ∈ type_names named.
Proof.
  unfold types. intros Ht named Hg. rewrite Hg in Ht. change (match named with Array items => items | one => [one] end) with (type_names named) in Ht.
  destruct (mapM _ (type_names named)) as [[|t l]|] eqn:E; try done. injection Ht as <-. split; [done|]. intros t' Hin.
  apply mapM_Forall2 in E. apply list_elem_of_lookup in Hin as (i & Hi). destruct (Forall2_lookup_r _ _ _ _ _ E Hi) as (v & Hv & Hs).
  apply list_elem_of_lookup_2 in Hv. destruct v; try done. cbn in Hs. case_bool_decide; [by injection Hs as <-|done].
Qed.
Lemma types_none map path : im_get (lit "type") map = None -> types map path = Ok [].
Proof. unfold types. by intros ->. Qed.
Lemma types_known map path ts t : types map path = Ok ts -> t ∈ ts -> t ∈ KNOWN_TYPES.
Proof.
  unfold types. destruct (im_get _ map) as [named|]; [|intros [= <-] Ht; by apply not_elem_of_nil in Ht].
  destruct (mapM _ _) as [[|t' l]|] eqn:E; try done. intros [= <-] Hin. apply mapM_Forall2 in E.
  apply list_elem_of_lookup in Hin as (i & Hi). destruct (Forall2_lookup_r _ _ _ _ _ E Hi) as (v & Hv & Hs).
  destruct v; try done. cbn in Hs. case_bool_decide; [|done]. by injection Hs as <-.
Qed.
Lemma has_type_of_type v t : t ∈ KNOWN_TYPES -> has_type v t = true -> of_type v t.
Proof.
  intros Hk. destruct v as [| |[n|x]| | |]; try done. cbn [of_type].
  repeat (apply elem_of_cons in Hk as [->|Hk]; [first [by intros [=]|by auto]|]). by apply not_elem_of_nil in Hk.
Qed.

(** [enum] and [const] leave values of the type, and each of them is a schema's. *)
Lemma closed_satisfies map path ts t w : supported map -> (stands_alone (lit "enum") map \/ stands_alone (lit "const") map) -> types map path = Ok ts ->
  closed_type map path ts = Ok t -> conforms t w -> satisfies definitions (Object map) w.
Proof.
  intros Hsup Hal Hts Hc Hw. assert (forall k, k ∈ im_keys map -> beside (lit "enum") k || beside (lit "const") k = true) as Hal'.
  { intros k Hk. destruct Hal as [Hal|Hal]; rewrite (Hal _ Hk); [done|by rewrite orb_true_r]. }
  unfold closed_type in Hc. cbv zeta in Hc. destruct (listed_values map path) as [listed|] eqn:El; [|done].
  destruct (is_empty _) in Hc; [done|]. injection Hc as <-. cbn [conforms] in Hw. apply Exists_exists in Hw as (o & Ho & Heq).
  assert (o ∈ kept_values map listed /\ (is_empty ts = true \/ exists t, t ∈ ts /\ has_type o t = true)) as [Hk Hty].
  { destruct (is_empty ts); [auto|]. apply list_elem_of_filter in Ho as [(t & Ht & Hh)%existsb_exists Hk]. split; [done|]. right.
    exists t. by rewrite list_elem_of_In. }
  unfold listed_values in El. unfold kept_values in Hk.
  assert (o ∈ listed /\ (forall c, im_get (lit "const") map = Some c -> json_equal o c)) as [Hl Hcst].
  { destruct (im_get (lit "enum") map) as [en|] eqn:Een, (im_get (lit "const") map) as [c|] eqn:Ec; try (by split).
    - apply list_elem_of_filter in Hk as [Hs Hk]. split; [done|]. intros c' [= <-]. by right.
    - injection El as <-. apply list_elem_of_singleton in Hk as ->. split; [by left|]. intros c' [= <-]. by left. }
  constructor; try (intros; absent Hal'); [done|..].
  - intros named Hn. destruct (types_names _ _ _ Hts _ Hn) as [Hne Hin]. destruct Hty as [He|(t & Ht & Hh)]; [by destruct ts|].
    exists t, o. split; [by apply Hin|]. split; [done|]. apply has_type_of_type; [by eapply types_known|done].
  - intros en Hen. rewrite Hen in El. destruct en as [| | | |[|v vs]|]; try done. injection El as <-. eauto.
  - intros c Hcc. eauto.
Qed.
End SoundForms.

Section SoundTypes.
Context {U : Unicode} {UL : UnicodeLetters U} (definitions : list (text * value)).
Context (recur : value -> text -> text -> Conv OutputType).
Context (Hrecur : forall s path name, answers definitions (recur s path name) (sound_for definitions s)).
Notation sound_for := (sound_for definitions).
Notation answers := (answers definitions).

(** What the keywords of an object ask of [w]. *)
Definition object_keywords_hold (map : list (text * value)) (w : value) : Prop :=
  (forall properties fields k v, im_get (lit "properties") map = Some (Object properties) -> w = Object fields -> (k, v) ∈ fields ->
     k ∈ im_keys properties -> exists s, (k, s) ∈ properties /\ satisfies definitions s v) /\
  (forall names fields name, im_get (lit "required") map = Some (Array names) -> w = Object fields -> Str name ∈ names -> name ∈ im_keys fields) /\
  (forall fields k, im_get (lit "additionalProperties") map = Some (Bool false) -> w = Object fields -> k ∈ im_keys fields ->
     exists properties, im_get (lit "properties") map = Some (Object properties) /\ k ∈ im_keys properties).
(** What a type's name and its keywords ask of [w]. *)
Definition type_holds (map : list (text * value)) (t : text) (w : value) : Prop :=
  of_type w t /\ (forall n, w = Number n -> Forall (fun kb => bound_holds (as_f64 n) kb = true) (bounds_of map)) /\
  (forall s l v, im_get (lit "items") map = Some s -> w = Array l -> v ∈ l -> satisfies definitions s v) /\ object_keywords_hold map w.

Lemma zip_properties (named : list (text * text)) (properties : list (text * value)) : map fst named = im_keys properties ->
  (forall k n s, ((k, n), s) ∈ zip named (map snd properties) -> (k, s) ∈ properties) /\
  (forall k, k ∈ im_keys properties -> exists n s, ((k, n), s) ∈ zip named (map snd properties)).
Proof.
  revert properties. induction named as [|[k n] named IH]; intros [|[k' s] properties]; cbn; try done.
  { intros _. split; [intros ??? Hin|intros ? Hin]; by apply not_elem_of_nil in Hin. }
  intros [= -> E]. destruct (IH _ E) as [H1 H2]. split.
  - intros a b c [[= -> -> ->]|Hin]%elem_of_cons; [by left|]. right. by eapply H1.
  - intros a [->|Hin]%elem_of_cons; [exists n, s; by left|]. destruct (H2 _ Hin) as (b & c & ?). exists b, c. by right.
Qed.
Lemma required_of_names map path properties names required : required_of map path properties = Ok required -> im_get (lit "required") map = Some (Array names) ->
  forall n, Str n ∈ names -> n ∈ required /\ n ∈ im_keys properties.
Proof.
  unfold required_of. intros Hr Hg. rewrite Hg in Hr. destruct (mapM _ names) as [ns|] eqn:E; [|done]. injection Hr as <-.
  intros n Hin. apply mapM_Forall2 in E. apply list_elem_of_lookup in Hin as (i & Hi). destruct (Forall2_lookup_l _ _ _ _ _ E Hi) as (m & Hm & Hs).
  unfold property_name in Hs. destruct (im_contains n properties) eqn:Ec; [|done]. injection Hs as <-.
  split; [by apply list_elem_of_lookup_2 in Hm|by apply im_contains_keys].
Qed.

Lemma object_answers map path name : answers (object recur map path name) (fun t => forall w, conforms t w -> type_holds map (lit "object") w).
Proof.
  apply answers_lift_bind. intros properties Hp. apply answers_lift_bind. intros required Hr. apply answers_lift_bind. intros closed Hcl.
  destruct (field_names_from_spec (im_keys properties) (im_keys properties) ltac:(done)) as (named & Hn & Hk & _). unfold field_names. rewrite Hn.
  destruct (zip_properties named properties Hk) as [Hz1 Hz2].
  eapply answers_bind.
  { apply (answers_map _ _ (fun (e : (text * text) * value) f => of_key f = e.1.1 /\ of_required f = bool_decide (e.1.1 ∈ required) /\ sound_for e.2 (of_ty f))).
    intros [[k n] s] Hin. eapply answers_bind; [apply Hrecur|]. intros t Ht. by apply answers_ret. }
  intros fields Hf. apply answers_ret. intros w Hw. cbn [conforms ob_fields] in Hw. destruct Hw as (fs & -> & He & Hq).
  assert (forall k v, (k, v) ∈ fs -> exists s, (k, s) ∈ properties /\ satisfies definitions s v) as Hentry.
  { intros k v Hin. destruct (He k v Hin) as (f' & (f & -> & Hff)%list_elem_of_fmap & Hkey & Hc). cbn [of_key of_ty with_type] in *.
    apply list_elem_of_lookup in Hff as (i & Hi). destruct (Forall2_lookup_r _ _ _ _ _ Hf Hi) as ([[k' n] s] & Hs & Hfk & _ & Hsound).
    cbn [fst snd] in *. apply list_elem_of_lookup_2, Hz1 in Hs. exists s. split; [congruence|by apply Hsound]. }
  assert (forall ps, im_get (lit "properties") map = Some (Object ps) -> ps = properties) as Hps.
  { intros ps Hg. unfold properties_of in Hp. rewrite Hg in Hp. by injection Hp as <-. }
  split; [done|]. split; [done|]. split; [done|]. split; [|split].
  - intros ps fs' k v Hg [= <-] Hin _. apply Hps in Hg as ->. by apply Hentry.
  - intros names fs' n Hg [= <-] Hin. destruct (required_of_names _ _ _ _ _ Hr Hg n Hin) as [Hreq Hkey].
    destruct (Hz2 n Hkey) as (fname & s & Hz). apply list_elem_of_lookup in Hz as (i & Hi).
    destruct (Forall2_lookup_l _ _ _ _ _ Hf Hi) as (f & Hff & Hfk & Hfr & _). cbn [fst snd] in *. rewrite bool_decide_eq_true_2 in Hfr by done.
    rewrite <- Hfk. apply (Hq (with_type f (conforms (of_ty f)))); [|done]. apply list_elem_of_fmap. exists f. split; [done|by apply list_elem_of_lookup_2 in Hff].
  - intros fs' k _ [= <-] Hin. apply list_elem_of_fmap in Hin as ([k' v] & -> & Hin). destruct (Hentry _ _ Hin) as (s & Hs & _).
    unfold properties_of in Hp. destruct (im_get (lit "properties") map) as [[| | | | |ps]|]; try done; injection Hp as <-; [|by apply not_elem_of_nil in Hs].
    exists ps. split; [done|]. apply list_elem_of_fmap. by exists (k', s).
Qed.

Lemma typed_answers t map path name : t ∈ KNOWN_TYPES -> answers (typed recur t map path name) (fun m => forall w, conforms m w -> type_holds map t w).
Proof.
  intros Hk. assert (forall (w : value) t', of_type w t' -> (forall n, w <> Number n) -> (forall l, w <> Array l) -> (forall l, w <> Object l) -> type_holds map t' w) as Hsc.
  { intros w t' Ht Hn Ha Ho. split; [done|]. split; [intros n E; by destruct (Hn n)|]. split; [intros s l v _ E; by destruct (Ha l)|].
    split; [|split]; [intros ps fs k v _ E; by destruct (Ho fs)|intros ps fs n _ E; by destruct (Ho fs)|intros fs k _ E; by destruct (Ho fs)]. }
  assert (forall n t', of_type (Number n) t' -> Forall (fun kb => bound_holds (as_f64 n) kb = true) (bounds_of map) -> type_holds map t' (Number n)) as Hnum.
  { intros n t' Ht Hb. split; [done|]. split; [by intros n' [= <-]|]. split; [done|]. by split; [|split]. }
  repeat (apply elem_of_cons in Hk as [->|Hk]); try (by apply not_elem_of_nil in Hk).
  - apply object_answers.
  - unfold typed. cbn [teqb]. destruct (im_get (lit "items") map) as [items|] eqn:Eg.
    + eapply answers_bind; [apply Hrecur|]. intros item Hi. apply answers_ret. intros w (l & -> & Hl). split; [done|]. split; [done|].
      split; [|by split; [|split]]. intros s l' v Hs [= <-] Hv. rewrite Eg in Hs. injection Hs as <-. apply Hi. rewrite Forall_forall in Hl. by apply Hl.
    + apply answers_ret. intros w (l & -> & _). split; [done|]. split; [done|]. split; [by rewrite Eg|]. by split; [|split].
  - apply answers_ret. intros w Hw. cbn in Hw. by destruct w.
  - apply answers_ret. intros w (x & -> & Hb). by apply Hnum.
  - apply answers_ret. intros w (n & -> & Hb). apply Hnum; [by left|done].
  - apply answers_ret. intros w (b & ->). by apply Hsc.
  - apply answers_ret. intros w ->. by apply Hsc.
Qed.

Lemma bounds_of_in map key b : key ∈ BOUNDS -> im_get key map = Some (Number b) -> (key, as_f64 b) ∈ bounds_of map.
Proof. intros Hk Hg. unfold bounds_of. apply list_elem_of_omap. exists key. by rewrite Hg. Qed.
Lemma members_satisfy map path ts m t w : supported map -> im_get (lit "$ref") map = None -> im_get (lit "anyOf") map = None ->
  im_get (lit "enum") map = None -> im_get (lit "const") map = None -> types map path = Ok ts ->
  each_ok (fun key => needs_beside map path ts key (lit "object")) OBJECT = Ok m -> needs_beside map path ts (lit "items") (lit "array") = Ok m ->
  each_ok (bound_allowed map path ts) BOUNDS = Ok m -> (ts = [] \/ t ∈ ts /\ type_holds map t w) -> satisfies definitions (Object map) w.
Proof.
  intros Hsup Hr Ha He Hc Hts Hobj Hitems Hbounds Hw.
  assert (forall key bound, key ∈ BOUNDS -> im_get key map = Some bound -> ts <> [] /\ exists b, bound = Number b) as Hb.
  { intros key bound Hk Hg. apply each_ok_all in Hbounds. rewrite Forall_forall in Hbounds. destruct (Hbounds _ Hk) as (u & Hu).
    unfold bound_allowed in Hu. rewrite Hg in Hu. destruct (existsb _ ts) eqn:Ex; [|done]. cbn [negb] in Hu. split; [by destruct ts|].
    destruct bound as [| |b| | |]; try done. eauto. }
  assert (forall key of_t u, needs_beside map path ts key of_t = Ok u -> ts = [] -> im_get key map = None) as Hneeds.
  { intros key of_t u Hn ->. unfold needs_beside, im_contains in Hn. destruct (im_get key map); [|done]. by rewrite bool_decide_eq_false_2 in Hn by apply not_elem_of_nil. }
  assert (ts = [] -> forall key, key ∈ OBJECT -> im_get key map = None) as Hnone.
  { intros E key Hk. apply each_ok_all in Hobj. rewrite Forall_forall in Hobj. destruct (Hobj _ Hk) as (u & Hu). by eapply Hneeds. }
  destruct Hw as [Hw|(Ht & Hty & Hnum & Hit & Hp & Hq & Had)].
  - constructor; try done; try (intros; congruence).
    + intros named Hn. by destruct (types_names _ _ _ Hts _ Hn).
    + intros key bound Hk Hg. by destruct (Hb _ _ Hk Hg).
    + intros s l v Hs. by rewrite (Hneeds _ _ _ Hitems Hw) in Hs.
    + intros ps fs k v Hs. rewrite Hnone in Hs; [done..|]. by left.
    + intros ns fs n Hs. rewrite Hnone in Hs; [done..|]. right. by left.
    + intros fs k Hs. rewrite Hnone in Hs; [done..|]. right. right. by left.
  - constructor; try done; try (intros; congruence).
    + intros named Hn. destruct (types_names _ _ _ Hts _ Hn) as [_ Hin]. exists t, w. split; [by apply Hin|]. split; [by left|done].
    + intros key bound Hk Hg. destruct (Hb _ _ Hk Hg) as (_ & b & ->). exists b. split; [done|]. intros n ->. specialize (Hnum n eq_refl).
      rewrite Forall_forall in Hnum. apply (Hnum (key, as_f64 b)). by apply bounds_of_in.
Qed.

Lemma typed_members_answers map path name : supported map -> im_get (lit "$ref") map = None -> im_get (lit "anyOf") map = None ->
  (forall key, key ∈ CLOSED -> im_contains key map = true -> stands_alone key map) -> answers (typed_members recur map path name) (sound_for (Object map)).
Proof.
  intros Hsup Hr Ha Hal. unfold typed_members. apply answers_lift_bind. intros ts Hts.
  destruct (im_contains (lit "enum") map || im_contains (lit "const") map) eqn:Ec.
  { apply answers_lift. intros t Ht w Hw. eapply closed_satisfies; [done| |done..].
    apply orb_true_iff in Ec as [Ec|Ec]; [left|right]; apply Hal; [by left|done|by right; left|done]. }
  apply orb_false_iff in Ec as [Ec1 Ec2]. unfold im_contains in Ec1, Ec2.
  destruct (im_get (lit "enum") map) eqn:Ee; [done|]. destruct (im_get (lit "const") map) eqn:Ek; [done|].
  apply answers_lift_bind. intros [] Hobj. apply answers_lift_bind. intros [] Hitems. apply answers_lift_bind. intros [] Hbounds.
  destruct ts as [|t ts]; cbn [is_empty].
  { apply answers_ret. intros w _. eapply (members_satisfy map path [] tt []); eauto. }
  eapply answers_bind.
  { apply (answers_map _ _ (fun t m => forall w, conforms m w -> type_holds map t w)). intros t' Hin. apply typed_answers. by eapply types_known. }
  intros ms Hms. apply answers_ret. intros w (m & Hm & Hw)%union_conforms%Exists_exists.
  apply list_elem_of_lookup in Hm as (i & Hi). destruct (Forall2_lookup_r _ _ _ _ _ Hms Hi) as (t' & Ht' & Hh).
  apply list_elem_of_lookup_2 in Ht'. eapply (members_satisfy map path (t :: ts) tt t'); eauto.
Qed.

Lemma annotation_of_answers schema path name : answers (annotation_of definitions recur schema path name) (sound_for schema).
Proof.
  unfold annotation_of. destruct schema as [| | | | |map]; try (apply answers_lift; done).
  apply answers_lift_bind. intros u Hknown. apply answers_lift_bind. intros _ _. apply answers_lift_bind. intros _ _.
  apply answers_lift_bind. intros u' Halone.
  assert (supported map) as Hsup.
  { intros key Hk. unfold known_keywords in Hknown. destruct (find _ _) eqn:E; [done|]. pose proof (find_none_in _ _ _ E Hk) as Hn.
    apply negb_false_iff, orb_true_iff in Hn as [Hn%bool_decide_eq_true|[_ Hn%bool_decide_eq_true]%andb_true_iff]; [by left|right].
    apply elem_of_cons in Hn as [->|Hn%list_elem_of_singleton]; auto. }
  assert (forall key, key ∈ [lit "$ref"; lit "anyOf"; lit "enum"; lit "const"] -> forall v, im_get key map = Some v -> stands_alone key map) as Hal.
  { intros key Hk v Hg. apply each_ok_all in Halone. rewrite Forall_forall in Halone. destruct (Halone _ Hk) as (u1 & Hu). by eapply alone_if_ok. }
  destruct (im_get (lit "$ref") map) as [ref|] eqn:Er.
  { intros st t st' E Hs. destruct (reference_answers definitions recur Hrecur _ _ _ _ _ E Hs) as [Hs' (n & s & Hn & Hd & Ht)]. split; [done|].
    intros w Hw. eapply ref_satisfies; [done|apply (Hal _ ltac:(by left) _ Er)|done..|by apply Ht]. }
  destruct (im_get (lit "anyOf") map) as [branches|] eqn:Ea.
  { apply nullable_answers; [done..|apply (Hal _ ltac:(right; by left) _ Ea)|done]. }
  apply typed_members_answers; [done..|]. intros key Hk Hc. unfold im_contains in Hc. destruct (im_get key map) eqn:Eg; [|done].
  eapply Hal; [|done]. right. by right.
Qed.
End SoundTypes.

(** ** Conversion ends *)
Section Ends.
Context {U : Unicode} {UL : UnicodeLetters U} (definitions : list (text * value)).

(** With the definitions [r] being read, it ends, and those are being read after it. *)
Definition ends {A} (r : list text) (m : Conv A) : Prop :=
  forall st, resolving st = r -> match m st with Some (Ok (_, st')) => resolving st' = r | Some (Err _) => True | None => False end.
Lemma ends_lift {A} r (x : result A UnsupportedSchema) : ends r (conv_lift x).
Proof. intros st Hr. unfold conv_lift. by destruct x. Qed.
Lemma ends_ret {A} r (a : A) : ends r (conv_ret a).
Proof. by intros st Hr. Qed.
Lemma ends_bind {A B} r (m : Conv A) (k : A -> Conv B) : ends r m -> (forall a, ends r (k a)) -> ends r (conv_bind m k).
Proof.
  intros Hm Hk st Hr. unfold conv_bind. specialize (Hm st Hr). destruct (m st) as [[[a st1]|]|]; [|done|done]. by apply Hk.
Qed.
Lemma ends_map {A B} r (f : A -> Conv B) l : (forall x, x ∈ l -> ends r (f x)) -> ends r (conv_map f l).
Proof.
  induction l as [|x l IH]; intros Hf; cbn [conv_map]; [apply ends_ret|]. apply ends_bind; [by apply Hf; left|].
  intros y. apply ends_bind; [apply IH; intros z Hz; apply Hf; by right|]. intros ys. apply ends_ret.
Qed.

Lemma depth_positive s : (0 < depth s)%nat.
Proof. destruct s; cbn; lia. Qed.
Lemma depth_entry k v fields : (k, v) ∈ fields -> (depth v < depth (Object fields))%nat.
Proof.
  intros Hin. cbn [depth].
  enough (depth v <= max_list_with (fun kv : text * value => match kv with (_, v) => depth v end) fields)%nat by lia.
  induction fields as [|[k' v'] fields IH]; [by apply not_elem_of_nil in Hin|]. cbn. apply elem_of_cons in Hin as [[= -> ->]|Hin]; [lia|].
  specialize (IH Hin). lia.
Qed.
Lemma depth_item v items : v ∈ items -> (depth v < depth (Array items))%nat.
Proof.
  intros Hin. cbn [depth]. enough (depth v <= max_list_with depth items)%nat by lia.
  induction items as [|x items IH]; [by apply not_elem_of_nil in Hin|]. cbn. apply elem_of_cons in Hin as [->|Hin]; [lia|]. specialize (IH Hin). lia.
Qed.
Lemma depth_get k v fields : im_get k fields = Some v -> (depth v < depth (Object fields))%nat.
Proof. intros Hg%im_get_elem. by eapply depth_entry. Qed.

Context (deepest : nat) (Hdeep : forall name s, im_get name definitions = Some s -> (depth s <= deepest)%nat).
(** What is left to read: the schema, then every definition not being read. *)
Definition left_to_read (s : value) (r : list text) : nat := (depth s + (length definitions - length r) * deepest)%nat.
Definition reading_some (r : list text) : Prop := NoDup r /\ (forall name, name ∈ r -> name ∈ im_keys definitions).

Section Step.
Context (recur : value -> text -> text -> Conv OutputType) (fuel : nat).
Context (Hrecur : forall s path name r, reading_some r -> (left_to_read s r < fuel)%nat -> ends r (recur s path name)).

Lemma definition_ends name asked r : reading_some r -> name ∈ im_keys definitions -> ((length definitions - length r) * deepest < fuel)%nat ->
  ends r (definition definitions recur name asked).
Proof.
  intros [Hn Hin] Hd Hf st Hr. unfold definition. destruct (position (teqb name) (resolving st)) as [i|] eqn:Ep; [done|].
  destruct (resolved st !! name); [done|]. destruct (im_get name definitions) as [s|] eqn:Eg; [|by apply im_get_none in Eg].
  assert (name ∉ r) as Hnew.
  { rewrite <- Hr. clear -Ep. induction (resolving st) as [|x l IH]; [by apply not_elem_of_nil|]. cbn [position] in Ep.
    destruct (teqb name x) eqn:Ex; [done|]. destruct (position _ l); [done|]. apply not_elem_of_cons. split; [|by apply IH].
    intros ->. by rewrite teqb_refl in Ex. }
  assert (reading_some (r ++ [name])) as [Hn' Hin'].
  { split; [apply NoDup_app; split_and!; [done| |apply NoDup_singleton]; intros x Hx Hx'; apply list_elem_of_singleton in Hx' as ->; done|].
    intros x [Hx|Hx%list_elem_of_singleton]%elem_of_app; [by apply Hin|by subst]. }
  assert (length (r ++ [name]) <= length definitions)%nat as Hle.
  { rewrite <- (length_map fst definitions). apply submseteq_length, NoDup_submseteq; [done|]. intros x. by apply Hin'. }
  rewrite length_app in Hle. cbn [length] in Hle.
  assert (left_to_read s (r ++ [name]) < fuel)%nat as Hlt.
  { unfold left_to_read. rewrite length_app. cbn [length]. apply Hdeep in Eg.
    replace (length definitions - length r)%nat with (S (length definitions - (length r + 1)))%nat in Hf by lia. lia. }
  unfold conv_bind. pose proof (Hrecur s (pointer (lit "#/$defs") name) name (r ++ [name]) (conj Hn' Hin') Hlt (mkConversion (resolved st) (resolving st ++ [name]))) as He.
  cbn [resolving] in He. rewrite Hr in *. specialize (He eq_refl). destruct (recur _ _ _ _) as [[[t st1]|]|]; [|done|done]. cbn [resolving]. rewrite He.
  clear. induction r as [|x r IH]; [done|]. destruct r; [done|]. cbn [app removelast] in *. by f_equal.
Qed.
Lemma reference_ends ref path r : reading_some r -> ((length definitions - length r) * deepest < fuel)%nat -> ends r (reference definitions recur ref path).
Proof.
  intros Hr Hf. unfold reference. destruct (reference_name ref); [|apply ends_lift]. destruct (im_contains _ _) eqn:E; [|apply ends_lift].
  apply definition_ends; [done|by apply im_contains_keys|done].
Qed.
Lemma object_ends map path name r : reading_some r -> (left_to_read (Object map) r <= fuel)%nat -> ends r (object recur map path name).
Proof.
  intros Hr Hf st0 Hst. unfold object, conv_bind at 1. unfold conv_lift at 1. destruct (properties_of map path) as [ps|] eqn:Ep; [|done]. revert st0 Hst.
  change (ends r (let# required := conv_lift (required_of map path ps) in
    let# closed := conv_lift (closed_of map path) in
    match field_names ps with
    | None => fun _ => None
    | Some names =>
        let# fields := conv_map (output_field recur path required) (zip names (List.map snd ps)) in
        conv_ret (OObject (mkObjectType name closed fields))
    end)).
  apply ends_bind; [apply ends_lift|]. intros required. apply ends_bind; [apply ends_lift|]. intros closed.
  destruct (field_names_from_spec (im_keys ps) (im_keys ps) ltac:(done)) as (named & Hn & Hk & _). unfold field_names. rewrite Hn.
  apply ends_bind; [|intros fields; apply ends_ret]. apply ends_map. intros [[k n] s] Hin. apply ends_bind; [|intros t; apply ends_ret].
  apply Hrecur; [done|]. apply (zip_properties named ps Hk) in Hin. apply depth_entry in Hin.
  assert (depth (Object ps) < depth (Object map))%nat; [|unfold left_to_read in *; lia].
  unfold properties_of in Ep. destruct (im_get (lit "properties") map) as [[| | | | |ps']|] eqn:Eg; try done; injection Ep as <-; [by eapply depth_get|].
  cbn in Hin. pose proof (depth_positive s). lia.
Qed.
Lemma typed_ends t map path name r : reading_some r -> (left_to_read (Object map) r <= fuel)%nat -> ends r (typed recur t map path name).
Proof.
  intros Hr Hf. unfold typed. repeat (destruct (teqb t _); [apply ends_ret || by apply object_ends|]).
  destruct (im_get (lit "items") map) as [items|] eqn:Eg; [|apply ends_ret]. apply ends_bind; [|intros item; apply ends_ret].
  apply Hrecur; [done|]. apply depth_get in Eg. unfold left_to_read in *. lia.
Qed.
Lemma nullable_ends branches path name r : reading_some r -> (left_to_read branches r <= fuel)%nat -> ends r (nullable recur branches path name).
Proof.
  intros Hr Hf. unfold nullable. destruct branches as [| | | |[|first [|second [|]]]|]; try apply ends_lift.
  assert (forall other at_, other ∈ [first; second] -> ends r (conv_bind (recur other at_ name) (fun inner => conv_ret (union [inner; ONull])))) as Hside.
  { intros other at_ Ho. apply ends_bind; [|intros inner; apply ends_ret]. apply Hrecur; [done|]. apply depth_item in Ho. unfold left_to_read in *. lia. }
  destruct (is_null_branch first); [apply Hside; set_solver|]. destruct (is_null_branch second); [apply Hside; set_solver|apply ends_lift].
Qed.
Lemma annotation_of_ends s path name r : reading_some r -> (left_to_read s r <= fuel)%nat -> ends r (annotation_of definitions recur s path name).
Proof.
  intros Hr Hf. unfold annotation_of. destruct s as [| | | | |map]; try apply ends_lift. do 4 (apply ends_bind; [apply ends_lift|intros []]).
  pose proof (depth_positive (Object map)).
  destruct (im_get (lit "$ref") map) as [ref|]; [apply reference_ends; [done|unfold left_to_read in Hf; lia]|].
  destruct (im_get (lit "anyOf") map) as [branches|] eqn:Ea.
  { apply nullable_ends; [done|]. apply depth_get in Ea. unfold left_to_read in *. lia. }
  unfold typed_members. apply ends_bind; [apply ends_lift|]. intros ts. destruct (_ || _); [apply ends_lift|].
  do 3 (apply ends_bind; [apply ends_lift|intros []]). destruct (is_empty ts); [apply ends_ret|].
  apply ends_bind; [|intros ms; apply ends_ret]. apply ends_map. intros t _. by apply typed_ends.
Qed.
End Step.
Lemma annotation_ends fuel : forall s path name r, reading_some r -> (left_to_read s r < fuel)%nat -> ends r (annotation definitions fuel s path name).
Proof.
  induction fuel as [|fuel IH]; intros s path name r Hr Hf; [lia|]. cbn [annotation]. apply (annotation_of_ends _ fuel); [exact IH|done|lia].
Qed.
End Ends.

Section Converted.
Context {U : Unicode} {UL : UnicodeLetters U}.

Lemma annotation_answers definitions fuel : forall s path name, answers definitions (annotation definitions fuel s path name) (sound_for definitions s).
Proof. induction fuel as [|fuel IH]; intros s path name; cbn [annotation]; [by intros st a st'|]. by apply annotation_of_answers. Qed.

Lemma definitions_depth schema definitions : definitions_of schema = Ok definitions -> forall name s, im_get name definitions = Some s -> (depth s <= depth schema)%nat.
Proof.
  unfold definitions_of. destruct schema as [| | | | |map]; try (intros [= <-]; done). destruct (im_get (lit "$defs") map) as [d|] eqn:Eg; [|by intros [= <-]].
  destruct d as [| | | | |d]; try done. intros [= <-] name s Hs. apply depth_get in Hs, Eg. lia.
Qed.

Lemma model_ends schema definitions : definitions_of schema = Ok definitions -> ends [] (model schema definitions).
Proof.
  intros Hd. pose proof (definitions_depth _ _ Hd) as Hdeep. unfold model. cbv zeta.
  assert (reading_some definitions []) as Hr by (split; [constructor|intros n Hn; by apply not_elem_of_nil in Hn]).
  assert (forall s path name r, reading_some definitions r -> (left_to_read definitions (depth schema) s r < fuel_for schema definitions)%nat ->
    ends r (annotation definitions (fuel_for schema definitions) s path name)) as Ha by (intros; by eapply annotation_ends).
  apply ends_bind; [apply Ha; [done|]; unfold left_to_read, fuel_for; cbn [length]; lia|]. intros root. destruct root; try apply ends_lift.
  apply ends_bind; [|intros l; apply ends_ret]. apply ends_map. intros name Hin.
  eapply definition_ends; [exact Hdeep|exact Ha|done|done|]. unfold fuel_for. cbn [length]. lia.
Qed.

(** C9: reading a schema always ends, whatever its definitions refer to: it becomes a model or is refused, a definition that turns up inside
    itself included; and each property gets its field. *)
Theorem output_model_ends schema : is_Some (output_model schema).
Proof.
  unfold output_model. destruct (definitions_of schema) as [definitions|e] eqn:Ed; [|by eexists].
  pose proof (model_ends _ _ Ed (mkConversion ∅ []) eq_refl) as He. destruct (model schema definitions _) as [[[m st]|e]|]; [by eexists..|done].
Qed.

Context `{FF : FloatFormat} `{VT : ValueText}.

Lemma model_satisfies schema m data w : output_model schema = Some (Ok m) -> finite_numbers data = true -> model_validate m data = Ok w ->
  exists definitions, definitions_of schema = Ok definitions /\ satisfies definitions schema w.
Proof.
  unfold output_model. destruct (definitions_of schema) as [definitions|e] eqn:Ed; [|done].
  destruct (model schema definitions (mkConversion ∅ [])) as [[[m' st]|e]|] eqn:Em; try done. intros [= <-] Hn Hv.
  exists definitions. split; [done|]. apply validate_conforms in Hv; [|done].
  unfold model in Em. cbv zeta in Em. unfold conv_bind at 1 in Em.
  destruct (annotation definitions _ schema _ _ _) as [[[t st1]|]|] eqn:Ea; try done.
  destruct (annotation_answers definitions _ _ _ _ _ _ _ Ea) as [_ Ht]; [intros n t1 Hl; cbn [resolved] in Hl; by rewrite lookup_empty in Hl|].
  destruct t as [| | | | | | |o| |]; try done. unfold conv_bind in Em. destruct (conv_map _ _ st1) as [[[l st2]|]|]; try done.
  injection Em as <- _. by apply Ht.
Qed.

(** C8: a caller's data is what the caller's schema says: where a schema becomes a model, it has no keyword the model does not hold data to,
    at any depth and through every reference, and whatever the model accepts satisfies it. *)
Theorem validated_data_satisfies schema m data w : output_model schema = Some (Ok m) -> finite_numbers data = true -> model_validate m data = Ok w ->
  exists definitions, definitions_of schema = Ok definitions /\ satisfies definitions schema w.
Proof. apply model_satisfies. Qed.
End Converted.

(** ** Schemas in use *)
#[local] Existing Instance exact_format.
#[local] Instance shown_values : ValueText := {| value_text v := dumps v |}.
Definition typed_schema (t : String.string) (rest : list (String.string * value)) : value := obj (("type"%string, Str (lit t)) :: rest).
Definition schema_ref (name : String.string) : value := obj [("$ref"%string, Str (lit "#/$defs/" ++ lit name))].
(** An order: a definition referred to twice, a value that may be null, an enum with a type, a bound and a name Python does not take. *)
Definition order_line : value :=
  typed_schema "object" [("properties"%string, obj [("sku"%string, typed_schema "string" []); ("quantity"%string, typed_schema "integer" [("minimum"%string, Number (Int 1))])]);
                         ("required"%string, Array [Str (lit "sku"); Str (lit "quantity")]); ("additionalProperties"%string, Bool false)].
Definition order_schema : value :=
  typed_schema "object"
    [("$schema"%string, Str DRAFT);
     ("properties"%string,
       obj [("id"%string, typed_schema "string" []);
            ("lines"%string, typed_schema "array" [("items"%string, schema_ref "line")]);
            ("class"%string, obj [("enum"%string, Array [Str (lit "gold"); Str (lit "blue"); Number (Int 3)]); ("type"%string, Str (lit "string"))]);
            ("spare"%string, obj [("anyOf"%string, Array [schema_ref "line"; typed_schema "null" []])])]);
     ("required"%string, Array [Str (lit "id"); Str (lit "lines")]);
     ("$defs"%string, obj [("line"%string, order_line)])].
Definition line_data (sku : String.string) (quantity : number) : value := obj [("sku"%string, Str (lit sku)); ("quantity"%string, Number quantity)].
Definition order_data : value :=
  obj [("id"%string, Str (lit "o-1")); ("lines"%string, Array [line_data "a" (Int 2); line_data "b" (Float (f64_of_Z 3))]);
       ("class_"%string, Str (lit "blue")); ("spare"%string, Null)].
Definition order_valid : value :=
  obj [("id"%string, Str (lit "o-1")); ("lines"%string, Array [line_data "a" (Int 2); line_data "b" (Int 3)]);
       ("class"%string, Str (lit "blue")); ("spare"%string, Null)].
Definition model_of (schema : value) : OutputModel :=
  match output_model schema with Some (Ok m) => m | _ => mkOutputModel (mkObjectType [] false []) end.

(** A reserved name gets another, and either is read; a [3.0] is the int it is. *)
Lemma order_model : output_model order_schema = Some (Ok (model_of order_schema)).
Proof. by vm_compute. Qed.
Lemma order_validates : model_validate (model_of order_schema) order_data = Ok order_valid.
Proof. by vm_compute. Qed.
Example order_quantity_bound :
  is_ok (model_validate (model_of order_schema) (obj [("id"%string, Str (lit "o-1")); ("lines"%string, Array [line_data "a" (Int 0)])])) = false.
Proof. by vm_compute. Qed.

(** A definition that refers to itself is refused with the cycle. *)
Definition cyclic_schema : value :=
  typed_schema "object" [("properties"%string, obj [("a"%string, schema_ref "a")]);
    ("$defs"%string, obj [("a"%string, typed_schema "array" [("items"%string, schema_ref "b")]); ("b"%string, typed_schema "array" [("items"%string, schema_ref "a")])])].
Example cyclic_refused : output_model cyclic_schema =
  Some (Err (mkUnsupported (lit "$ref") (lit "#/$defs/b/items/$ref") (lit "recursive schemas are not supported (a -> b -> a)"))).
Proof. by vm_compute. Qed.
(** Bounds are doubles: the int just above one rounds to it and passes. *)
Example int_bound_rounds :
  model_validate (model_of (typed_schema "object" [("properties"%string, obj [("n"%string, typed_schema "integer" [("maximum"%string, Number (Int (2 ^ 53)))])])]))
    (obj [("n"%string, Number (Int (2 ^ 53 + 1)))]) = Ok (obj [("n"%string, Number (Int (2 ^ 53 + 1)))]).
Proof. by vm_compute. Qed.

Theorem validated_data_satisfies_witness :
  exists definitions, definitions_of order_schema = Ok definitions /\ satisfies definitions order_schema order_valid.
Proof. apply (validated_data_satisfies order_schema (model_of order_schema) order_data order_valid); [apply order_model|by vm_compute|apply order_validates]. Defined.
Theorem field_names_exact_witness :
  exists named, field_names [(lit "class", Null); (lit "class_", Null)] = Some named /\ map fst named = im_keys [(lit "class", Null); (lit "class_", Null)] /\
    NoDup (map snd named) /\
    Forall (fun kn => usable kn.2 = true /\ (kn.2 = kn.1 \/ usable kn.1 = false /\ kn.2 ∉ im_keys [(lit "class", Null); (lit "class_", Null)])) named.
Proof. apply (field_names_exact [(lit "class", Null); (lit "class_", Null)]). repeat constructor; set_solver. Defined.
Theorem output_model_ends_witness : is_Some (output_model cyclic_schema).
Proof. apply (output_model_ends cyclic_schema). Defined.
