(* ===== verification/Generator.v ===== *)
(** The JSON Schema of a type, as pydantic writes it: the generator of [crates/fastbrowse-core/src/schema.rs].

    [json_schema] writes a [Ty] (Schema.v): models, enums and aliases once each under [$defs] with a reference wherever they stand, every
    key sorted.  The generator's state is the definitions written so far, [Defs]; the models met beforehand ([collect]) tell two models of
    one name apart ([def_name]).  What is written in a place does not depend on that state ([written]), which is what the properties rest
    on: the references of a schema stand for the types they were written for, and a caller's data (Output.v) satisfies the schema the
    models are shown for it. *)

From S2P Require Import Prelude Float64 PyText Json DateTime Lax Models Ledger Config Receipts Decision Schema Validation Output.

(** ** Equality of types, as the source derives it *)
Definition option_eqb {A} (eqb : A -> A -> bool) (a b : option A) : bool :=
  match a, b with Some a, Some b => eqb a b | None, None => true | _, _ => false end.
Fixpoint list_eqb {A} (eqb : A -> A -> bool) (a b : list A) : bool :=
  match a, b with
  | [], [] => true
  | x :: a, y :: b => eqb x y && list_eqb eqb a b
  | _, _ => false
  end.
Definition enum_eqb (a b : EnumTy) : bool :=
  teqb (en_name a) (en_name b) && option_eqb teqb (en_doc a) (en_doc b) && list_eqb value_eqb (en_values a) (en_values b).
Definition field_eqb {T} (eqb : T -> T -> bool) (a b : Field T) : bool :=
  teqb (f_name a) (f_name b) && option_eqb teqb (f_alias a) (f_alias b) && eqb (f_ty a) (f_ty b)
  && option_eqb value_eqb (f_default a) (f_default b) && option_eqb teqb (f_description a) (f_description b)
  && Bool.eqb (f_factory a) (f_factory b) && Bool.eqb (f_exclude a) (f_exclude b)
  && Bool.eqb (f_omitted_when_empty a) (f_omitted_when_empty b).
Definition keyword_eqb (a b : text * value) : bool := teqb a.1 b.1 && value_eqb a.2 b.2.
Fixpoint ty_eqb (a b : Ty) {struct a} : bool :=
  let all := (fix all (l l' : list Ty) : bool :=
                match l, l' with [], [] => true | x :: l, y :: l' => ty_eqb x y && all l l' | _, _ => false end) in
  match a, b with
  | TStr, TStr | TInt, TInt | TFloat, TFloat | TBool, TBool | TNull, TNull | TAny, TAny | TJsonValue, TJsonValue | TDateTime, TDateTime
  | TBytes, TBytes | TBase64, TBase64 | TImage, TImage | TPath, TPath => true
  | TList a, TList b | TSet a, TSet b | TMap a, TMap b | TOptional a, TOptional b => ty_eqb a b
  | TTuple l, TTuple l' | TUnion l, TUnion l' => all l l'
  | TLiteral vs, TLiteral vs' => list_eqb value_eqb vs vs'
  | TEnum e, TEnum e' => enum_eqb e e'
  | TModel m, TModel m' =>
      teqb (m_name m) (m_name m') && teqb (m_module m) (m_module m') && option_eqb teqb (m_doc m) (m_doc m')
      && Bool.eqb (forbid_extra m) (forbid_extra m')
      && (fix fields (l l' : list (Field Ty)) : bool :=
            match l, l' with [], [] => true | x :: l, y :: l' => field_eqb ty_eqb x y && fields l l' | _, _ => false end) (m_fields m) (m_fields m')
  | TAlias n a, TAlias n' b => teqb n n' && ty_eqb a b
  | TTagged p vs, TTagged p' vs' =>
      teqb p p'
      && (fix variants (l l' : list (text * Ty)) : bool :=
            match l, l' with [], [] => true | (t, x) :: l, (t', y) :: l' => teqb t t' && ty_eqb x y && variants l l' | _, _ => false end) vs vs'
  | TConstrained a ks, TConstrained b ks' => ty_eqb a b && list_eqb keyword_eqb ks ks'
  | _, _ => false
  end.
Definition model_eqb (a b : ModelTy Ty) : bool := ty_eqb (TModel a) (TModel b).

(** ** The models of a type *)
(** Each distinct model under a name, in the order they are met. *)
Definition Models : Type := list (text * list (ModelTy Ty)).
Definition models_named (name : text) (ms : Models) : list (ModelTy Ty) := default [] (im_get name ms).
Fixpoint collect (t : Ty) (ms : Models) {struct t} : Models :=
  match t with
  | TModel m =>
      let seen := models_named (m_name m) ms in
      if existsb (model_eqb m) seen then ms
      else fold_left (fun ms f => collect (f_ty f) ms) (m_fields m) (im_insert (m_name m) (seen ++ [m]) ms)
  | TList t | TSet t | TMap t | TOptional t | TAlias _ t | TConstrained t _ => collect t ms
  | TTuple ts | TUnion ts => fold_left (fun ms t => collect t ms) ts ms
  | TTagged _ variants => fold_left (fun ms v => match v with (_, t) => collect t ms end) variants ms
  | _ => ms
  end.

(** A model's name under [$defs]: its own, unless another model has it too. *)
Definition module_name (module : text) : text := replace_char (chr ".") (lit "__") module.
Definition def_name (ms : Models) (m : ModelTy Ty) : text :=
  let models := models_named (m_name m) ms in
  if (1 <? length models)%nat then
    let index := S (default 0%nat (position (fun other => model_eqb other m) models)) in
    module_name (m_module m) ++ lit "__" ++ m_name m ++ lit "__" ++ show_Z (Z.of_nat index)
  else m_name m.

(** ** The forms of a schema *)
Definition typed_as (name : text) : value := Object [(lit "type", Str name)].
Definition formatted (format : text) : value := Object [(lit "format", Str format); (lit "type", Str (lit "string"))].
Definition ref_to (name : text) : value := Object [(lit "$ref", Str (lit "#/$defs/" ++ name))].
Definition null_schema : value := typed_as (lit "null").

(** The JSON type every value of a closed set shares. *)
Definition json_kind (v : value) : text :=
  match v with
  | Str _ => lit "string"
  | Number n => if is_f64 n then lit "number" else lit "integer"
  | Bool _ => lit "boolean"
  | Array _ => lit "array"
  | Null => lit "null"
  | Object _ => lit "object"
  end.
Definition json_type (values : list value) : option text :=
  match values with
  | [] => None
  | v :: _ =>
      let first := json_kind v in
      if forallb (fun v => teqb (json_kind v) first) values && negb (teqb first (lit "object")) then Some first else None
  end.
Definition with_kind (values : list value) (schema : list (text * value)) : list (text * value) :=
  match json_type values with Some kind => im_insert (lit "type") (Str kind) schema | None => schema end.
Definition literal_schema (values : list value) : value :=
  Object (with_kind values (match values with [only] => [(lit "const", only)] | _ => [(lit "enum", Array values)] end)).
Definition enum_schema (e : EnumTy) : value :=
  let schema := match en_doc e with Some doc => [(lit "description", Str doc)] | None => [] end in
  Object (with_kind (en_values e) (im_insert (lit "title") (Str (en_name e)) (im_insert (lit "enum") (Array (en_values e)) schema))).
Definition list_schema (item : value) : value := Object [(lit "items", item); (lit "type", Str (lit "array"))].
Definition set_schema (item : value) : value :=
  Object [(lit "items", item); (lit "type", Str (lit "array")); (lit "uniqueItems", Bool true)].
Definition tuple_schema (items : list value) : value :=
  let count := Number (Int (Z.of_nat (length items))) in
  Object [(lit "maxItems", count); (lit "minItems", count); (lit "prefixItems", Array items); (lit "type", Str (lit "array"))].
Definition map_schema (item : value) : value := Object [(lit "additionalProperties", item); (lit "type", Str (lit "object"))].
Definition any_of (branches : list value) : value := Object [(lit "anyOf", Array branches)].
(** A branch that is itself only an [anyOf] gives its branches. *)
Definition flat_branch (branch : value) : list value :=
  match branch with
  | Object [(key, Array inner)] => if teqb key (lit "anyOf") then inner else [branch]
  | Object [(key, other)] => if teqb key (lit "anyOf") then [] else [branch]
  | other => [other]
  end.
Definition flat_branches (branches : list value) : list value := concat (map flat_branch branches).
Definition ref_of (schema : value) : value :=
  match schema with Object map => default Null (im_get (lit "$ref") map) | _ => Null end.
Definition tagged_schema (property : text) (variants : list (text * value)) : value :=
  Object [(lit "discriminator", Object [(lit "mapping", Object (im_extend [] (map (fun tv => (tv.1, ref_of tv.2)) variants)));
                                        (lit "propertyName", Str property)]);
          (lit "oneOf", Array (map snd variants))].
Definition constrained_schema (schema : value) (keywords : list (text * value)) : value :=
  match schema with Object map => Object (im_extend map keywords) | other => other end.

Inductive Mode := ForValidation | ForSerialization.
Definition serializing (mode : Mode) : bool := match mode with ForSerialization => true | ForValidation => false end.

Section Generating.
Context `{Unicode}.

Definition field_title (key : text) : text := replace_char (chr "_") (lit " ") (title key).
(** A field's schema with what its model says of it. *)
Definition noted_schema {T} (is_titled : bool) (f : Field T) (schema : value) : value :=
  let schema := match schema with Object map => map | _ => [] end in
  let schema := if is_titled then im_insert (lit "title") (Str (field_title (f_key f))) schema else schema in
  let schema := match f_description f with Some d => im_insert (lit "description") (Str d) schema | None => schema end in
  Object (match f_default f with Some d => im_insert (lit "default") d schema | None => schema end).
Definition listed_field {T} (mode : Mode) (f : Field T) : bool := negb (serializing mode && f_exclude f).
Definition needed_field {T} (mode : Mode) (f : Field T) : bool := serializing mode && negb (f_omitted_when_empty f) || is_required f.
(** A model's schema, its listed fields' written. *)
Definition object_schema {T} (mode : Mode) (m : ModelTy T) (fields : list (Field value)) : value :=
  let required := map (fun f => Str (f_key f)) (base.filter (fun f => needed_field mode f = true) fields) in
  Object ([(lit "type", Str (lit "object")); (lit "properties", Object (im_extend [] (map (fun f => (f_key f, f_ty f)) fields)))]
          ++ (if is_empty required then [] else [(lit "required", Array required)])
          ++ [(lit "title", Str (m_name m))]
          ++ match m_doc m with Some doc => [(lit "description", Str doc)] | None => [] end
          ++ (if forbid_extra m then [(lit "additionalProperties", Bool false)] else [])).
Definition retyped {T U} (f : Field T) (u : U) : Field U :=
  mkField (f_name f) (f_alias f) u (f_default f) (f_description f) (f_factory f) (f_exclude f) (f_omitted_when_empty f).

(** ** The generator *)
Definition Defs : Type := list (text * value).
Definition Gen (A : Type) : Type := Defs -> A * Defs.
Definition gen_ret {A} (a : A) : Gen A := fun defs => (a, defs).
Definition gen_bind {A B} (m : Gen A) (k : A -> Gen B) : Gen B := fun defs => let '(a, defs) := m defs in k a defs.
Notation "'let%' x := m 'in' k" := (gen_bind m (fun x => k))
  (at level 10, x pattern, m at level 100, k at level 200, right associativity) : fb_scope.
Fixpoint gen_all {A} (l : list (Gen A)) : Gen (list A) :=
  match l with
  | [] => gen_ret []
  | m :: l => let% x := m in let% xs := gen_all l in gen_ret (x :: xs)
  end.

(** Held before it is built, so that a model that refers to itself finds its own name. *)
Definition reference (name : text) (build : Gen value) : Gen value := fun defs =>
  if im_contains name defs then (ref_to name, defs)
  else
    let '(schema, defs) := build (im_insert name Null defs) in
    (ref_to name, im_insert name schema defs).

(** A model's fields in order, each written before it is noted. *)
Definition write_field (f : Field (bool * Gen value)) : Gen (Field value) :=
  let% schema := (f_ty f).2 in gen_ret (retyped f (noted_schema (f_ty f).1 f schema)).
Definition model_body (mode : Mode) (m : ModelTy (bool * Gen value)) : Gen value :=
  let% fields := gen_all (map write_field (base.filter (fun f => listed_field mode f = true) (m_fields m))) in
  gen_ret (object_schema mode m fields).
Definition with_fields {T U} (m : ModelTy T) (fields : list (Field U)) : ModelTy U :=
  mkModelTy (m_name m) (m_module m) (m_doc m) (forbid_extra m) fields.

Fixpoint schema (ms : Models) (mode : Mode) (t : Ty) {struct t} : Gen value :=
  let all ts := gen_all (map (schema ms mode) ts) in
  match t with
  | TStr => gen_ret (typed_as (lit "string"))
  | TInt => gen_ret (typed_as (lit "integer"))
  | TFloat => gen_ret (typed_as (lit "number"))
  | TBool => gen_ret (typed_as (lit "boolean"))
  | TNull => gen_ret null_schema
  | TAny => gen_ret (Object [])
  | TJsonValue => reference (lit "JsonValue") (gen_ret (Object []))
  | TDateTime => gen_ret (formatted (lit "date-time"))
  | TBytes => gen_ret (formatted (lit "binary"))
  | TBase64 => gen_ret (formatted (lit "base64"))
  | TImage => gen_ret (match mode with ForValidation => formatted (lit "binary") | ForSerialization => typed_as (lit "string") end)
  | TPath => gen_ret (formatted (lit "path"))
  | TList item => let% s := schema ms mode item in gen_ret (list_schema s)
  | TSet item => let% s := schema ms mode item in gen_ret (set_schema s)
  | TTuple items => let% ss := all items in gen_ret (tuple_schema ss)
  | TMap TAny => gen_ret (map_schema (Bool true))
  | TMap item => let% s := schema ms mode item in gen_ret (map_schema s)
  | TOptional inner => let% s := schema ms mode inner in gen_ret (any_of (flat_branch s ++ [null_schema]))
  | TUnion options => let% ss := all options in gen_ret (any_of (flat_branches ss))
  | TLiteral values => gen_ret (literal_schema values)
  | TEnum e => reference (en_name e) (gen_ret (enum_schema e))
  | TModel m =>
      reference (def_name ms m)
        (model_body mode (with_fields m (map (fun f => retyped f (titled (f_ty f), schema ms mode (f_ty f))) (m_fields m))))
  | TAlias name inner => reference name (schema ms mode inner)
  | TTagged property variants =>
      let% ss := gen_all (map (fun v => match v with (tag, t) => let% s := schema ms mode t in gen_ret (tag, s) end) variants) in
      gen_ret (tagged_schema property ss)
  | TConstrained inner keywords => let% s := schema ms mode inner in gen_ret (constrained_schema s keywords)
  end.
Definition model_schema (ms : Models) (mode : Mode) (m : ModelTy Ty) : Gen value :=
  model_body mode (with_fields m (map (fun f => retyped f (titled (f_ty f), schema ms mode (f_ty f))) (m_fields m))).

(** pydantic's final pass: every key sorted, except the names under [properties] and the contents of a [default]. *)
Definition keeps_order (parent : option text) : bool := bool_decide (parent = Some (lit "properties")) || bool_decide (parent = Some (lit "default")).
Fixpoint sort (parent : option text) (v : value) {struct v} : value :=
  match v with
  | Object map_ =>
      let entries := map (fun kv => match kv with (k, item) => (k, sort (Some k) item) end) map_ in
      Object (if keeps_order parent then entries else sort_entries entries)
  | Array items => Array (map (sort parent) items)
  | other => other
  end.

Definition json_schema (t : Ty) : value :=
  let ms := collect t [] in
  let '(root, defs) := match t with TModel m => model_schema ms ForValidation m [] | other => schema ms ForValidation other [] end in
  match root with
  | Object map => sort None (Object (if is_empty defs then map else im_insert (lit "$defs") (Object defs) map))
  | other => other
  end.

(** Several types at once, each written the way it travels. *)
Definition definitions (roots : list (Ty * Mode)) : value :=
  let ms := fold_left (fun ms r => collect r.1 ms) roots [] in
  let '(_, defs) := gen_all (map (fun r => schema ms r.2 r.1) roots) [] in
  sort None (Object [(lit "$defs", Object defs)]).
End Generating.

(** The schema a run's models are shown for a caller's. *)
Definition output_json_schema `{Unicode} (m : OutputModel) : value := json_schema (ty (OObject (root m))).

(** * Properties *)
(** ** What stands in each place, apart from the state *)
Section Written.
Context `{Unicode} (ms : Models) (mode : Mode).

Fixpoint written (t : Ty) : value :=
  match t with
  | TStr => typed_as (lit "string")
  | TInt => typed_as (lit "integer")
  | TFloat => typed_as (lit "number")
  | TBool => typed_as (lit "boolean")
  | TNull => null_schema
  | TAny => Object []
  | TJsonValue => ref_to (lit "JsonValue")
  | TDateTime => formatted (lit "date-time")
  | TBytes => formatted (lit "binary")
  | TBase64 => formatted (lit "base64")
  | TImage => match mode with ForValidation => formatted (lit "binary") | ForSerialization => typed_as (lit "string") end
  | TPath => formatted (lit "path")
  | TList item => list_schema (written item)
  | TSet item => set_schema (written item)
  | TTuple items => tuple_schema (map written items)
  | TMap item => map_schema (match item with TAny => Bool true | _ => written item end)
  | TOptional inner => any_of (flat_branch (written inner) ++ [null_schema])
  | TUnion options => any_of (flat_branches (map written options))
  | TLiteral values => literal_schema values
  | TEnum e => ref_to (en_name e)
  | TModel m => ref_to (def_name ms m)
  | TAlias name _ => ref_to name
  | TTagged property variants => tagged_schema property (map (fun v => match v with (tag, t) => (tag, written t) end) variants)
  | TConstrained inner keywords => constrained_schema (written inner) keywords
  end.
Definition written_field (f : Field Ty) : Field value := retyped f (noted_schema (titled (f_ty f)) f (written (f_ty f))).
Definition listed_fields (m : ModelTy Ty) : list (Field Ty) := base.filter (fun f => listed_field mode f = true) (m_fields m).
Definition written_model (m : ModelTy Ty) : value := object_schema mode m (map written_field (listed_fields m)).

(** A part that has a definition: its name and what is written under it. *)
Definition defined (t : Ty) : option (text * value) :=
  match t with
  | TJsonValue => Some (lit "JsonValue", Object [])
  | TEnum e => Some (en_name e, enum_schema e)
  | TModel m => Some (def_name ms m, written_model m)
  | TAlias name inner => Some (name, written inner)
  | _ => None
  end.

(** The types a type is made of, itself among them. *)
Fixpoint parts (t : Ty) : list Ty :=
  t :: match t with
       | TList t | TSet t | TMap t | TOptional t | TAlias _ t | TConstrained t _ => parts t
       | TTuple ts | TUnion ts => concat (map parts ts)
       | TTagged _ vs => concat (map (fun v => match v with (_, t) => parts t end) vs)
       | TModel m => concat (map (fun f => if listed_field mode f then parts (f_ty f) else []) (m_fields m))
       | _ => []
       end.
Fixpoint ty_size (t : Ty) : nat :=
  S match t with
    | TList t | TSet t | TMap t | TOptional t | TAlias _ t | TConstrained t _ => ty_size t
    | TTuple ts | TUnion ts => list_sum (map ty_size ts)
    | TTagged _ vs => list_sum (map (fun v => match v with (_, t) => ty_size t end) vs)
    | TModel m => list_sum (map (fun f => ty_size (f_ty f)) (m_fields m))
    | _ => 0
    end.
(** Types that would share a definition's name are the same type. *)
Definition told_apart (t : Ty) : Prop :=
  forall p q n v w, p ∈ parts t -> q ∈ parts t -> defined p = Some (n, v) -> defined q = Some (n, w) -> p = q.

Lemma parts_self t : t ∈ parts t.
Proof. destruct t; left. Qed.
Lemma list_sum_elem (l : list nat) n : n ∈ l -> (n <= list_sum l)%nat.
Proof. induction l as [|m l IH]; [by intros ?%not_elem_of_nil|]. change (list_sum (m :: l)) with (m + list_sum l)%nat.
  intros [->|Hn]%elem_of_cons; [lia|]. specialize (IH Hn). lia.
Qed.

Lemma written_is_object t : exists map, written t = Object map.
Proof. induction t; cbn [written]; try (by eexists). - by destruct mode; eexists. - destruct IHt as (m & ->). by eexists. Qed.
Lemma defined_object t n v : defined t = Some (n, v) -> v <> Null.
Proof.
  destruct t; try done; cbn [defined]; intros [= _ <-]; try done. match goal with |- written ?t <> _ => destruct (written_is_object t) as (m & ->) end. done.
Qed.

(** ** The state and what a writer does to it *)
Context (root : Ty) (apart : told_apart root).

Definition done_part (defs : Defs) (p : Ty) : Prop := forall n v, defined p = Some (n, v) -> im_get n defs = Some v.
Definition all_done (defs : Defs) (ps : list Ty) : Prop := forall p, p ∈ ps -> done_part defs p.
(** Each definition is that of a part of the type, its own parts defined; or is being written. *)
Definition sound_defs (writing : list Ty) (defs : Defs) : Prop :=
  NoDup (im_keys defs) /\ forall n v, im_get n defs = Some v -> exists p w, p ∈ parts root /\ defined p = Some (n, w) /\
    (v = w /\ all_done defs (parts p) \/ v = Null /\ p ∈ writing).
Definition kept (defs defs' : Defs) : Prop := forall n v, im_get n defs = Some v -> im_get n defs' = Some v.
(** A writer writes [a], keeps every definition and leaves each of [ps] defined. *)
Definition writes {A} (writing : list Ty) (g : Gen A) (a : A) (ps : list Ty) : Prop :=
  forall defs, sound_defs writing defs -> exists defs', g defs = (a, defs') /\ sound_defs writing defs' /\ kept defs defs' /\ all_done defs' ps.

Lemma all_done_kept defs defs' ps : kept defs defs' -> all_done defs ps -> all_done defs' ps.
Proof. intros Hk Hd p Hp n v Hv. by eapply Hk, Hd. Qed.
Lemma all_done_app defs ps qs : all_done defs ps -> all_done defs qs -> all_done defs (ps ++ qs).
Proof. intros Hp Hq p [?|?]%elem_of_app; auto. Qed.
Lemma writes_ret {A} writing (a : A) : writes writing (gen_ret a) a [].
Proof. intros defs Hs. exists defs. split; [done|]. split; [done|]. split; [by intros ??|]. by intros p ?%not_elem_of_nil. Qed.
Lemma writes_bind {A B} writing (g : Gen A) (k : A -> Gen B) a b ps qs :
  writes writing g a ps -> writes writing (k a) b qs -> writes writing (gen_bind g k) b (ps ++ qs).
Proof.
  intros Hg Hk defs Hs. destruct (Hg defs Hs) as (d1 & E1 & Hs1 & Hk1 & Hd1). destruct (Hk d1 Hs1) as (d2 & E2 & Hs2 & Hk2 & Hd2).
  exists d2. unfold gen_bind. rewrite E1. split; [done|]. split; [done|]. split; [by intros n v ?; apply Hk2, Hk1|].
  apply all_done_app; [by eapply all_done_kept|done].
Qed.
Lemma writes_map {A B} writing (g : Gen A) (f : A -> B) a ps : writes writing g a ps -> writes writing (gen_bind g (fun x => gen_ret (f x))) (f a) ps.
Proof. intros Hg. rewrite <- (app_nil_r ps). eapply writes_bind; [done|apply writes_ret]. Qed.
Lemma writes_all {A X} writing (g : X -> Gen A) (a : X -> A) (ps : X -> list Ty) l :
  Forall (fun x => writes writing (g x) (a x) (ps x)) l -> writes writing (gen_all (map g l)) (map a l) (concat (map ps l)).
Proof.
  induction 1 as [|x l Hx _ IH]; cbn [map gen_all concat]; [apply writes_ret|].
  eapply writes_bind; [exact Hx|]. apply (writes_map _ _ (fun xs => a x :: xs)). exact IH.
Qed.
Lemma writes_reference writing p n v (build : Gen value) ps : p ∈ parts root -> defined p = Some (n, v) -> v <> Null ->
  (forall q, q ∈ writing -> q <> p) -> parts p = p :: ps -> writes (p :: writing) build v ps ->
  writes writing (reference n build) (ref_to n) (parts p).
Proof.
  intros Hp Hn Hv Hw Hps Hb defs Hs. unfold reference, im_contains. destruct (im_get n defs) as [u|] eqn:Eg.
  { exists defs. split; [done|]. split; [done|]. split; [by intros ??|]. destruct (proj2 Hs _ _ Eg) as (q & w & Hq & Hqn & Hc).
    rewrite (apart q p n w v Hq Hp Hqn Hn) in *. destruct Hc as [[_ Hd]|[_ Hin]]; [done|by destruct (Hw _ Hin)]. }
  assert (kept defs (im_insert n Null defs)) as Hk1.
  { intros n' v' Hg. rewrite im_get_insert_ne; [done|]. intros ->. congruence. }
  assert (sound_defs (p :: writing) (im_insert n Null defs)) as Hs1.
  { split; [apply im_insert_nodup, Hs|]. intros n' v' Hg. destruct (decide (n' = n)) as [->|Hne].
    - rewrite im_get_insert_eq in Hg. injection Hg as <-. exists p, v. split; [done|]. split; [done|]. right. split; [done|by left].
    - rewrite im_get_insert_ne in Hg by done. destruct (proj2 Hs _ _ Hg) as (q & w & Hq & Hqn & Hc). exists q, w. split; [done|]. split; [done|].
      destruct Hc as [[-> Hd]|[-> Hin]]; [left|right; split; [done|by right]]. split; [done|]. by eapply all_done_kept. }
  destruct (Hb _ Hs1) as (d2 & E2 & Hs2 & Hk2 & Hd2). rewrite E2. exists (im_insert n v d2). split; [done|].
  assert (im_get n d2 = Some Null) as Hnull by (apply Hk2, im_get_insert_eq).
  assert (forall q, done_part d2 q -> done_part (im_insert n v d2) q) as Hstay.
  { intros q Hd n' w Hq'. pose proof (Hd _ _ Hq') as Hg. destruct (decide (n' = n)) as [->|Hne]; [|by rewrite im_get_insert_ne].
    rewrite Hnull in Hg. injection Hg as <-. by destruct (defined_object _ _ _ Hq'). }
  assert (all_done (im_insert n v d2) (parts p)) as Hall.
  { rewrite Hps. intros q [->|Hq]%elem_of_cons; [|by apply Hstay, Hd2]. intros n' w Hq'. rewrite Hn in Hq'. injection Hq' as <- <-. apply im_get_insert_eq. }
  split; [|split; [|done]].
  - split; [apply im_insert_nodup, Hs2|]. intros n' w Hg. destruct (decide (n' = n)) as [->|Hne].
    + rewrite im_get_insert_eq in Hg. injection Hg as <-. exists p, v. auto.
    + rewrite im_get_insert_ne in Hg by done. destruct (proj2 Hs2 _ _ Hg) as (q & w' & Hq & Hqn & Hc). exists q, w'. split; [done|]. split; [done|].
      destruct Hc as [[-> Hd]|[-> [->|Hin]%elem_of_cons]]; [left; split; [done|intros x Hx; by apply Hstay, Hd]|congruence|by right].
  - intros n' w Hg. destruct (decide (n' = n)) as [->|Hne]; [congruence|]. rewrite im_get_insert_ne by done. by apply Hk2, Hk1.
Qed.

Lemma ty_size_in {X} (f : X -> Ty) l x : x ∈ l -> (ty_size (f x) <= list_sum (map (fun x => ty_size (f x)) l))%nat.
Proof. intros Hx. apply list_sum_elem. apply list_elem_of_fmap. eauto. Qed.
Lemma filter_fields {U} (g : Field Ty -> U) (fs : list (Field Ty)) :
  base.filter (fun f => listed_field mode f = true) (map (fun f => retyped f (g f)) fs) =
  map (fun f => retyped f (g f)) (base.filter (fun f => listed_field mode f = true) fs).
Proof.
  induction fs as [|f fs IH]; [done|]. cbn [map]. rewrite !filter_cons. unfold listed_field in *. cbn [retyped f_exclude].
  case_decide; cbn [map]; by rewrite IH.
Qed.
Lemma parts_model m : parts (TModel m) = TModel m :: concat (map (fun f => parts (f_ty f)) (listed_fields m)).
Proof.
  unfold listed_fields. cbn [parts]. f_equal. induction (m_fields m) as [|f fs IH]; [done|]. rewrite filter_cons. cbn [map concat]. rewrite IH.
  by destruct (listed_field mode f).
Qed.
Lemma parts_tagged pr vs : parts (TTagged pr vs) = TTagged pr vs :: concat (map (fun v => parts v.2) vs).
Proof. cbn [parts]. do 2 f_equal. apply map_ext. by intros []. Qed.
Lemma size_tagged pr vs : ty_size (TTagged pr vs) = S (list_sum (map (fun v => ty_size v.2) vs)).
Proof. cbn [ty_size]. do 2 f_equal. apply map_ext. by intros []. Qed.
Lemma listed_fields_size m : (list_sum (map (fun f => ty_size (f_ty f)) (listed_fields m)) <= list_sum (map (fun f => ty_size (f_ty f)) (m_fields m)))%nat.
Proof.
  unfold listed_fields. induction (m_fields m) as [|f fs IH]; [done|]. rewrite filter_cons.
  case_decide; cbn [map]; unfold list_sum in *; cbn [fold_right]; lia.
Qed.
Lemma listed_fields_in m f : f ∈ listed_fields m -> f ∈ m_fields m.
Proof. by intros [_ ?]%list_elem_of_filter. Qed.
(** A list of types written in turn, each a part and smaller than those being written. *)
Lemma writes_types {X} (f : X -> Ty) (l : list X) writing :
  Forall (fun x => forall writing, parts (f x) ⊆ parts root -> (forall p, p ∈ writing -> (ty_size (f x) < ty_size p)%nat) ->
    writes writing (schema ms mode (f x)) (written (f x)) (parts (f x))) l ->
  concat (map (fun x => parts (f x)) l) ⊆ parts root ->
  (forall p, p ∈ writing -> (list_sum (map (fun x => ty_size (f x)) l) < ty_size p)%nat) ->
  Forall (fun x => writes writing (schema ms mode (f x)) (written (f x)) (parts (f x))) l.
Proof.
  intros Hl Hp Hs. rewrite Forall_forall in Hl |- *. intros x Hx. apply Hl; [done|..].
  - intros p Hin. apply Hp. apply list_elem_of_In, in_concat. exists (parts (f x)). split; [|by apply list_elem_of_In].
    apply in_map_iff. exists x. split; [done|by apply list_elem_of_In].
  - intros p Hin. specialize (Hs p Hin). pose proof (ty_size_in f l x Hx). lia.
Qed.

Lemma writes_model m writing :
  Forall (fun f => forall writing, parts (f_ty f) ⊆ parts root -> (forall p, p ∈ writing -> (ty_size (f_ty f) < ty_size p)%nat) ->
    writes writing (schema ms mode (f_ty f)) (written (f_ty f)) (parts (f_ty f))) (m_fields m) ->
  parts (TModel m) ⊆ parts root -> (forall p, p ∈ writing -> (list_sum (map (fun f => ty_size (f_ty f)) (listed_fields m)) < ty_size p)%nat) ->
  writes writing (model_schema ms mode m) (written_model m) (concat (map (fun f => parts (f_ty f)) (listed_fields m))).
Proof.
  intros IH Hp Hw. rewrite parts_model in Hp. unfold model_schema, model_body. cbn [with_fields m_fields]. rewrite filter_fields, map_map. fold (listed_fields m).
  eapply (writes_map _ _ (fun fields => object_schema mode m fields)), (writes_all _ _ written_field (fun f => parts (f_ty f))).
  eapply Forall_impl; [apply (writes_types f_ty)|].
  - rewrite Forall_forall in IH |- *. intros f Hf%listed_fields_in. by apply IH.
  - set_solver.
  - exact Hw.
  - intros f Hf. apply (writes_map _ _ (fun s => retyped f (noted_schema (titled (f_ty f)) f s))). exact Hf.
Qed.
Lemma writes_schema t : forall writing, parts t ⊆ parts root -> (forall p, p ∈ writing -> (ty_size t < ty_size p)%nat) ->
  writes writing (schema ms mode t) (written t) (parts t).
Proof.
  assert (forall t n (writing : list Ty), (n < ty_size t)%nat -> (forall p, p ∈ writing -> (ty_size t < ty_size p)%nat) ->
    forall p, p ∈ t :: writing -> (n < ty_size p)%nat) as Hless.
  { intros t' n writing Hu Hw p [->|Hp]%elem_of_cons; [done|]. specialize (Hw p Hp). lia. }
  assert (forall t (writing : list Ty), (forall p, p ∈ writing -> (ty_size t < ty_size p)%nat) -> forall q, q ∈ writing -> q <> t) as Hnew.
  { intros t' writing Hw q Hq ->. specialize (Hw _ Hq). lia. }
  assert (forall {A} t writing (g : Gen A) a ps, defined t = None -> parts t = t :: ps -> writes writing g a ps -> writes writing g a (parts t)) as Hplain.
  { intros A t' writing g a ps Hd Hps Hg defs Hs. destruct (Hg defs Hs) as (d & E & H1 & H2 & H3). exists d. split; [done|]. split; [done|]. split; [done|].
    rewrite Hps. intros p [->|Hp]%elem_of_cons; [|by apply H3]. intros n v Hn. congruence. }
  assert (forall t u (f : value -> value) writing, (forall writing, parts u ⊆ parts root -> (forall p, p ∈ writing -> (ty_size u < ty_size p)%nat) ->
      writes writing (schema ms mode u) (written u) (parts u)) -> defined t = None -> parts t = t :: parts u -> ty_size t = S (ty_size u) ->
      parts t ⊆ parts root -> (forall p, p ∈ writing -> (ty_size t < ty_size p)%nat) ->
      writes writing (gen_bind (schema ms mode u) (fun s => gen_ret (f s))) (f (written u)) (parts t)) as Hone.
  { intros t' u f writing IH Hd Hps Hsz Hp Hw. eapply Hplain; [done..|]. apply writes_map, IH; [rewrite Hps in Hp; set_solver|].
    intros p Hin. specialize (Hw p Hin). lia. }
  induction t as [t Ht|t IH|t IH|t IH|t IH|n t IH|t ks IH _|ts IH|ts IH|m IH|pr vs IH] using Ty_induction; intros writing Hp Hw.
  - destruct t as [| | | | | | | | | | | | | | | | | |vs|e| | | |]; try done; try (eapply Hplain; [done..|apply writes_ret]).
    + eapply (writes_reference _ TJsonValue); [apply Hp; left|done|done|by eapply Hnew|done|apply writes_ret].
    + eapply (writes_reference _ (TEnum e)); [apply Hp; left|done|done|by eapply Hnew|done|apply writes_ret].
  - apply (Hone (TList t) t list_schema); done.
  - apply (Hone (TSet t) t set_schema); done.
  - destruct t; try (match goal with |- writes _ (schema _ _ (TMap ?u)) _ _ => apply (Hone (TMap u) u map_schema) end; done). intros defs Hs. exists defs. split; [done|]. split; [done|]. split; [by intros ??|].
    cbn [parts]. intros p Hin n v Hv. by repeat (apply elem_of_cons in Hin as [->|Hin]); [..|apply not_elem_of_nil in Hin].
  - apply (Hone (TOptional t) t (fun s => any_of (flat_branch s ++ [null_schema]))); done.
  - eapply (writes_reference _ (TAlias n t)); [apply Hp; left|done| |by eapply Hnew|done|].
    + by eapply (defined_object (TAlias n t)).
    + apply IH; [cbn [parts] in Hp; set_solver|]. apply Hless; [cbn [ty_size]; lia|done].
  - apply (Hone (TConstrained t ks) t (fun s => constrained_schema s ks)); done.
  - eapply Hplain; [done..|]. cbn [schema]. apply (writes_map _ _ tuple_schema), writes_all.
    apply (writes_types (fun t => t)); [done|cbn [parts] in Hp; set_solver|]. intros p Hin. exact (Nat.lt_trans _ _ _ (Nat.lt_succ_diag_r _) (Hw p Hin)).
  - eapply Hplain; [done..|]. cbn [schema]. apply (writes_map _ _ (fun ss => any_of (flat_branches ss))), writes_all.
    apply (writes_types (fun t => t)); [done|cbn [parts] in Hp; set_solver|]. intros p Hin. exact (Nat.lt_trans _ _ _ (Nat.lt_succ_diag_r _) (Hw p Hin)).
  - eapply (writes_reference _ (TModel m)); [apply Hp; left|done|done|by eapply Hnew|apply parts_model|]. apply writes_model; [done|done|].
    apply Hless; [|done]. cbn [ty_size]. pose proof (listed_fields_size m). lia.
  - eapply Hplain; [done|apply parts_tagged|]. cbn [schema]. apply (writes_map _ _ (tagged_schema pr)).
    apply (writes_all _ _ (fun v => match v with (tag, t) => (tag, written t) end)).
    eapply Forall_impl; [apply (writes_types snd); [done|rewrite parts_tagged in Hp; set_solver|]|].
    + intros p Hin. specialize (Hw p Hin). rewrite size_tagged in Hw. lia.
    + intros [tag t] Hv. by apply (writes_map _ _ (pair tag)).
Qed.
End Written.

(** ** The whole document *)
Section Document.
Context `{Unicode}.

Definition root_schema (ms : Models) (t : Ty) : value := match t with TModel m => written_model ms ForValidation m | _ => written ms ForValidation t end.
Definition with_defs (defs : Defs) (map : list (text * value)) : list (text * value) :=
  if is_empty defs then map else im_insert (lit "$defs") (Object defs) map.
(** The parts a type's schema refers to. *)
Definition referred (mode : Mode) (t : Ty) : list Ty :=
  match t with TModel m => concat (map (fun f => parts mode (f_ty f)) (listed_fields mode m)) | _ => parts mode t end.

Lemma referred_parts mode t : referred mode t ⊆ parts mode t.
Proof. destruct t; try done. rewrite parts_model. cbn [referred]. set_solver. Qed.
Lemma root_schema_written ms t : told_apart ms ForValidation t ->
  let '(root, defs) := match t with TModel m => model_schema ms ForValidation m [] | other => schema ms ForValidation other [] end in
  root = root_schema ms t /\ sound_defs ms ForValidation t [] defs /\ all_done ms ForValidation defs (referred ForValidation t).
Proof.
  intros Ha. assert (sound_defs ms ForValidation t [] []) as H0 by (split; [constructor|done]).
  assert (writes ms ForValidation t [] (schema ms ForValidation t) (written ms ForValidation t) (parts ForValidation t)) as Hw.
  { by apply writes_schema; [done| |intros p ?%not_elem_of_nil]. }
  destruct t as [| | | | | | | | | | | | | | | | | | | |m| | |];
    try (destruct (Hw [] H0) as (d & E & Hs & _ & Hd); by rewrite E).
  assert (writes ms ForValidation (TModel m) [] (model_schema ms ForValidation m) (written_model ms ForValidation m) (referred ForValidation (TModel m))) as Hm.
  { apply writes_model; [done| |reflexivity|by intros p ?%not_elem_of_nil]. apply Forall_forall. intros f Hf w. by apply writes_schema. }
  destruct (Hm [] H0) as (d & E & Hs & _ & Hd). by rewrite E.
Qed.
Lemma root_schema_object ms t : exists map, root_schema ms t = Object map.
Proof. destruct (written_is_object ms ForValidation t) as (m & Hm). destruct t; by eexists. Qed.

Lemma document_exact t : let ms := collect t [] in told_apart ms ForValidation t ->
  exists map defs, root_schema ms t = Object map /\ json_schema t = sort None (Object (with_defs defs map)) /\ NoDup (im_keys defs) /\
    (forall p n v, p ∈ referred ForValidation t -> defined ms ForValidation p = Some (n, v) -> im_get n defs = Some v) /\
    (forall n v, im_get n defs = Some v -> exists p, p ∈ parts ForValidation t /\ defined ms ForValidation p = Some (n, v)).
Proof.
  cbv zeta. intros Ha. destruct (root_schema_object (collect t []) t) as (map & Hm). pose proof (root_schema_written _ _ Ha) as Hr. unfold json_schema.
  destruct (match t with TModel _ => _ | _ => _ end) as [root defs]. destruct Hr as (-> & [Hn Hs] & Hd). exists map, defs. rewrite Hm.
  split; [done|]. split; [done|]. split; [done|]. split; [intros p n v Hp; by apply Hd|]. intros n v Hg.
  destruct (Hs _ _ Hg) as (p & w & Hp & Hpn & [[-> _]|[_ Hin]]); [eauto|by apply not_elem_of_nil in Hin].
Qed.

(** Every reference stands for its type: where no two types would share a name under [$defs], a schema shows in each place what the type there is
    written as, a model, enum or alias as a reference to its name; each name referred to is defined, and what is defined under a name
    is exactly the schema of the one part that has it, with nothing half written and nothing left over. *)
Theorem definitions_exact t : let ms := collect t [] in told_apart ms ForValidation t ->
  exists map defs, root_schema ms t = Object map /\ json_schema t = sort None (Object (with_defs defs map)) /\ NoDup (im_keys defs) /\
    (forall p n v, p ∈ referred ForValidation t -> defined ms ForValidation p = Some (n, v) -> im_get n defs = Some v) /\
    (forall n v, im_get n defs = Some v -> exists p, p ∈ parts ForValidation t /\ defined ms ForValidation p = Some (n, v)).
Proof. apply document_exact. Qed.
End Document.

(** ** Sorting changes no lookup *)
Lemma insert_entry_perm {A} (e : text * A) es : insert_entry e es ≡ₚ e :: es.
Proof. induction es as [|f es IH]; cbn [insert_entry]; [done|]. destruct (text_le _ _); [done|]. rewrite IH. apply Permutation_swap. Qed.
Lemma sort_entries_perm {A} (es : list (text * A)) : sort_entries es ≡ₚ es.
Proof. unfold sort_entries. induction es as [|e es IH]; cbn [fold_right]; [done|]. by rewrite insert_entry_perm, IH. Qed.
Lemma im_get_perm (m m' : list (text * value)) k : NoDup (im_keys m) -> m' ≡ₚ m -> im_get k m' = im_get k m.
Proof.
  intros Hn Hp. destruct (im_get k m) as [v|] eqn:E.
  - apply im_get_nodup; [unfold im_keys in *; by rewrite Hp|]. rewrite Hp. by apply im_get_elem.
  - apply im_get_none. apply im_get_none in E. unfold im_keys in *. by rewrite Hp.
Qed.
Definition sorted_entries (m : list (text * value)) : list (text * value) := map (fun kv => match kv with (k, item) => (k, sort (Some k) item) end) m.
Lemma sorted_keys m : im_keys (sorted_entries m) = im_keys m.
Proof. unfold im_keys, sorted_entries. rewrite map_map. apply map_ext. by intros []. Qed.
Lemma sorted_get m k : im_get k (sorted_entries m) = sort (Some k) <$> im_get k m.
Proof.
  induction m as [|[k' v] m IH]; [done|]. cbn [sorted_entries map im_get]. destruct (decide (k = k')) as [->|]; [done|exact IH].
Qed.
(** What is found under a key of a sorted object. *)
Lemma sort_object parent m : NoDup (im_keys m) -> exists m', sort parent (Object m) = Object m' /\ NoDup (im_keys m') /\ im_keys m' ≡ₚ im_keys m /\
  m' ≡ₚ sorted_entries m /\ forall k, im_get k m' = sort (Some k) <$> im_get k m.
Proof.
  intros Hn. cbn [sort]. fold (sorted_entries m). rewrite <- (sorted_keys m) in Hn.
  set (m' := if keeps_order parent then sorted_entries m else sort_entries (sorted_entries m)).
  assert (m' ≡ₚ sorted_entries m) as Hp by (subst m'; destruct (keeps_order parent); [done|apply sort_entries_perm]).
  exists m'. split; [done|]. split; [unfold im_keys in *; by rewrite Hp|]. split; [unfold im_keys at 1; rewrite Hp; apply Permutation_refl'; apply sorted_keys|].
  split; [done|]. intros k. rewrite (im_get_perm _ _ k Hn Hp). apply sorted_get.
Qed.

(** ** What a written schema asks of a value *)
Lemma get_here (k : text) (v : value) m : im_get k ((k, v) :: m) = Some v.
Proof. cbn [im_get]. by rewrite decide_True by done. Qed.
Lemma get_there (k k' : text) (v : value) m : k <> k' -> im_get k ((k', v) :: m) = im_get k m.
Proof. intros Hk. cbn [im_get]. by rewrite decide_False by done. Qed.
(** A keyword looked up among an object's written out: its value, or none. *)
Ltac found H :=
  repeat first [rewrite get_here in H | rewrite get_there in H by discriminate];
  first [discriminate H | match type of H with Some ?x = Some ?x => clear H | Some _ = Some _ => injection H as H; subst end].
Ltac distinct := apply (bool_decide_unpack _); vm_compute; exact I.
Ltac known_keys := intros ? ?; left; repeat match goal with
  | Hk : _ ∈ _ :: _ |- _ => apply elem_of_cons in Hk as [->|Hk]
  | Hk : _ ∈ im_keys (_ :: _) |- _ => unfold im_keys in Hk; cbn [map fst] in Hk
  | Hk : _ ∈ im_keys [] |- _ => by apply not_elem_of_nil in Hk
  | Hk : _ ∈ [] |- _ => by apply not_elem_of_nil in Hk
  end; apply (bool_decide_unpack _); vm_compute; exact I.
Ltac unbounded := intros ? Hb_; repeat (apply elem_of_cons in Hb_ as [->|Hb_]; [reflexivity|]); by apply not_elem_of_nil in Hb_.

Section Asked.
Context (ds : list (text * value)).
Notation satisfies := (satisfies ds).

(** The keywords of an object, its parts sorted. *)
Lemma satisfies_sorted parent m w : NoDup (im_keys m) ->
  (forall key, key ∈ im_keys m -> key ∈ ANYWHERE \/ key = lit "$schema" \/ key = lit "$defs") ->
  (forall ref, im_get (lit "$ref") m = Some ref -> exists r name s, ref = Str r /\ reference_name ref = Some name /\ im_get name ds = Some s /\ satisfies s w) ->
  (forall branches, im_get (lit "anyOf") m = Some branches -> exists l branch, branches = Array l /\ branch ∈ l /\ satisfies (sort (Some (lit "anyOf")) branch) w) ->
  (forall named, im_get (lit "type") m = Some named -> exists t v, named = Str t /\ json_equal w v /\ of_type v t) ->
  (forall listed, im_get (lit "enum") m = Some listed -> exists l v, listed = Array l /\ sort (Some (lit "enum")) v = v /\ v ∈ l /\ json_equal w v) ->
  (forall c, im_get (lit "const") m = Some c -> sort (Some (lit "const")) c = c /\ exists v, json_equal w v /\ json_equal v c) ->
  (forall key, key ∈ BOUNDS -> im_get key m = None) ->
  (forall s l v, im_get (lit "items") m = Some s -> w = Array l -> v ∈ l -> satisfies (sort (Some (lit "items")) s) v) ->
  (forall ps fields k v, im_get (lit "properties") m = Some (Object ps) -> w = Object fields -> (k, v) ∈ fields -> k ∈ im_keys ps ->
     exists s, (k, s) ∈ ps /\ satisfies (sort (Some k) s) v) ->
  (forall names fields name, im_get (lit "required") m = Some (Array names) -> w = Object fields -> Str name ∈ names -> name ∈ im_keys fields) ->
  (forall fields k, im_get (lit "additionalProperties") m = Some (Bool false) -> w = Object fields -> k ∈ im_keys fields ->
     exists ps, im_get (lit "properties") m = Some (Object ps) /\ k ∈ im_keys ps) ->
  satisfies (sort parent (Object m)) w.
Proof.
  intros Hn Hk Hr Ha Ht He Hc Hb Hi Hp Hq Hadd. destruct (sort_object parent m Hn) as (m' & -> & Hn' & Hkeys & _ & Hg).
  constructor.
  - intros key Hin. apply Hk. by rewrite <- Hkeys.
  - intros ref. rewrite Hg. intros (r0 & Hr0 & ->)%fmap_Some. destruct (Hr _ Hr0) as (r & name & s & -> & Hs). eauto.
  - intros b. rewrite Hg. intros (b0 & Hb0 & ->)%fmap_Some. destruct (Ha _ Hb0) as (l & branch & -> & Hin & Hs).
    exists (map (sort (Some (lit "anyOf"))) l), (sort (Some (lit "anyOf")) branch). split; [done|]. split; [by apply list_elem_of_fmap_2|done].
  - intros t. rewrite Hg. intros (t0 & Ht0 & ->)%fmap_Some. destruct (Ht _ Ht0) as (t & v & -> & Hv). exists t, v. split; [by left|done].
  - intros l. rewrite Hg. intros (l0 & Hl0 & ->)%fmap_Some. destruct (He _ Hl0) as (l & v & -> & Hsv & Hin & Hv).
    exists (map (sort (Some (lit "enum"))) l), v. split; [done|]. split; [|done]. rewrite <- Hsv. by apply list_elem_of_fmap_2.
  - intros c. rewrite Hg. intros (c0 & Hc0 & ->)%fmap_Some. destruct (Hc _ Hc0) as (-> & v & Hv). eauto.
  - intros key bound Hin. rewrite Hg, (Hb _ Hin). done.
  - intros s l v. rewrite Hg. intros (s0 & Hs0 & ->)%fmap_Some. by apply Hi.
  - intros ps fields k v. rewrite Hg. intros (ps0 & Hps0 & Heq)%fmap_Some Hw Hin Hkin. destruct ps0 as [| | | | |ps0]; try done.
    change (Object ps = Object (sorted_entries ps0)) in Heq. injection Heq as ->. rewrite sorted_keys in Hkin. destruct (Hp _ _ _ _ Hps0 Hw Hin Hkin) as (s & Hs & Hsat). exists (sort (Some k) s).
    split; [|done]. unfold sorted_entries. apply list_elem_of_fmap. by exists (k, s).
  - intros names fields name. rewrite Hg. intros (n0 & Hn0 & Heq)%fmap_Some Hw Hin. destruct n0 as [| | | |names0|]; try done.
    injection Heq as ->. apply list_elem_of_fmap in Hin as (x & Hx & Hin). destruct x; try done; injection Hx as ->. by eapply Hq.
  - intros fields k. rewrite Hg. intros (a0 & Ha0 & Heq)%fmap_Some Hw Hin. destruct a0 as [|b| | | |]; try done. injection Heq as <-.
    destruct (Hadd _ _ Ha0 Hw Hin) as (ps & Hps & Hkin). exists (sorted_entries ps). rewrite Hg, Hps.
    split; [reflexivity|by rewrite sorted_keys].
Qed.

Lemma any_satisfied parent w : satisfies (sort parent (Object [])) w.
Proof. apply satisfies_sorted; try done; [by constructor|intros ? Hk; by apply not_elem_of_nil in Hk]. Qed.
Lemma typed_satisfied parent t w : of_type w t -> satisfies (sort parent (typed_as t)) w.
Proof.
  intros Ht. apply satisfies_sorted; [distinct|known_keys|..]; try (intros; match goal with Hg : im_get _ _ = Some _ |- _ => found Hg end).
  - exists t, w. split; [done|]. split; [by left|done].
  - unbounded.
Qed.
Lemma list_satisfied parent s l : (forall v, v ∈ l -> satisfies (sort (Some (lit "items")) s) v) -> satisfies (sort parent (list_schema s)) (Array l).
Proof.
  intros Hl. apply satisfies_sorted; [distinct|known_keys|..]; try (intros; match goal with Hg : im_get _ _ = Some _ |- _ => found Hg end).
  - eexists _, (Array l). split; [done|]. split; [by left|done].
  - unbounded.
  - match goal with Hw : Array _ = Array _ |- _ => injection Hw as -> end. by apply Hl.
Qed.
Lemma any_of_satisfied parent l branch w : branch ∈ l -> satisfies (sort (Some (lit "anyOf")) branch) w -> satisfies (sort parent (any_of l)) w.
Proof.
  intros Hin Hs. apply satisfies_sorted; [distinct|known_keys|..]; try (intros; match goal with Hg : im_get _ _ = Some _ |- _ => found Hg end).
  - exists l, branch. auto.
  - unbounded.
Qed.
Lemma ref_satisfied parent name s w : reference_name (Str (lit "#/$defs/" ++ name)) = Some name -> im_get name ds = Some s -> satisfies s w ->
  satisfies (sort parent (ref_to name)) w.
Proof.
  intros Hr Hg Hs. apply satisfies_sorted; [distinct|known_keys|..]; try (intros; match goal with Hg : im_get (lit _) _ = Some _ |- _ => found Hg end).
  - eexists _, name, s. split; [done|]. auto.
  - unbounded.
Qed.

(** A closed set of values: the kind they share is each one's type. *)
Lemma literal_kind v : literal_value v = true -> of_type v (json_kind v) /\ forall parent, sort parent v = v.
Proof.
  destruct v as [| |[n|x]| | |]; intros Hl; try discriminate Hl; (split; [|done]); try exact eq_refl.
  cbn [literal_value] in Hl. apply negb_true_iff in Hl. cbn [of_type json_kind]. rewrite Hl. by left.
Qed.
Lemma json_type_kind values kind v : json_type values = Some kind -> v ∈ values -> json_kind v = kind.
Proof.
  unfold json_type. destruct values as [|v0 vs]; [done|]. destruct (forallb _ _ && _) eqn:E; [|done]. intros [= <-] Hv.
  apply andb_true_iff in E as [Hf _]. rewrite forallb_forall in Hf. by apply teqb_spec, Hf, list_elem_of_In.
Qed.
Lemma literal_satisfied parent values w : forallb literal_value values = true -> Exists (json_equal w) values -> satisfies (sort parent (literal_schema values)) w.
Proof.
  intros Hl (v & Hv & Hw)%Exists_exists. rewrite forallb_forall in Hl. assert (literal_value v = true) as Hlv by by apply Hl, list_elem_of_In.
  destruct (literal_kind v Hlv) as [Hk Hsort].
  assert (exists key x, literal_schema values = Object ((key, x) :: match json_type values with Some kind => [(lit "type", Str kind)] | None => [] end) /\
    (key = lit "enum" /\ x = Array values \/ key = lit "const" /\ x = v)) as (key & x & -> & Hx).
  { unfold literal_schema, with_kind. destruct values as [|v1 [|v2 vs]]; [by apply not_elem_of_nil in Hv| |].
    - apply list_elem_of_singleton in Hv as ->. exists (lit "const"), v1. split; [by destruct (json_type [v1])|by right].
    - exists (lit "enum"), (Array (v1 :: v2 :: vs)). split; [by destruct (json_type (v1 :: v2 :: vs))|by left]. }
  pose proof (fun kind E => json_type_kind values kind v E Hv) as Hkind.
  destruct (json_type values) as [kind|]; [specialize (Hkind kind eq_refl) as <-|]; destruct Hx as [[-> ->]|[-> ->]];
    (apply satisfies_sorted; [distinct|known_keys|..]; try (intros; match goal with Hg : im_get _ _ = Some _ |- _ => found Hg end); try unbounded;
     first [by eauto 8 | split; [apply Hsort|]; eexists; split; [exact Hw|by left]]).
Qed.

(** Notes beside a schema ask nothing. *)
Definition ASIDE : list text := [lit "title"; lit "description"; lit "default"; lit "$defs"].
Lemma aside_satisfied m m' w : satisfies (Object m) w ->
  (forall key, key ∈ im_keys m' -> key ∈ im_keys m \/ key ∈ ASIDE) -> (forall key, key ∉ ASIDE -> im_get key m' = im_get key m) -> satisfies (Object m') w.
Proof.
  intros Hs Hk Hg. inversion Hs as [m0 w0 Hkn Hr Ha Ht He Hc Hb Hi Hp Hq Hadd]; subst.
  assert (forall key, bool_decide (key ∈ ASIDE) = false -> im_get key m' = im_get key m) as Hsame by (intros key ?%bool_decide_eq_false; by apply Hg).
  constructor; try (intros *; rewrite Hsame by reflexivity; first [apply Hr|apply Ha|apply Ht|apply He|apply Hc|apply Hi|apply Hp|apply Hq]).
  - intros key [Hin|Hin]%Hk; [by apply Hkn|]. repeat (apply elem_of_cons in Hin as [->|Hin]; [first [by right; right | left; apply (bool_decide_unpack _); by vm_compute]|]).
    by apply not_elem_of_nil in Hin.
  - intros key bound Hin Hb'. apply Hb; [done|]. rewrite <- Hb'. symmetry. apply Hsame.
    repeat (apply elem_of_cons in Hin as [->|Hin]; [reflexivity|]). by apply not_elem_of_nil in Hin.
  - intros fields k. rewrite !Hsame by reflexivity. apply Hadd.
Qed.
(** An object with notes added. *)
Definition with_notes (m m' : list (text * value)) : Prop :=
  NoDup (im_keys m') /\ (forall key, key ∈ im_keys m' -> key ∈ im_keys m \/ key ∈ ASIDE) /\ (forall key, key ∉ ASIDE -> im_get key m' = im_get key m).
Lemma with_note m m' key v : key ∈ ASIDE -> with_notes m m' -> with_notes m (im_insert key v m').
Proof.
  intros Hkey (H1 & H2 & H3). split; [by apply im_insert_nodup|]. split.
  - intros k [->|Hk]%im_keys_insert; [by right|by apply H2].
  - intros k Hk. rewrite im_get_insert_ne; [by apply H3|]. intros ->. by apply Hk.
Qed.
Lemma with_notes_satisfied parent parent' m m' w : NoDup (im_keys m) -> with_notes m m' -> satisfies (sort parent (Object m)) w -> satisfies (sort parent' (Object m')) w.
Proof.
  intros Hn (Hn' & Hk & Hg) Hs. destruct (sort_object parent' m' Hn') as (s' & -> & _ & Hks' & _ & Hgs'). destruct (sort_object parent m Hn) as (s & Es & _ & Hks & _ & Hgs).
  rewrite Es in Hs. apply (aside_satisfied s); [done|..].
  - intros key. rewrite Hks', Hks. apply Hk.
  - intros key Hkey. rewrite Hgs', Hgs. by rewrite Hg.
Qed.
Lemma noted_satisfied {T} `{Unicode} parent parent' is_titled (f : Field T) m w : NoDup (im_keys m) -> satisfies (sort parent (Object m)) w ->
  satisfies (sort parent' (noted_schema is_titled f (Object m))) w.
Proof.
  intros Hn. apply with_notes_satisfied; [done|].
  assert (with_notes m (if is_titled then im_insert (lit "title") (Str (field_title (f_key f))) m else m)) as H1.
  { assert (with_notes m m) as Hm by (split; [done|]; split; auto). destruct is_titled; [|done]. apply with_note; [by left|done]. }
  revert H1. generalize (if is_titled then im_insert (lit "title") (Str (field_title (f_key f))) m else m). intros m1 H1.
  assert (with_notes m match f_description f with Some d => im_insert (lit "description") (Str d) m1 | None => m1 end) as H2.
  { destruct (f_description f); [|done]. apply with_note; [right; by left|done]. }
  destruct (f_default f); [|done]. apply with_note; [right; right; by left|done].
Qed.

(** A model's schema, its fields' properties written. *)
Lemma needed_validation {T} (f : Field T) : needed_field ForValidation f = is_required f.
Proof. done. Qed.
Lemma object_satisfied {T} parent (m : ModelTy T) fs data : NoDup (map f_key fs) ->
  (forall k v, (k, v) ∈ data -> exists f : Field value, f ∈ fs /\ f_key f = k /\ satisfies (sort (Some k) (f_ty f)) v) ->
  (forall f, f ∈ fs -> is_required f = true -> f_key f ∈ im_keys data) -> satisfies (sort parent (object_schema ForValidation m fs)) (Object data).
Proof.
  intros Hn He Hreq. unfold object_schema. set (names := map _ (base.filter _ fs)). set (ps := im_extend [] _).
  assert (forall n, Str n ∈ names -> n ∈ im_keys data) as Hnames.
  { intros n (f & [= ->] & [Hf Hin]%list_elem_of_filter)%list_elem_of_fmap. by apply Hreq. }
  assert (forall k v, (k, v) ∈ data -> exists s, (k, s) ∈ ps /\ satisfies (sort (Some k) s) v) as Hps.
  { intros k v Hin. destruct (He k v Hin) as (f & Hf & <- & Hs). exists (f_ty f). split; [|done].
    apply im_get_elem, im_get_extend_new; [by rewrite map_map|]. apply list_elem_of_fmap. by exists f. }
  assert (forall k, k ∈ im_keys data -> k ∈ im_keys ps) as Hkeys.
  { intros k ([k' v] & -> & Hin)%list_elem_of_fmap. destruct (Hps _ _ Hin) as (s & Hs & _). apply list_elem_of_fmap. by exists (k', s). }
  clearbody names ps.
  destruct (is_empty names), (m_doc m), (forbid_extra m); cbn [app];
    (apply satisfies_sorted; [distinct|known_keys|..]; try (intros; match goal with Hg : im_get _ _ = Some _ |- _ => found Hg end); try unbounded;
     repeat match goal with Hw : Object _ = Object _ |- _ => injection Hw as Hw; subst end; eauto;
     first [eexists _, (Object data); split; [reflexivity|split; [by left|exact eq_refl]] | eexists; split; [reflexivity|by apply Hkeys]]).
Qed.
Lemma flat_branch_satisfied s w : (forall parent, satisfies (sort parent s) w) -> exists b, b ∈ flat_branch s /\ satisfies (sort (Some (lit "anyOf")) b) w.
Proof.
  intros Hs. assert (forall l, l = [s] -> exists b, b ∈ l /\ satisfies (sort (Some (lit "anyOf")) b) w) as Hself.
  { intros l ->. exists s. split; [by left|apply Hs]. }
  assert (forall v, s = Object [(lit "anyOf", v)] -> exists inner b, v = Array inner /\ b ∈ inner /\ satisfies (sort (Some (lit "anyOf")) b) w) as Hany.
  { intros v ->. specialize (Hs None). inversion Hs as [m0 w0 Hkn Hr Ha Ht Hen Hc Hb Hi Hp Hq Hadd]; subst. clear Hr Ht Hen Hc Hb Hi Hp Hq Hadd.
    destruct (Ha (sort (Some (lit "anyOf")) v) (get_here _ _ _)) as (l & b & El & Hb & Hsat). destruct v as [| | | |inner|]; try done. injection El as <-.
    apply list_elem_of_fmap in Hb as (b0 & -> & Hb0). exists inner, b0. auto. }
  unfold flat_branch. destruct s as [| | | | |[|[key v] [|e m]]]; try by apply Hself.
  2: { destruct v; by apply Hself. }
  destruct (teqb key (lit "anyOf")) eqn:Ek.
  - apply teqb_spec in Ek as ->. destruct (Hany v eq_refl) as (inner & b & -> & Hb). eauto.
  - destruct v; by apply Hself.
Qed.
Lemma union_satisfied parent (branches extra : list value) s w : s ∈ branches -> (forall parent, satisfies (sort parent s) w) ->
  satisfies (sort parent (any_of (flat_branches branches ++ extra))) w.
Proof.
  intros Hin Hs. destruct (flat_branch_satisfied s w Hs) as (b & Hb & Hsat). eapply any_of_satisfied; [|exact Hsat].
  apply elem_of_app. left. unfold flat_branches. apply list_elem_of_In, in_concat. exists (flat_branch s). split; [|by apply list_elem_of_In].
  apply in_map_iff. exists s. split; [done|by apply list_elem_of_In].
Qed.
Lemma null_satisfied parent branches : satisfies (sort parent (any_of (branches ++ [null_schema]))) Null.
Proof. eapply any_of_satisfied; [apply elem_of_app; right; by left|]. by apply typed_satisfied. Qed.
End Asked.

(** ** A caller's data satisfies the schema shown for it *)
(** The properties of every object are told apart, and a closed set shown as one holds only what a [Literal] can. *)
Fixpoint shown_exactly (t : OutputType) : bool :=
  match t with
  | OList item => shown_exactly item
  | OObject o => bool_decide (NoDup (map of_key (ob_fields o))) && forallb (fun f => shown_exactly (of_ty f)) (ob_fields o)
  | OUnion ms => forallb shown_exactly ms
  | OOneOf allowed literal => implb literal (forallb literal_value allowed)
  | _ => true
  end.
(** A model's name reads back from a reference to it. *)
Definition reads_back (ms : Models) (t : Ty) : Prop :=
  forall m, TModel m ∈ parts ForValidation t -> reference_name (Str (lit "#/$defs/" ++ def_name ms m)) = Some (def_name ms m).

Section Shown.
Context `{Unicode} (ms : Models) (ds : list (text * value)).
Notation satisfies := (satisfies ds).
(** Every model among some types is defined, sorted, under a name that reads back. *)
Definition all_shown (ps : list Ty) : Prop :=
  forall m, TModel m ∈ ps -> let n := def_name ms m in
    reference_name (Str (lit "#/$defs/" ++ n)) = Some n /\ im_get n ds = Some (sort (Some n) (written_model ms ForValidation m)).
Definition shows (t : OutputType) : Prop := forall w, conforms t w -> forall parent, satisfies (sort parent (written ms ForValidation (ty t))) w.

Lemma of_key_object_field (f : OutputField Ty) : f_key (object_field f) = of_key f.
Proof. unfold f_key, object_field. cbn [f_alias f_name]. destruct (teqb (of_name f) (of_key f)) eqn:E; [by apply teqb_spec in E|done]. Qed.
Definition object_model (o : ObjectType OutputType) : ModelTy Ty :=
  mkModelTy (ob_name o) (lit "fastbrowse.output_schema") None (closed o) (map object_field (map (fun f => with_type f (ty (of_ty f))) (ob_fields o))).
Lemma object_model_ty o : ty (OObject o) = TModel (object_model o).
Proof. done. Qed.
Lemma all_listed {T} (fs : list (Field T)) : base.filter (fun f => listed_field ForValidation f = true) fs = fs.
Proof. apply filter_kept. done. Qed.

Definition entries_of (v : value) : list (text * value) := match v with Object m => m | _ => [] end.
Lemma written_entries t : NoDup (im_keys (entries_of (written ms ForValidation t))).
Proof.
  induction t; cbn [written];
    match goal with |- context [literal_schema] => idtac | |- context [constrained_schema] => idtac | |- _ => distinct end.
  - unfold literal_schema, with_kind. cbn [entries_of]. destruct (json_type values); [apply im_insert_nodup|]; destruct values as [|? [|]]; distinct.
  - destruct (written_is_object ms ForValidation t) as (m0 & Em). rewrite Em in *. cbn [constrained_schema entries_of] in *. by apply im_extend_nodup.
Qed.
Lemma written_nodup t m : written ms ForValidation t = Object m -> NoDup (im_keys m).
Proof. intros Em. pose proof (written_entries t) as Hn. by rewrite Em in Hn. Qed.
Lemma model_shown parent o w : NoDup (map of_key (ob_fields o)) -> Forall (fun f => shows (of_ty f)) (ob_fields o) -> conforms (OObject o) w ->
  satisfies (sort parent (written_model ms ForValidation (object_model o))) w.
Proof.
  intros Hn Hf (data & -> & He & Hreq). cbn [ob_fields] in *. unfold written_model, listed_fields. rewrite all_listed. rewrite Forall_forall in Hf.
  cbn [object_model m_fields]. rewrite !map_map.
  apply object_satisfied.
  - rewrite map_map. erewrite map_ext; [exact Hn|]. intros f. exact (of_key_object_field (with_type f (ty (of_ty f)))).
  - intros k v Hin. destruct (He k v Hin) as (f' & (f & -> & Hff)%list_elem_of_fmap & <- & Hc). cbn [with_type of_key of_ty] in Hc.
    eexists. split; [apply list_elem_of_fmap; exists f; split; [reflexivity|done]|]. split; [exact (of_key_object_field (with_type f (ty (of_ty f))))|].
    cbn [written_field retyped f_ty object_field with_type of_ty]. destruct (written_is_object ms ForValidation (ty (of_ty f))) as (m & Em). rewrite Em.
    eapply noted_satisfied; [by eapply written_nodup|]. rewrite <- Em. apply (Hf f Hff v Hc).
  - intros f' (f & -> & Hff)%list_elem_of_fmap Hr.
    change (f_key (written_field ms ForValidation (object_field (with_type f (ty (of_ty f)))))) with (f_key (object_field (with_type f (ty (of_ty f))))).
    rewrite of_key_object_field. apply (Hreq (with_type f (conforms (of_ty f)))); [apply list_elem_of_fmap; by exists f|]. revert Hr. unfold is_required. cbn [written_field retyped object_field with_type f_default of_required]. destruct (of_required f); [done|]. by cbn.
Unshelve. all: exact None.
Qed.

(** A union's members that are not null, in one place or under [anyOf]. *)
Definition joined (others : list Ty) : Ty := match others with [only] => only | others => TUnion others end.
Lemma joined_shown parent extra others t w : t ∈ others -> (forall parent, satisfies (sort parent (written ms ForValidation t)) w) ->
  satisfies (sort parent (written ms ForValidation (joined others))) w /\
  satisfies (sort parent (any_of (flat_branch (written ms ForValidation (joined others)) ++ extra))) w.
Proof.
  intros Hin Hs. destruct others as [|t1 [|t2 ts]]; [by apply not_elem_of_nil in Hin| |].
  - apply list_elem_of_singleton in Hin as ->. split; [apply Hs|]. cbn [joined].
    replace (flat_branch (written ms ForValidation t1)) with (flat_branches [written ms ForValidation t1]) by apply app_nil_r.
    eapply union_satisfied; [by left|done].
  - set (others := t1 :: t2 :: ts) in *. change (joined others) with (TUnion others). cbn [written].
    change (flat_branch (any_of (flat_branches (map (written ms ForValidation) others)))) with (flat_branches (map (written ms ForValidation) others)).
    split; [rewrite <- (app_nil_r (flat_branches _))|]; (eapply union_satisfied; [apply list_elem_of_fmap; exists t; split; [reflexivity|done]|done]).
Qed.
Lemma joined_parts others t : t ∈ others -> parts ForValidation t ⊆ parts ForValidation (joined others).
Proof.
  intros Hin. destruct others as [|t1 [|t2 ts]]; [by apply not_elem_of_nil in Hin|by apply list_elem_of_singleton in Hin as ->|].
  set (others := t1 :: t2 :: ts) in *. change (joined others) with (TUnion others). cbn [parts]. intros p Hp. right.
  apply list_elem_of_In, in_concat. exists (parts ForValidation t). split; [|by apply list_elem_of_In]. apply in_map, list_elem_of_In, Hin.
Qed.
Definition others_of (members : list OutputType) : list Ty :=
  map snd (base.filter (fun m : OutputType * Ty => is_null_type m.1 = false) (map (fun m => (m, ty m)) members)).
Lemma others_in members m : m ∈ members -> is_null_type m = false -> ty m ∈ others_of members.
Proof.
  intros Hm Hn. apply list_elem_of_fmap. exists (m, ty m). split; [done|]. apply list_elem_of_filter. split; [done|]. apply list_elem_of_fmap. by exists m.
Qed.
Lemma others_fewer members m : m ∈ members -> is_null_type m = true -> (length (others_of members) < length members)%nat.
Proof.
  unfold others_of. rewrite length_map. assert (forall l : list OutputType, (length (base.filter (fun m : OutputType * Ty => is_null_type m.1 = false) (map (fun m => (m, ty m)) l)) <= length l)%nat) as Hle.
  { intros l. etrans; [apply length_filter|]. by rewrite length_map. }
  induction members as [|x l IH]; [by intros ?%not_elem_of_nil|]. cbn [map]. rewrite filter_cons. specialize (Hle l). intros [->|Hm]%elem_of_cons Hn.
  - rewrite decide_False by (cbn; congruence). cbn [length]. lia.
  - specialize (IH Hm Hn). case_decide; cbn [length]; lia.
Qed.
Lemma union_ty_joined members :
  ty (OUnion members) = if (length (others_of members) <? length members)%nat then TOptional (joined (others_of members)) else joined (others_of members).
Proof. cbn [ty]. unfold union_ty. by rewrite (length_map (fun m => (m, ty m)) members). Qed.
Lemma union_parts members m : m ∈ members -> is_null_type m = false -> parts ForValidation (ty m) ⊆ parts ForValidation (ty (OUnion members)).
Proof.
  intros Hm Hn. rewrite union_ty_joined. pose proof (joined_parts _ _ (others_in _ _ Hm Hn)) as Hp. destruct (_ <? _)%nat; [|done].
  intros p Hin. right. by apply Hp.
Qed.

Lemma all_shown_parts ps qs : qs ⊆ ps -> all_shown ps -> all_shown qs.
Proof. intros Hq Hs m Hm. by apply Hs, Hq. Qed.
Lemma object_fields_shown o : shown_exactly (OObject o) = true -> NoDup (map of_key (ob_fields o)) /\ forall f, f ∈ ob_fields o -> shown_exactly (of_ty f) = true.
Proof.
  cbn [shown_exactly]. intros [Hn%bool_decide_eq_true Hf]%andb_true_iff. split; [done|]. intros f Hin. rewrite forallb_forall in Hf. by apply Hf, list_elem_of_In.
Qed.
Lemma object_referred o f : f ∈ ob_fields o -> parts ForValidation (ty (of_ty f)) ⊆ referred ForValidation (ty (OObject o)).
Proof.
  intros Hf p Hp. rewrite object_model_ty. cbn [referred]. unfold listed_fields. rewrite all_listed. cbn [object_model m_fields]. rewrite !map_map.
  apply list_elem_of_In, in_concat. exists (parts ForValidation (ty (of_ty f))). split; [|by apply list_elem_of_In]. apply in_map_iff. exists f. split; [done|by apply list_elem_of_In].
Qed.

Lemma output_shown t : shown_exactly t = true -> all_shown (parts ForValidation (ty t)) -> shows t.
Proof.
  induction t as [t Ht|t IH|o IH|members IH] using OutputType_induction; intros Hex Hall w Hw parent.
  - destruct t as [| | | | | | | | |allowed [|]]; try done; cbn [ty written].
    + apply typed_satisfied. by destruct w.
    + destruct Hw as (n & -> & _). apply typed_satisfied. by left.
    + destruct Hw as (x & -> & _). by apply typed_satisfied.
    + destruct Hw as (b & ->). by apply typed_satisfied.
    + rewrite Hw. by apply typed_satisfied.
    + apply any_satisfied.
    + by apply literal_satisfied.
    + apply any_satisfied.
  - destruct Hw as (l & -> & Hl). cbn [ty written]. apply list_satisfied. intros v Hv. rewrite Forall_forall in Hl. apply IH; [done| |by apply Hl].
    eapply all_shown_parts; [|exact Hall]. cbn [ty parts]. set_solver.
  - destruct (object_fields_shown o Hex) as [Hn Hf]. rewrite object_model_ty. destruct (Hall (object_model o)) as [Hr Hg]; [rewrite object_model_ty; apply parts_self|].
    cbn [written]. eapply ref_satisfied; [exact Hr|exact Hg|]. apply model_shown; [done| |done]. rewrite Forall_forall in IH |- *. intros f Hin.
    apply IH; [done|by apply Hf|]. eapply all_shown_parts; [|exact Hall]. etrans; [by apply (object_referred o)|apply referred_parts].
  - apply Exists_exists in Hw as (P & (m & -> & Hm)%list_elem_of_fmap & Hw). rewrite union_ty_joined. destruct (is_null_type m) eqn:En.
    + pose proof (others_fewer _ _ Hm En) as Hlt. rewrite (proj2 (Nat.ltb_lt _ _) Hlt). destruct m; try done. rewrite Hw. apply null_satisfied.
    + assert (shows m) as Hs.
      { rewrite Forall_forall in IH. apply IH; [done| |].
        - cbn [shown_exactly] in Hex. rewrite forallb_forall in Hex. by apply Hex, list_elem_of_In.
        - eapply all_shown_parts; [|exact Hall]. by apply union_parts. }
      destruct (joined_shown parent [null_schema] _ _ w (others_in _ _ Hm En) (Hs w Hw)) as [H1 H2]. by destruct (_ <? _)%nat.
Qed.
End Shown.

Section ShownRoot.
Context `{Unicode} `{FF : FloatFormat} `{VT : ValueText}.

Lemma object_schema_entries ms m : exists map, written_model ms ForValidation m = Object map /\ NoDup (im_keys map) /\ im_get (lit "$defs") map = None.
Proof.
  unfold written_model, object_schema. eexists. split; [reflexivity|]. destruct (is_empty _), (m_doc m), (forbid_extra m); (split; [distinct|reflexivity]).
Qed.
Lemma definitions_of_sorted defs map : NoDup (im_keys map) -> im_get (lit "$defs") map = None -> NoDup (im_keys defs) ->
  exists ds, definitions_of (sort None (Object (with_defs defs map))) = Ok ds /\ forall n v, im_get n defs = Some v -> im_get n ds = Some (sort (Some n) v).
Proof.
  intros Hn Hg Hd. unfold with_defs. destruct defs as [|e defs]; cbn [is_empty].
  - destruct (sort_object None map Hn) as (m' & -> & _ & _ & _ & Hg'). exists []. unfold definitions_of. rewrite Hg', Hg. by split.
  - set (all := e :: defs) in *. pose proof (im_insert_nodup (lit "$defs") (Object all) map Hn) as Hn'.
    destruct (sort_object None _ Hn') as (m' & -> & _ & _ & _ & Hg'). destruct (sort_object (Some (lit "$defs")) all Hd) as (ds & Eds & _ & _ & _ & Hgs).
    exists ds. unfold definitions_of. rewrite Hg', im_get_insert_eq. cbn [fmap option_fmap option_map]. rewrite Eds. split; [done|].
    intros n v Hv. by rewrite Hgs, Hv.
Qed.
Lemma output_schema_satisfied m w : let t := ty (OObject (root m)) in let ms := collect t [] in
  told_apart ms ForValidation t -> reads_back ms t -> shown_exactly (OObject (root m)) = true -> conforms (OObject (root m)) w ->
  exists ds, definitions_of (output_json_schema m) = Ok ds /\ satisfies ds (output_json_schema m) w.
Proof.
  cbv zeta. intros Ha Hb Hex Hw. set (t := ty (OObject (root m))) in *. set (ms := collect t []) in *.
  destruct (document_exact t Ha) as (map & defs & Hm & Hj & Hn & Hdone & _). destruct (object_schema_entries ms (object_model (root m))) as (map' & Em & Hnm & Hnone).
  assert (Object map = Object map') as Heq by (rewrite <- Hm; exact Em). injection Heq as <-.
  destruct (definitions_of_sorted defs map Hnm Hnone Hn) as (ds & Hds & Hlook). unfold output_json_schema. fold t. rewrite Hj. exists ds. split; [done|].
  apply (with_notes_satisfied ds None None map); [done| |].
  - assert (with_notes map map) as Hself by (split; [done|]; split; auto). unfold with_defs. destruct (is_empty defs); [done|]. apply with_note; [|done].
    do 3 right. by left.
  - rewrite <- Em. destruct (object_fields_shown _ Hex) as [Hkeys Hf]. apply model_shown; [done| |done]. apply Forall_forall. intros f Hin.
    apply output_shown; [by apply Hf|]. intros mm Hmm. pose proof (object_referred _ _ Hin _ Hmm) as Href. split.
    + apply Hb. by apply referred_parts.
    + by apply Hlook, (Hdone (TModel mm)).
Qed.

(** C24: a caller's data satisfies the schema the models are shown for it: where no two objects would share a name under [$defs] and the
    names read back from their references, whatever the model accepts satisfies the schema written for the model, references and
    unions included; so a reply asked for by that schema is refused only for what the schema cannot say. *)
Theorem shown_schema_takes_data m data w : let t := ty (OObject (root m)) in let ms := collect t [] in
  told_apart ms ForValidation t -> reads_back ms t -> shown_exactly (OObject (root m)) = true -> finite_numbers data = true -> model_validate m data = Ok w ->
  exists ds, definitions_of (output_json_schema m) = Ok ds /\ satisfies ds (output_json_schema m) w.
Proof. cbv zeta. intros Ha Hb Hex Hd Hw. apply output_schema_satisfied; [done..|]. by apply (validate_conforms (OObject (root m)) data [] w). Qed.
End ShownRoot.

(** ** Schemas in use *)
(** Every part with a definition is one of a list whose names are told apart. *)
Lemma told_apart_listed `{Unicode} ms mode t L : Forall (fun p => defined ms mode p = None \/ p ∈ L) (parts mode t) ->
  NoDup (map (fun p => fst <$> defined ms mode p) L) -> told_apart ms mode t.
Proof.
  intros Hp Hn p q n v w Hip Hiq Hdp Hdq. rewrite Forall_forall in Hp. destruct (Hp p Hip) as [?|Hlp]; [congruence|]. destruct (Hp q Hiq) as [?|Hlq]; [congruence|].
  apply list_elem_of_lookup in Hlp as (i & Hi). apply list_elem_of_lookup in Hlq as (j & Hj).
  enough (i = j) by (subst; congruence). apply (NoDup_lookup _ _ _ (Some n) Hn); rewrite list_lookup_fmap; [by rewrite Hi; cbn; rewrite Hdp|by rewrite Hj; cbn; rewrite Hdq].
Qed.
#[local] Instance shown_float : FloatFormat := exact_format.
#[local] Instance shown_value : ValueText := {| value_text v := dumps v |}.

(** The order's schema as the models are shown it: the line written once and referred to twice. *)
Definition order_ty : Ty := Eval vm_compute in ty (OObject (root (model_of order_schema))).
Lemma order_ty_written : ty (OObject (root (model_of order_schema))) = order_ty.
Proof. by vm_compute. Qed.
Definition quoted (t : String.string) : text := map (fun c => if c =? chr "'" then dquote else c) (lit t).
Example order_shown : dumps (output_json_schema (model_of order_schema)) = quoted
  "{'$defs': {'line': {'additionalProperties': false, 'properties': {'sku': {'title': 'Sku', 'type': 'string'}, 'quantity': {'title': 'Quantity', 'type': 'integer'}}, 'required': ['sku', 'quantity'], 'title': 'line', 'type': 'object'}}, 'properties': {'id': {'title': 'Id', 'type': 'string'}, 'lines': {'items': {'$ref': '#/$defs/line'}, 'title': 'Lines', 'type': 'array'}, 'class': {'default': null, 'enum': ['gold', 'blue'], 'title': 'Class', 'type': 'string'}, 'spare': {'anyOf': [{'$ref': '#/$defs/line'}, {'type': 'null'}], 'default': null}}, 'required': ['id', 'lines'], 'title': 'Output', 'type': 'object'}".
Proof. by vm_compute. Qed.

Definition line_model : Ty := Eval vm_compute in
  match order_ty with TModel m => match m_fields m with [_; mkField _ _ (TList t) _ _ _ _ _; _; _] => t | _ => TNull end | _ => TNull end.
Definition order_parts : list Ty := Eval vm_compute in parts ForValidation order_ty.
Definition order_models : Models := Eval vm_compute in collect order_ty [].
Lemma order_parts_listed : parts ForValidation order_ty = order_parts /\ collect order_ty [] = order_models.
Proof. split; by vm_compute. Qed.
Lemma order_apart : told_apart (collect order_ty []) ForValidation order_ty.
Proof.
  destruct order_parts_listed as [Hp ->]. apply (told_apart_listed _ _ _ [order_ty; line_model]); [rewrite Hp; unfold order_parts|].
  - repeat (apply Forall_cons; split; [first [left; by vm_compute|right; left|right; right; left]|]). by apply Forall_nil.
  - by apply (bool_decide_unpack _); vm_compute.
Qed.
Lemma order_reads_back : reads_back (collect order_ty []) order_ty.
Proof.
  assert (Forall (fun p => match p with TModel m => reference_name (Str (lit "#/$defs/" ++ def_name order_models m)) = Some (def_name order_models m) | _ => True end)
    order_parts) as Hp by (unfold order_parts; repeat (apply Forall_cons; split; [first [exact I|by vm_compute]|]); by apply Forall_nil).
  destruct order_parts_listed as [E1 E2]. intros m. rewrite E1, E2. intros Hm. rewrite Forall_forall in Hp. apply (Hp (TModel m) Hm).
Qed.
Theorem definitions_exact_witness : let ms := collect order_ty [] in
  exists map defs, root_schema ms order_ty = Object map /\ json_schema order_ty = sort None (Object (with_defs defs map)) /\ NoDup (im_keys defs) /\
    (forall p n v, p ∈ referred ForValidation order_ty -> defined ms ForValidation p = Some (n, v) -> im_get n defs = Some v) /\
    (forall n v, im_get n defs = Some v -> exists p, p ∈ parts ForValidation order_ty /\ defined ms ForValidation p = Some (n, v)).
Proof. apply (definitions_exact order_ty). exact order_apart. Defined.
Theorem shown_schema_takes_data_witness :
  exists ds, definitions_of (output_json_schema (model_of order_schema)) = Ok ds /\ satisfies ds (output_json_schema (model_of order_schema)) order_valid.
Proof.
  apply (shown_schema_takes_data (model_of order_schema) order_data order_valid);
    [rewrite order_ty_written; exact order_apart|rewrite order_ty_written; exact order_reads_back|by vm_compute|by vm_compute|exact order_validates].
Defined.

(** Two models of one name are told apart by their module and a count; a third that is called that already takes the first one's definition. *)
Definition item_of (t : Ty) : Ty := TModel (mkModelTy (lit "item") (lit "fastbrowse.output_schema") None false [required_field (lit "x") t]).
Definition taken_item : Ty := TModel (mkModelTy (lit "fastbrowse__output_schema__item__1") (lit "fastbrowse.output_schema") None false []).
Definition items_ty : Ty := TTuple [item_of TStr; item_of TInt; taken_item].
Example taken_name_shows_another : let ms := collect items_ty [] in
  defined ms ForValidation taken_item <> None /\
  fst <$> defined ms ForValidation taken_item = fst <$> defined ms ForValidation (item_of TStr) /\
  fst <$> defined ms ForValidation (item_of TInt) = Some (lit "fastbrowse__output_schema__item__2") /\
  exists ds, definitions_of (json_schema items_ty) = Ok ds /\ length ds = 2%nat.
Proof. vm_compute. split; [done|]. split; [done|]. split; [done|]. by eexists. Qed.
(** A name is written into its reference as it is: a property [a~1b] gives a reference no reader of JSON pointers takes back, the
    program's own included. *)
Definition tilde_schema : value :=
  typed_schema "object" [("properties"%string, obj [("a~1b"%string, typed_schema "object" [("properties"%string, obj [("x"%string, typed_schema "string" [])])])])].
Example tilde_reference_lost :
  is_ok (model_validate (model_of tilde_schema) (obj [("a~1b"%string, obj [("x"%string, Str (lit "y"))])])) = true /\
  output_model (output_json_schema (model_of tilde_schema)) =
    Some (Err (mkUnsupported (lit "$ref") (lit "#/properties/a~01b/$ref") (lit "has to be #/$defs/ and the name of a definition in this schema"))).
Proof. by vm_compute. Qed.
