(* ===== verification/Strict.v ===== *)
(** The schema a provider is sent and the reply folded back: the strict and the flat forms of [crates/fastbrowse-core/src/schema.rs].

    [strict_schema] requires every property and drops the defaults, or refuses a map with free keys.  [flat_optional_objects] writes each
    optional object of a schema as nullable scalars under aliases of their paths ([flat_fields]), and [nest_flat_objects] folds a reply to that
    back into the object.  An optional object may hold a reference into [$defs], so flattening and nesting take fuel; [None] is fuel run
    out, a definition that refers to itself. *)

From S2P Require Import Prelude Float64 PyText Json DateTime Lax Models Ledger Config Receipts Decision Schema Validation Output Generator.

(** ** The strict form *)
Inductive FreeKeys := mkFreeKeys.
Fixpoint all_ok {A E} (l : list (result A E)) : result (list A) E :=
  match l with
  | [] => Ok []
  | r :: l => let? x := r in let? xs := all_ok l in Ok (x :: xs)
  end.
Definition is_object (v : value) : bool := match v with Object _ => true | _ => false end.
(** The keywords that map names to schemas. *)
Definition names_schemas (key : text) : bool := teqb key (lit "properties") || teqb key (lit "$defs").
(** An object's entries in order, each with its value's strict form. *)
Fixpoint strict_entries (entries : list (text * value * result value FreeKeys)) (done_ : list (text * value)) : result (list (text * value)) FreeKeys :=
  match entries with
  | [] => Ok done_
  | (key, v, strict) :: entries =>
      if teqb key (lit "default") then strict_entries entries done_
      else if teqb key (lit "additionalProperties") && is_object v then Err mkFreeKeys
      else let? s := strict in strict_entries entries (im_insert key s done_)
  end.
Definition requires_all (map_ strict : list (text * value)) : list (text * value) :=
  match im_get (lit "properties") map_ with
  | Some (Object properties) => im_insert (lit "required") (Array (map Str (im_keys properties))) strict
  | _ => strict
  end.
(** Every property required and no defaults. *)
Fixpoint strict_schema (schema : value) : result value FreeKeys :=
  match schema with
  | Array items => let? l := all_ok (map strict_schema items) in Ok (Array l)
  | Object map_ =>
      let entries := map (fun kv => match kv with (key, v) =>
        (key, v,
         match v with
         | Object names =>
             if names_schemas key then
               let? strict := all_ok (map (fun nv => match nv with (name, item) => let? s := strict_schema item in Ok (name, s) end) names) in
               Ok (Object (im_extend [] strict))
             else strict_schema v
         | other => strict_schema v
         end) end) map_ in
      let? strict := strict_entries entries [] in
      Ok (Object (requires_all map_ strict))
  | other => Ok other
  end.

(** ** The flat form *)
Definition FLAT : text := lit "__".
(** [Value::get]. *)
Definition get (v : value) (key : text) : option value := match v with Object m => im_get key m | _ => None end.
(** [Map::remove]: the last entry takes the removed one's place. *)
Definition swap_remove (key : text) (m : list (text * value)) : list (text * value) :=
  match position (fun kv => teqb kv.1 key) m with
  | None => m
  | Some i =>
      match last m with
      | Some e => if (S i =? length m)%nat then take i m else take i m ++ e :: removelast (drop (S i) m)
      | None => m
      end
  end.
Definition is_null_branch_of (branch : value) : bool := bool_decide (as_str (get branch (lit "type")) = Some (lit "null")).

(** The schema a [$ref] names, or the node itself. *)
Definition resolved_node (node defs : value) : option value :=
  match as_str (get node (lit "$ref")) with
  | Some path => name ← strip_prefix path (lit "#/$defs/"); get defs name
  | None => Some node
  end.
(** The object schema a property holds, through a [$ref] into [$defs]. *)
Definition object_schema (node defs : value) : option (list (text * value)) :=
  node ← resolved_node node defs;
  match node with Object m => if im_contains (lit "properties") m then Some m else None | _ => None end.
(** The object an [anyOf [object, null]] property holds when present. *)
Definition optional_object (node defs : value) : option (list (text * value)) :=
  match get node (lit "anyOf") with
  | Some (Array [first; second]) =>
      if is_null_branch_of second then object_schema first defs
      else if is_null_branch_of first then object_schema second defs
      else None
  | _ => None
  end.
Definition holds_object (node defs : value) : option (list (text * value)) :=
  match object_schema node defs with Some o => Some o | None => optional_object node defs end.
Definition optional (node defs : value) : bool := bool_decide (is_Some (optional_object node defs)).

Record FlatField := mkFlatField { alias : text; ff_path : list text; ff_schema : value }.

(** A leaf made nullable, under the descriptions it is reached by. *)
Definition nullable_leaf (leaf : list (text * value)) : bool :=
  match im_get (lit "anyOf") leaf with Some (Array branches) => existsb is_null_branch_of branches | _ => false end.
Definition wrapped_leaf (leaf : list (text * value)) (description : option text) : value :=
  let own := as_str (im_get (lit "description") leaf) in
  let leaf := swap_remove (lit "description") leaf in
  let wrapped := if nullable_leaf leaf then leaf else [(lit "anyOf", Array [Object leaf; null_schema])] in
  let t := join (lit " ") (omap id [description; own]) in
  Object (if is_empty t then wrapped else im_insert (lit "description") (Str t) wrapped).

(** The first of [base], [base__1], ... no property or field has. *)
Fixpoint free_alias (fuel : nat) (used : list text) (base : text) (suffix : nat) : option text :=
  let candidate := if (suffix =? 0)%nat then base else base ++ FLAT ++ show_Z (Z.of_nat suffix) in
  if bool_decide (candidate ∈ used) then match fuel with O => None | S fuel => free_alias fuel used base (S suffix) end
  else Some candidate.
Fixpoint with_aliases (used : list text) (fields : list (list text * value)) : option (list FlatField) :=
  match fields with
  | [] => Some []
  | (path, schema) :: fields =>
      alias ← free_alias (length used) used (join FLAT path) 0;
      rest ← with_aliases (alias :: used) fields;
      Some (mkFlatField alias path schema :: rest)
  end.

(** A property's flattened names in [required]. *)
Definition renamed_required (renamed : list (text * list text)) (map_ : list (text * value)) : list (text * value) :=
  match im_get (lit "required") map_ with
  | Some (Array required) =>
      im_insert (lit "required")
        (Array (concat (map (fun name => match t ← as_str (Some name); im_get t renamed with
                                         | Some leaves => map Str leaves
                                         | None => [name]
                                         end) required))) map_
  | _ => map_
  end.
(** The properties of an object schema, the optional ones by their leaves; the aliases each was given. *)
Fixpoint flat_properties (flat : value -> option value) (defs : value) (properties_ : bool) (mapping : list FlatField) (names : list (text * value))
    (done_ : list (text * value)) (renamed : list (text * list text)) : option (list (text * value) * list (text * list text)) :=
  match names with
  | [] => Some (done_, renamed)
  | (name, item) :: names =>
      if properties_ && optional item defs then
        let fields := base.filter (fun f => head (ff_path f) = Some name) mapping in
        flat_properties flat defs properties_ mapping names (im_extend done_ (map (fun f => (alias f, ff_schema f)) fields))
          (im_insert name (map alias fields) renamed)
      else
        item ← flat item;
        flat_properties flat defs properties_ mapping names (im_insert name item done_) renamed
  end.
Section Flattening.
Context (defs : value).
Context (flat : value -> option value) (inner_leaves : list text -> list (text * value) -> option text -> option (list (list text * value))).
(** The leaves of an object's properties; the first leaf takes the description. *)
Fixpoint property_leaves (prefix : list text) (fields : list (text * value)) (description : option text) : option (list (list text * value)) :=
  match fields with
  | [] => Some []
  | (field, schema) :: fields =>
      let path := prefix ++ [field] in
      match holds_object schema defs with
      | Some inner =>
          first ← inner_leaves path inner description;
          rest ← property_leaves prefix fields None;
          Some (first ++ rest)
      | None =>
          leaf ← flat schema;
          match leaf with
          | Object leaf => rest ← property_leaves prefix fields None; Some ((path, wrapped_leaf leaf description) :: rest)
          | _ => rest ← property_leaves prefix fields description; Some ((path, schema) :: rest)
          end
      end
  end.
Definition object_leaves (prefix : list text) (object : list (text * value)) (description : option text) : option (list (list text * value)) :=
  match im_get (lit "properties") object with
  | Some (Object fields) => property_leaves prefix fields description
  | _ => Some []
  end.
(** The leaves of every optional object among some properties. *)
Fixpoint optional_leaves (properties : list (text * value)) : option (list (list text * value)) :=
  match properties with
  | [] => Some []
  | (name, item) :: properties =>
      first ← match optional_object item defs with
              | Some object => inner_leaves [name] object (as_str (get item (lit "description")))
              | None => Some []
              end;
      rest ← optional_leaves properties;
      Some (first ++ rest)
  end.
Definition fields_of (properties : list (text * value)) : option (list FlatField) :=
  fields ← optional_leaves properties; with_aliases (im_keys properties) fields.
Fixpoint flat_entries (entries : list (text * value)) (done_ : list (text * value)) (renamed : list (text * list text))
  : option (list (text * value) * list (text * list text)) :=
  match entries with
  | [] => Some (done_, renamed)
  | (key, v) :: entries =>
      match v with
      | Object names =>
          if names_schemas key then
            mapping ← fields_of names;
            '(flat_, renamed) ← flat_properties flat defs (teqb key (lit "properties")) mapping names [] renamed;
            flat_entries entries (im_insert key (Object flat_) done_) renamed
          else s ← flat v; flat_entries entries (im_insert key s done_) renamed
      | _ => s ← flat v; flat_entries entries (im_insert key s done_) renamed
      end
  end.
Definition flat_node (node : value) : option value :=
  match node with
  | Array items => Array <$> mapM flat items
  | Object map_ => '(result, renamed) ← flat_entries map_ [] []; Some (Object (renamed_required renamed result))
  | other => Some other
  end.
End Flattening.

Fixpoint flatten (fuel : nat) (defs node : value) {struct fuel} : option value :=
  match fuel with
  | O => None
  | S fuel => flat_node defs (flatten fuel defs) (leaves fuel defs) node
  end
with leaves (fuel : nat) (defs : value) (prefix : list text) (object : list (text * value)) (description : option text) {struct fuel}
  : option (list (list text * value)) :=
  match fuel with
  | O => None
  | S fuel => object_leaves defs (flatten fuel defs) (leaves fuel defs) prefix object description
  end.
Definition flat_fields (fuel : nat) (properties : list (text * value)) (defs : value) : option (list FlatField) := fields_of defs (leaves fuel defs) properties.
Definition defs_of (schema : value) : value := default Null (get schema (lit "$defs")).
Definition flat_optional_objects (fuel : nat) (schema : value) : option value := flatten fuel (defs_of schema) schema.

(** ** A reply folded back *)
Fixpoint insert_flat_value (result : list (text * value)) (path : list text) (v : value) : list (text * value) :=
  match path with
  | [] => result
  | [head] => im_insert head v result
  | head :: tail =>
      match im_get head result with
      | None => im_insert head (Object (insert_flat_value [] tail v)) result
      | Some (Object fields) => im_insert head (Object (insert_flat_value fields tail v)) result
      | Some _ => result
      end
  end.
Definition expanded (mapping : list FlatField) (reply : list (text * value)) : list (text * value) :=
  fold_left (fun result kv => match find (fun f => teqb (alias f) kv.1) mapping with
                              | Some f => insert_flat_value result (ff_path f) kv.2
                              | None => im_insert kv.1 kv.2 result
                              end) reply [].

Fixpoint all_null (v : value) : bool :=
  match v with
  | Null => true
  | Object fields => forallb (fun kv => match kv with (_, v) => all_null v end) fields
  | _ => false
  end.
Definition allows_null (field : value) : bool :=
  is_null_branch_of field || match get field (lit "anyOf") with Some (Array branches) => existsb is_null_branch_of branches | _ => false end.
(** Whether [v] has every field its object schema requires, [null] only where that field allows it. *)
Definition complete (v node defs : value) : bool :=
  match holds_object node defs with
  | None => true
  | Some object =>
      let required := match im_get (lit "required") object with Some (Array names) => omap (fun n => as_str (Some n)) names | _ => [] end in
      let properties := default Null (im_get (lit "properties") object) in
      forallb (fun name => match get properties name with Some field => allows_null field | None => false end
                           || match get v name with None | Some Null => false | Some _ => true end) required
  end.
(** The schema of an array's items, through a [$ref] and an [anyOf [array, null]]. *)
Fixpoint items_schema (fuel : nat) (defs node : value) : option (option value) :=
  match fuel with
  | O => None
  | S fuel =>
      match resolved_node node defs with
      | None => Some None
      | Some node =>
          match get node (lit "items") with
          | Some items => Some (Some items)
          | None =>
              match get node (lit "anyOf") with
              | Some (Array branches) =>
                  (fix first_some (branches : list value) : option (option value) :=
                     match branches with
                     | [] => Some None
                     | b :: branches =>
                         found ← items_schema fuel defs b;
                         match found with Some items => Some (Some items) | None => first_some branches end
                     end) branches
              | _ => Some None
              end
          end
      end
  end.

Definition at_key (path key : text) : text := if is_empty path then key else path ++ lit "." ++ key.
Section Nesting.
Context (fuel : nat) (defs : value) (nest : value -> value -> text -> bool -> option (value * list text)).
Fixpoint nest_items (item : value) (path : text) (i : nat) (items : list value) : option (list value * list text) :=
  match items with
  | [] => Some ([], [])
  | v :: items =>
      '(v, dropped) ← nest v item (at_key path (show_Z (Z.of_nat i))) false;
      '(vs, more) ← nest_items item path (S i) items;
      Some (v :: vs, dropped ++ more)
  end.
(** An optional object comes back null when every leaf is, or when a field it requires is. *)
Definition settled (flattened : bool) (v field : value) (path : text) : value * list text :=
  if optional field defs || flattened && bool_decide (is_Some (object_schema field defs)) then
    if all_null v then (Null, []) else if complete v field defs then (v, []) else (Null, [path])
  else (v, []).
Fixpoint nest_fields (properties : value) (mapping : list FlatField) (in_flat_object : bool) (path : text) (fields : list (text * value))
    (done_ : list (text * value)) : option (list (text * value) * list text) :=
  match fields with
  | [] => Some (done_, [])
  | (key, v) :: fields =>
      let field := default Null (get properties key) in
      let flattened := in_flat_object || existsb (fun f => bool_decide (head (ff_path f) = Some key)) mapping in
      '(nested, dropped) ← nest v field (at_key path key) flattened;
      let '(nested, here) := settled flattened nested field (at_key path key) in
      '(result, more) ← nest_fields properties mapping in_flat_object path fields (im_insert key nested done_);
      Some (result, dropped ++ here ++ more)
  end.
Definition nest_value (v node : value) (path : text) (in_flat_object : bool) : option (value * list text) :=
  match v with
  | Array items =>
      item ← items_schema fuel defs node;
      '(vs, dropped) ← nest_items (default Null item) path 0 items;
      Some (Array vs, dropped)
  | Object map_ =>
      let properties := default Null (o ← holds_object node defs; im_get (lit "properties") o) in
      mapping ← match properties with Object names => flat_fields fuel names defs | _ => Some [] end;
      '(result, dropped) ← nest_fields properties mapping in_flat_object path (expanded mapping map_) [];
      Some (Object result, dropped)
  | other => Some (other, [])
  end.
End Nesting.
Fixpoint nest (fuel : nat) (defs v node : value) (path : text) (in_flat_object : bool) : option (value * list text) :=
  match fuel with
  | O => None
  | S fuel => nest_value fuel defs (nest fuel defs) v node path in_flat_object
  end.
(** The reply and the paths of the half-answered objects set to null. *)
Definition nest_flat_objects (fuel : nat) (schema v : value) : option (value * list text) := nest fuel (defs_of schema) v schema [] false.

(** * Properties *)
(** ** The strict form asks more *)
(** A value with no object in it is its own strict form. *)
Fixpoint plain (v : value) : bool := match v with Object _ => false | Array l => forallb plain l | _ => true end.
Definition PLAIN : list text := [lit "type"; lit "$ref"; lit "enum"; lit "const"; lit "required"] ++ BOUNDS.
(** What is required is among the properties. *)
Definition required_listed (m : list (text * value)) : bool :=
  match im_get (lit "required") m with
  | Some (Array names) =>
      match im_get (lit "properties") m with
      | Some (Object ps) => forallb (fun n => match n with Str n => bool_decide (n ∈ im_keys ps) | _ => true end) names
      | _ => is_empty names
      end
  | _ => true
  end.
(** A schema whose keys are told apart and whose keywords are of the usual shapes, at every depth. *)
Fixpoint tame (schema : value) : bool :=
  match schema with
  | Object m =>
      bool_decide (NoDup (im_keys m)) && required_listed m
      && forallb (fun kv => match kv with (k, v) =>
           if names_schemas k then
             match v with Object names => bool_decide (NoDup (im_keys names)) && forallb (fun nv => match nv with (_, item) => tame item end) names | _ => true end
           else if teqb k (lit "items") then tame v
           else if teqb k (lit "anyOf") then match v with Array l => forallb tame l | _ => true end
           else if bool_decide (k ∈ PLAIN) then plain v else true end) m
  | _ => true
  end.

Lemma all_ok_Forall2 {A E} (l : list (result A E)) xs : all_ok l = Ok xs -> Forall2 (fun r x => r = Ok x) l xs.
Proof.
  revert xs. induction l as [|r l IH]; intros xs; cbn [all_ok]; [intros [= <-]; constructor|]. destruct r as [x|]; [|done]. destruct (all_ok l) as [ys|]; [|done].
  intros [= <-]. constructor; [done|by apply IH].
Qed.
Lemma plain_strict v : plain v = true -> strict_schema v = Ok v.
Proof.
  revert v. fix IH 1. intros [| | | |l|]; cbn [plain strict_schema]; try done. intros Hl. enough (all_ok (map strict_schema l) = Ok l) as -> by done.
  revert l Hl. fix go 1. intros [|v l]; cbn [forallb map all_ok]; [done|]. intros [Hv Hl]%andb_true_iff. by rewrite (IH v Hv), (go l Hl).
Qed.

(** What an entry's value is written as. *)
Definition strict_value (key : text) (v : value) : result value FreeKeys :=
  match v with
  | Object names =>
      if names_schemas key then
        let? strict := all_ok (map (fun nv => match nv with (name, item) => let? s := strict_schema item in Ok (name, s) end) names) in
        Ok (Object (im_extend [] strict))
      else strict_schema v
  | other => strict_schema v
  end.
Definition entries_strict (m : list (text * value)) : list (text * value * result value FreeKeys) := map (fun kv => (kv.1, kv.2, strict_value kv.1 kv.2)) m.
Lemma strict_object m : strict_schema (Object m) = (let? strict := strict_entries (entries_strict m) [] in Ok (Object (requires_all m strict))).
Proof.
  cbn [strict_schema]. match goal with |- match strict_entries ?l _ with _ => _ end = _ => assert (l = entries_strict m) as -> end; [|done].
  apply map_ext. by intros [k []].
Qed.
Lemma strict_entries_get m : forall done_ r, NoDup (im_keys m) -> (forall k, k ∈ im_keys m -> k ∉ im_keys done_) -> strict_entries (entries_strict m) done_ = Ok r ->
  forall key, key <> lit "default" ->
    match im_get key m with Some v => exists s, strict_value key v = Ok s /\ im_get key r = Some s | None => im_get key r = im_get key done_ end.
Proof.
  induction m as [|[k v] m IH]; intros done_ r Hn Hf; cbn [entries_strict map strict_entries]; [by intros [= <-] key _|].
  unfold im_keys in Hn. cbn [map fst] in Hn. apply NoDup_cons in Hn as [Hk Hn]. fold (entries_strict m). cbn [fst snd].
  assert (forall k', k' ∈ im_keys m -> k' ∉ im_keys done_) as Hf' by (intros k' ?; apply Hf; by right).
  destruct (teqb k (lit "default")) eqn:Ed.
  { apply teqb_spec in Ed as ->. intros Hr key Hkey. rewrite get_there by done. by apply IH. }
  destruct (teqb k (lit "additionalProperties") && is_object v); [done|]. destruct (strict_value k v) as [s|] eqn:Es; [|done]. intros Hr key Hkey.
  specialize (IH (im_insert k s done_) r Hn). rewrite Hr in IH. assert (forall k', k' ∈ im_keys m -> k' ∉ im_keys (im_insert k s done_)) as Hf2.
  { intros k' Hin [->|Hd]%im_keys_insert; [done|by apply (Hf' k')]. }
  specialize (IH Hf2 eq_refl key Hkey). destruct (decide (key = k)) as [->|Hne].
  - rewrite get_here. exists s. split; [done|]. destruct (im_get k m) as [v'|] eqn:Eg; [by apply im_get_of_keys in Eg|]. by rewrite IH, im_get_insert_eq.
  - rewrite get_there by done. destruct (im_get key m); [done|]. by rewrite IH, im_get_insert_ne.
Qed.
(** A tame object's strict form, keyword by keyword. *)
Lemma strict_keywords m s' : NoDup (im_keys m) -> strict_schema (Object m) = Ok s' -> exists m', s' = Object m' /\
  (forall key, key <> lit "default" -> key <> lit "required" ->
     match im_get key m with Some v => exists s, strict_value key v = Ok s /\ im_get key m' = Some s | None => im_get key m' = None end) /\
  (forall ps, im_get (lit "properties") m = Some (Object ps) -> im_get (lit "required") m' = Some (Array (map Str (im_keys ps)))).
Proof.
  intros Hn. rewrite strict_object. destruct (strict_entries (entries_strict m) []) as [r|] eqn:Er; [|done]. intros [= <-].
  pose proof (strict_entries_get m [] r Hn ltac:(by intros k _ ?%not_elem_of_nil) Er) as Hg. eexists. split; [done|]. split.
  - intros key H1 H2. specialize (Hg key H1). assert (im_get key (requires_all m r) = im_get key r) as ->; [|done].
    unfold requires_all. destruct (im_get (lit "properties") m) as [[]|]; try done. by rewrite im_get_insert_ne.
  - intros ps Hps. unfold requires_all. rewrite Hps. apply im_get_insert_eq.
Qed.

(** A map of named schemas in its strict form: the same names, each schema strict. *)
Definition strict_entry (nv nv' : text * value) : Prop := nv'.1 = nv.1 /\ strict_schema nv.2 = Ok nv'.2.
Lemma strict_names key names s : names_schemas key = true -> NoDup (im_keys names) -> strict_value key (Object names) = Ok s ->
  exists names', s = Object names' /\ Forall2 strict_entry names names'.
Proof.
  intros Hk Hn. cbn [strict_value]. rewrite Hk. destruct (all_ok _) as [l|] eqn:El; [|done]. intros [= <-].
  assert (Forall2 strict_entry names l) as Hl.
  { apply all_ok_Forall2 in El. clear -El. revert l El. induction names as [|[n v] names IH]; cbn [map]; intros l El; inversion_clear El; constructor; [|by apply IH].
    destruct (strict_schema v) as [x|] eqn:E; [|done]. by simplify_eq. }
  exists l. split; [|done]. f_equal. rewrite im_extend_fresh; [done| |by intros ?? ?%not_elem_of_nil].
  assert (map fst l = im_keys names) as ->; [|done]. clear -Hl. induction Hl as [|nv nv' ? ? [Hx _]]; [done|]. cbn [map im_keys]. by f_equal.
Qed.
Lemma entries_keys names names' : Forall2 strict_entry names names' -> im_keys names' = im_keys names.
Proof. unfold im_keys. induction 1 as [|nv nv' ? ? [Hx _]]; [done|]. cbn [map]. by f_equal. Qed.
Lemma entries_elem names names' e' : Forall2 strict_entry names names' -> e' ∈ names' -> exists e, e ∈ names /\ strict_entry e e'.
Proof.
  intros Hf Hin. apply list_elem_of_lookup in Hin as [i Hi]. destruct (Forall2_lookup_r _ _ _ _ _ Hf Hi) as (e & He & Hs). exists e. split; [|done].
  by apply list_elem_of_lookup_2 in He.
Qed.
Lemma entries_get names names' k s' : Forall2 strict_entry names names' -> im_get k names' = Some s' ->
  exists s, im_get k names = Some s /\ (k, s) ∈ names /\ strict_schema s = Ok s'.
Proof.
  induction 1 as [|[k1 v1] [k2 v2] l l' [Hk Hv] Hf IH]; [done|]. cbn [fst snd] in *. subst k2. destruct (decide (k = k1)) as [->|Hne].
  - rewrite !get_here. intros [= <-]. exists v1. split_and!; [done|by left|done].
  - rewrite !get_there by done. intros Hs. destruct (IH Hs) as (s & ? & ? & ?). exists s. split_and!; [done|by right|done].
Qed.

(** What [tame] says of a keyword. *)
Lemma tame_object m : tame (Object m) = true -> NoDup (im_keys m) /\ required_listed m = true /\
  forall k v, im_get k m = Some v ->
    (if names_schemas k then
       match v with Object names => bool_decide (NoDup (im_keys names)) && forallb (fun nv => match nv with (_, item) => tame item end) names | _ => true end
     else if teqb k (lit "items") then tame v
     else if teqb k (lit "anyOf") then match v with Array l => forallb tame l | _ => true end
     else if bool_decide (k ∈ PLAIN) then plain v else true) = true.
Proof.
  cbn [tame]. rewrite !andb_true_iff. intros [[Hn Hr] Hf]. split_and!; [by apply bool_decide_eq_true in Hn|done|]. intros k v Hg.
  rewrite forallb_forall in Hf. apply (Hf (k, v)). apply list_elem_of_In. by apply im_get_elem.
Qed.

(** *** Keyword by keyword *)
Definition kept_keyword (m m' : list (text * value)) : Prop := forall key, key <> lit "default" -> key <> lit "required" ->
  match im_get key m with Some v => exists s, strict_value key v = Ok s /\ im_get key m' = Some s | None => im_get key m' = None end.
Lemma keyword_forward m m' key v : kept_keyword m m' -> key <> lit "default" -> key <> lit "required" -> im_get key m = Some v ->
  exists s, strict_value key v = Ok s /\ im_get key m' = Some s.
Proof. intros Hk Hd Hr Hg. specialize (Hk key Hd Hr). by rewrite Hg in Hk. Qed.
Lemma keyword_back m m' key s : kept_keyword m m' -> key <> lit "default" -> key <> lit "required" -> im_get key m' = Some s ->
  exists v, im_get key m = Some v /\ strict_value key v = Ok s.
Proof. intros Hk Hd Hr Hg. specialize (Hk key Hd Hr). destruct (im_get key m) as [v|]; [|congruence]. destruct Hk as (x & Hx & Hx'). exists v. split; [done|congruence]. Qed.

Lemma strict_value_schema key v : names_schemas key = false -> strict_value key v = strict_schema v.
Proof. intros Hk. destruct v; try done. cbn [strict_value]. by rewrite Hk. Qed.
Definition ordinary (key : text) : bool := negb (names_schemas key) && negb (teqb key (lit "items")) && negb (teqb key (lit "anyOf")) && negb (teqb key (lit "default")).
Lemma plain_ordinary key : key ∈ PLAIN -> ordinary key = true.
Proof.
  assert (forallb ordinary PLAIN = true) as Ho by by vm_compute. rewrite forallb_forall in Ho. intros Hk. apply Ho. by apply list_elem_of_In.
Qed.
Lemma plain_kept m m' key : tame (Object m) = true -> kept_keyword m m' -> key ∈ PLAIN -> key <> lit "required" -> im_get key m' = im_get key m.
Proof.
  intros (_ & _ & Ht)%tame_object Hm Hk Hr. pose proof (plain_ordinary key Hk) as Ho. unfold ordinary in Ho. rewrite !andb_true_iff, !negb_true_iff in Ho.
  destruct Ho as [[[Hn Hi] Ha] Hd]. specialize (Hm key ltac:(by intros ->) Hr). destruct (im_get key m) as [v|] eqn:Eg; [|done]. destruct Hm as (s & Hs & ->).
  specialize (Ht key v Eg). rewrite Hn, Hi, Ha, bool_decide_eq_true_2 in Ht by done. f_equal. apply plain_strict in Ht.
  rewrite strict_value_schema in Hs by done. congruence.
Qed.
Lemma strict_array v l' : strict_schema v = Ok (Array l') -> exists l, v = Array l /\ Forall2 (fun v v' => strict_schema v = Ok v') l l'.
Proof.
  destruct v as [| | | |l|m]; try done; [|rewrite strict_object; by destruct (strict_entries _ _)]. cbn [strict_schema].
  destruct (all_ok (map strict_schema l)) as [xs|] eqn:E; [|done]. intros [= <-]. exists l. split; [done|]. by apply all_ok_Forall2, Forall2_fmap_l in E.
Qed.
Lemma strict_false key v : names_schemas key = false -> strict_value key v = Ok (Bool false) -> v = Bool false.
Proof.
  intros Hk. rewrite strict_value_schema by done. destruct v as [|b| | |l|m]; try (cbn [strict_schema]; congruence). { cbn [strict_schema]. by destruct (all_ok _). }
  rewrite strict_object. by destruct (strict_entries _ _).
Qed.
Lemma branches_back m m' l' : tame (Object m) = true -> kept_keyword m m' -> im_get (lit "anyOf") m' = Some (Array l') ->
  exists l, im_get (lit "anyOf") m = Some (Array l) /\ Forall2 (fun v v' => strict_schema v = Ok v') l l' /\ forall v, v ∈ l -> tame v = true.
Proof.
  intros (_ & _ & Ht)%tame_object Hm Hg. destruct (keyword_back m m' (lit "anyOf") _ Hm ltac:(done) ltac:(done) Hg) as (v & Hv & Hs).
  rewrite strict_value_schema in Hs by done. apply strict_array in Hs as (l & -> & Hf). exists l. split_and!; [done..|].
  intros v Hin. specialize (Ht _ _ Hv). change (forallb tame l = true) in Ht. rewrite forallb_forall in Ht. apply Ht. by apply list_elem_of_In.
Qed.
Lemma item_forward m m' s : tame (Object m) = true -> kept_keyword m m' -> im_get (lit "items") m = Some s ->
  tame s = true /\ exists s', im_get (lit "items") m' = Some s' /\ strict_schema s = Ok s'.
Proof.
  intros (_ & _ & Ht)%tame_object Hm Hg. split; [apply (Ht _ _ Hg)|]. destruct (keyword_forward m m' (lit "items") _ Hm ltac:(done) ltac:(done) Hg) as (s' & Hs & Hg').
  exists s'. split; [done|by rewrite strict_value_schema in Hs].
Qed.
Lemma properties_forward m m' ps : tame (Object m) = true -> kept_keyword m m' -> im_get (lit "properties") m = Some (Object ps) ->
  exists ps', im_get (lit "properties") m' = Some (Object ps') /\ Forall2 strict_entry ps ps' /\ forall k s, (k, s) ∈ ps -> tame s = true.
Proof.
  intros (_ & _ & Ht)%tame_object Hm Hps. specialize (Ht _ _ Hps). apply andb_true_iff in Ht as [Hnd Hts]. apply bool_decide_eq_true in Hnd.
  destruct (keyword_forward m m' (lit "properties") _ Hm ltac:(done) ltac:(done) Hps) as (x & Hx & Hx').
  destruct (strict_names (lit "properties") ps x eq_refl Hnd Hx) as (ps' & -> & Hf). exists ps'. split_and!; [done..|]. intros k s Hin.
  rewrite forallb_forall in Hts. apply (Hts (k, s)). by apply list_elem_of_In.
Qed.
Lemma properties_back m m' ps' : tame (Object m) = true -> kept_keyword m m' -> im_get (lit "properties") m' = Some (Object ps') ->
  exists ps, im_get (lit "properties") m = Some (Object ps) /\ im_keys ps' = im_keys ps.
Proof.
  intros Ht Hm Hps. destruct (keyword_back m m' (lit "properties") _ Hm ltac:(done) ltac:(done) Hps) as (v & Hv & Hs).
  destruct v as [| | | |l|ps]; try done. { cbn [strict_value strict_schema] in Hs. by destruct (all_ok _). }
  exists ps. split; [done|]. destruct (properties_forward m m' ps Ht Hm Hv) as (ps2 & Hg & Hf & _). rewrite Hps in Hg. simplify_eq. by apply entries_keys.
Qed.
(** Everything required is a property, which the strict form requires. *)
Lemma required_strict m names name : required_listed m = true -> im_get (lit "required") m = Some (Array names) -> Str name ∈ names ->
  exists ps, im_get (lit "properties") m = Some (Object ps) /\ Str name ∈ map Str (im_keys ps).
Proof.
  unfold required_listed. intros Hl Hr Hin. rewrite Hr in Hl. destruct (im_get (lit "properties") m) as [v|]; [|by destruct names; [apply not_elem_of_nil in Hin|]].
  destruct v as [| | | | |ps]; try (by destruct names; [apply not_elem_of_nil in Hin|]). exists ps. split; [done|]. rewrite forallb_forall in Hl.
  apply list_elem_of_In in Hin. specialize (Hl _ Hin). cbn in Hl. apply bool_decide_eq_true in Hl. by apply list_elem_of_fmap_2.
Qed.
Lemma plain_by key : bool_decide (key ∈ PLAIN) = true -> key ∈ PLAIN.
Proof. apply bool_decide_eq_true. Qed.
Lemma anywhere_by key : bool_decide (key ∈ ANYWHERE) = true -> key ∈ ANYWHERE.
Proof. apply bool_decide_eq_true. Qed.

Section Stricter.
Context (ds ds' : list (text * value)).
Hypothesis strict_definitions : Forall2 strict_entry ds ds'.
Hypothesis tame_definitions : forall name s, (name, s) ∈ ds -> tame s = true.

(** What satisfies the strict form of a schema satisfies the schema. *)
Lemma strict_satisfied : forall s' w, satisfies ds' s' w -> forall s, tame s = true -> strict_schema s = Ok s' -> satisfies ds s w.
Proof.
  fix IH 3. intros s' w H. destruct H as [m' w Hkeys Href Hany Htype Henum Hconst Hbounds Hitems Hprops Hreq Hadd].
  intros s Ht Hs. destruct s as [| | | |l|m]; try done. { cbn [strict_schema] in Hs. by destruct (all_ok (map strict_schema l)). }
  pose proof (tame_object m Ht) as (Hn & Hlisted & _). destruct (strict_keywords m _ Hn Hs) as (m0 & [= <-] & Hkept & Hrequired).
  fold (kept_keyword m m') in Hkept. pose proof (fun key => plain_kept m m' key Ht Hkept) as Hplain. constructor.
  - intros key Hk. destruct (decide (key = lit "default")) as [->|Hd]; [left; apply anywhere_by; by vm_compute|].
    destruct (decide (key = lit "required")) as [->|Hr]; [left; apply anywhere_by; by vm_compute|].
    apply Hkeys. apply im_get_some_keys in Hk as [v Hv]. destruct (keyword_forward m m' key v Hkept Hd Hr Hv) as (x & _ & Hx). by apply im_get_of_keys in Hx.
  - intros ref Hr. rewrite <- Hplain in Hr by (done || (apply plain_by; by vm_compute)).
    destruct (Href ref Hr) as (name & d' & Hname & Hd' & Hsat). destruct (entries_get ds ds' name d' strict_definitions Hd') as (d & Hd & Hin & Hds).
    exists name, d. split_and!; [done..|]. apply (IH d' w Hsat d); [by eapply tame_definitions|done].
  - intros branches Hb. destruct (keyword_forward m m' (lit "anyOf") branches Hkept ltac:(done) ltac:(done) Hb) as (x & _ & Hx').
    destruct (Hany x Hx') as (l' & b' & -> & Hin & Hsat). destruct (branches_back m m' l' Ht Hkept Hx') as (l & Hl & Hf & Hts). simplify_eq.
    apply list_elem_of_lookup in Hin as [i Hi]. destruct (Forall2_lookup_r _ _ _ _ _ Hf Hi) as (b & Hb' & Hbs). apply list_elem_of_lookup_2 in Hb'.
    exists l, b. split_and!; [done..|]. apply (IH b' w Hsat b); [by apply Hts|done].
  - intros named Hk. rewrite <- Hplain in Hk by (done || (apply plain_by; by vm_compute)). by apply Htype.
  - intros listed Hk. rewrite <- Hplain in Hk by (done || (apply plain_by; by vm_compute)). by apply Henum.
  - intros constant Hk. rewrite <- Hplain in Hk by (done || (apply plain_by; by vm_compute)). by apply Hconst.
  - intros key bound Hk Hg. rewrite <- Hplain in Hg; [by apply Hbounds|by apply elem_of_app; right|]. intros ->. revert Hk. apply (bool_decide_eq_false_1 (lit "required" ∈ BOUNDS)). by vm_compute.
  - intros s l v Hg -> Hv. destruct (item_forward m m' s Ht Hkept Hg) as (Hts & s1 & Hg' & Hs1). apply (IH s1 v (Hitems s1 l v Hg' eq_refl Hv) s Hts Hs1).
  - intros ps fields k v Hg -> Hkv Hk. destruct (properties_forward m m' ps Ht Hkept Hg) as (ps' & Hg' & Hf & Hts).
    rewrite <- (entries_keys ps ps' Hf) in Hk. destruct (Hprops ps' fields k v Hg' eq_refl Hkv Hk) as (s1 & Hin & Hsat).
    destruct (entries_elem ps ps' _ Hf Hin) as ([k0 s0] & Hin0 & Hk0 & Hs0). cbn [fst snd] in *. subst k0. exists s0. split; [done|].
    apply (IH s1 v Hsat s0); [by eapply Hts|done].
  - intros names fields name Hr -> Hin. destruct (required_strict m names name Hlisted Hr Hin) as (ps & Hps & Hin'). by apply (Hreq _ _ _ (Hrequired ps Hps) eq_refl).
  - intros fields k Hf -> Hk. destruct (keyword_forward m m' (lit "additionalProperties") _ Hkept ltac:(done) ltac:(done) Hf) as (x & Hx & Hx').
    cbn [strict_value strict_schema] in Hx. simplify_eq. destruct (Hadd fields k Hx' eq_refl Hk) as (ps' & Hps' & Hin).
    destruct (properties_back m m' ps' Ht Hkept Hps') as (ps & Hps & Heq). exists ps. split; [done|by rewrite <- Heq].
Qed.
End Stricter.

Lemma strict_document doc doc' ds : tame doc = true -> strict_schema doc = Ok doc' -> definitions_of doc = Ok ds ->
  exists ds', definitions_of doc' = Ok ds' /\ Forall2 strict_entry ds ds' /\ forall name s, (name, s) ∈ ds -> tame s = true.
Proof.
  intros Ht Hs Hd. assert (forall name s, (name, s) ∈ @nil (text * value) -> tame s = true) as Hnone by (by intros ?? ?%not_elem_of_nil).
  destruct doc as [| | | |l|m]; cbn [definitions_of] in Hd; try (cbn [strict_schema] in Hs; simplify_eq; by exists []).
  { cbn [strict_schema] in Hs. destruct (all_ok _); simplify_eq. by exists []. }
  pose proof (tame_object m Ht) as (Hn & _ & Hkw). destruct (strict_keywords m _ Hn Hs) as (m' & -> & Hkept & _). fold (kept_keyword m m') in Hkept.
  destruct (im_get (lit "$defs") m) as [v|] eqn:Ed.
  2: { simplify_eq. exists []. cbn [definitions_of]. pose proof (Hkept (lit "$defs") ltac:(done) ltac:(done)) as Hg. rewrite Ed in Hg. by rewrite Hg. }
  destruct v as [| | | | |names]; try done. simplify_eq. specialize (Hkw _ _ Ed). apply andb_true_iff in Hkw as [Hnd Hts]. apply bool_decide_eq_true in Hnd.
  destruct (keyword_forward m m' (lit "$defs") _ Hkept ltac:(done) ltac:(done) Ed) as (x & Hx & Hx').
  destruct (strict_names (lit "$defs") ds x eq_refl Hnd Hx) as (ds' & -> & Hf). exists ds'. cbn [definitions_of]. rewrite Hx'. split_and!; [done..|].
  intros name s Hin. rewrite forallb_forall in Hts. apply (Hts (name, s)). by apply list_elem_of_In.
Qed.
(** C22: the strict form of a schema only asks more: whatever satisfies it satisfies the schema itself, at any depth and through every reference,
    and an object that satisfies it has every property the schema lists.  For a [tame] schema, as the program writes them: no key twice,
    keywords of their usual shapes, and the required names among the properties, at every depth. *)
Theorem strict_schema_is_stricter doc doc' ds : tame doc = true -> strict_schema doc = Ok doc' -> definitions_of doc = Ok ds ->
  exists ds', definitions_of doc' = Ok ds' /\ forall w, satisfies ds' doc' w ->
    satisfies ds doc w /\
    forall ps fields k, get doc (lit "properties") = Some (Object ps) -> w = Object fields -> k ∈ im_keys ps -> k ∈ im_keys fields.
Proof.
  intros Ht Hs Hd. destruct (strict_document doc doc' ds Ht Hs Hd) as (ds' & Hd' & Hf & Hts). exists ds'. split; [done|]. intros w Hw.
  split; [by eapply strict_satisfied|]. intros ps fields k Hps -> Hk. destruct doc as [| | | | |m]; try done.
  destruct (tame_object m Ht) as (Hn & _). destruct (strict_keywords m _ Hn Hs) as (m' & -> & _ & Hrequired).
  inversion Hw as [? ? _ _ _ _ _ _ _ _ _ Hreq _]; subst. apply (Hreq _ _ _ (Hrequired ps Hps) eq_refl). by apply list_elem_of_fmap_2.
Qed.

#[local] Existing Instance exact_format.
Definition order_doc : value := Eval vm_compute in output_json_schema (model_of order_schema).
Definition order_strict : value := Eval vm_compute in match strict_schema order_doc with Ok doc => doc | Err _ => Null end.
Definition order_definitions : list (text * value) := [(lit "line", default Null (get (defs_of order_doc) (lit "line")))].
(** An order's schema as the provider is sent it: the two properties with a default are required. *)
Example order_strict_shown : dumps order_strict = quoted
  "{'$defs': {'line': {'additionalProperties': false, 'properties': {'sku': {'title': 'Sku', 'type': 'string'}, 'quantity': {'title': 'Quantity', 'type': 'integer'}}, 'required': ['sku', 'quantity'], 'title': 'line', 'type': 'object'}}, 'properties': {'id': {'title': 'Id', 'type': 'string'}, 'lines': {'items': {'$ref': '#/$defs/line'}, 'title': 'Lines', 'type': 'array'}, 'class': {'enum': ['gold', 'blue'], 'title': 'Class', 'type': 'string'}, 'spare': {'anyOf': [{'$ref': '#/$defs/line'}, {'type': 'null'}]}}, 'required': ['id', 'lines', 'class', 'spare'], 'title': 'Output', 'type': 'object'}".
Proof. by vm_compute. Qed.
Example free_keys_refused : strict_schema (typed_schema "object" [("additionalProperties"%string, typed_schema "string" [])]) = Err mkFreeKeys.
Proof. by vm_compute. Qed.
Theorem strict_schema_is_stricter_witness :
  exists ds', definitions_of order_strict = Ok ds' /\ forall w, satisfies ds' order_strict w ->
    satisfies order_definitions order_doc w /\
    forall ps fields k, get order_doc (lit "properties") = Some (Object ps) -> w = Object fields -> k ∈ im_keys ps -> k ∈ im_keys fields.
Proof. apply (strict_schema_is_stricter order_doc order_strict); by vm_compute. Defined.

(** ** Every flat answer lands at its path *)
Definition candidate (base : text) (suffix : nat) : text := if (suffix =? 0)%nat then base else base ++ FLAT ++ show_Z (Z.of_nat suffix).
Lemma candidate_inj base i j : candidate base i = candidate base j -> i = j.
Proof.
  unfold candidate. destruct (i =? 0)%nat eqn:Ei, (j =? 0)%nat eqn:Ej; rewrite ?Nat.eqb_eq, ?Nat.eqb_neq in *; [lia| | |].
  - intros H. apply (f_equal length) in H. rewrite !length_app in H. cbn in H. lia.
  - intros H. apply (f_equal length) in H. rewrite !length_app in H. cbn in H. lia.
  - intros H. by apply app_inv_head, app_inv_head, show_index_inj in H.
Qed.
Lemma free_alias_spec fuel : forall used base suffix,
  match free_alias fuel used base suffix with
  | Some alias => alias ∉ used /\ exists i, alias = candidate base i
  | None => forall i, (suffix <= i <= suffix + fuel)%nat -> candidate base i ∈ used
  end.
Proof.
  induction fuel as [|fuel IH]; intros used base suffix; cbn [free_alias]; fold (candidate base suffix).
  - case_bool_decide as Hd; [|by split; [|exists suffix]]. intros i Hi. by replace i with suffix by lia.
  - case_bool_decide as Hd; [|by split; [|exists suffix]]. specialize (IH used base (S suffix)). destruct (free_alias fuel used base (S suffix)); [done|].
    intros i Hi. destruct (decide (i = suffix)) as [->|]; [done|]. apply IH. lia.
Qed.
Lemma free_alias_ends used base : exists alias, free_alias (length used) used base 0 = Some alias /\ alias ∉ used.
Proof.
  pose proof (free_alias_spec (length used) used base 0) as Hs. destruct (free_alias _ used base 0) as [alias|]; [by exists alias; destruct Hs|]. exfalso.
  assert (length (map (candidate base) (seq 0 (S (length used)))) <= length used)%nat as Hl; [|rewrite length_map, length_seq in Hl; lia].
  apply submseteq_length, NoDup_submseteq.
  - apply NoDup_fmap_2_strong; [|apply NoDup_seq]. intros i j _ _. apply candidate_inj.
  - intros x (i & -> & Hi%elem_of_seq)%list_elem_of_fmap. apply Hs. lia.
Qed.
(** The loop over the suffixes ends; every alias is new. *)
Lemma with_aliases_spec fields : forall used, exists fs, with_aliases used fields = Some fs /\ map (fun f => (ff_path f, ff_schema f)) fs = fields /\
  NoDup (map alias fs) /\ forall f, f ∈ fs -> alias f ∉ used.
Proof.
  induction fields as [|[path schema] fields IH]; intros used; cbn [with_aliases].
  { exists []. split_and!; [done|done|constructor|by intros ? ?%not_elem_of_nil]. }
  destruct (free_alias_ends used (join FLAT path)) as (a & -> & Ha). cbn. destruct (IH (a :: used)) as (fs & -> & Hm & Hn & Hf). cbn.
  eexists. split_and!; [done|cbn [map]; by rewrite Hm| |].
  - cbn [map]. constructor; [|done]. intros (f & Hf1 & Hf2)%list_elem_of_fmap. apply (Hf f Hf2). rewrite <- Hf1. by left.
  - intros f [->|Hin]%elem_of_cons; [done|]. intros Hu. apply (Hf f Hin). by right.
Qed.

(** Maps with no key twice, at every depth: what the parser builds. *)
Fixpoint unique_keys (v : value) : bool :=
  match v with
  | Array l => forallb unique_keys l
  | Object m => bool_decide (NoDup (im_keys m)) && forallb (fun kv => match kv with (_, v) => unique_keys v end) m
  | _ => true
  end.
Lemma unique_object m : unique_keys (Object m) = true <-> NoDup (im_keys m) /\ forall k v, (k, v) ∈ m -> unique_keys v = true.
Proof.
  cbn [unique_keys]. rewrite andb_true_iff, bool_decide_eq_true, forallb_forall. split; intros [Hn Hm]; (split; [done|]).
  - intros k v Hin. apply (Hm (k, v)). by apply list_elem_of_In.
  - intros [k v] Hin%list_elem_of_In. by eapply Hm.
Qed.
Lemma unique_get v key w : unique_keys v = true -> get v key = Some w -> unique_keys w = true.
Proof. destruct v as [| | | | |m]; try done. intros [_ Hm]%unique_object Hg. cbn [get] in Hg. apply im_get_elem in Hg. by eapply Hm. Qed.

Section Landing.
Context (defs : value).
Hypothesis unique_defs : unique_keys defs = true.

Lemma resolved_unique node n : unique_keys node = true -> resolved_node node defs = Some n -> unique_keys n = true.
Proof.
  unfold resolved_node. intros Hu. destruct (as_str _) as [path|]; [|by intros [= <-]]. destruct (strip_prefix path (lit "#/$defs/")) as [name|]; cbn; [|done].
  by apply unique_get.
Qed.
Lemma object_schema_unique node o : unique_keys node = true -> object_schema node defs = Some o -> unique_keys (Object o) = true.
Proof.
  unfold object_schema. intros Hu. destruct (resolved_node node defs) as [n|] eqn:En; cbn; [|done]. apply resolved_unique in En; [|done].
  destruct n as [| | | | |m]; try done. destruct (im_contains _ m); [|done]. by intros [= <-].
Qed.
Lemma optional_object_unique node o : unique_keys node = true -> optional_object node defs = Some o -> unique_keys (Object o) = true.
Proof.
  unfold optional_object. intros Hu. destruct (get node (lit "anyOf")) as [b|] eqn:Eb; [|done]. apply unique_get in Eb; [|done].
  destruct b as [| | | |[|x [|y [|]]]|]; try done. cbn [unique_keys forallb] in Eb. rewrite !andb_true_iff in Eb. destruct Eb as (Hx & Hy & _).
  destruct (is_null_branch_of y); [by apply object_schema_unique|]. destruct (is_null_branch_of x); [by apply object_schema_unique|done].
Qed.
Lemma holds_object_unique node o : unique_keys node = true -> holds_object node defs = Some o -> unique_keys (Object o) = true.
Proof.
  unfold holds_object. intros Hu. destruct (object_schema node defs) eqn:E; [|by apply optional_object_unique]. intros [= <-]. by eapply object_schema_unique.
Qed.

(** Paths neither of which goes through the other. *)
Definition apart (p q : list text) : Prop := ~ p `prefix_of` q /\ ~ q `prefix_of` p.
Definition all_apart (paths : list (list text)) : Prop := forall i j p q, paths !! i = Some p -> paths !! j = Some q -> i <> j -> apart p q.
Lemma apart_sym p q : apart p q -> apart q p.
Proof. by intros [? ?]. Qed.
Lemma apart_at prefix k k' rest rest' : k <> k' -> apart (prefix ++ k :: rest) (prefix ++ k' :: rest').
Proof. intros Hne. split; intros Hp%prefix_app_inv; by apply prefix_cons_inv_1 in Hp. Qed.
Lemma all_apart_app ps qs : all_apart ps -> all_apart qs -> (forall p q, p ∈ ps -> q ∈ qs -> apart p q) -> all_apart (ps ++ qs).
Proof.
  intros Hp Hq Hpq i j p q Hi Hj Hne. apply lookup_app_Some in Hi as [Hi|[Hli Hi]], Hj as [Hj|[Hlj Hj]].
  - by eapply Hp.
  - apply Hpq; by eapply list_elem_of_lookup_2.
  - apply apart_sym, Hpq; by eapply list_elem_of_lookup_2.
  - eapply Hq; [done..|]. lia.
Qed.
(** Each path goes on from [prefix] with one of [keys]. *)
Definition beyond (prefix keys : list text) (paths : list (list text)) : Prop := forall p, p ∈ paths -> exists k rest, k ∈ keys /\ p = prefix ++ k :: rest.
Lemma beyond_apart prefix k keys ps qs : k ∉ keys -> beyond prefix [k] ps -> beyond prefix keys qs -> forall p q, p ∈ ps -> q ∈ qs -> apart p q.
Proof.
  intros Hk Hp Hq p q Hip Hiq. destruct (Hp p Hip) as (k1 & r1 & ->%list_elem_of_singleton & ->), (Hq q Hiq) as (k2 & r2 & Hk2 & ->). apply apart_at. by intros ->.
Qed.
Lemma beyond_app prefix k keys ps qs : beyond prefix [k] ps -> beyond prefix keys qs -> beyond prefix (k :: keys) (ps ++ qs).
Proof.
  intros Hp Hq p [Hin|Hin]%elem_of_app.
  - destruct (Hp p Hin) as (k1 & r & ->%list_elem_of_singleton & ->). exists k, r. split; [by left|done].
  - destruct (Hq p Hin) as (k1 & r & Hk & ->). exists k1, r. split; [by right|done].
Qed.
Lemma beyond_inner prefix field keys paths : beyond (prefix ++ [field]) keys paths -> beyond prefix [field] paths.
Proof. intros Hb p Hin. destruct (Hb p Hin) as (k & r & _ & ->). exists field, (k :: r). split; [by left|by rewrite <- app_assoc]. Qed.
Lemma one_apart prefix field : all_apart [prefix ++ [field]] /\ beyond prefix [field] [prefix ++ [field]].
Proof.
  split; [intros [|i] [|j] p q; by cbn|]. intros p ->%list_elem_of_singleton. exists field, []. split; [by left|done].
Qed.

Definition spread (prefix keys : list text) (fields : list (list text * value)) : Prop := all_apart (map fst fields) /\ beyond prefix keys (map fst fields).
Lemma spread_app prefix k keys l l' : k ∉ keys -> spread prefix [k] l -> spread prefix keys l' -> spread prefix (k :: keys) (l ++ l').
Proof.
  intros Hk [Ha Hb] [Ha' Hb']. unfold spread. rewrite map_app. split; [apply all_apart_app; [done..|by eapply beyond_apart]|by apply beyond_app].
Qed.
Lemma spread_nil prefix : spread prefix [] [].
Proof. split; [by intros ? ? ? ?|by intros ? ?%not_elem_of_nil]. Qed.
Lemma property_leaves_spread flat inner prefix fields : forall description l,
  (forall path o d l, unique_keys (Object o) = true -> inner path o d = Some l -> exists keys, spread path keys l) ->
  unique_keys (Object fields) = true -> property_leaves defs flat inner prefix fields description = Some l -> spread prefix (im_keys fields) l.
Proof.
  intros description l Hinner. revert description l. induction fields as [|[field schema] fields IH]; intros description l Hu; cbn [property_leaves].
  { intros [= <-]. apply spread_nil. }
  apply unique_object in Hu as [Hn Hu]. cbn [im_keys map fst] in *. fold (im_keys fields) in *. apply NoDup_cons in Hn as [Hk Hn].
  assert (unique_keys (Object fields) = true) as Hf by (apply unique_object; split; [done|intros k v Hin; eapply Hu; by right]).
  assert (forall schema, spread prefix [field] [(prefix ++ [field], schema)]) as Hone by (intros s; apply (one_apart prefix field)).
  destruct (holds_object schema defs) as [o|] eqn:Eo.
  - destruct (inner _ o description) as [first|] eqn:Ei; cbn; [|done]. destruct (property_leaves defs flat inner prefix fields None) as [rest|] eqn:Er; cbn; [|done].
    intros [= <-]. apply spread_app; [done| |by eapply IH]. apply Hinner in Ei as (keys & Ha & Hb); [|eapply holds_object_unique; [|done]; eapply Hu; by left].
    split; [done|by eapply beyond_inner].
  - destruct (flat schema) as [leaf|]; cbn; [|done].
    destruct leaf; (destruct (property_leaves defs flat inner prefix fields _) as [rest|] eqn:Er; cbn; [|done]); intros [= <-];
      apply (spread_app prefix field (im_keys fields) [_] rest); try done; by eapply IH.
Qed.
Lemma leaves_spread fuel : forall path o d l, unique_keys (Object o) = true -> leaves fuel defs path o d = Some l -> exists keys, spread path keys l.
Proof.
  induction fuel as [|fuel IH]; intros path o d l Hu; [done|]. cbn [leaves]. unfold object_leaves.
  destruct (im_get (lit "properties") o) as [v|] eqn:Ep; [|intros [= <-]; exists []; apply spread_nil].
  destruct v as [| | | | |fields]; try (intros [= <-]; exists []; apply spread_nil). intros Hl. exists (im_keys fields).
  eapply property_leaves_spread; [exact IH| |done]. eapply (unique_get (Object o)); [done|exact Ep].
Qed.
Lemma optional_leaves_spread fuel properties : forall l, unique_keys (Object properties) = true -> optional_leaves defs (leaves fuel defs) properties = Some l ->
  spread [] (im_keys properties) l /\ forall p, p ∈ map fst l -> exists k rest item, p = k :: rest /\ (k, item) ∈ properties /\ optional item defs = true.
Proof.
  induction properties as [|[name item] properties IH]; intros l Hu; cbn [optional_leaves].
  { intros [= <-]. split; [apply spread_nil|by intros ? ?%not_elem_of_nil]. }
  apply unique_object in Hu as [Hn Hu]. cbn [im_keys map fst] in *. fold (im_keys properties) in *. apply NoDup_cons in Hn as [Hk Hn].
  assert (unique_keys (Object properties) = true) as Hf by (apply unique_object; split; [done|intros k v Hin; eapply Hu; by right]).
  destruct (optional_object item defs) as [o|] eqn:Eo; cbn.
  - destruct (leaves fuel defs [name] o _) as [first|] eqn:Ei; cbn; [|done]. destruct (optional_leaves defs (leaves fuel defs) properties) as [rest|]; cbn; [|done].
    intros [= <-]. destruct (IH rest Hf eq_refl) as [Hs Hp]. apply leaves_spread in Ei as (keys & Ha & Hb); [|eapply optional_object_unique; [|done]; eapply Hu; by left].
    assert (spread [] [name] first) as Hfirst by (split; [done|by apply (beyond_inner [] name keys)]). split; [by apply spread_app|].
    intros p Hin. rewrite map_app in Hin. apply elem_of_app in Hin as [Hin|Hin].
    + destruct (proj2 Hfirst p Hin) as (k & r & ->%list_elem_of_singleton & ->). exists name, r, item. split_and!; [done|by left|]. unfold optional. by rewrite Eo.
    + destruct (Hp p Hin) as (k & r & i & ? & ? & ?). exists k, r, i. split_and!; [done|by right|done].
  - destruct (optional_leaves defs (leaves fuel defs) properties) as [rest|]; cbn; [|done]. intros [= <-]. destruct (IH rest Hf eq_refl) as [Hs Hp]. split.
    + apply (spread_app [] name (im_keys properties) [] rest Hk); [|done]. split; [by intros ? ? ? ?|by intros ? ?%not_elem_of_nil].
    + intros p Hin. destruct (Hp p Hin) as (k & r & i & ? & ? & ?). exists k, r, i. split_and!; [done|by right|done].
Qed.
End Landing.

(** The value an object holds at a path. *)
Fixpoint value_at (m : list (text * value)) (path : list text) : option value :=
  match path with
  | [] => None
  | [k] => im_get k m
  | k :: path => match im_get k m with Some (Object fields) => value_at fields path | _ => None end
  end.
(** Nothing that is not an object stands on the way to a path. *)
Fixpoint open_to (m : list (text * value)) (path : list text) : Prop :=
  match path with
  | [] | [_] => True
  | k :: path => match im_get k m with None => True | Some (Object fields) => open_to fields path | Some _ => False end
  end.
Lemma open_empty path : open_to [] path.
Proof. by destruct path as [|? []]. Qed.
Lemma insert_step m k k' path v : insert_flat_value m (k :: k' :: path) v =
  match im_get k m with
  | None => im_insert k (Object (insert_flat_value [] (k' :: path) v)) m
  | Some (Object fields) => im_insert k (Object (insert_flat_value fields (k' :: path) v)) m
  | Some _ => m
  end.
Proof. done. Qed.
Lemma value_step m k k' path : value_at m (k :: k' :: path) = match im_get k m with Some (Object fields) => value_at fields (k' :: path) | _ => None end.
Proof. done. Qed.
Lemma open_step m k k' path :
  open_to m (k :: k' :: path) = match im_get k m with None => True | Some (Object fields) => open_to fields (k' :: path) | Some _ => False end.
Proof. done. Qed.
Lemma inserted_at path v : forall m, path <> [] -> open_to m path -> value_at (insert_flat_value m path v) path = Some v.
Proof.
  induction path as [|k path IH]; intros m Hp Ho; [done|]. destruct path as [|k' path]; [apply im_get_insert_eq|]. rewrite open_step in Ho. rewrite insert_step, value_step.
  destruct (im_get k m) as [[| | | | |fields]|]; try done; rewrite im_get_insert_eq; (apply IH; [done|]); [done|apply open_empty].
Qed.
Lemma apart_tail k p q : apart (k :: p) (k :: q) -> apart p q.
Proof. intros [H1 H2]. split; intros H; [apply H1|apply H2]; by apply prefix_cons. Qed.
Lemma apart_single k q : q <> [] -> ~ apart [k] (k :: q).
Proof. intros Hq [H _]. apply H. by exists q. Qed.
(** What lies apart from a path is not touched by an insertion there, and stays open. *)
Lemma insert_elsewhere q v : forall m p, p <> [] -> apart p q ->
  value_at (insert_flat_value m q v) p = value_at m p /\ (open_to m p -> open_to (insert_flat_value m q v) p).
Proof.
  induction q as [|kq q IH]; intros m p Hp Ha; [done|]. destruct p as [|kp p]; [done|]. clear Hp.
  destruct (decide (kp = kq)) as [->|Hne].
  - destruct p as [|kp' p]. { destruct q; [by destruct Ha as [Ha _]; destruct Ha|]. by apply apart_single in Ha. }
    destruct q as [|kq' q]. { apply apart_sym in Ha. by apply apart_single in Ha. }
    apply apart_tail in Ha. rewrite insert_step, !value_step, !open_step. destruct (im_get kq m) as [[| | | | |fields]|] eqn:Eg; rewrite ?Eg, ?im_get_insert_eq; try done.
    + by apply IH.
    + destruct (IH [] (kp' :: p) ltac:(done) Ha) as [-> Ho]. split; [by destruct p as [|? []]|]. intros _. apply Ho, open_empty.
  - assert (im_get kp (insert_flat_value m (kq :: q) v) = im_get kp m) as Hg; [|by destruct p; rewrite ?value_step, ?open_step; cbn [value_at]; rewrite Hg].
    destruct q as [|kq' q]; [by cbn [insert_flat_value]; rewrite im_get_insert_ne|]. rewrite insert_step.
    destruct (im_get kq m) as [[| | | | |fields]|]; try done; by rewrite im_get_insert_ne.
Qed.

Definition path_of (mapping : list FlatField) (key : text) : list text :=
  match find (fun f => teqb (alias f) key) mapping with Some f => ff_path f | None => [key] end.
Lemma expanded_inserts mapping reply : expanded mapping reply = fold_left (fun m kv => insert_flat_value m (path_of mapping kv.1) kv.2) reply [].
Proof.
  unfold expanded. generalize (@nil (text * value)). induction reply as [|[k v] reply IH]; intros m; cbn [fold_left fst snd]; [done|]. rewrite IH. f_equal.
  unfold path_of. by destruct (find _ mapping).
Qed.
Lemma inserts_land (entries : list (list text * value)) : forall m, all_apart (map fst entries) -> (forall p v, (p, v) ∈ entries -> p <> [] /\ open_to m p) ->
  let m' := fold_left (fun m pv => insert_flat_value m pv.1 pv.2) entries m in
  (forall p v, (p, v) ∈ entries -> value_at m' p = Some v) /\ forall p, p <> [] -> (forall q, q ∈ map fst entries -> apart p q) -> value_at m' p = value_at m p.
Proof.
  induction entries as [|[q v] entries IH]; intros m Ha Ho m'; subst m'; cbn [fold_left fst snd]; [by split; [intros ?? ?%not_elem_of_nil|]|].
  assert (all_apart (map fst entries)) as Ha' by (intros i j p p' Hi Hj Hne; apply (Ha (S i) (S j) p p' Hi Hj); lia).
  assert (forall p, p ∈ map fst entries -> apart q p) as Hq.
  { intros p Hin. apply list_elem_of_lookup in Hin as [j Hj]. by apply (Ha 0%nat (S j)). }
  destruct (Ho q v ltac:(by left)) as [Hne Hopen]. destruct (IH (insert_flat_value m q v) Ha') as [Hland Helse].
  { intros p w Hin. destruct (Ho p w ltac:(by right)) as [Hpn Hpo]. split; [done|]. apply insert_elsewhere; [done| |done]. apply apart_sym, Hq.
    change p with (fst (p, w)). by apply list_elem_of_fmap_2. }
  split.
  - intros p w [[= -> ->]|Hin]%elem_of_cons; [|by apply Hland]. rewrite Helse; [by apply inserted_at|done|done].
  - intros p Hpn Hp. cbn [map fst] in Hp. rewrite Helse; [|done|by intros; apply Hp; right]. apply insert_elsewhere; [done|]. apply Hp. by left.
Qed.

(** The properties a flattened schema shows: each alias, and each name that is not an optional object. *)
Definition asked (defs : value) (properties : list (text * value)) (mapping : list FlatField) (key : text) : Prop :=
  (exists f, f ∈ mapping /\ key = alias f) \/ exists item, (key, item) ∈ properties /\ optional item defs = false.
Lemma flat_properties_asked flat defs mapping names : forall done_ renamed shown renamed',
  flat_properties flat defs true mapping names done_ renamed = Some (shown, renamed') ->
  forall key, key ∈ im_keys shown -> key ∈ im_keys done_ \/ asked defs names mapping key.
Proof.
  induction names as [|[name item] names IH]; intros done_ renamed shown renamed'; cbn [flat_properties]; [intros [= <- <-]; by left|].
  assert (forall key, asked defs names mapping key -> asked defs ((name, item) :: names) mapping key) as Hweak.
  { intros key [Hf|(i & Hi & Ho)]; [by left|]. right. exists i. split; [by right|done]. }
  cbn [andb]. destruct (optional item defs) eqn:Eo.
  - intros Hs key Hk. destruct (IH _ _ _ _ Hs key Hk) as [Hd|Ha]; [|by right; apply Hweak]. apply im_extend_keys in Hd as [Hd|Hd]; [by left|]. right. left.
    rewrite map_map in Hd. cbn [fst] in Hd. apply list_elem_of_fmap in Hd as (f & -> & [_ Hf]%list_elem_of_filter). by exists f.
  - destruct (flat item) as [s|]; cbn; [|done]. intros Hs key Hk. destruct (IH _ _ _ _ Hs key Hk) as [Hd|Ha]; [|by right; apply Hweak].
    apply im_keys_insert in Hd as [->|Hd]; [|by left]. right. right. exists item. split; [by left|done].
Qed.

Section Replies.
Context (fuel : nat) (defs : value) (properties : list (text * value)) (mapping : list FlatField).
Hypothesis unique_defs : unique_keys defs = true.
Hypothesis unique_properties : unique_keys (Object properties) = true.
Hypothesis mapped : flat_fields fuel properties defs = Some mapping.

(** The fields of a mapping: aliases told apart from each other and the properties, paths apart, each through an optional object. *)
Lemma mapping_spec : NoDup (map alias mapping) /\ (forall f, f ∈ mapping -> alias f ∉ im_keys properties) /\ all_apart (map ff_path mapping) /\
  forall f, f ∈ mapping -> exists k rest item, ff_path f = k :: rest /\ (k, item) ∈ properties /\ optional item defs = true.
Proof.
  unfold flat_fields, fields_of in mapped. destruct (optional_leaves defs (leaves fuel defs) properties) as [fields|] eqn:El; cbn in mapped; [|done].
  destruct (with_aliases_spec fields (im_keys properties)) as (fs & Hw & Hm & Hn & Ha). rewrite mapped in Hw. injection Hw as <-.
  destruct (optional_leaves_spread defs unique_defs fuel properties fields unique_properties El) as [[Hs _] Hp].
  assert (map ff_path mapping = map fst fields) as Hpaths by (rewrite <- Hm, map_map; by apply map_ext).
  split_and!; [done|done|by rewrite Hpaths|]. intros f Hf. apply Hp. rewrite <- Hpaths. by apply list_elem_of_fmap_2.
Qed.
Lemma mapping_at f : f ∈ mapping -> path_of mapping (alias f) = ff_path f.
Proof.
  intros Hf. destruct mapping_spec as (Hn & _). unfold path_of. destruct (find _ mapping) as [g|] eqn:Eg.
  - apply find_some in Eg as [Hg%list_elem_of_In Heq%teqb_spec]. apply list_elem_of_lookup in Hf as [i Hi], Hg as [j Hj].
    assert (i = j) as ->; [|congruence]. apply (NoDup_lookup (map alias mapping) i j (alias f) Hn); rewrite list_lookup_fmap; [by rewrite Hi|by rewrite Hj; cbn; f_equal].
  - apply (find_none_in _ _ f) in Eg; [|done]. change (teqb (alias f) (alias f) = false) in Eg. by rewrite teqb_refl in Eg.
Qed.
Lemma literal_at name : name ∈ im_keys properties -> path_of mapping name = [name].
Proof.
  intros Hn. destruct mapping_spec as (_ & Ha & _). unfold path_of. destruct (find _ mapping) as [g|] eqn:Eg; [|done].
  apply find_some in Eg as [Hg%list_elem_of_In <-%teqb_spec]. by apply Ha in Hg.
Qed.
Lemma entry_key name (item : value) : (name, item) ∈ properties -> name ∈ im_keys properties.
Proof. intros Hin. change name with (fst (name, item)). by apply list_elem_of_fmap_2. Qed.
Lemma literal_apart f name item : f ∈ mapping -> (name, item) ∈ properties -> optional item defs = false -> apart [name] (ff_path f).
Proof.
  intros Hf Hin Ho. destruct mapping_spec as (_ & _ & _ & Hp). destruct (Hp f Hf) as (k & rest & item' & -> & Hk & Ho'). apply (apart_at []). intros ->.
  apply unique_object in unique_properties as [Hn _]. apply (im_get_nodup _ _ _ Hn) in Hin, Hk. congruence.
Qed.
Lemma asked_apart k1 k2 : asked defs properties mapping k1 -> asked defs properties mapping k2 -> k1 <> k2 -> apart (path_of mapping k1) (path_of mapping k2).
Proof.
  destruct mapping_spec as (_ & _ & Hapart & _).
  intros [(f & Hf & ->)|(i & Hi & Ho)] [(g & Hg & ->)|(j & Hj & Ho')] Hne; rewrite ?mapping_at, ?(literal_at k1), ?(literal_at k2) by (done || by eapply entry_key).
  - apply list_elem_of_lookup in Hf as [a Ha], Hg as [b Hb]. apply (Hapart a b); rewrite ?list_lookup_fmap, ?Ha, ?Hb; [done..|]. intros ->. congruence.
  - apply apart_sym. by eapply literal_apart.
  - by eapply literal_apart.
  - by apply (apart_at [] k1 k2 [] []).
Qed.
Lemma asked_path key : asked defs properties mapping key -> path_of mapping key <> [].
Proof.
  intros [(f & Hf & ->)|(i & Hi & _)]; [|by rewrite literal_at by by eapply entry_key]. rewrite mapping_at by done.
  destruct mapping_spec as (_ & _ & _ & Hp). by destruct (Hp f Hf) as (k & rest & item & -> & _).
Qed.
Lemma reply_lands reply : NoDup (im_keys reply) -> (forall key, key ∈ im_keys reply -> asked defs properties mapping key) ->
  forall key v, im_get key reply = Some v -> value_at (expanded mapping reply) (path_of mapping key) = Some v.
Proof.
  intros Hn Hasked key v Hg. apply im_get_elem in Hg. rewrite expanded_inserts.
  set (entries := map (fun kv : text * value => (path_of mapping kv.1, kv.2)) reply).
  assert (forall m, fold_left (fun m kv => insert_flat_value m (path_of mapping kv.1) kv.2) reply m = fold_left (fun m pv => insert_flat_value m pv.1 pv.2) entries m) as ->.
  { subst entries. clear. induction reply as [|kv reply IH]; intros m; [done|]. apply IH. }
  assert (forall k w, (k, w) ∈ reply -> asked defs properties mapping k) as Hentry.
  { intros k w Hin. apply Hasked. change k with (fst (k, w)). by apply list_elem_of_fmap_2. }
  apply inserts_land.
  - intros i j p q Hi Hj Hne. subst entries. rewrite map_map, list_lookup_fmap in Hi. rewrite map_map, list_lookup_fmap in Hj.
    destruct (reply !! i) as [[k1 v1]|] eqn:E1; [|done]. destruct (reply !! j) as [[k2 v2]|] eqn:E2; [|done]. cbn in Hi, Hj. simplify_eq.
    apply asked_apart; [eapply Hentry, list_elem_of_lookup_2, E1|eapply Hentry, list_elem_of_lookup_2, E2|]. intros ->. apply Hne.
    apply (NoDup_lookup _ _ _ k2 Hn); unfold im_keys; rewrite list_lookup_fmap; [by rewrite E1|by rewrite E2].
  - intros p w ((k & w') & [= -> ->] & Hin)%list_elem_of_fmap. split; [by eapply asked_path, Hentry|apply open_empty].
  - apply list_elem_of_fmap. by exists (key, v).
Qed.
End Replies.

(** ** A reply folded back *)
(** What a value holds at a path, and the schema a path leads to through the properties of objects and of optional objects. *)
Fixpoint within (v : value) (path : list text) : option value :=
  match path with
  | [] => Some v
  | k :: path => match v with Object m => v ← im_get k m; within v path | _ => None end
  end.
Definition properties_of (defs s : value) : option (list (text * value)) :=
  o ← holds_object s defs; match im_get (lit "properties") o with Some (Object ps) => Some ps | _ => None end.
Definition required_of (defs s : value) : list text :=
  match o ← holds_object s defs; im_get (lit "required") o with Some (Array names) => omap (fun n => as_str (Some n)) names | _ => [] end.
Fixpoint schema_within (defs s : value) (path : list text) : option value :=
  match path with
  | [] => Some s
  | k :: path => ps ← properties_of defs s; s ← im_get k ps; schema_within defs s path
  end.
Definition is_leaf (defs s : value) : Prop := holds_object s defs = None.

(** What an optional object, and an object within one, comes to: nothing, where every field of it that was answered comes to nothing, or
    where a field it requires, and that may not be null, was not answered or comes to nothing.  A leaf comes to nothing when its answer
    is null. *)
Inductive dead (defs : value) : value -> value -> Prop :=
| dead_null s : is_leaf defs s -> dead defs s Null
| dead_fields s ps m : properties_of defs s = Some ps -> (forall k v s', (k, v) ∈ m -> im_get k ps = Some s' -> dead defs s' v) -> dead defs s (Object m)
| dead_lacks s ps m n : properties_of defs s = Some ps -> n ∈ required_of defs s ->
    match im_get n ps with Some s' => allows_null s' = false | None => True end ->
    (forall v s', im_get n m = Some v -> im_get n ps = Some s' -> dead defs s' v) -> dead defs s (Object m).
(** Every answered field of an object comes to nothing. *)
Definition all_dead (defs s v : value) : Prop := forall ps m k u s', properties_of defs s = Some ps -> v = Object m -> (k, u) ∈ m -> im_get k ps = Some s' -> dead defs s' u.

(** Answers under the names of the properties they were asked for, down to the leaves. *)
Inductive named (defs : value) : value -> value -> Prop :=
| named_leaf s v : is_leaf defs s -> plain v = true -> named defs s v
| named_object s ps m : properties_of defs s = Some ps -> unique_keys (Object ps) = true -> NoDup (im_keys m) ->
    (forall k v, (k, v) ∈ m -> k ∈ im_keys ps) -> (forall k v s', (k, v) ∈ m -> im_get k ps = Some s' -> named defs s' v) -> named defs s (Object m).

Lemma properties_object defs s ps : properties_of defs s = Some ps -> exists o, holds_object s defs = Some o /\ im_get (lit "properties") o = Some (Object ps).
Proof.
  unfold properties_of. destruct (holds_object s defs) as [o|]; cbn; [|done]. destruct (im_get _ o) as [[| | | | |ps']|] eqn:E; try done.
  intros [= ->]. by exists o.
Qed.
Lemma leaf_no_properties defs s ps : is_leaf defs s -> properties_of defs s = Some ps -> False.
Proof. unfold is_leaf, properties_of. by intros ->. Qed.
Lemma plain_nest fuel defs : forall v s path b r, plain v = true -> nest fuel defs v s path b = Some r -> r = (v, []).
Proof.
  induction fuel as [|fuel IH]; intros v s path b r Hp; [done|]. cbn [nest]. unfold nest_value. destruct v as [| | | |items|]; try (by intros [= <-]); [|done].
  destruct (items_schema fuel defs s) as [item|]; cbn; [|done].
  assert (forall item i r, nest_items (nest fuel defs) item path i items = Some r -> r = (items, [])) as Hi.
  { clear s b r. cbn [plain] in Hp. induction items as [|v items IHi]; intros item' i r; cbn [nest_items]; [by intros [= <-]|].
    cbn [forallb] in Hp. apply andb_true_iff in Hp as [Hv Hp]. destruct (nest fuel defs v item' _ false) as [r1|] eqn:E1; cbn; [|done].
    apply IH in E1 as ->; [|done]. destruct (nest_items (nest fuel defs) item' path (S i) items) as [r2|] eqn:E2; cbn; [|done].
    apply IHi in E2 as ->; [|done]. by intros [= <-]. }
  destruct (nest_items _ _ _ _ _) as [r'|] eqn:E; cbn; [|done]. apply Hi in E as ->. by intros [= <-].
Qed.
Lemma plain_null v : plain v = true -> all_null v = true -> v = Null.
Proof. by destruct v. Qed.

Section Folding.
Context (defs : value).
Hypothesis unique_defs : unique_keys defs = true.
Notation named := (named defs).
Notation dead := (dead defs).

(** What a field under an optional object is folded to, with the paths set to null on the way. *)
Definition folds_to (s v : value) (path : text) (v' : value) (dropped : list text) : Prop :=
  exists fuel nested d h, nest fuel defs v s path true = Some (nested, d) /\ settled defs true nested s path = (v', h) /\ dropped = d ++ h.

(** Answers already under their names stand where they do. *)
Lemma expanded_named fuel ps mapping m : unique_keys (Object ps) = true -> flat_fields fuel ps defs = Some mapping ->
  NoDup (im_keys m) -> (forall k v, (k, v) ∈ m -> k ∈ im_keys ps) -> expanded mapping m = m.
Proof.
  intros Hu Hm Hn Hk. rewrite expanded_inserts.
  assert (forall k v, (k, v) ∈ m -> path_of mapping k = [k]) as Hp by (intros k v Hin; exact (literal_at fuel defs ps mapping unique_defs Hu Hm k (Hk k v Hin))).
  enough (forall done_, (forall k, k ∈ im_keys m -> k ∉ im_keys done_) ->
    fold_left (fun m kv => insert_flat_value m (path_of mapping kv.1) kv.2) m done_ = done_ ++ m) as H by (apply (H []); intros; by apply not_elem_of_nil).
  clear Hk Hm. induction m as [|[k v] m IH]; intros done_ Hd; cbn [fold_left fst snd]; [by rewrite app_nil_r|].
  cbn [im_keys map fst] in *. fold (im_keys m) in *. apply NoDup_cons in Hn as [Hk Hn]. rewrite (Hp k v) by by left. cbn [insert_flat_value].
  rewrite im_insert_fresh by (apply Hd; by left). rewrite IH; [by rewrite <- app_assoc|done|intros; eapply Hp; by right|].
  intros k' Hk'. unfold im_keys. rewrite map_app, elem_of_app. intros [Hin|Hin]; [eapply Hd; [by right|done]|]. cbn in Hin. apply list_elem_of_singleton in Hin. subst k'. exact (Hk Hk').
Qed.
(** A field after the others: its own value, settled, under its name, its dropped paths among all. *)
Lemma nest_fields_get nested properties mapping b path fields : forall done_ result dropped, NoDup (im_keys fields) ->
  nest_fields defs nested properties mapping b path fields done_ = Some (result, dropped) ->
  (forall k, k ∉ im_keys fields -> im_get k result = im_get k done_) /\
  (forall k, k ∈ im_keys result <-> k ∈ im_keys fields \/ k ∈ im_keys done_) /\
  forall k v, (k, v) ∈ fields -> exists v' d v'' h, let field := default Null (get properties k) in
    let flattened := b || existsb (fun f => bool_decide (head (ff_path f) = Some k)) mapping in
    nested v field (at_key path k) flattened = Some (v', d) /\ settled defs flattened v' field (at_key path k) = (v'', h) /\
    im_get k result = Some v'' /\ d ++ h ⊆ dropped.
Proof.
  induction fields as [|[k v] fields IH]; intros done_ result dropped Hn; cbn [nest_fields].
  { intros [= <- <-]. split_and!; [done|intros k; split; [by right|intros [?%not_elem_of_nil|?]; done]|by intros ? ? ?%not_elem_of_nil]. }
  cbn [im_keys map fst] in *. fold (im_keys fields) in *. apply NoDup_cons in Hn as [Hk Hn].
  match goal with |- context [nested v ?f ?p ?b] => destruct (nested v f p b) as [[v' d]|] eqn:Ev end; cbn [mbind option_bind]; [|done].
  destruct (settled defs _ v' _ _) as [v'' h] eqn:Es.
  destruct (nest_fields defs nested properties mapping b path fields (im_insert k v'' done_)) as [[r more]|] eqn:Er; cbn [mbind option_bind]; [|done].
  intros [= <- <-]. destruct (IH _ _ _ Hn Er) as (Hout & Hkeys & Hin). split_and!.
  - intros k' [Hne Hk']%not_elem_of_cons. rewrite Hout by done. by apply im_get_insert_ne.
  - intros k'. rewrite Hkeys, im_keys_insert, elem_of_cons. tauto.
  - intros k' u [[= -> ->]|Hu]%elem_of_cons.
    + exists v', d, v'', h. cbv zeta. split_and!; [done|done|by rewrite Hout, im_get_insert_eq|set_solver].
    + destruct (Hin k' u Hu) as (u' & d' & u'' & h' & Hnest & Hset & Hget & Hsub). exists u', d', u'', h'. split_and!; [done|done|done|set_solver].
Qed.

Lemma nest_fields_nodup nested properties mapping b path fields : forall done_ result dropped, NoDup (im_keys done_) ->
  nest_fields defs nested properties mapping b path fields done_ = Some (result, dropped) -> NoDup (im_keys result).
Proof.
  induction fields as [|[k v] fields IH]; intros done_ result dropped Hn; cbn [nest_fields]; [by intros [= <- <-]|].
  match goal with |- context [nested v ?f ?p ?b] => destruct (nested v f p b) as [[v' d]|] end; cbn [mbind option_bind]; [|done].
  destruct (settled defs _ v' _ _) as [v'' h]. destruct (nest_fields defs _ _ _ _ _ fields _) as [[r more]|] eqn:Er; cbn [mbind option_bind]; [|done].
  intros [= <- _]. eapply IH; [|exact Er]. by apply im_insert_nodup.
Qed.
(** An object under an optional one: its fields folded, then it is kept, or nothing with its path told of where a field is missing. *)
Lemma fold_object s ps m path v' D : properties_of defs s = Some ps -> unique_keys (Object ps) = true -> NoDup (im_keys m) ->
  (forall k v, (k, v) ∈ m -> k ∈ im_keys ps) -> folds_to s (Object m) path v' D ->
  exists m', NoDup (im_keys m') /\ (forall k, k ∈ im_keys m' <-> k ∈ im_keys m) /\
    (forall k v, (k, v) ∈ m -> exists s' u Dk, im_get k ps = Some s' /\ folds_to s' v (at_key path k) u Dk /\ Dk ⊆ D /\ im_get k m' = Some u) /\
    ((v' = Null /\ all_null (Object m') = true) \/ (v' = Null /\ all_null (Object m') = false /\ complete (Object m') s defs = false /\ path ∈ D) \/
     (v' = Object m' /\ all_null (Object m') = false /\ complete (Object m') s defs = true)).
Proof.
  intros Hps Hu Hn Hk (fuel & nested & d & h & Hnest & Hset & ->). destruct fuel as [|fuel]; [done|]. cbn [nest] in Hnest. unfold nest_value in Hnest.
  destruct (properties_object _ _ _ Hps) as (o & Ho & Hop). rewrite Ho in Hnest. cbn [mbind option_bind] in Hnest. rewrite Hop in Hnest. cbn [default] in Hnest. unfold id in Hnest.
  cbn [from_option] in Hnest. destruct (flat_fields fuel ps defs) as [mapping|] eqn:Em; cbn [mbind option_bind] in Hnest; [|done].
  rewrite (expanded_named fuel ps mapping m) in Hnest by done.
  destruct (nest_fields defs (nest fuel defs) (Object ps) mapping true path m []) as [[m' dropped]|] eqn:Ef; cbn in Hnest; [|done]. injection Hnest as <- <-.
  destruct (nest_fields_get _ _ _ _ _ _ _ _ _ Hn Ef) as (_ & Hkeys & Hget). exists m'. split_and!.
  - eapply nest_fields_nodup; [|exact Ef]. constructor.
  - intros k. rewrite Hkeys. split; [intros [?|?%not_elem_of_nil]; done|by left].
  - intros k v Hin. destruct (Hget k v Hin) as (v1 & d1 & v2 & h1 & Hv & Hs & Hr & Hsub). cbn [orb get] in Hv, Hs.
    assert (is_Some (im_get k ps)) as [s' Hs'] by (by apply im_get_some_keys, (Hk k v)). rewrite Hs' in Hv, Hs. cbn in Hv, Hs.
    exists s', v2, (d1 ++ h1). split_and!; [done| |set_solver|done]. by exists fuel, v1, d1, h1.
  - unfold settled in Hset. assert (optional s defs || true && bool_decide (is_Some (object_schema s defs)) = true) as Hb.
    { unfold holds_object in Ho. unfold optional. destruct (object_schema s defs); [by rewrite orb_true_r|]. by rewrite Ho. }
    rewrite Hb in Hset. destruct (all_null (Object m')) eqn:Ea; [injection Hset as <- <-; by left|].
    destruct (complete (Object m') s defs) eqn:Ec; injection Hset as <- <-; [by right; right|right; left]. split_and!; [done..|]. apply elem_of_app. right. by left.
Qed.
Lemma fold_leaf s v path v' D : is_leaf defs s -> plain v = true -> folds_to s v path v' D -> v' = v.
Proof.
  intros Hl Hp (fuel & nested & d & h & Hnest & Hset & _). apply plain_nest in Hnest as [= -> ->]; [|done]. unfold settled in Hset.
  unfold is_leaf, holds_object in Hl. unfold optional in Hset. destruct (object_schema s defs); [done|]. rewrite Hl in Hset. by injection Hset.
Qed.
(** A folded value is null or not all null. *)
Lemma fold_all_null s v path v' D : named s v -> folds_to s v path v' D -> all_null v' = true -> v' = Null.
Proof.
  intros [s1 v1 Hl Hp|s1 ps m Hps Hu Hn Hk _] Hf Ha.
  - apply fold_leaf in Hf as ->; [|done..]. by apply plain_null.
  - destruct (fold_object _ _ _ _ _ _ Hps Hu Hn Hk Hf) as (m' & _ & _ & _ & [[? _]|[[? _]|(-> & Hnot & _)]]); [done|done|congruence].
Qed.
Lemma all_null_object m : all_null (Object m) = true <-> forall k v, (k, v) ∈ m -> all_null v = true.
Proof.
  cbn [all_null]. rewrite forallb_forall. split.
  - intros H k v Hin%list_elem_of_In. exact (H _ Hin).
  - intros H [k v] Hin%list_elem_of_In. by eapply H.
Qed.
Lemma complete_false s ps m : properties_of defs s = Some ps -> complete (Object m) s defs = false <->
  exists n, n ∈ required_of defs s /\ match im_get n ps with Some s' => allows_null s' = false | None => True end /\
    forall v, im_get n m = Some v -> v = Null.
Proof.
  intros Hps. destruct (properties_object _ _ _ Hps) as (o & Ho & Hop). unfold complete, required_of. rewrite Ho. cbn [mbind option_bind]. rewrite Hop. cbn [from_option]. unfold id. cbn [get].
  set (required := match im_get (lit "required") o with Some (Array names) => omap (fun n => as_str (Some n)) names | _ => [] end).
  rewrite <- not_true_iff_false, forallb_forall. split.
  - intros Hnot. destruct (decide (Exists (fun n => (match im_get n ps with Some s' => allows_null s' | None => false end ||
      match im_get n m with None | Some Null => false | Some _ => true end) = false) required)) as [He|He].
    + apply Exists_exists in He as (n & Hn & [Ha Hb]%orb_false_iff). exists n. split; [done|]. split; [by destruct (im_get n ps)|]. intros v Hv. rewrite Hv in Hb. by destruct v.
    + destruct Hnot. intros n Hn%list_elem_of_In. apply not_false_iff_true. intros Hf. apply He, Exists_exists. by exists n.
  - intros (n & Hn & Ha & Hv) Hall. apply list_elem_of_In in Hn. specialize (Hall n Hn). cbn beta in Hall. apply orb_true_iff in Hall as [Hall|Hall].
    + destruct (im_get n ps) as [s0|]; congruence.
    + destruct (im_get n m) as [v|]; [|done]. by rewrite (Hv v eq_refl) in Hall.
Qed.

(** What is folded comes back null exactly where it is dead. *)
Lemma folds_dead s v : named s v -> forall path v' D, folds_to s v path v' D -> v' = Null <-> dead s v.
Proof.
  induction 1 as [s v Hl Hp|s ps m Hps Hu Hn Hk Hnamed IH]; intros path v' D Hf.
  - apply fold_leaf in Hf as ->; [|done..]. split; [intros ->; by apply dead_null|]. intros Hd. destruct Hd as [|s ps m Hps|s ps m n Hps]; [done|done|done].
  - destruct (fold_object _ _ _ _ _ _ Hps Hu Hn Hk Hf) as (m' & Hnd & Hkeys & Hfields & Hends).
    assert (Hfield : forall k v u s', im_get k m = Some v -> im_get k m' = Some u -> im_get k ps = Some s' -> u = Null <-> dead s' v).
    { intros k v u s' Hv%im_get_elem Hu' Hs'. destruct (Hfields k v Hv) as (s1 & u1 & Dk & Hs1 & Hfold & _ & Hu1). simplify_eq. by eapply IH. }
    assert (Hhas : forall k v, (k, v) ∈ m -> im_get k m = Some v) by (intros; by apply im_get_nodup).
    assert (Hback : forall k u, (k, u) ∈ m' -> exists v s1 path' Dk, (k, v) ∈ m /\ im_get k ps = Some s1 /\ folds_to s1 v path' u Dk).
    { intros k u Hin. apply (im_get_nodup _ _ _ Hnd) in Hin. assert (k ∈ im_keys m) as [v Hv]%im_get_some_keys by (apply Hkeys, im_get_some_keys; by exists u).
      apply im_get_elem in Hv. destruct (Hfields k v Hv) as (s1 & u1 & Dk & Hs1 & Hfold & _ & Hu1). simplify_eq. by exists v, s1, (at_key path k), Dk. }
    split.
    + intros ->. destruct Hends as [[_ Ha]|[(_ & _ & Hc & _)|(? & _)]]; [| |done].
      * apply (dead_fields defs s ps m Hps). intros k v s' Hin Hs'. destruct (Hfields k v Hin) as (s1 & u & Dk & Hs1 & Hfold & _ & Hu'). simplify_eq.
        eapply (IH k v s'); [done|done|exact Hfold|]. rewrite all_null_object in Ha. apply im_get_elem in Hu'. eapply fold_all_null; [by eapply Hnamed|exact Hfold|by eapply Ha].
      * apply (complete_false s ps m' Hps) in Hc as (n & Hreq & Hal & Hv). apply (dead_lacks defs s ps m n Hps Hreq Hal). intros v s' Hg Hs'.
        apply im_get_elem in Hg as Hin. destruct (Hfields n v Hin) as (s1 & u & Dk & Hs1 & Hfold & _ & Hu'). simplify_eq. apply (Hfield n v u s'); [done..|]. by apply Hv.
    + intros Hd. destruct Hends as [[? _]|[[? _]|(-> & Ha & Hc)]]; [done|done|]. exfalso. inversion Hd as [|s1 ps1 m1 Hps1 Hall|s1 ps1 m1 n Hps1 Hreq Hal Hall]; simplify_eq.
      * apply not_true_iff_false in Ha. apply Ha, all_null_object. intros k u Hin. destruct (Hback k u Hin) as (v & s1 & path' & Dk & Hv & Hs1 & Hfold).
        assert (u = Null) as ->; [|done]. eapply (IH k v s1); [done|done|exact Hfold|]. by eapply Hall.
      * apply not_false_iff_true in Hc. apply Hc, (complete_false s ps m' Hps). exists n. split_and!; [done|done|]. intros u Hu'%im_get_elem.
        destruct (Hback n u Hu') as (v & s1 & path' & Dk & Hv & Hs1 & Hfold). eapply (IH n v s1); [done|done|exact Hfold|]. eapply Hall; [by apply Hhas|done].
Qed.

(** Strictly on the way to a path. *)
Definition before (q r : list text) : Prop := exists k rest, r = q ++ k :: rest.
(** Where an answer comes to be: at its path, nothing on the way being dead; or else an object on the way is dead and null, and where it is so
    for a missing field it is told of. *)
Definition comes_to (s v : value) (path : list text) (v' : value) (at_ : text) (dropped : list text) (w : value) : Prop :=
  (within v' path = Some w /\ forall q sq vq, before q path -> schema_within defs s q = Some sq -> within v q = Some vq -> ~ dead sq vq) \/
  exists q sq vq, before q path /\ schema_within defs s q = Some sq /\ within v q = Some vq /\ dead sq vq /\ within v' q = Some Null /\
    (all_dead defs sq vq \/ fold_left at_key q at_ ∈ dropped).

Lemma before_cons k q r : before (k :: q) (k :: r) <-> before q r.
Proof. split; intros (k' & rest & E); exists k', rest; [by injection E|by rewrite E]. Qed.
Lemma before_head k q r k' : before (k' :: q) (k :: r) -> k' = k.
Proof. by intros (k1 & rest & [= -> _]). Qed.
Lemma before_nil r : before [] r <-> r <> [].
Proof. split; [by intros (k & rest & ->)|]. destruct r as [|k rest]; [done|]. intros _. by exists k, rest. Qed.

Lemma folds_outcome r : forall s v path v' D w, named s v -> folds_to s v path v' D -> within v r = Some w -> plain w = true -> comes_to s v r v' path D w.
Proof.
  induction r as [|k r IH]; intros s v path v' D w Hnamed Hf Hw Hp.
  - injection Hw as ->. left. split; [|intros q ? ? (k & rest & E); by destruct q]. inversion Hnamed as [s1 v1 Hl _|]; subst; [|done].
    by apply fold_leaf in Hf as ->.
  - assert (Hdead := folds_dead s v Hnamed path v' D Hf). inversion Hnamed as [s1 v1 Hl Hpv|s1 ps m Hps Hu Hn Hk Hfields]; subst.
    { destruct v; try done. }
    destruct (fold_object _ _ _ _ _ _ Hps Hu Hn Hk Hf) as (m' & Hnd & Hkeys & Hget & Hends). cbn [within] in Hw.
    destruct (im_get k m) as [u|] eqn:Eu; cbn in Hw; [|done]. apply im_get_elem in Eu as Hin. destruct (Hget k u Hin) as (s' & u' & Dk & Hs' & Hfold & Hsub & Hu').
    destruct Hends as [[-> Ha]|[(-> & _ & _ & Hpath)|(-> & Ha & Hc)]].
    + right. exists [], s, (Object m). split_and!; [by apply before_nil|done|done|by apply Hdead|done|]. left.
      intros ps1 m1 k1 u1 s1 Hps1 [= <-] Hin1 Hs1. rewrite Hps in Hps1. injection Hps1 as <-.
      destruct (Hget k1 u1 Hin1) as (s2 & u2 & D2 & Hs2 & Hfold2 & _ & Hu2). simplify_eq. eapply folds_dead; [by eapply Hfields|exact Hfold2|].
      apply im_get_elem in Hu2. rewrite all_null_object in Ha. eapply fold_all_null; [by eapply Hfields|exact Hfold2|by eapply Ha].
    + right. exists [], s, (Object m). split_and!; [by apply before_nil|done|done|by apply Hdead|done|]. by right.
    + destruct (IH s' u (at_key path k) u' Dk w) as [[Hat Hnone]|(q & sq & vq & Hq & Hsq & Hvq & Hd & Hnull & Hwhy)]; [by eapply Hfields|done|done|done| |].
      * left. split; [cbn [within]; by rewrite Hu'|]. intros q sq vq Hq Hsq Hvq. destruct q as [|k' q].
        -- injection Hsq as <-. injection Hvq as <-. intros Hd. by apply Hdead in Hd.
        -- apply before_head in Hq as Hk'. subst k'. apply before_cons in Hq. cbn [schema_within] in Hsq. rewrite Hps in Hsq. cbn in Hsq. rewrite Hs' in Hsq. cbn in Hsq.
           cbn [within] in Hvq. rewrite Eu in Hvq. cbn in Hvq. by apply (Hnone q).
      * right. exists (k :: q), sq, vq. split_and!; [by apply before_cons| | |done| |].
        -- cbn [schema_within]. rewrite Hps. cbn. by rewrite Hs'.
        -- cbn [within]. by rewrite Eu.
        -- cbn [within]. by rewrite Hu'.
        -- destruct Hwhy as [?|Hwhy]; [by left|right]. cbn [fold_left]. set_solver.
Qed.

(** *** The answers in their places *)
(** A path that leads to a leaf. *)
Definition leads (ps : list (text * value)) (path : list text) : Prop :=
  exists k rest s sl, path = k :: rest /\ im_get k ps = Some s /\ schema_within defs s rest = Some sl /\ is_leaf defs sl.
Lemma leads_cons ps k k' path : leads ps (k :: k' :: path) <-> exists s ps', im_get k ps = Some s /\ properties_of defs s = Some ps' /\ leads ps' (k' :: path).
Proof.
  split.
  - intros (k1 & rest & s & sl & [= <- <-] & Hs & Hsl & Hl). cbn [schema_within] in Hsl. destruct (properties_of defs s) as [ps'|] eqn:Eps; cbn in Hsl; [|done].
    destruct (im_get k' ps') as [s'|] eqn:Es'; cbn in Hsl; [|done]. exists s, ps'. split_and!; [done..|]. by exists k', path, s', sl.
  - intros (s & ps' & Hs & Hps & k1 & rest & s' & sl & [= <- <-] & Hs' & Hsl & Hl). exists k, (k' :: path), s, sl. split_and!; [done..| |done].
    cbn [schema_within]. rewrite Hps. cbn. by rewrite Hs'.
Qed.
Definition fields_named (ps m : list (text * value)) : Prop := NoDup (im_keys m) /\ forall k v, (k, v) ∈ m -> exists s, im_get k ps = Some s /\ named s v.
Lemma fields_named_object s ps m : properties_of defs s = Some ps -> unique_keys (Object ps) = true -> fields_named ps m -> named s (Object m).
Proof.
  intros Hps Hu [Hn Hm]. apply (named_object _ _ ps); [done..| |].
  - intros k v Hin. destruct (Hm k v Hin) as (s' & Hs' & _). apply im_get_some_keys. by exists s'.
  - intros k v s' Hin Hs'. destruct (Hm k v Hin) as (s1 & Hs1 & Hv). by simplify_eq.
Qed.
Lemma object_fields_named s ps m : properties_of defs s = Some ps -> named s (Object m) -> fields_named ps m.
Proof.
  intros Hps Hnamed. inversion Hnamed as [s1 v1 Hl Hpv|s1 ps1 m1 Hps1 Hu Hn Hk Hfields]; subst; [done|]. rewrite Hps in Hps1. injection Hps1 as <-. split; [done|].
  intros k v Hin. assert (is_Some (im_get k ps)) as [s' Hs'] by (by apply im_get_some_keys, (Hk k v)). exists s'. split; [done|by eapply Hfields].
Qed.
Lemma properties_unique s ps : unique_keys s = true -> properties_of defs s = Some ps -> unique_keys (Object ps) = true.
Proof.
  intros Hu Hps. apply properties_object in Hps as (o & Ho & Hop). apply holds_object_unique in Ho; [|done..]. by apply (unique_get (Object o) (lit "properties")).
Qed.
Lemma fields_named_insert ps m k v s : fields_named ps m -> im_get k ps = Some s -> named s v -> fields_named ps (im_insert k v m).
Proof.
  intros [Hn Hm] Hs Hv. split; [by apply im_insert_nodup|]. intros k' u [[= -> ->]|Hin]%im_insert_elem; [by exists s|by apply Hm].
Qed.
Lemma insert_named path : forall ps m w, unique_keys (Object ps) = true -> leads ps path -> plain w = true -> fields_named ps m ->
  fields_named ps (insert_flat_value m path w).
Proof.
  induction path as [|k path IH]; intros ps m w Hu Hl Hp Hm; [done|]. destruct path as [|k' path].
  { destruct Hl as (k1 & rest & s & sl & [= <- <-] & Hs & [= <-] & Hleaf). cbn [insert_flat_value]. eapply fields_named_insert; [done..|by apply named_leaf]. }
  apply leads_cons in Hl as (s & ps' & Hs & Hps & Hl). rewrite insert_step. apply im_get_elem in Hs as Hin.
  assert (unique_keys (Object ps') = true) as Hu' by (eapply properties_unique; [|done]; apply unique_object in Hu as [_ Hu]; by eapply Hu).
  assert (forall fields, fields_named ps' fields -> fields_named ps (im_insert k (Object (insert_flat_value fields (k' :: path) w)) m)) as Hgo.
  { intros fields Hf. eapply fields_named_insert; [done..|]. eapply fields_named_object; [done..|]. by apply IH. }
  destruct (im_get k m) as [old|] eqn:Eo; [|by apply Hgo; split; [constructor|intros ? ? ?%not_elem_of_nil]].
  destruct old as [| | | | |fields]; try done. apply Hgo. apply im_get_elem in Eo. destruct Hm as [_ Hm]. destruct (Hm _ _ Eo) as (s1 & Hs1 & Hnamed). simplify_eq.
  by eapply object_fields_named.
Qed.

Lemma leads_head ps k s rest : im_get k ps = Some s ->
  (rest = [] /\ is_leaf defs s) \/ (exists ps', properties_of defs s = Some ps' /\ leads ps' rest) -> leads ps (k :: rest).
Proof.
  intros Hs [[-> Hl]|(ps' & Hps & k' & rest' & s' & sl & -> & Hs' & Hsl & Hl)].
  - by exists k, [], s, s.
  - exists k, (k' :: rest'), s, sl. split_and!; [done..| |done]. cbn [schema_within]. rewrite Hps. cbn. by rewrite Hs'.
Qed.
Lemma leads_later f s ps path : f ∉ im_keys ps -> leads ps path -> leads ((f, s) :: ps) path.
Proof.
  intros Hf (k & rest & s' & sl & -> & Hs & Hsl & Hl). exists k, rest, s', sl. split_and!; [done| |done..].
  cbn [im_get]. rewrite decide_False; [done|]. intros ->. apply Hf, im_get_some_keys. by exists s'.
Qed.
(** The leaves of an object lead through its properties. *)
Definition leaves_lead (prefix : list text) (ps : list (text * value)) (l : list (list text * value)) : Prop :=
  forall p, p ∈ map fst l -> exists rest, p = prefix ++ rest /\ leads ps rest.
Lemma property_leaves_lead flat inner prefix fields : forall description l,
  (forall path o d l, unique_keys (Object o) = true -> inner path o d = Some l -> l = [] \/ exists ps, im_get (lit "properties") o = Some (Object ps) /\ leaves_lead path ps l) ->
  unique_keys (Object fields) = true -> property_leaves defs flat inner prefix fields description = Some l -> leaves_lead prefix fields l.
Proof.
  intros description l Hinner. revert description l. induction fields as [|[field schema] fields IH]; intros description l Hu; cbn [property_leaves].
  { intros [= <-] p Hp. by apply not_elem_of_nil in Hp. }
  apply unique_object in Hu as [Hn Hu]. cbn [im_keys map fst] in Hn. fold (im_keys fields) in Hn. apply NoDup_cons in Hn as [Hk Hn].
  assert (unique_keys (Object fields) = true) as Hf by (apply unique_object; split; [done|intros k v Hin; eapply Hu; by right]).
  assert (Hhere : im_get field ((field, schema) :: fields) = Some schema) by (cbn [im_get]; by rewrite decide_True).
  assert (Hrest : forall d l', property_leaves defs flat inner prefix fields d = Some l' -> forall p, p ∈ map fst l' -> exists rest, p = prefix ++ rest /\ leads ((field, schema) :: fields) rest).
  { intros d l' Hl' p Hp. destruct (IH d l' Hf Hl' p Hp) as (rest & -> & Hl). exists rest. split; [done|by apply leads_later]. }
  destruct (holds_object schema defs) as [o|] eqn:Eo.
  - destruct (inner _ o description) as [first|] eqn:Ei; cbn; [|done]. destruct (property_leaves defs flat inner prefix fields None) as [rest|] eqn:Er; cbn; [|done].
    intros [= <-] p. rewrite map_app, elem_of_app. intros [Hp|Hp]; [|by eapply Hrest].
    apply Hinner in Ei; [|eapply (holds_object_unique defs unique_defs schema); [eapply Hu; by left|done]]. destruct Ei as [->|(ps & Hps & Hlead)]; [by apply not_elem_of_nil in Hp|].
    destruct (Hlead p Hp) as (r & -> & Hr). exists (field :: r). rewrite <- app_assoc. split; [done|]. eapply leads_head; [done|]. right. exists ps. split; [|done].
    unfold properties_of. rewrite Eo. cbn [mbind option_bind]. by rewrite Hps.
  - destruct (flat schema) as [leaf|]; cbn; [|done].
    destruct leaf; (destruct (property_leaves defs flat inner prefix fields _) as [rest|] eqn:Er; cbn; [|done]); intros [= <-] p; cbn [map fst];
      (intros [->|Hp]%elem_of_cons; [|by eapply Hrest]); exists [field]; (split; [done|]); eapply leads_head; [done|by left|done|by left|done|by left|done|by left|done|by left|done|by left].
Qed.
Lemma leaves_lead_through fuel : forall path o d l, unique_keys (Object o) = true -> leaves fuel defs path o d = Some l ->
  l = [] \/ exists ps, im_get (lit "properties") o = Some (Object ps) /\ leaves_lead path ps l.
Proof.
  induction fuel as [|fuel IH]; intros path o d l Hu; [done|]. cbn [leaves]. unfold object_leaves.
  destruct (im_get (lit "properties") o) as [v|] eqn:Ep; [|intros [= <-]; by left]. destruct v as [| | | | |fields]; try (intros [= <-]; by left).
  intros Hl. right. exists fields. split; [done|]. eapply property_leaves_lead; [exact IH| |exact Hl]. by apply (unique_get (Object o) (lit "properties")).
Qed.
Lemma optional_leaves_lead fuel properties : forall l, unique_keys (Object properties) = true ->
  (forall name item, (name, item) ∈ properties -> optional item defs = true -> object_schema item defs = None) ->
  optional_leaves defs (leaves fuel defs) properties = Some l -> leaves_lead [] properties l.
Proof.
  induction properties as [|[name item] properties IH]; intros l Hu Hone; cbn [optional_leaves].
  { intros [= <-] p Hp. by apply not_elem_of_nil in Hp. }
  apply unique_object in Hu as [Hn Hu]. cbn [im_keys map fst] in Hn. fold (im_keys properties) in Hn. apply NoDup_cons in Hn as [Hk Hn].
  assert (unique_keys (Object properties) = true) as Hf by (apply unique_object; split; [done|intros k v Hin; eapply Hu; by right]).
  assert (Hrest : forall l', optional_leaves defs (leaves fuel defs) properties = Some l' -> leaves_lead [] ((name, item) :: properties) l').
  { intros l' Hl' p Hp. destruct (IH l' Hf (fun n i Hin => Hone n i (list_elem_of_further _ _ _ Hin)) Hl' p Hp) as (rest & -> & Hl). exists rest. split; [done|by apply leads_later]. }
  destruct (optional_object item defs) as [o|] eqn:Eo; cbn.
  - destruct (leaves fuel defs [name] o _) as [first|] eqn:Ei; cbn; [|done]. destruct (optional_leaves defs (leaves fuel defs) properties) as [rest|] eqn:Er; cbn; [|done].
    intros [= <-] p. rewrite map_app, elem_of_app. intros [Hp|Hp]; [|by eapply Hrest].
    apply leaves_lead_through in Ei; [|eapply (optional_object_unique defs unique_defs item); [eapply Hu; by left|done]]. destruct Ei as [->|(ps & Hps & Hlead)]; [by apply not_elem_of_nil in Hp|].
    destruct (Hlead p Hp) as (r & -> & Hr). exists (name :: r). split; [done|]. eapply leads_head; [cbn [im_get]; by rewrite decide_True|]. right. exists ps. split; [|done].
    unfold properties_of, holds_object. rewrite (Hone name item), Eo; [cbn [mbind option_bind]; by rewrite Hps|by left|unfold optional; by rewrite Eo].
  - destruct (optional_leaves defs (leaves fuel defs) properties) as [rest|] eqn:Er; cbn; [|done]. intros [= <-]. by apply Hrest.
Qed.
Lemma mapping_leads fuel properties mapping f : unique_keys (Object properties) = true ->
  (forall name item, (name, item) ∈ properties -> optional item defs = true -> object_schema item defs = None) ->
  flat_fields fuel properties defs = Some mapping -> f ∈ mapping -> leads properties (ff_path f).
Proof.
  intros Hu Hone Hm Hf. unfold flat_fields, fields_of in Hm. destruct (optional_leaves defs (leaves fuel defs) properties) as [fields|] eqn:El; cbn in Hm; [|done].
  destruct (with_aliases_spec fields (im_keys properties)) as (fs & Hw & Hmap & _). rewrite Hm in Hw. injection Hw as <-.
  destruct (optional_leaves_lead fuel properties fields Hu Hone El (ff_path f)) as (rest & -> & Hl); [|done].
  rewrite <- Hmap, map_map. by apply (list_elem_of_fmap_2 (fun f => ff_path f)).
Qed.

(** The tree of a reply: what was answered under an optional property, under its names. *)
Definition rooted (properties m : list (text * value)) : Prop :=
  NoDup (im_keys m) /\ forall k v, (k, v) ∈ m -> exists item, im_get k properties = Some item /\ (optional item defs = true -> named item v).
Lemma optional_holds item : optional item defs = true -> exists o, holds_object item defs = Some o.
Proof.
  unfold optional, holds_object. intros [o Ho]%bool_decide_eq_true. destruct (object_schema item defs) as [o'|]; [by exists o'|by exists o].
Qed.
Lemma insert_rooted properties m path w item k rest : unique_keys (Object properties) = true -> path = k :: rest -> im_get k properties = Some item ->
  optional item defs = true -> leads properties path -> plain w = true -> rooted properties m -> rooted properties (insert_flat_value m path w).
Proof.
  intros Hu -> Hitem Hopt Hl Hp [Hn Hm]. destruct rest as [|k' rest].
  { exfalso. destruct Hl as (k1 & rest & s & sl & [= <- <-] & Hs & [= <-] & Hleaf). simplify_eq. apply optional_holds in Hopt as [o Ho]. unfold is_leaf in Hleaf. congruence. }
  apply leads_cons in Hl as (s & ps & Hs & Hps & Hl). simplify_eq. rewrite insert_step. apply im_get_elem in Hitem as Hin.
  assert (unique_keys (Object ps) = true) as Hu' by (eapply properties_unique; [|done]; apply unique_object in Hu as [_ Hu]; by eapply Hu).
  assert (Hgo : forall fields, fields_named ps fields -> rooted properties (im_insert k (Object (insert_flat_value fields (k' :: rest) w)) m)).
  { intros fields Hf. split; [by apply im_insert_nodup|]. intros k1 v1 [[= -> ->]|Hin1]%im_insert_elem; [|by apply Hm]. exists item. split; [done|]. intros _.
    exact (fields_named_object item ps _ Hps Hu' (insert_named (k' :: rest) ps fields w Hu' Hl Hp Hf)). }
  destruct (im_get k m) as [old|] eqn:Eo; [|by apply Hgo; split; [constructor|intros ? ? ?%not_elem_of_nil]].
  destruct old as [| | | | |fields]; try done. apply Hgo. apply im_get_elem in Eo. destruct (Hm _ _ Eo) as (s1 & Hs1 & Hnamed). simplify_eq.
  eapply object_fields_named; [done|by apply Hnamed].
Qed.
(** An insertion adds what it inserts, and nothing else that is not an object. *)
Lemma insert_within_inv q v : forall m p w, within (Object (insert_flat_value m q v)) p = Some w -> is_object w = false ->
  (exists rest, p = q ++ rest /\ within v rest = Some w) \/ within (Object m) p = Some w.
Proof.
  assert (Hempty : forall p w, within (Object []) p = Some w -> is_object w = false -> False) by (intros [|k p] w; [by intros [= <-]|done]).
  induction q as [|k q IH]; intros m p w Hw Ho; [by right|]. destruct p as [|kp p]; [by injection Hw as <-|].
  assert (Hother : forall u, within (Object (im_insert k u m)) (kp :: p) = Some w -> kp <> k -> within (Object m) (kp :: p) = Some w)
    by (intros u; cbn [within]; intros Hg Hne; by rewrite im_get_insert_ne in Hg).
  destruct (decide (kp = k)) as [->|Hne].
  2: { right. destruct q as [|k' q]; [by eapply Hother|]. rewrite insert_step in Hw. destruct (im_get k m) as [[| | | | |fields]|]; try done; by eapply Hother. }
  destruct q as [|k' q].
  { cbn [insert_flat_value within] in Hw. rewrite im_get_insert_eq in Hw. left. by exists p. }
  rewrite insert_step in Hw. cbn [within] in Hw |- *. destruct (im_get k m) as [[| | | | |fields]|] eqn:Eg; try (rewrite Eg in Hw; by right); rewrite im_get_insert_eq in Hw; cbn [mbind option_bind] in Hw.
  - apply IH in Hw as [(rest & -> & Hr)|Hw]; [left; by exists rest|by right|done].
  - apply IH in Hw as [(rest & -> & Hr)|Hw]; [left; by exists rest|by destruct (Hempty _ _ Hw)|done].
Qed.
Lemma value_within path : forall m w, value_at m path = Some w -> within (Object m) path = Some w.
Proof.
  induction path as [|k path IH]; intros m w; [done|]. destruct path as [|k' path]; [cbn; by intros ->|]. rewrite value_step. cbn [within].
  destruct (im_get k m) as [[| | | | |fields]|]; try done. cbn [mbind option_bind]. apply IH.
Qed.

Section Tree.
Context (fuel : nat) (properties : list (text * value)) (mapping : list FlatField) (reply : list (text * value)).
Hypothesis unique_properties : unique_keys (Object properties) = true.
Hypothesis told_apart : forall name item, (name, item) ∈ properties -> optional item defs = true -> object_schema item defs = None.
Hypothesis mapped : flat_fields fuel properties defs = Some mapping.
Hypothesis reply_asked : forall key, key ∈ im_keys reply -> asked defs properties mapping key.
Hypothesis plain_answers : forall f w, f ∈ mapping -> (alias f, w) ∈ reply -> plain w = true.

Lemma tree_rooted : rooted properties (expanded mapping reply).
Proof.
  rewrite expanded_inserts. assert (forall k w, (k, w) ∈ reply -> asked defs properties mapping k) as Hentry.
  { intros k w Hin. apply reply_asked. change k with (fst (k, w)). by apply list_elem_of_fmap_2. }
  pose proof (mapping_at fuel defs properties mapping unique_defs unique_properties mapped) as Hat.
  pose proof (literal_at fuel defs properties mapping unique_defs unique_properties mapped) as Hlit.
  destruct (mapping_spec fuel defs properties mapping unique_defs unique_properties mapped) as (_ & _ & _ & Hheads).
  apply unique_object in unique_properties as Hup. destruct Hup as [Hnp _].
  enough (forall m, rooted properties m -> rooted properties (fold_left (fun m kv => insert_flat_value m (path_of mapping kv.1) kv.2) reply m)) as H
    by (apply H; split; [constructor|intros ? ? ?%not_elem_of_nil; done]).
  clear reply_asked. induction reply as [|[k w] rest IH]; intros m Hm; [done|]. cbn [fold_left fst snd]. apply IH.
  { intros f w' Hf Hin. eapply plain_answers; [done|by right]. } { intros k' w' Hin. eapply Hentry. by right. }
  destruct (Hentry k w ltac:(by left)) as [(f & Hf & ->)|(item & Hin & Ho)].
  - rewrite Hat by done. destruct (Hheads f Hf) as (k1 & r1 & item & Hpath & Hin & Ho). eapply insert_rooted; [done|exact Hpath|by apply im_get_nodup|done| |eapply plain_answers; [done|by left]|done].
    by eapply mapping_leads.
  - rewrite Hlit by (by eapply entry_key). cbn [insert_flat_value]. destruct Hm as [Hn Hm]. split; [by apply im_insert_nodup|].
    intros k1 v1 [[= -> ->]|Hin1]%im_insert_elem; [|by apply Hm]. exists item. split; [by apply im_get_nodup|congruence].
Qed.
(** Nothing is in the tree but the answers. *)
Lemma tree_answers p w : within (Object (expanded mapping reply)) p = Some w -> is_object w = false ->
  exists key a rest, (key, a) ∈ reply /\ p = path_of mapping key ++ rest /\ within a rest = Some w.
Proof.
  rewrite expanded_inserts. enough (forall m, within (Object (fold_left (fun m kv => insert_flat_value m (path_of mapping kv.1) kv.2) reply m)) p = Some w -> is_object w = false ->
    (exists key a rest, (key, a) ∈ reply /\ p = path_of mapping key ++ rest /\ within a rest = Some w) \/ within (Object m) p = Some w) as H.
  { intros Hw Ho. destruct (H [] Hw Ho) as [?|Hm]; [done|]. destruct p; [by injection Hm as <-|done]. }
  clear. induction reply as [|[k v] rest IH]; intros m Hw Ho; [by right|]. cbn [fold_left fst snd] in Hw. destruct (IH _ Hw Ho) as [(key & a & r & Hin & Hp)|Hm].
  - left. exists key, a, r. split; [by right|done].
  - apply insert_within_inv in Hm as [(r & -> & Hr)|Hm]; [|by right|done]. left. exists k, v, r. split; [by left|done].
Qed.
End Tree.
End Folding.

(** The properties a flattened schema shows are those asked for. *)
Lemma flat_entries_properties defs flat inner entries properties : forall done_ renamed result renamed', NoDup (im_keys entries) ->
  flat_entries defs flat inner entries done_ renamed = Some (result, renamed') ->
  (forall k, k ∉ im_keys entries -> im_get k result = im_get k done_) /\
  ((lit "properties", Object properties) ∈ entries -> exists mapping shown r r', fields_of defs inner properties = Some mapping /\
     flat_properties flat defs true mapping properties [] r = Some (shown, r') /\ im_get (lit "properties") result = Some (Object shown)).
Proof.
  induction entries as [|[key v] entries IH]; intros done_ renamed result renamed' Hn; cbn [flat_entries].
  { intros [= <- <-]. split; [done|by intros ?%not_elem_of_nil]. }
  cbn [im_keys map fst] in Hn. fold (im_keys entries) in Hn. apply NoDup_cons in Hn as [Hk Hn].
  assert (Hgo : forall s r, flat_entries defs flat inner entries (im_insert key s done_) r = Some (result, renamed') ->
    (forall k, k ∉ im_keys ((key, v) :: entries) -> im_get k result = im_get k done_) /\ im_get key result = Some s /\
    ((lit "properties", Object properties) ∈ entries -> exists mapping shown r r', fields_of defs inner properties = Some mapping /\
       flat_properties flat defs true mapping properties [] r = Some (shown, r') /\ im_get (lit "properties") result = Some (Object shown))).
  { intros s r Hr. destruct (IH _ _ _ _ Hn Hr) as [Hout Hin]. split_and!; [|by rewrite Hout, im_get_insert_eq|done].
    intros k [Hne Hk']%not_elem_of_cons. rewrite Hout by done. by apply im_get_insert_ne. }
  assert (Hother : forall (s : value) r, ((lit "properties", Object properties) = (key, v) -> False) -> flat_entries defs flat inner entries (im_insert key s done_) r = Some (result, renamed') ->
    (forall k, k ∉ im_keys ((key, v) :: entries) -> im_get k result = im_get k done_) /\
    ((lit "properties", Object properties) ∈ (key, v) :: entries -> exists mapping shown r r', fields_of defs inner properties = Some mapping /\
       flat_properties flat defs true mapping properties [] r = Some (shown, r') /\ im_get (lit "properties") result = Some (Object shown))).
  { intros s r Hne Hr. destruct (Hgo s r Hr) as (Hout & _ & Hin). split; [done|]. intros [E|Hp]%elem_of_cons; [by destruct (Hne E)|by apply Hin]. }
  destruct v as [| | | | |names]; try (destruct (flat _) as [s|]; cbn [mbind option_bind]; [|done]; by apply Hother).
  destruct (names_schemas key) eqn:Ek.
  2: { destruct (flat _) as [s|]; cbn [mbind option_bind]; [|done]. apply Hother. intros [= <- _]. by vm_compute in Ek. }
  destruct (fields_of defs inner names) as [mapping|] eqn:Ef; cbn [mbind option_bind]; [|done].
  destruct (flat_properties flat defs (teqb key (lit "properties")) mapping names [] renamed) as [[shown r']|] eqn:Ep; cbn [mbind option_bind]; [|done].
  intros Hr. destruct (Hgo _ _ Hr) as (Hout & Hhere & Hin). split; [done|]. intros [[= <- <-]|Hp]%elem_of_cons; [|by apply Hin].
  rewrite teqb_refl in Ep. by exists mapping, shown, renamed, r'.
Qed.
Lemma flat_shown fuel schema properties flat shown : unique_keys schema = true -> get schema (lit "properties") = Some (Object properties) ->
  flat_optional_objects (S fuel) schema = Some flat -> get flat (lit "properties") = Some (Object shown) ->
  exists mapping r r', flat_fields fuel properties (defs_of schema) = Some mapping /\
    flat_properties (flatten fuel (defs_of schema)) (defs_of schema) true mapping properties [] r = Some (shown, r').
Proof.
  intros Hu Hp Hf Hs. destruct schema as [| | | | |m]; try done. cbn [get] in Hp. unfold flat_optional_objects in Hf. set (defs := defs_of (Object m)) in *.
  cbn [flatten flat_node] in Hf. destruct (flat_entries defs (flatten fuel defs) (leaves fuel defs) m [] []) as [[result renamed]|] eqn:Ee; cbn [mbind option_bind] in Hf; [|done].
  injection Hf as <-. apply unique_object in Hu as [Hn _]. apply im_get_elem in Hp. destruct (flat_entries_properties _ _ _ _ properties _ _ _ _ Hn Ee) as [_ Hin].
  destruct (Hin Hp) as (mapping & shown' & r & r' & Hm & Hfp & Hg). exists mapping, r, r'. split; [done|]. assert (shown' = shown) as ->; [|done].
  cbn [get] in Hs. unfold renamed_required in Hs. destruct (im_get (lit "required") result) as [[]|]; try congruence. rewrite im_get_insert_ne in Hs by done. congruence.
Qed.

(** Where an answer of a reply comes to be, by the tree of all the answers: at its path, where no object on the way is dead; or else an object on
    the way that is dead is null in the reply folded back, and told of unless all its answers are dead. *)
Definition landed (defs schema tree folded : value) (dropped : list text) (path : list text) (w : value) : Prop :=
  (within folded path = Some w /\ forall q s v, q <> [] -> before q path -> schema_within defs schema q = Some s -> within tree q = Some v -> ~ dead defs s v) \/
  exists q s v, q <> [] /\ before q path /\ schema_within defs schema q = Some s /\ within tree q = Some v /\ dead defs s v /\
    within folded q = Some Null /\ (all_dead defs s v \/ fold_left at_key q [] ∈ dropped).

Section Root.
Context (fuel : nat) (defs schema : value) (properties : list (text * value)) (mapping : list FlatField) (reply : list (text * value)).
Hypothesis unique_defs : unique_keys defs = true.
Hypothesis unique_properties : unique_keys (Object properties) = true.
Hypothesis root : properties_of defs schema = Some properties.
Hypothesis told_apart : forall name item, (name, item) ∈ properties -> optional item defs = true -> object_schema item defs = None.
Hypothesis mapped : flat_fields fuel properties defs = Some mapping.
Hypothesis unique_reply : NoDup (im_keys reply).
Hypothesis reply_asked : forall key, key ∈ im_keys reply -> asked defs properties mapping key.
Hypothesis plain_answers : forall f w, f ∈ mapping -> (alias f, w) ∈ reply -> plain w = true.
Context (folded : value) (dropped : list text) (folds : nest (S fuel) defs (Object reply) schema [] false = Some (folded, dropped)).

Lemma root_fields : exists result, folded = Object result /\
  nest_fields defs (nest fuel defs) (Object properties) mapping false [] (expanded mapping reply) [] = Some (result, dropped).
Proof.
  cbn [nest] in folds. unfold nest_value in folds. destruct (properties_object _ _ _ root) as (o & Ho & Hop). rewrite Ho in folds. cbn [mbind option_bind] in folds.
  rewrite Hop in folds. cbn [from_option] in folds. unfold id in folds. rewrite mapped in folds. cbn [mbind option_bind] in folds.
  destruct (nest_fields _ _ _ _ _ _ _ _) as [[result d]|] eqn:E; cbn [mbind option_bind] in folds; [|done]. injection folds as <- <-. by exists result.
Qed.
Lemma answer_at f w : f ∈ mapping -> (alias f, w) ∈ reply -> within (Object (expanded mapping reply)) (ff_path f) = Some w.
Proof.
  intros Hf Hin. apply value_within. rewrite <- (mapping_at fuel defs properties mapping unique_defs unique_properties mapped f Hf).
  apply (reply_lands fuel defs properties mapping unique_defs unique_properties mapped reply unique_reply reply_asked). by apply im_get_nodup.
Qed.
Lemma answer_landed f w : f ∈ mapping -> (alias f, w) ∈ reply -> landed defs schema (Object (expanded mapping reply)) folded dropped (ff_path f) w.
Proof.
  intros Hf Hin. pose proof (answer_at f w Hf Hin) as Hw. destruct root_fields as (result & -> & Hnest).
  destruct (tree_rooted defs unique_defs fuel properties mapping reply unique_properties told_apart mapped reply_asked plain_answers) as [Hnd Hrooted].
  destruct (mapping_spec fuel defs properties mapping unique_defs unique_properties mapped) as (_ & _ & _ & Hheads). destruct (Hheads f Hf) as (k & rest & item & Hpath & Hitem & Ho).
  rewrite Hpath in *. cbn [within] in Hw. destruct (im_get k (expanded mapping reply)) as [v|] eqn:Ev; cbn [mbind option_bind] in Hw; [|done].
  apply im_get_elem in Ev as Hv. destruct (Hrooted k v Hv) as (item' & Hitem' & Hnamed). apply unique_object in unique_properties as Hup. destruct Hup as [Hnp _].
  pose proof (im_get_nodup _ _ _ Hnp Hitem) as Hget. rewrite Hget in Hitem'. injection Hitem' as <-. destruct (nest_fields_get _ unique_defs _ _ _ _ _ _ _ _ _ Hnd Hnest) as (_ & _ & Hfields).
  destruct (Hfields k v Hv) as (v1 & d & u & h & Hn & Hs & Hu & Hsub). cbn [get orb] in Hn, Hs. rewrite Hget in Hn, Hs. cbn [from_option] in Hn, Hs. unfold id in Hn, Hs.
  assert (existsb (fun f => bool_decide (head (ff_path f) = Some k)) mapping = true) as Hb.
  { apply existsb_exists. exists f. split; [by apply list_elem_of_In|]. apply bool_decide_eq_true. by rewrite Hpath. }
  rewrite Hb in Hn, Hs. change (at_key [] k) with k in Hn, Hs.
  assert (folds_to defs item v k u (d ++ h)) as Hfold by (by exists fuel, v1, d, h).
  destruct (folds_outcome defs unique_defs rest item v k u (d ++ h) w (Hnamed Ho) Hfold Hw (plain_answers f w Hf Hin)) as [[Hat Hnone]|(q & sq & vq & Hq & Hsq & Hvq & Hd & Hnull & Hwhy)].
  - left. split; [cbn [within]; by rewrite Hu|]. intros q s v' Hne Hq Hsq Hvq. destruct q as [|k' q]; [done|]. apply before_head in Hq as Hk. subst k'. apply before_cons in Hq.
    cbn [schema_within] in Hsq. rewrite root in Hsq. cbn [mbind option_bind] in Hsq. rewrite Hget in Hsq. cbn [within] in Hvq. rewrite Ev in Hvq. by apply (Hnone q).
  - right. exists (k :: q), sq, vq. split_and!; [done|by apply before_cons| | |done| |].
    + cbn [schema_within]. rewrite root. cbn [mbind option_bind]. by rewrite Hget.
    + cbn [within]. by rewrite Ev.
    + cbn [within]. by rewrite Hu.
    + destruct Hwhy as [?|Hwhy]; [by left|right]. cbn [fold_left]. change (at_key [] k) with k. by apply Hsub.
Qed.
Lemma literal_landed name item v : (name, item) ∈ properties -> optional item defs = false -> (name, v) ∈ reply -> plain v = true -> within folded [name] = Some v.
Proof.
  intros Hitem Ho Hin Hp. destruct root_fields as (result & -> & Hnest).
  destruct (tree_rooted defs unique_defs fuel properties mapping reply unique_properties told_apart mapped reply_asked plain_answers) as [Hnd _].
  pose proof (reply_lands fuel defs properties mapping unique_defs unique_properties mapped reply unique_reply reply_asked name v (im_get_nodup _ _ _ unique_reply Hin)) as Hat.
  rewrite (literal_at fuel defs properties mapping unique_defs unique_properties mapped) in Hat by by eapply entry_key. apply im_get_elem in Hat as Hv.
  destruct (nest_fields_get _ unique_defs _ _ _ _ _ _ _ _ _ Hnd Hnest) as (_ & _ & Hfields). destruct (Hfields name v Hv) as (v1 & d & u & h & Hn & Hs & Hu & _). cbn [get orb] in Hn, Hs.
  apply unique_object in unique_properties as Hup. destruct Hup as [Hnp _].
  rewrite (im_get_nodup _ _ _ Hnp Hitem) in Hn, Hs. cbn [from_option] in Hn, Hs. unfold id in Hn, Hs. apply plain_nest in Hn as [= -> ->]; [|done].
  assert (existsb (fun f => bool_decide (head (ff_path f) = Some name)) mapping = false) as Hb.
  { apply not_true_is_false. intros (f & Hf%list_elem_of_In & Hhead%bool_decide_eq_true)%existsb_exists.
    destruct (mapping_spec fuel defs properties mapping unique_defs unique_properties mapped) as (_ & _ & _ & Hheads). destruct (Hheads f Hf) as (k & rest & item' & Hpath & Hitem' & Ho').
    rewrite Hpath in Hhead. injection Hhead as ->. apply (im_get_nodup _ _ _ Hnp) in Hitem, Hitem'. congruence. }
  rewrite Hb in Hs. unfold settled in Hs. rewrite Ho in Hs. injection Hs as <- <-. cbn [within]. by rewrite Hu.
Qed.
End Root.


(** ** Flattening and folding back end *)
(** What a schema leads to: its parts, and the definition it refers to. *)
Definition referred_to (defs : value) (m : list (text * value)) : list value :=
  match as_str (im_get (lit "$ref") m) with
  | Some path => match strip_prefix path (lit "#/$defs/") with Some name => match get defs name with Some d => [d] | None => [] end | None => [] end
  | None => []
  end.
Definition needed (defs v : value) : list value :=
  match v with Array l => l | Object m => map snd m ++ referred_to defs m | _ => [] end.
(** Nothing it leads to is more than [n] steps away; no [n] is enough for a definition that refers to itself. *)
Fixpoint grounded (n : nat) (defs v : value) : bool :=
  match n with O => false | S n => forallb (grounded n defs) (needed defs v) end.

Section Ending.
Context (defs : value).
Lemma grounded_needed n v w : grounded (S n) defs v = true -> w ∈ needed defs v -> grounded n defs w = true.
Proof. cbn [grounded]. rewrite forallb_forall. intros Hg Hw. apply Hg. by apply list_elem_of_In. Qed.
Lemma grounded_up n : forall m v, (n <= m)%nat -> grounded n defs v = true -> grounded m defs v = true.
Proof.
  induction n as [|n IH]; intros m v Hm Hg; [done|]. destruct m as [|m]; [lia|]. cbn [grounded]. apply forallb_forall. intros w Hw%list_elem_of_In.
  apply IH; [lia|]. by eapply grounded_needed.
Qed.
Lemma grounded_entry n m k v : grounded (S n) defs (Object m) = true -> (k, v) ∈ m -> grounded n defs v = true.
Proof. intros Hg Hin. apply (grounded_needed n (Object m)); [done|]. apply elem_of_app. left. change v with (snd (k, v)). by apply list_elem_of_fmap_2. Qed.
Lemma grounded_get n v key w : grounded (S n) defs v = true -> get v key = Some w -> grounded n defs w = true.
Proof. destruct v; try done. intros Hg Hw. cbn [get] in Hw. apply im_get_elem in Hw. by eapply grounded_entry. Qed.
Lemma resolved_grounded n node r : grounded n defs node = true -> resolved_node node defs = Some r -> grounded n defs r = true.
Proof.
  unfold resolved_node. intros Hg. destruct n as [|n]; [done|]. destruct (as_str _) as [path|] eqn:Ep; [|by intros [= <-]].
  destruct (strip_prefix path (lit "#/$defs/")) as [name|] eqn:En; intros Hd; cbn in Hd; [|done]. apply (grounded_up n); [lia|]. apply (grounded_needed n node); [exact Hg|].
  destruct node as [| | | | |m]; try done. apply elem_of_app. right. cbn [get] in Ep. unfold referred_to. rewrite Ep, En, Hd. by left.
Qed.
Lemma object_schema_grounded n node o : grounded n defs node = true -> object_schema node defs = Some o -> grounded n defs (Object o) = true.
Proof.
  unfold object_schema. intros Hg. destruct (resolved_node node defs) as [r|] eqn:Er; cbn; [|done]. apply (resolved_grounded n) in Er; [|done].
  destruct r as [| | | | |m]; try done. destruct (im_contains _ m); [|done]. by intros [= <-].
Qed.
Lemma optional_object_grounded n node o : grounded n defs node = true -> optional_object node defs = Some o -> grounded n defs (Object o) = true.
Proof.
  unfold optional_object. intros Hg. destruct n as [|n]; [done|]. destruct (get node (lit "anyOf")) as [b|] eqn:Eb; [|done]. apply (grounded_get n) in Eb; [|done].
  destruct b as [| | | |[|x [|y [|]]]|]; try done. destruct n as [|n]; [done|].
  assert (grounded n defs x = true) as Hx by (eapply grounded_needed; [exact Eb|by left]).
  assert (grounded n defs y = true) as Hy by (eapply grounded_needed; [exact Eb|right; by left]).
  destruct (is_null_branch_of y); [|destruct (is_null_branch_of x); [|done]]; intros Ho; (apply (grounded_up n); [lia|]); (eapply object_schema_grounded; [|exact Ho]); done.
Qed.
Lemma holds_object_grounded n node o : grounded n defs node = true -> holds_object node defs = Some o -> grounded n defs (Object o) = true.
Proof.
  unfold holds_object. intros Hg. destruct (object_schema node defs) eqn:E; intros Ho; [simplify_eq; by eapply object_schema_grounded|by eapply optional_object_grounded].
Qed.

(** Leaves, none of whose paths is longer than [b]. *)
Definition leaves_within (b : nat) (r : option (list (list text * value))) : Prop := exists l, r = Some l /\ forall p, p ∈ map fst l -> (length p <= b)%nat.
Lemma leaves_within_nil b : leaves_within b (Some []).
Proof. exists []. split; [done|by intros ? ?%not_elem_of_nil]. Qed.
Lemma leaves_within_le b b' r : (b <= b')%nat -> leaves_within b r -> leaves_within b' r.
Proof. intros Hb (l & Hl & Hp). exists l. split; [done|]. intros p Hin. specialize (Hp p Hin). lia. Qed.
Lemma leaves_within_app b first rest : leaves_within b first -> leaves_within b rest -> leaves_within b (l ← first; l' ← rest; Some (l ++ l')).
Proof.
  intros (l & -> & Hl) (l' & -> & Hl'). exists (l ++ l'). split; [done|]. intros p Hin. rewrite map_app in Hin. apply elem_of_app in Hin as [?|?]; auto.
Qed.
Lemma leaves_within_cons b path s rest : (length path <= b)%nat -> leaves_within b rest -> leaves_within b (l ← rest; Some ((path, s) :: l)).
Proof.
  intros Hp (l & -> & Hl). exists ((path, s) :: l). split; [done|]. cbn [map fst]. intros p [->|Hin]%elem_of_cons; auto.
Qed.
Lemma property_leaves_end flat inner prefix b fields : (length prefix + 1 <= b)%nat -> (forall k s, (k, s) ∈ fields -> is_Some (flat s)) ->
  (forall k s o d, (k, s) ∈ fields -> holds_object s defs = Some o -> leaves_within b (inner (prefix ++ [k]) o d)) ->
  forall d, leaves_within b (property_leaves defs flat inner prefix fields d).
Proof.
  intros Hb. induction fields as [|[k s] fields IH]; intros Hflat Hinner d; cbn [property_leaves]; [apply leaves_within_nil|].
  assert (forall d, leaves_within b (property_leaves defs flat inner prefix fields d)) as Hrest.
  { apply IH; [intros k' s' Hin; eapply Hflat; by right|intros k' s' o d' Hin; eapply Hinner; by right]. }
  assert (length (prefix ++ [k]) <= b)%nat as Hl by (rewrite length_app; cbn; lia).
  destruct (holds_object s defs) as [o|] eqn:Eo; [apply leaves_within_app; [eapply Hinner; [by left|done]|done]|].
  destruct (Hflat k s ltac:(by left)) as [leaf ->]. cbn. destruct leaf; by apply leaves_within_cons.
Qed.
Lemma optional_leaves_end inner b properties :
  (forall k s o d, (k, s) ∈ properties -> optional_object s defs = Some o -> leaves_within b (inner [k] o d)) -> leaves_within b (optional_leaves defs inner properties).
Proof.
  induction properties as [|[k s] properties IH]; intros Hinner; cbn [optional_leaves]; [apply leaves_within_nil|]. apply leaves_within_app.
  - destruct (optional_object s defs) as [o|] eqn:Eo; [|apply leaves_within_nil]. eapply Hinner; [by left|done].
  - apply IH. intros k' s' o d Hin. eapply Hinner. by right.
Qed.
Lemma flat_properties_end flat properties_ mapping names : (forall k s, (k, s) ∈ names -> is_Some (flat s)) ->
  forall done_ renamed, is_Some (flat_properties flat defs properties_ mapping names done_ renamed).
Proof.
  induction names as [|[k s] names IH]; intros Hflat done_ renamed; cbn [flat_properties]; [by eexists|].
  assert (forall done_ renamed, is_Some (flat_properties flat defs properties_ mapping names done_ renamed)) as Hrest by (apply IH; intros k' s' Hin; eapply Hflat; by right).
  destruct (properties_ && optional s defs); [done|]. destruct (Hflat k s ltac:(by left)) as [item ->]. cbn. done.
Qed.
Lemma fields_of_end inner b properties :
  (forall k s o d, (k, s) ∈ properties -> optional_object s defs = Some o -> leaves_within b (inner [k] o d)) ->
  exists fs, fields_of defs inner properties = Some fs /\ forall f, f ∈ fs -> (length (ff_path f) <= b)%nat.
Proof.
  intros Hinner. destruct (optional_leaves_end inner b properties Hinner) as (l & Hl & Hp). unfold fields_of. rewrite Hl. cbn.
  destruct (with_aliases_spec l (im_keys properties)) as (fs & -> & Hm & _). exists fs. split; [done|]. intros f Hf. apply Hp. rewrite <- Hm, map_map. cbn [fst].
  apply list_elem_of_fmap. by exists f.
Qed.
Lemma flat_entries_end flat inner b entries : (forall k s, (k, s) ∈ entries -> is_Some (flat s)) ->
  (forall k names n s, (k, Object names) ∈ entries -> (n, s) ∈ names -> is_Some (flat s)) ->
  (forall k names n s o d, (k, Object names) ∈ entries -> (n, s) ∈ names -> optional_object s defs = Some o -> leaves_within b (inner [n] o d)) ->
  forall done_ renamed, is_Some (flat_entries defs flat inner entries done_ renamed).
Proof.
  induction entries as [|[k s] entries IH]; intros Hflat Hnames Hinner done_ renamed; cbn [flat_entries]; [by eexists|].
  assert (forall done_ renamed, is_Some (flat_entries defs flat inner entries done_ renamed)) as Hrest.
  { apply IH; [intros ?? Hin; eapply Hflat; by right|intros ???? Hin; eapply Hnames; by right|intros ?????? Hin; eapply Hinner; by right]. }
  destruct (Hflat k s ltac:(by left)) as [out Hout].
  destruct s as [| | | | |names]; rewrite ?Hout; try apply Hrest. destruct (names_schemas k); [|apply Hrest].
  destruct (fields_of_end inner b names) as (fs & -> & _); [intros n s o d Hin; eapply Hinner; [by left|done]|].
  destruct (flat_properties_end flat (teqb k (lit "properties")) fs names ltac:(intros n s Hin; eapply Hnames; [by left|done]) [] renamed) as [[out' renamed'] Ho].
  cbn [mbind option_bind]. rewrite Ho. apply Hrest.
Qed.
(** Flattening ends on what is grounded, as do its leaves. *)
Lemma flatten_ends_at n : (forall node fuel, grounded n defs node = true -> (n <= fuel)%nat -> is_Some (flatten fuel defs node)) /\
  forall o prefix d fuel, grounded n defs (Object o) = true -> (n <= fuel)%nat -> leaves_within (length prefix + n) (leaves fuel defs prefix o d).
Proof.
  induction (lt_wf n) as [n _ IH]. destruct n as [|n]; [by split|].
  assert (forall m node fuel, (m < S n)%nat -> grounded m defs node = true -> (n <= fuel)%nat -> is_Some (flatten fuel defs node)) as Hflat.
  { intros m node fuel Hm Hg Hf. apply (IH m Hm); [done|lia]. }
  assert (forall m node o prefix d fuel, (m < S n)%nat -> grounded m defs node = true -> holds_object node defs = Some o -> (n <= fuel)%nat ->
            leaves_within (length prefix + m) (leaves fuel defs prefix o d)) as Hleaves.
  { intros m node o prefix d fuel Hm Hg Ho Hf. apply (IH m Hm); [by eapply holds_object_grounded|lia]. }
  split.
  - intros node [|fuel] Hg Hfuel; [lia|]. apply Nat.succ_le_mono in Hfuel. cbn [flatten]. destruct node as [| | | |l|m]; cbn [flat_node]; try by eexists.
    + assert (is_Some (mapM (flatten fuel defs) l)) as [out ->]; [|by eexists]. apply mapM_is_Some, Forall_forall. intros v Hv.
      apply (Hflat n); [lia| |done]. by apply (grounded_needed n (Array l)).
    + destruct (flat_entries_end (flatten fuel defs) (leaves fuel defs) (S n) m) with (done_ := @nil (text * value)) (renamed := @nil (text * list text)) as [[out renamed] ->].
      * intros k s Hin. apply (Hflat n); [lia| |done]. by eapply grounded_entry.
      * intros k names m' s Hin Hin'. apply grounded_entry with (2 := Hin) in Hg. destruct n as [|n]; [done|]. apply (Hflat n); [lia| |done]. by eapply grounded_entry.
      * intros k names m' s o d Hin Hin' Ho. apply grounded_entry with (2 := Hin) in Hg. destruct n as [|n]; [done|]. apply grounded_entry with (2 := Hin') in Hg.
        apply (leaves_within_le (length [m'] + n)); [cbn; lia|]. apply (IH n); [lia|by eapply optional_object_grounded|lia].
      * by eexists.
  - intros o prefix d [|fuel] Hg Hfuel; [lia|]. apply Nat.succ_le_mono in Hfuel. cbn [leaves]. unfold object_leaves.
    destruct (im_get (lit "properties") o) as [p|] eqn:Ep; [|apply leaves_within_nil]. destruct p as [| | | | |fields]; try apply leaves_within_nil.
    apply im_get_elem in Ep. apply grounded_entry with (2 := Ep) in Hg. destruct n as [|n]; [done|]. apply property_leaves_end.
    + lia.
    + intros k s Hin. apply (Hflat n); [lia| |done]. by eapply grounded_entry.
    + intros k s o' d' Hin Ho. apply (leaves_within_le (length (prefix ++ [k]) + n)); [rewrite length_app; cbn; lia|].
      apply (Hleaves n s); [lia|by eapply grounded_entry|done|done].
Qed.
Lemma flat_fields_end n names fuel : grounded n defs (Object names) = true -> (n <= fuel)%nat ->
  exists fs, flat_fields fuel names defs = Some fs /\ forall f, f ∈ fs -> (length (ff_path f) <= n)%nat.
Proof.
  intros Hg Hf. destruct n as [|n]; [done|]. apply fields_of_end. intros k s o d Hin Ho. apply grounded_entry with (2 := Hin) in Hg.
  apply (leaves_within_le (length [k] + n)); [cbn; lia|]. apply (proj2 (flatten_ends_at n)); [by eapply optional_object_grounded|lia].
Qed.
(** Entries no deeper than a map of depth [b] holds. *)
Definition entries_within (b : nat) (m : list (text * value)) : Prop := forall k v, (k, v) ∈ m -> (depth v < b)%nat.
Lemma object_depth b m : (0 < b)%nat -> entries_within b m -> (depth (Object m) <= b)%nat.
Proof.
  intros Hb Hm. change (S (max_list_with (fun kv : text * value => match kv with (_, v) => depth v end) m) <= b)%nat.
  revert Hm. induction m as [|[k v] m IH]; intros Hm; cbn [max_list_with]; [lia|]. pose proof (Hm k v ltac:(by left)).
  specialize (IH ltac:(intros k' v' Hin; apply (Hm k'); by right)). lia.
Qed.
Lemma insert_within v path : forall b m, entries_within b m -> (length path + depth v <= b)%nat -> entries_within b (insert_flat_value m path v).
Proof.
  induction path as [|k path IH]; intros b m Hm Hb; [done|]. destruct path as [|k' path].
  - cbn [insert_flat_value]. intros k' v' [[= -> ->]|Hin]%im_insert_elem; [cbn in Hb; lia|by apply Hm in Hin].
  - pose proof (depth_positive v). cbn [length] in Hb. rewrite insert_step. destruct b as [|b]; [lia|].
    assert (forall fields, entries_within b fields -> entries_within (S b) (im_insert k (Object (insert_flat_value fields (k' :: path) v)) m)) as Hinner.
    { intros fields Hf k1 v1 [Heq|Hin]%im_insert_elem; [|by apply Hm in Hin]. apply (f_equal snd) in Heq. cbn [snd] in Heq. subst v1.
      enough (depth (Object (insert_flat_value fields (k' :: path) v)) <= b)%nat by lia. apply object_depth; [lia|]. apply IH; [done|cbn [length]; lia]. }
    destruct (im_get k m) as [[| | | | |fields]|] eqn:Eg; try done; apply Hinner; [|by intros ?? ?%not_elem_of_nil].
    apply im_get_elem, Hm in Eg. intros k1 v1 Hin. apply depth_entry in Hin. lia.
Qed.
Lemma expanded_within n d mapping reply : (forall f, f ∈ mapping -> (length (ff_path f) <= n)%nat) -> (0 < n)%nat -> (depth (Object reply) <= d)%nat ->
  entries_within (d + n - 1) (expanded mapping reply).
Proof.
  intros Hp Hn Hd. rewrite expanded_inserts. assert (forall k v, (k, v) ∈ reply -> (depth v < d)%nat) as Hr by (intros k v Hin; apply depth_entry in Hin; lia). clear Hd.
  assert (entries_within (d + n - 1) (@nil (text * value))) as Hm by (by intros ?? ?%not_elem_of_nil). revert Hm. generalize (@nil (text * value)).
  induction reply as [|[k v] reply IH]; intros m Hm; cbn [fold_left fst snd]; [done|]. apply IH; [intros ?? Hin; eapply Hr; by right|]. apply insert_within; [done|].
  pose proof (Hr k v ltac:(by left)). enough (length (path_of mapping k) <= n)%nat by lia. unfold path_of. destruct (find _ mapping) as [f|] eqn:Ef; [|cbn; lia].
  apply find_some in Ef as [Hf%list_elem_of_In _]. by apply Hp.
Qed.

Lemma grounded_null n : (0 < n)%nat -> grounded n defs Null = true.
Proof. by destruct n; [lia|]. Qed.
Lemma grounded_or_null n v key : grounded (S (S n)) defs v = true -> grounded (S n) defs (default Null (get v key)) = true.
Proof. intros Hg. destruct (get v key) as [w|] eqn:E; [|done]. by eapply grounded_get. Qed.
Lemma items_schema_end n : forall fuel node, grounded n defs node = true -> (n <= fuel)%nat ->
  exists r, items_schema fuel defs node = Some r /\ forall i, r = Some i -> grounded (pred n) defs i = true.
Proof.
  induction (lt_wf n) as [n _ IH]. intros [|fuel] node Hg Hf; [by destruct n; [|lia]|]. destruct n as [|n]; [done|]. cbn [items_schema pred].
  destruct (resolved_node node defs) as [r|] eqn:Er; [|by eexists]. apply (resolved_grounded (S n)) in Er; [|done].
  destruct (get r (lit "items")) as [i|] eqn:Ei. { eexists. split; [done|]. intros i' [= <-]. by eapply grounded_get. }
  destruct (get r (lit "anyOf")) as [a|] eqn:Ea; [|by eexists]. apply (grounded_get n) in Ea; [|done]. destruct a as [| | | |branches|]; try by eexists.
  assert (forall b, b ∈ branches -> exists r, items_schema fuel defs b = Some r /\ forall i, r = Some i -> grounded n defs i = true) as Hb.
  { intros b Hin. destruct n as [|n]; [done|]. apply (grounded_needed n (Array branches) b) in Ea; [|done]. destruct (IH n ltac:(lia) fuel b Ea ltac:(lia)) as (r' & Hr' & Hi).
    exists r'. split; [done|]. intros i Hr. apply (grounded_up (pred n)); [lia|by apply Hi]. }
  clear Ea Ei Er. induction branches as [|b branches IHb]; [by eexists|]. destruct (Hb b ltac:(by left)) as (found & -> & Hi). cbn.
  destruct found as [i|]; [by eexists|]. apply IHb. intros b' Hin. apply Hb. by right.
Qed.
End Ending.

Section FoldingEnds.
Context (defs : value).
Lemma nest_items_end nested item path items : (forall v path, v ∈ items -> is_Some (nested v item path false)) -> forall i, is_Some (nest_items nested item path i items).
Proof.
  induction items as [|v items IH]; intros Hn i; cbn [nest_items]; [by eexists|].
  destruct (Hn v (at_key path (show_Z (Z.of_nat i))) ltac:(by left)) as [[v' dropped] ->]. cbn.
  destruct (IH ltac:(intros w p Hin; apply Hn; by right) (S i)) as [[vs more] ->]. by eexists.
Qed.
Lemma nest_fields_end nested properties mapping in_flat_object path fields :
  (forall k v path flattened, (k, v) ∈ fields -> is_Some (nested v (default Null (get properties k)) path flattened)) ->
  forall done_, is_Some (nest_fields defs nested properties mapping in_flat_object path fields done_).
Proof.
  induction fields as [|[k v] fields IH]; intros Hn done_; cbn [nest_fields]; [by eexists|].
  match goal with |- context [nested v ?f ?p ?b] => destruct (Hn k v p b ltac:(by left)) as [[v' dropped] ->] end. cbn [mbind option_bind].
  destruct (settled defs _ v' _ _) as [v'' here].
  destruct (IH ltac:(intros k' w p b Hin; apply Hn; by right) (im_insert k v'' done_)) as [[result more] ->]. by eexists.
Qed.
(** A reply of depth [d] folded back along a schema grounded in [n] steps. *)
Lemma nest_ends_at fuel : forall n d v node path in_flat_object, grounded n defs node = true -> (depth v <= d)%nat -> (d + n * n < fuel)%nat ->
  is_Some (nest fuel defs v node path in_flat_object).
Proof.
  induction fuel as [|fuel IH]; intros n d v node path in_flat_object Hg Hd Hf; [lia|]. cbn [nest]. destruct n as [|n]; [done|].
  destruct v as [| | | |items|map_]; cbn [nest_value]; try by eexists.
  - destruct (items_schema_end defs (S n) fuel node Hg ltac:(lia)) as (r & -> & Hi). cbn [mbind option_bind].
    destruct (nest_items_end (nest fuel defs) (default Null r) path items) with (i := 0%nat) as [[vs dropped] ->]; [|by eexists].
    intros v p Hin. apply depth_item in Hin. destruct r as [i|]; cbn [default]; [apply (IH n (pred d))|apply (IH 1%nat (pred d))]; try done; try nia. by apply Hi.
  - match goal with |- context [default Null ?o] => set (properties := default Null o) end.
    assert (grounded (S n) defs properties = true /\ forall names, properties = Object names -> grounded n defs properties = true) as [Hp Hpn].
    { subst properties. destruct (holds_object node defs) as [o|] eqn:Eo; [|by split]. apply (holds_object_grounded defs (S n)) in Eo; [|done].
      cbn [mbind option_bind]. destruct (im_get (lit "properties") o) as [p|] eqn:Ep; [|by split]. apply im_get_elem in Ep. apply grounded_entry with (2 := Ep) in Eo.
      split; [apply (grounded_up defs n); [lia|done]|done]. }
    assert (exists mapping, match properties with Object names => flat_fields fuel names defs | _ => Some [] end = Some mapping /\
              forall f, f ∈ mapping -> (length (ff_path f) <= S n)%nat) as (mapping & -> & Hm).
    { assert (forall f : FlatField, f ∈ [] -> (length (ff_path f) <= S n)%nat) as Hnone by (by intros ? ?%not_elem_of_nil).
      destruct properties as [| | | | |names]; try (by exists []). apply flat_fields_end; [done|lia]. }
    cbn [mbind option_bind]. pose proof (expanded_within (S n) d mapping map_ Hm ltac:(lia) Hd) as Hw.
    destruct (nest_fields_end (nest fuel defs) properties mapping in_flat_object path (expanded mapping map_)) with (done_ := @nil (text * value)) as [[result dropped] ->];
      [|by eexists].
    intros k v p b Hin. apply Hw in Hin. destruct (get properties k) as [field|] eqn:Ef; cbn [default].
    + destruct properties as [| | | | |names]; try done. specialize (Hpn names eq_refl). destruct n as [|n]; [done|].
      apply (IH n (d + S (S n) - 2)%nat); [by eapply grounded_get|lia|nia].
    + apply (IH 1%nat (d + S n - 2)%nat); [done|lia|nia].
Qed.
End FoldingEnds.

(** C33: flattening a schema and folding a reply back end: on a schema nothing of which is more than [n] steps away, through its definitions, [n] is fuel
    enough for the flat form and [n * n] more than the reply's depth for the fold. *)
Theorem flat_forms_end n schema reply fuel : grounded n (defs_of schema) schema = true ->
  ((n <= fuel)%nat -> is_Some (flat_optional_objects fuel schema)) /\ ((depth reply + n * n < fuel)%nat -> is_Some (nest_flat_objects fuel schema reply)).
Proof.
  intros Hg. split; intros Hf; [by apply (flatten_ends_at (defs_of schema) n)|]. by apply (nest_ends_at (defs_of schema) fuel n (depth reply)).
Qed.

(** ** Literal names beside an optional object *)
Definition string_schema : value := typed_schema "string" [].
Definition names_of (l : list String.string) : value := Array (map (fun n => Str (lit n)) l).
(** Names that look like aliases beside an optional object, and one inside it. *)
Definition colliding : value :=
  typed_schema "object"
    [("properties"%string, obj
       [("a__b"%string, string_schema); ("a__b__1"%string, string_schema);
        ("a"%string, obj [("anyOf"%string, Array
          [typed_schema "object"
             [("properties"%string, obj
                [("b"%string, string_schema); ("nested__name"%string, string_schema);
                 ("nested"%string, typed_schema "object" [("properties"%string, obj [("name"%string, string_schema)]); ("required"%string, names_of ["name"%string])])]);
              ("required"%string, names_of ["b"; "nested__name"; "nested"]%string)];
           typed_schema "null" []])])]);
     ("required"%string, names_of ["a"; "a__b"; "a__b__1"]%string)].
Definition colliding_flat : value := Eval vm_compute in default Null (flat_optional_objects 6 colliding).
Definition colliding_reply : value :=
  Eval vm_compute in match get colliding_flat (lit "properties") with Some (Object ps) => Object (map (fun k => (k, Str k)) (im_keys ps)) | _ => Null end.
Example colliding_nests : nest_flat_objects 6 colliding colliding_reply = Some (obj
  [("a__b"%string, Str (lit "a__b")); ("a__b__1"%string, Str (lit "a__b__1"));
   ("a"%string, obj [("b"%string, Str (lit "a__b__2")); ("nested__name"%string, Str (lit "a__nested__name"));
                     ("nested"%string, obj [("name"%string, Str (lit "a__nested__name__1"))])])], []).
Proof. by vm_compute. Qed.
Example colliding_required : get colliding_flat (lit "required") = Some (names_of ["a__b__2"; "a__nested__name"; "a__nested__name__1"; "a__b"; "a__b__1"]%string).
Proof. by vm_compute. Qed.
(** Half an object is set to null and its path returned. *)
Definition half_reply : list (text * value) :=
  Eval vm_compute in entries_of (obj [("a__b"%string, Str []); ("a__b__1"%string, Str []); ("a__b__2"%string, Str (lit "x")); ("a__nested__name"%string, Null)]).
Definition half_folded : value := obj [("a__b"%string, Str []); ("a__b__1"%string, Str []); ("a"%string, Null)].
Example half_answered : nest_flat_objects 6 colliding (Object half_reply) = Some (half_folded, [lit "a"]).
Proof. by vm_compute. Qed.

Definition colliding_properties : list (text * value) := Eval vm_compute in entries_of (default Null (get colliding (lit "properties"))).
Definition colliding_shown : list (text * value) := Eval vm_compute in entries_of (default Null (get colliding_flat (lit "properties"))).
Lemma colliding_told_apart name item : (name, item) ∈ colliding_properties -> optional item (defs_of colliding) = true -> object_schema item (defs_of colliding) = None.
Proof. unfold colliding_properties. intros Hin _. repeat (apply elem_of_cons in Hin as [[= -> ->]|Hin]; [by vm_compute|]). by apply not_elem_of_nil in Hin. Qed.
Lemma half_shown key : key ∈ im_keys half_reply -> key ∈ im_keys colliding_shown.
Proof.
  intros Hk. assert (Forall (fun key => key ∈ im_keys colliding_shown) (im_keys half_reply)) as Hall by (apply (bool_decide_eq_true_1 _); by vm_compute).
  rewrite Forall_forall in Hall. by apply Hall.
Qed.
Lemma half_plain key w : (key, w) ∈ half_reply -> key ∉ im_keys colliding_properties -> plain w = true.
Proof. unfold half_reply. intros Hin _. repeat (apply elem_of_cons in Hin as [[= -> ->]|Hin]; [by vm_compute|]). by apply not_elem_of_nil in Hin. Qed.
Theorem flat_forms_end_witness :
  ((11 <= 130)%nat -> is_Some (flat_optional_objects 130 colliding)) /\
  ((depth colliding_reply + 11 * 11 < 130)%nat -> is_Some (nest_flat_objects 130 colliding colliding_reply)).
Proof. apply (flat_forms_end 11 colliding colliding_reply 130). by vm_compute. Defined.
