(* ===== verification/Retry.v ===== *)
(** Repeating a model request: [post_with_retry] and [post] of
    [crates/fastbrowse-clients/src/validation.rs], over the responses of [http.rs].

    The network is what each attempt comes back with, by attempt number; what a call records is
    threaded as its [RequestUsage], and the waits between attempts are collected in order.  How
    bytes decode to text and to JSON is the interface [BodyReader].  The trace, the log and the
    clock (apart from the seconds a failure reports) are left out. *)

From S2P Require Import Prelude Float64 PyText Json DateTime Models Ledger Lax Config Receipts Spend Decision Validation.

Class BodyReader := { utf8_lossy : list Z -> text; from_slice : list Z -> result value JsonError }.

(** ** Responses ([http.rs]) *)
Record Response := mkResponse {
  r_status : Z;
  r_headers : list (text * text);
  r_body : list Z;
  credential : text;
}.

Definition header (hs : list (text * text)) (name : text) : option text :=
  snd <$> find (fun kv => teqb (ascii_lower kv.1) (ascii_lower name)) hs.

Definition scrub (t credential : text) : text :=
  if is_empty credential then t else replace credential (lit "[api key]") t.

Definition is_success (r : Response) : bool := in_range 200 299 (r_status r).

(** Which credential an error must not echo: the header the request carried it in. *)
Definition request_credential (headers : list (text * text)) (credential_header : option text) : text :=
  let strip_bearer (v : text) := default v (strip_prefix v (lit "Bearer ")) in
  match header headers (lit "authorization") with
  | Some v => trim_matches is_whitespace (strip_bearer v)
  | None =>
      match header headers (lit "x-api-key") with
      | Some v => trim_matches is_whitespace v
      | None =>
          match header headers (lit "api-key") with
          | Some v => trim_matches is_whitespace v
          | None =>
              match credential_header ≫= header headers with
              | Some v => trim_matches is_whitespace v
              | None => []
              end
          end
      end
  end.

(** A finished request: a response, or how the transport failed, by the name it reports. *)
Inductive Sent := Got (r : Response) | Timeout (name : text) | Transient (name : text) | Fatal (name : text).

(** *** What a failed response says *)
Fixpoint field (v : option value) (keys : list text) : option value :=
  match keys with
  | [] => v
  | key :: keys => match v with Some (Object m) => field (im_get key m) keys | _ => None end
  end.

Definition wrapped_reason (body : option value) : option text :=
  let reason key :=
    match as_str (field body [lit "error"; lit "param"; lit key]) with
    | Some r => if is_empty r then None else Some r
    | None => None
    end in
  match reason "message"%string with Some r => Some r | None => reason "error"%string end.

Section Responses.
Context `{BodyReader}.

Definition response_text (r : Response) : text := utf8_lossy (r_body r).
Definition json_value (r : Response) : option value :=
  match from_slice (r_body r) with Ok v => Some v | Err _ => None end.

Definition json_object `{FloatFormat} (r : Response) : result (list (text * value)) text :=
  match from_slice (r_body r) with
  | Ok (Object m) => Ok m
  | Ok _ => Err (errors_json [line_error (lit "dict_type") [] (lit "Input should be an object") None])
  | Err error => Err (errors_json [json_invalid (response_text r) error])
  end.

Definition body_excerpt (r : Response) : text := prefix (scrub (response_text r) (credential r)) 400.

Definition describe (r : Response) : text :=
  let body := json_value r in
  match as_str (field body [lit "error"; lit "message"]) with
  | None =>
      let excerpt := body_excerpt r in
      lit "HTTP " ++ show_Z (r_status r) ++ lit ": " ++ (if is_empty excerpt then lit "(empty body)" else excerpt)
  | Some message =>
      let kind := as_str (field body [lit "error"; lit "type"]) in
      let upstream :=
        as_str (field body [lit "providerMetadata"; lit "gateway"; lit "routing"; lit "resolvedProvider"]) in
      let t :=
        lit "HTTP " ++ show_Z (r_status r) ++ match kind with Some k => lit " " ++ k | None => [] end ++ lit ": "
          ++ prefix (scrub message (credential r)) 300 in
      let t := t ++ match upstream with Some u => lit " (via " ++ u ++ lit ")" | None => [] end in
      let t :=
        match wrapped_reason body with
        | Some reason =>
            if teqb reason message then t
            else t ++ lit "; the provider said: " ++ prefix (scrub reason (credential r)) 200
        | None => t
        end in
      scrub t (credential r)
  end.

Definition response_error {A} (r : Response) (detail : text) : DecisionError A :=
  DecisionFailed (prefix (scrub detail (credential r)) 300 ++ lit "; " ++ describe r).

(** ** Repeating a request *)
Definition RETRY_DELAYS_SECONDS : list f64 := [dec 5 1; dec 15 1; f64_of_Z 4; f64_of_Z 8; f64_of_Z 8].
Definition RETRYABLE_STATUS : list Z := [408; 429; 500; 502; 503; 504; 520; 521; 522; 523; 524; 529].
Definition MAX_BACKOFF_SECONDS : f64 := f64_of_Z 10.
Definition JEV_ATTEMPT_SECONDS : f64 := f64_of_Z 15.

Definition retryable (r : Response) : bool :=
  if bool_decide (r_status r ∈ RETRYABLE_STATUS) then true
  else if is_success r then false
  else
    let flagged keys :=
      match field (json_value r) (map lit keys) with Some (Bool true) => true | _ => false end in
    flagged ["error"%string; "param"%string; "isRetryable"%string] || flagged ["error"%string; "isRetryable"%string].

Section Waits.
Context `{RF : ReadFloat}.

(** [f64::clamp]. *)
Definition clamp (x low high : f64) : f64 :=
  let x := if f64_lt x low then low else x in
  if f64_gt x high then high else x.

(** The first header present decides. *)
Fixpoint backoff_headers (r : Response) (headers : list (String.string * f64)) (delay : f64) : f64 :=
  match headers with
  | [] => delay
  | (name, scale) :: headers =>
      match header (r_headers r) (lit name) with
      | None => backoff_headers r headers delay
      | Some raw =>
          match float_of (Str raw) with
          | Ok secs =>
              if is_nan secs then delay else clamp (f64_mul secs scale) f64_zero MAX_BACKOFF_SECONDS
          | Err _ => delay
          end
      end
  end.

Definition backoff (response : option Response) (delay : f64) : f64 :=
  match response with
  | None => delay
  | Some r => backoff_headers r [("retry-after-ms"%string, dec 1 3); ("retry-after"%string, f64_of_Z 1)] delay
  end.
End Waits.

Inductive RetryStop :=
| StopBudget (e : BudgetExceeded)
| StopFatal (name : text)
| Split (start_attempt : nat) (usage : RequestUsage).

Record Attempts := mkAttempts {
  attempt_seconds : f64;
  before_retry : option (nat -> result unit BudgetExceeded);
  start_attempt : nat;
  split_batch : bool;
}.

Section Sending.
Context `{FX : FixedFormat} `{RF : ReadFloat}.

(** A request dropped in flight is charged, not free ([InFlight]'s drop). *)
Definition drop_in_flight (u : RequestUsage) : RequestUsage :=
  mkUsage (us_requests u) (consecutive_5xx u) (wrap64 (us_unaccounted u + 1)) (failures u).

(** [send] once its request finished. *)
Definition send (attempt_secs : f64) (u : RequestUsage) (sent : Sent) : RequestUsage * result (option Response) text :=
  let u := mkUsage (wrap64 (us_requests u + 1)) (consecutive_5xx u) (us_unaccounted u) (failures u) in
  let failed (response : option Response) (failure : text) :=
    let server := match response with Some r => 500 <=? r_status r | None => false end in
    let lost := match response with None => wrap64 (us_unaccounted u + 1) | Some _ => us_unaccounted u end in
    (mkUsage (us_requests u) (if server then wrap64 (consecutive_5xx u + 1) else 0) lost (failures u ++ [failure]),
     Ok response) in
  match sent with
  | Got r => if negb (retryable r) then (u, Ok (Some r)) else failed (Some r) (describe r)
  | Timeout name => failed None (lit "silent for " ++ no_decimals attempt_secs ++ lit "s (" ++ name ++ lit ")")
  | Transient name => failed None (lit "no response (" ++ name ++ lit ")")
  | Fatal name =>
      (mkUsage (us_requests u) (consecutive_5xx u) (wrap64 (us_unaccounted u + 1)) (failures u), Err name)
  end.

(** The loop over the attempts left; [net] is what each attempt's request comes back with. *)
Fixpoint attempt_loop (a : Attempts) (net : nat -> Sent) (todo : list nat) (response : option Response)
    (u : RequestUsage) (waits : list f64) : result (option Response) RetryStop * RequestUsage * list f64 :=
  match todo with
  | [] => (Ok response, u, waits)
  | attempt :: todo =>
      let delay := RETRY_DELAYS_SECONDS !! attempt in
      match (if (0 <? attempt)%nat
             then match before_retry a with Some check => check attempt | None => Ok tt end else Ok tt) with
      | Err e => (Err (StopBudget e), u, waits)
      | Ok _ =>
          let '(u, sent) := send (attempt_seconds a) u (net attempt) in
          match sent with
          | Err name => (Err (StopFatal name), u, waits)
          | Ok response =>
              if match response with Some r => negb (retryable r) | None => false end
              then (Ok response, u, waits)
              else if (0 <? start_attempt a)%nat
                      && (Z.of_nat (S (length RETRY_DELAYS_SECONDS) - start_attempt a) <=? us_requests u)
              then (Ok response, u, waits)
              else if split_batch a && (2 <=? consecutive_5xx u) && bool_decide (is_Some delay)
              then
                let next := (start_attempt a + Z.to_nat (us_requests u))%nat in
                if (length RETRY_DELAYS_SECONDS <? next)%nat then (Ok response, u, waits)
                else (Err (Split next u), u, waits)
              else
                attempt_loop a net todo response u
                  (waits ++ match delay with Some d => [backoff response d] | None => [] end)
          end
      end
  end.

(** [for attempt in start_attempt..=retries]. *)
Definition attempt_range (start : nat) : list nat := seq start (S (length RETRY_DELAYS_SECONDS) - start).

Definition post_with_retry (a : Attempts) (net : nat -> Sent) (u : RequestUsage)
  : result (option Response) RetryStop * RequestUsage * list f64 :=
  attempt_loop a net (attempt_range (start_attempt a)) None u [].

(** *** One Jev request: [post] *)
(** Why it failed: an error to report, or a batch to split. *)
Inductive AskError (A : Type) :=
| AskJev (e : DecisionError A)
| AskSplit (start_attempt : nat) (usage : RequestUsage).
Arguments AskJev {A}.
Arguments AskSplit {A}.

Definition into_jev {A} (e : AskError A) : DecisionError A :=
  match e with
  | AskJev error => error
  | AskSplit _ _ => DecisionFailed (lit "Jev batch split outside asking_split")
  end.

Definition auth_headers (api_key : text) (headers : list (text * text)) : list (text * text) :=
  (if is_empty api_key then [] else [(lit "Authorization", lit "Bearer " ++ api_key)]) ++ headers.

(** The estimate the budget is asked about before anything is sent. *)
Definition request_estimate `{FloatFormat} (current : option JevPurpose) (body : value) (price : option f64)
    (image_context : option Z) : f64 :=
  match image_context with
  | Some _ => default f64_zero (line_dollars (input_cost current body price image_context))
  | None => f64_mul (body_tokens body) (default f64_zero price)
  end.

(** What a call finds outside: the budget's verdict before it is sent and before each repeat, what
    each attempt's request comes back with, the seconds it all took, and its host's name. *)
Record Request := mkRequest { rq_url : text; rq_headers : list (text * text); rq_body : value }.
Record Outside := mkOutside {
  o_first : result unit BudgetExceeded;
  o_again : nat -> result unit BudgetExceeded;
  o_net : Request -> nat -> Sent;
  o_seconds : f64;
  o_host : text;
}.

(** What a usable response's status says, its retries over. *)
Definition response_verdict {A} (host : text) (r : Response) : result Response (AskError A) :=
  let t := response_text r in
  let too_large := contains_sub t (lit "max_tokens_exceeded") || contains_sub t (lit "request body too large") in
  if (r_status r =? 413) || ((r_status r =? 400) && too_large)
  then Err (AskJev (InputTooLarge (lit "Jev input too large; " ++ describe r)))
  else if (r_status r =? 401) || (r_status r =? 403)
  then Err (AskJev (Rejected (lit "Jev " ++ describe r ++ lit " (" ++ host ++ lit " rejected the API key)")))
  else if negb (is_success r) then Err (AskJev (response_error r (lit "Jev request failed")))
  else Ok r.

(** What [post_with_retry] came back with, as the call's own result, and whether its unanswered
    requests are left to the spend scope ([CancelledJev]'s [armed]). *)
Definition post_result {A} (secs : f64) (host : text) (sent : result (option Response) RetryStop) (u : RequestUsage)
  : result Response (AskError A) * bool :=
  match sent with
  | Err (StopBudget e) => (Err (AskJev (Budget e)), true)
  | Err (StopFatal name) =>
      (Err (AskJev (DecisionFailed (lit "Jev request could not be sent (" ++ name ++ lit ")"))), true)
  | Err (Split start_attempt usage) => (Err (AskSplit start_attempt usage), false)
  | Ok None =>
      (Err (AskJev (TransportFailed
         (lit "Jev transport failed after " ++ history u secs ++ lit "; last: " ++ default [] (last (failures u))))),
       true)
  | Ok (Some r) =>
      if retryable r
      then (Err (AskJev (Exhausted (mkRetriesExhausted (exhausted_text (us_requests u) secs (describe r)) secs
                    (us_unaccounted u) (us_requests u) [] (describe r)))), true)
      else (response_verdict host r, false)
  end.

(** [post]: its result, the requests it made, and what it left in the enclosing spend scope. *)
Definition post {A} `{FloatFormat} (current : option JevPurpose) (o : Outside) (url api_key : text) (body : value)
    (headers : list (text * text)) (start_attempt : nat) (split_batch : bool) (price : option f64)
    (image_context : option Z)
  : result Response (AskError A) * RequestUsage * list CostLine :=
  match o_first o with
  | Err e => (Err (AskJev (Budget e)), no_usage, [])
  | Ok _ =>
      let '(sent, u, _) :=
        post_with_retry (mkAttempts JEV_ATTEMPT_SECONDS (Some (o_again o)) start_attempt split_batch)
          (o_net o (mkRequest url (auth_headers api_key headers) body)) no_usage in
      let '(r, armed) := post_result (o_seconds o) (o_host o) sent u in
      (r, u, if armed
             then repeat (with_purpose current (input_cost current body price image_context)) (Z.to_nat (us_unaccounted u))
             else [])
  end.
End Sending.
End Responses.
Arguments AskJev {A}.
Arguments AskSplit {A}.

(** * Properties *)
Section RetryFacts.
Context `{BR : BodyReader} `{FX : FixedFormat} `{RF : ReadFloat}.

(** A wait a sleep can take: within the cap, not NaN. *)
Definition wait_ok (w : f64) : Prop := f64_le f64_zero w = true /\ f64_le w MAX_BACKOFF_SECONDS = true.

Lemma clamp_ok x : is_nan x = false -> wait_ok (clamp x f64_zero MAX_BACKOFF_SECONDS).
Proof.
  intros Hx. unfold clamp, wait_ok. destruct (f64_lt x f64_zero) eqn:El.
  - replace (f64_gt f64_zero MAX_BACKOFF_SECONDS) with false by (by vm_compute). by vm_compute.
  - apply f64_not_lt in El; [|done|done]. unfold f64_gt. fold (f64_lt MAX_BACKOFF_SECONDS x).
    destruct (f64_lt MAX_BACKOFF_SECONDS x) eqn:Eg; [by vm_compute|].
    split; [done|]. apply f64_not_lt in Eg; [done|by vm_compute|done].
Qed.

Lemma backoff_ok response d : wait_ok d -> wait_ok (backoff response d).
Proof.
  intros Hd. destruct response as [r|]; [|done]. cbn [backoff backoff_headers].
  assert (Hscaled : forall secs scale, scale = dec 1 3 \/ scale = f64_of_Z 1 -> is_nan secs = false ->
            wait_ok (clamp (f64_mul secs scale) f64_zero MAX_BACKOFF_SECONDS)).
  { intros secs scale Hs Hn. apply clamp_ok.
    destruct Hs as [-> | ->]; vm_compute (dec 1 3); vm_compute (f64_of_Z 1); by apply f64_mul_number. }
  repeat case_match; auto.
Qed.

Lemma delay_ok attempt d : RETRY_DELAYS_SECONDS !! attempt = Some d -> wait_ok d.
Proof. intros H. do 5 (destruct attempt as [|attempt]; [injection H as <-; by vm_compute|]). done. Qed.

(** What a request says about itself: answered for good, sent a response at all, or lost. *)
Definition delivers (s : Sent) : bool := match s with Got r => negb (retryable r) | _ => false end.
Definition response_of (s : Sent) : option Response := match s with Got r => Some r | _ => None end.
Definition is_fatal (s : Sent) : bool := match s with Fatal _ => true | _ => false end.
Definition lost (s : Sent) : Z := match s with Got _ => 0 | _ => 1 end.
Definition lost_in (net : nat -> Sent) (attempts : list nat) : Z := foldr (fun i n => lost (net i) + n) 0 attempts.

(** A call's counters, before its last attempt. *)
Definition counting (u : RequestUsage) : Prop :=
  0 <= consecutive_5xx u <= us_requests u /\ 0 <= us_unaccounted u <= us_requests u /\ us_requests u <= 6.

Lemma small_wrap n : 0 <= n <= 6 -> wrap64 (n + 1) = n + 1.
Proof. intros H. apply wrap64_id. unfold i64_min, i64_max. lia. Qed.

Lemma send_spec secs u s :
  counting u -> us_requests u <= 5 ->
  let '(u', r) := send secs u s in
  us_requests u' = us_requests u + 1 /\ us_unaccounted u' = us_unaccounted u + lost s /\
  counting u' /\
  match r with
  | Err name => s = Fatal name
  | Ok resp => is_fatal s = false /\ resp = response_of s
  end.
Proof.
  intros (Hc & Hu & _) Hr. unfold send, counting. cbv zeta. cbn [us_requests us_unaccounted consecutive_5xx failures].
  destruct s as [r| | |]; [destruct (retryable r) eqn:E|..]; cbn; rewrite ?E, ?small_wrap by lia; cbn;
    try (split_and!; try done; lia).
  destruct (500 <=? r_status r); rewrite ?small_wrap by lia; split_and!; try done; lia.
Qed.

Definition granted_before (a : Attempts) (i : nat) : Prop :=
  (0 < i)%nat -> forall check, before_retry a = Some check -> check i = Ok tt.

(** How the loop can end, when its attempts started at [s] after [start] and [k] were sent. *)
Definition ended (a : Attempts) (net : nat -> Sent) (s k : nat) (response : option Response)
    (r : result (option Response) RetryStop) (u : RequestUsage) : Prop :=
  match r with
  | Ok resp =>
      resp = match k with O => response | S k => response_of (net (s + k)%nat) end /\
      (s + k = 6 \/ exists k', k = S k' /\ delivers (net (s + k')) = true)%nat
  | Err (StopBudget e) => (0 < s + k)%nat /\ exists check, before_retry a = Some check /\ check (s + k)%nat = Err e
  | Err (StopFatal name) => exists k', k = S k' /\ net (s + k')%nat = Fatal name
  | Err (Split next u') =>
      split_batch a = true /\ u' = u /\ next = (s + k)%nat /\ (next <= 5)%nat /\ 2 <= us_requests u
  end.

(** What is left of the call: [k] more requests, and the waits after them. *)
Definition loop_ends (a : Attempts) (net : nat -> Sent) (s n : nat) (response : option Response) (u : RequestUsage)
    (waits : list f64) (out : result (option Response) RetryStop * RequestUsage * list f64) : Prop :=
  let '(r, u', waits') := out in
  exists k ws, (k <= n)%nat /\ waits' = waits ++ ws /\ Forall wait_ok ws /\ (length ws <= k)%nat /\
    us_requests u' = us_requests u + Z.of_nat k /\ us_unaccounted u' = us_unaccounted u + lost_in net (seq s k) /\
    Forall (granted_before a) (seq s k) /\ Forall (fun i => delivers (net i) = false) (seq s (k - 1)) /\
    ended a net s k response r u'.

Lemma loop_stops a net s n response u waits r u' :
  us_requests u' = us_requests u + 1 -> us_unaccounted u' = us_unaccounted u + lost (net s) ->
  granted_before a s -> ended a net s 1 response r u' ->
  loop_ends a net s (S n) response u waits (r, u', waits).
Proof.
  intros Hr Hl Hg He. exists 1%nat, []. cbn. rewrite app_nil_r.
  split_and!; try done; try lia; try constructor; try done; constructor.
Qed.

Lemma ended_step a net s k response r u :
  ended a net (S s) k (response_of (net s)) r u -> ended a net s (S k) response r u.
Proof.
  unfold ended. assert (Hk : forall k', (S s + k' = s + S k')%nat) by lia.
  destruct r as [resp|[e|name|next u']].
  - intros [Hresp Hend]. split.
    + rewrite Hresp. destruct k as [|k]; [by rewrite Nat.add_0_r|]. by rewrite Hk.
    + destruct Hend as [Hend|(k' & -> & Hd)]; [left; lia|]. right. exists (S k'). by rewrite <- Hk.
  - by rewrite Hk.
  - intros (k' & -> & Hn). exists (S k'). by rewrite <- Hk.
  - rewrite Hk. done.
Qed.

Lemma loop_goes_on a net s n response u u1 waits w out :
  us_requests u1 = us_requests u + 1 -> us_unaccounted u1 = us_unaccounted u + lost (net s) ->
  granted_before a s -> delivers (net s) = false -> Forall wait_ok w -> (length w <= 1)%nat ->
  loop_ends a net (S s) n (response_of (net s)) u1 (waits ++ w) out ->
  loop_ends a net s (S n) response u waits out.
Proof.
  intros Hr Hl Hg Hd Hw Hlen. destruct out as [[r u'] waits'].
  intros (k & ws & Hk & -> & Hws & Hl' & Hr' & Hu' & Hgs & Hds & He).
  exists (S k), (w ++ ws). cbn [seq]. split_and!.
  - lia.
  - by rewrite <- app_assoc.
  - by apply Forall_app.
  - rewrite length_app. lia.
  - lia.
  - change (lost_in net (s :: seq (S s) k)) with (lost (net s) + lost_in net (seq (S s) k)). lia.
  - by constructor.
  - destruct k as [|k]; [constructor|]. cbn in *. rewrite Nat.sub_0_r in *. by constructor.
  - by apply ended_step.
Qed.

Lemma attempt_loop_spec a net n : forall s response u waits,
  (s + n = 6)%nat -> (start_attempt a <= s)%nat -> us_requests u = Z.of_nat (s - start_attempt a) -> counting u ->
  loop_ends a net s n response u waits (attempt_loop a net (seq s n) response u waits).
Proof.
  induction n as [|n IH]; intros s response u waits Hsn Hst Hreq Hu; cbn [seq attempt_loop].
  { exists 0%nat, []. rewrite app_nil_r. cbn. split_and!; try done; try lia; try constructor; done || lia. }
  match goal with |- context [match ?c with Ok _ => _ | Err _ => _ end] => destruct c as [[]|e] eqn:Eg end.
  2: { exists 0%nat, []. rewrite app_nil_r. cbn. destruct (Nat.ltb_spec 0 s); [|done].
       destruct (before_retry a) as [check|] eqn:Ec; [|done].
       rewrite Nat.add_0_r. split_and!; try done; try lia; try constructor; eauto. }
  assert (Hg : granted_before a s).
  { intros Hs check Hc. rewrite (proj2 (Nat.ltb_lt _ _) Hs), Hc in Eg. done. }
  pose proof (send_spec (attempt_seconds a) u (net s) Hu ltac:(lia)) as Hsend.
  destruct (send _ u (net s)) as [u1 [resp|name]]; destruct Hsend as (Hr1 & Hl1 & Hu1 & Hresp).
  2: { apply loop_stops; try done. by exists 0%nat; rewrite Nat.add_0_r. }
  destruct Hresp as [Hfatal ->].
  assert (Hd : match response_of (net s) with Some r => negb (retryable r) | None => false end = delivers (net s))
    by (by destruct (net s)).
  rewrite Hd. destruct (delivers (net s)) eqn:Ed.
  { apply loop_stops; try done. cbn. rewrite Nat.add_0_r. split; [done|]. right. exists 0%nat. by rewrite Nat.add_0_r. }
  assert (Hgive : (s + 1 = 6)%nat -> ended a net s 1 response (Ok (response_of (net s))) u1).
  { intros H6. cbn. rewrite Nat.add_0_r. auto. }
  destruct ((0 <? start_attempt a)%nat && _) eqn:Elimit.
  { apply loop_stops; try done. apply Hgive. bool_hyps. cbn [length RETRY_DELAYS_SECONDS] in *. lia. }
  destruct (split_batch a && _ && _) eqn:Esplit.
  { bool_hyps. destruct (Nat.ltb_spec (length RETRY_DELAYS_SECONDS) (start_attempt a + Z.to_nat (us_requests u1)));
      cbn [length RETRY_DELAYS_SECONDS] in *; apply loop_stops; try done.
    - apply Hgive. lia.
    - cbn. destruct Hu1. split_and!; try done; lia. }
  eapply loop_goes_on; [exact Hr1|exact Hl1|done|done| | |apply IH; [lia|lia|lia|done]].
  - destruct (RETRY_DELAYS_SECONDS !! s) as [d|] eqn:E; [|constructor].
    constructor; [|constructor]. apply backoff_ok. by eapply delay_ok.
  - destruct (RETRY_DELAYS_SECONDS !! s); cbn; lia.
Qed.

Lemma post_with_retry_ends a net : (start_attempt a <= 5)%nat ->
  loop_ends a net (start_attempt a) (6 - start_attempt a) None no_usage [] (post_with_retry a net no_usage).
Proof.
  intros Hs. unfold post_with_retry, attempt_range. cbn [length RETRY_DELAYS_SECONDS].
  apply attempt_loop_spec; [lia|lia|rewrite Nat.sub_diag; done|]. unfold counting. cbn. lia.
Qed.

(** C34: a call is repeated at most within its attempts, and charged for what it sends.  From
    attempt [start], at most [6 - start] requests are sent, one for each attempt in turn; every
    one after the first attempt was let through by the budget check, only the last can have
    answered for good, and each that came back with no response is counted as unaccounted.  The
    waits are one to a failed attempt and never longer than ten seconds, whatever the provider's
    headers say.  A call that gives up without a good answer has used all its attempts; one the
    budget stopped sent nothing more; and a batch handed back to be split was sent at least twice
    and leaves at least one attempt. *)
Theorem post_with_retry_exact a net :
  (start_attempt a <= 5)%nat ->
  let '(r, u, waits) := post_with_retry a net no_usage in
  exists k, (k <= 6 - start_attempt a)%nat /\ us_requests u = Z.of_nat k /\
    us_unaccounted u = lost_in net (seq (start_attempt a) k) /\
    Forall wait_ok waits /\ (length waits <= k)%nat /\
    Forall (granted_before a) (seq (start_attempt a) k) /\
    Forall (fun i => delivers (net i) = false) (seq (start_attempt a) (k - 1)) /\
    ended a net (start_attempt a) k None r u.
Proof.
  intros Hs. pose proof (post_with_retry_ends a net Hs) as Hloop.
  destruct (post_with_retry a net no_usage) as [[r u] waits].
  destruct Hloop as (k & ws & Hk & -> & Hws & Hl & Hr & Hu & Hg & Hd & He).
  exists k. cbn in *. split_and!; done.
Qed.

(** *** One call *)
Context `{FF : FloatFormat} {A : Type}.

(** The requests a call has sent, by how it ended. *)
Definition sent_within (start : nat) (split : bool) (u : RequestUsage) (r : result Response (AskError A)) : Prop :=
  0 <= us_requests u <= Z.of_nat (6 - start) /\ 0 <= us_unaccounted u <= us_requests u /\
  match r with
  | Ok _ => 1 <= us_requests u
  | Err (AskSplit next u') =>
      split = true /\ u' = u /\ next = (start + Z.to_nat (us_requests u))%nat /\ (next <= 5)%nat /\ 2 <= us_requests u
  | Err (AskJev (Exhausted ex)) =>
      1 <= us_requests u /\ ex_requests ex = us_requests u /\ unaccounted_requests ex = us_unaccounted u /\
      answered ex = []
  | Err (AskJev _) => True
  end.

Lemma lost_in_bound net l : 0 <= lost_in net l <= Z.of_nat (length l).
Proof. induction l as [|i l IH]; cbn; [lia|]. unfold lost at 1 3. destruct (net i); unfold lost_in in *; lia. Qed.

Lemma response_verdict_errors host r (e : AskError A) :
  response_verdict host r = Err e -> exists d, e = AskJev d /\ (forall ex, d <> Exhausted ex).
Proof. unfold response_verdict, response_error. repeat case_match; intros [= <-]; eauto; eexists; split; done. Qed.

Lemma post_sent_within current o url key body headers start split price image_context r u recorded :
  (start <= 5)%nat ->
  post (A := A) current o url key body headers start split price image_context = (r, u, recorded) ->
  sent_within start split u r /\ (match r with Ok _ | Err (AskSplit _ _) => recorded = [] | _ => True end).
Proof.
  intros Hs. unfold post. destruct (o_first o) as [[]|e].
  2: { intros [= <- <- <-]. unfold sent_within. cbn. split; [lia|done]. }
  set (a := mkAttempts _ _ _ _). set (net := o_net o _). pose proof (post_with_retry_ends a net Hs) as Hloop.
  destruct (post_with_retry a net no_usage) as [[sent u'] waits].
  destruct Hloop as (k & ws & Hk & _ & _ & _ & Hr & Hu & _ & _ & He). cbn [start_attempt a] in *.
  cbn [no_usage us_requests us_unaccounted] in Hr, Hu.
  pose proof (lost_in_bound net (seq start k)) as Hlost. rewrite length_seq in Hlost.
  destruct (post_result (o_seconds o) (o_host o) sent u') as [r' armed] eqn:Ep. intros [= <- <- <-].
  assert (Hb : 0 <= us_requests u' <= Z.of_nat (6 - start) /\ 0 <= us_unaccounted u' <= us_requests u')
    by (rewrite Hr, Hu; lia).
  unfold sent_within. split; [split_and!; try apply Hb|].
  2: { unfold post_result in Ep. repeat case_match; simplify_eq; done. }
  clear Hlost Hu.
  unfold post_result in Ep. destruct sent as [[resp|]|[e|name|next u2]].
  - cbn in He. destruct He as [Hresp _].
    assert (Hk1 : 1 <= us_requests u') by (destruct k; [done|lia]).
    destruct (retryable resp); injection Ep as <- <-; [by split_and!|].
    destruct (response_verdict (o_host o) resp) as [|e] eqn:Ev; [done|].
    destruct (response_verdict_errors _ _ _ Ev) as (d & -> & Hd). destruct d; try done. by edestruct Hd.
  - by injection Ep as <- <-.
  - by injection Ep as <- <-.
  - by injection Ep as <- <-.
  - injection Ep as <- <-. cbn in He. destruct He as (Hsp & -> & -> & Hn & H2).
    split_and!; try done; try lia.
Qed.

(** ** What a call reads of the network *)
(** Two outsides that are alike but for the network, and there too on the attempts [tried]. *)
Definition alike (tried : nat -> Prop) (o o' : Outside) : Prop :=
  o_first o' = o_first o /\ o_again o' = o_again o /\ o_seconds o' = o_seconds o /\ o_host o' = o_host o /\
  forall rq i, tried i -> o_net o' rq i = o_net o rq i.

Lemma send_counts secs u s : 0 <= us_requests u < 6 -> us_requests (send secs u s).1 = us_requests u + 1.
Proof.
  intros Hu. unfold send. assert (wrap64 (us_requests u + 1) = us_requests u + 1) as Hw by (apply small_wrap; lia).
  destruct s as [r| | |]; cbn; try done. by destruct (retryable r).
Qed.

(** The loop reads the network at the attempts it counts, and nowhere else. *)
Lemma attempt_loop_reads a net todo : forall response u waits,
  0 <= us_requests u -> us_requests u + Z.of_nat (length todo) <= 6 ->
  exists k, (k <= length todo)%nat /\ us_requests (attempt_loop a net todo response u waits).1.2 = us_requests u + Z.of_nat k /\
    forall net', (forall i, i ∈ take k todo -> net' i = net i) ->
      attempt_loop a net' todo response u waits = attempt_loop a net todo response u waits.
Proof.
  induction todo as [|i todo IH]; intros response u waits H0 Hle; cbn [attempt_loop length] in *.
  { exists 0%nat. cbn. split_and!; [lia|lia|done]. }
  match goal with |- context [match ?c with Ok _ => _ | Err _ => _ end] => destruct c as [[]|e] end.
  2: { exists 0%nat. cbn. split_and!; [lia|lia|done]. }
  pose proof (send_counts (attempt_seconds a) u (net i) ltac:(lia)) as Hsend.
  destruct (send (attempt_seconds a) u (net i)) as [u1 sent] eqn:Es. cbn [fst] in Hsend.
  assert (Hhere : forall k net', (forall j, j ∈ take (S k) (i :: todo) -> net' j = net j) -> send (attempt_seconds a) u (net' i) = (u1, sent))
    by (intros k net' Hn; rewrite (Hn i); [done|by left]).
  destruct sent as [resp|name].
  2: { exists 1%nat. cbn [fst snd]. split_and!; [lia|lia|]. intros net' Hn. by rewrite (Hhere 0%nat). }
  destruct (match resp with Some r => negb (retryable r) | None => false end) eqn:E1.
  { exists 1%nat. cbn [fst snd]. split_and!; [lia|lia|]. intros net' Hn. by rewrite (Hhere 0%nat), E1. }
  destruct ((0 <? start_attempt a)%nat && _) eqn:E2.
  { exists 1%nat. cbn [fst snd]. split_and!; [lia|lia|]. intros net' Hn. by rewrite (Hhere 0%nat), E1, E2. }
  destruct (split_batch a && _ && _) eqn:E3.
  { exists 1%nat. split_and!; [lia|destruct (length RETRY_DELAYS_SECONDS <? start_attempt a + Z.to_nat (us_requests u1))%nat; cbn [fst snd]; lia|]. intros net' Hn. by rewrite (Hhere 0%nat), E1, E2, E3. }
  destruct (IH resp u1 (waits ++ match RETRY_DELAYS_SECONDS !! i with Some d => [backoff resp d] | None => [] end)) as (k & Hk & Hr & Hnet); [lia|lia|].
  exists (S k). split_and!; [lia|rewrite Hr; lia|]. intros net' Hn. rewrite (Hhere k), E1, E2, E3 by done.
  apply Hnet. intros j Hj. apply Hn. cbn. by right.
Qed.

(** One request reads the network at its attempts, in order from the first, and counts each. *)
Lemma post_reads current o url key body headers start split price image_context : (start <= 5)%nat ->
  exists k, (k <= 6 - start)%nat /\
    us_requests (post (A := A) current o url key body headers start split price image_context).1.2 = Z.of_nat k /\
    forall o', alike (fun i => i ∈ seq start k) o o' ->
      post (A := A) current o' url key body headers start split price image_context =
      post current o url key body headers start split price image_context.
Proof.
  intros Hs. unfold post. destruct (o_first o) as [[]|e] eqn:Ef.
  2: { exists 0%nat. split_and!; [lia|done|]. intros o' (-> & _). by rewrite Ef. }
  destruct (attempt_loop_reads (mkAttempts JEV_ATTEMPT_SECONDS (Some (o_again o)) start split) (o_net o (mkRequest url (auth_headers key headers) body))
              (attempt_range start) None no_usage []) as (k & Hk & Hr & Hnet); [done| |].
  { unfold attempt_range. rewrite length_seq. cbn. lia. }
  unfold attempt_range in Hk. rewrite length_seq in Hk. cbn [length RETRY_DELAYS_SECONDS] in Hk. exists k. split; [done|]. split.
  - unfold post_with_retry. cbn [start_attempt]. destruct (attempt_loop _ _ _ _ _ _) as [[sent u] waits]. cbn [fst snd] in Hr.
    destruct (post_result _ _ _ _) as [r armed]. cbn. by rewrite Hr.
  - intros o' (-> & -> & -> & -> & Hn). rewrite Ef. unfold post_with_retry. cbn [start_attempt]. rewrite Hnet; [done|].
    intros i Hi. apply Hn. unfold attempt_range in Hi. rewrite take_seq in Hi. by rewrite Nat.min_l in Hi.
Qed.
End RetryFacts.

(** ** Examples *)
Section Examples.
(** The interfaces at concrete functions: a body is its text and no JSON, a float an integer's. *)
#[local] Instance plain_bodies : BodyReader :=
  {| utf8_lossy b := b; from_slice _ := Err (mkJsonError (lit "expected value at line 1 column 1") 1 1) |}.
#[local] Instance ints_only : ReadFloat :=
  {| read_float t := if forallb (in_range 48 57) t
                     then Some (f64_of_Z (fold_left (fun n d => 10 * n + (d - 48)) t 0)) else None |}.
#[local] Existing Instances floor_format exact_format.

Definition answer_of (status : Z) (headers : list (text * text)) : Sent := Got (mkResponse status headers [] []).
(** Overloaded for three seconds, then silent, then answered. *)
Definition a_blip (i : nat) : Sent :=
  match i with
  | 0%nat => answer_of 503 [(lit "Retry-After", lit "3")]
  | 1%nat => Timeout (lit "ReadTimeout")
  | _ => answer_of 200 []
  end.
Definition plain_attempts : Attempts := mkAttempts JEV_ATTEMPT_SECONDS None 0 true.

Theorem post_with_retry_exact_witness :
  (let '(r, u, waits) := post_with_retry plain_attempts a_blip no_usage in
   is_ok r = true /\ us_requests u = 3 /\ us_unaccounted u = 1 /\ waits = [f64_of_Z 3; dec 15 1]) /\
  let '(r, u, waits) := post_with_retry plain_attempts a_blip no_usage in
  exists k, (k <= 6)%nat /\ us_requests u = Z.of_nat k /\ us_unaccounted u = lost_in a_blip (seq 0 k) /\
    Forall wait_ok waits /\ (length waits <= k)%nat /\ Forall (granted_before plain_attempts) (seq 0 k) /\
    Forall (fun i => delivers (a_blip i) = false) (seq 0 (k - 1)) /\
    ended plain_attempts a_blip 0 k None r u.
Proof.
  split; [vm_compute; done|]. apply (post_with_retry_exact plain_attempts a_blip). cbn. lia.
Defined.

(** A request that may have been billed is charged to no one when the repeat is refused: the call
    failed, its spend scope keeps nothing, and the error carries no usage. *)
Definition refused_after_silence : Outside :=
  mkOutside (Ok tt) (fun _ => Ok tt)
    (fun _ i => match i with 0%nat => Timeout (lit "ReadTimeout") | _ => answer_of 401 [] end) f64_zero (lit "api.test").

Theorem refused_call_records_nothing :
  let '(r, u, recorded) := post (A := unit) None refused_after_silence [] [] Null [] 0 false (Some (f64_of_Z 1)) None in
  (match r with Err (AskJev (Rejected _)) => True | _ => False end) /\ us_unaccounted u = 1 /\ recorded = [].
Proof. vm_compute. done. Qed.
End Examples.
