(* ===== verification/Split.v ===== *)
(** One decision call: [asking_split] and [asking_open] of
    [crates/fastbrowse-clients/src/validation.rs].

    A batch that failed twice with a 5xx is asked again one question at a time, within the
    retries it has left, and a choice of one option is answered without asking.  What a client
    does with one request is the interface [AskContract]: [asking_split] is proved against it and
    the clients of [DecisionClients] discharge it; so is [Consults], that one request reads the
    network at the attempts it counts and nowhere else, of which the requests of a whole call are
    made up ([sends]).  An [Ask] takes the number of its request
    within the call, so nothing assumes that two requests meet the same network; beside its
    result it returns what it left in the spend scope around it. *)

From S2P Require Import Prelude Float64 PyText Json DateTime Models Ledger Lax Config Receipts Spend Decision Validation Retry.

Section Split.
Context `{FixedFormat}.

Definition Asked : Type := result (Evaluation Answer) (AskError Answer) * list CostLine.
Definition Ask : Type := nat -> list (text * Question) -> nat -> bool -> Asked.

(** The loop over the singles: how it stopped, what was answered, and the lines of its scope. *)
Fixpoint ask_singles (current : option JevPurpose) (ask : Ask) (n : nat) (questions : list (text * Question))
    (start_attempt : nat) (answered : list (Evaluation Answer)) (paid : list CostLine)
  : result unit (DecisionError Answer) * list (Evaluation Answer) * list CostLine :=
  match questions with
  | [] => (Ok tt, answered, paid)
  | (key, question) :: questions =>
      let '(r, recorded) := ask n [(key, question)] start_attempt false in
      let paid := paid ++ recorded in
      match r with
      | Err e => (Err (into_jev e), answered, paid)
      | Ok result =>
          ask_singles current ask (S n) questions
            (Nat.min (length RETRY_DELAYS_SECONDS) (start_attempt + Z.to_nat (requests result) - 1))
            (answered ++ [result]) (paid ++ [with_purpose current (ev_cost result)])
      end
  end.

Definition total_requests (es : list (Evaluation Answer)) : Z := sum_wrap (map requests es).

(** The singles' answers as the batch's. *)
Definition merge_singles (current : option JevPurpose) (price : option f64) (secs : f64) (batch : RequestUsage)
    (answered : list (Evaluation Answer)) : Evaluation Answer :=
  let cost := merged_cost current (map ev_cost answered) in
  let input := sum_wrap (map ev_input_tokens answered) in
  let cost :=
    if 0 <? us_unaccounted batch
    then merged_cost current [cost; estimated_cost current price (wrap64 (input * us_unaccounted batch)) 0]
    else cost in
  let requests := wrap64 (us_requests batch + total_requests answered) in
  mkEvaluation (default [] (model <$> head answered)) (im_extend [] (concat (map answers answered))) input
    (mkCostLine (component cost) (basis cost) (line_dollars cost) (purpose cost) (decision_purpose cost)
       (input_tokens cost) (output_tokens cost) (Some secs) (Some requests))
    requests.

(** A single that ran out of retries, reported for the whole call. *)
Definition exhausted_singles (secs : f64) (batch : RequestUsage) (answered : list (Evaluation Answer))
    (ex : RetriesExhausted Answer) : RetriesExhausted Answer :=
  let requests := wrap64 (wrap64 (us_requests batch + total_requests answered) + ex_requests ex) in
  mkRetriesExhausted (exhausted_text requests secs (last_response ex)) secs
    (wrap64 (unaccounted_requests ex + us_unaccounted batch)) requests answered (last_response ex).

(** [asking_split], with what it leaves in the scope around it; [secs] is its wall time. *)
Definition asking_split (current : option JevPurpose) (price : option f64) (secs : f64) (ask : Ask)
    (questions : list (text * Question)) : result (Evaluation Answer) (DecisionError Answer) * list CostLine :=
  let jev (a : Asked) := (match a.1 with Ok e => Ok e | Err e => Err (into_jev e) end, a.2) in
  if (length questions <? 2)%nat then jev (ask 0%nat questions 0%nat false)
  else
    match ask 0%nat questions 0%nat true with
    | (Err (AskSplit start_attempt batch), recorded) =>
        match ask_singles current ask 1 questions start_attempt [] [] with
        | (Ok _, answered, _) => (Ok (merge_singles current price secs batch answered), recorded)
        | (Err (Exhausted ex), answered, paid) =>
            (Err (Exhausted (exhausted_singles secs batch answered ex)), recorded ++ map (with_purpose current) paid)
        | (Err e, _, paid) => (Err e, recorded ++ map (with_purpose current) paid)
        end
    | other => jev other
    end.

(** A choice of one option, answered here. *)
Definition forced_answer (q : Question) : option Answer :=
  match q with
  | QChoice q => match ch_criteria q with [(only, _)] => Some (AChoice only [(only, f64_of_Z 1)] (f64_of_Z 1)) | _ => None end
  | _ => None
  end.

Definition forced_answers (questions : list (text * Question)) : list (text * Answer) :=
  im_extend [] (omap (fun kq => (fun a => (kq.1, a)) <$> forced_answer kq.2) questions).

Definition asking_open {L} (current : option JevPurpose) (model_name : text) (price : option f64)
    (ask : list (text * Question) -> result (Evaluation Answer) (DecisionError Answer) * list L)
    (questions : list (text * Question)) : result (Evaluation Answer) (DecisionError Answer) * list L :=
  let forced := forced_answers questions in
  if is_empty forced then ask questions
  else
    let rest := base.filter (fun kq => im_contains kq.1 forced = false) questions in
    if is_empty rest then
      (Ok (mkEvaluation model_name forced 0 (estimated_cost current price 0 0) 0), [])
    else
      let '(r, recorded) := ask rest in
      (let? e := r in
       Ok (mkEvaluation (model e) (im_extend (answers e) forced) (ev_input_tokens e) (ev_cost e) (requests e)),
       recorded).
End Split.

(** * Properties *)
(** Answers to a list of questions: one each, in order and of its kind. *)
Definition answered_by (kq : text * Question) (ka : text * Answer) : Prop :=
  ka.1 = kq.1 /\ answers_question kq.2 ka.2.

(** ** What one request promises *)
(** From attempt [start] a request is repeated at most to the sixth; an answer answers what was
    asked; only a batch asked to split does, with attempts to spare; and only a failure leaves
    lines in the scope around it. *)
Class AskContract (ask : Ask) : Prop := {
  ask_answers n qs start split e recorded : (start <= 5)%nat ->
    ask n qs start split = (Ok e, recorded) ->
    Forall2 answered_by qs (answers e) /\ 1 <= requests e <= Z.of_nat (6 - start) /\ recorded = [];
  ask_splits n qs start split next u recorded : (start <= 5)%nat ->
    ask n qs start split = (Err (AskSplit next u), recorded) ->
    split = true /\ next = (start + Z.to_nat (us_requests u))%nat /\ (next <= 5)%nat /\ 2 <= us_requests u /\
    recorded = [];
  ask_exhausts n qs start split ex recorded : (start <= 5)%nat ->
    ask n qs start split = (Err (AskJev (Exhausted ex)), recorded) ->
    1 <= ex_requests ex <= Z.of_nat (6 - start) /\ answered ex = []
}.

(** ** Counting requests *)
Definition sum_of (l : list Z) : Z := foldr Z.add 0 l.

Lemma sum_of_nonneg l : Forall (fun n => 0 <= n) l -> 0 <= sum_of l.
Proof. induction 1; cbn; [done|]. unfold sum_of in *. lia. Qed.

Lemma sum_wrap_from l : forall acc, 0 <= acc -> Forall (fun n => 0 <= n) l -> acc + sum_of l <= i64_max ->
  fold_left (fun a b => wrap64 (a + b)) l acc = acc + sum_of l.
Proof.
  induction l as [|n l IH]; intros acc Ha Hl Hm; cbn; [lia|].
  apply Forall_cons in Hl as [Hn Hl]. pose proof (sum_of_nonneg l Hl). cbn in Hm.
  rewrite wrap64_id by (unfold i64_min, i64_max in *; unfold sum_of in *; lia).
  rewrite IH; [unfold sum_of; lia|lia|done|unfold sum_of in *; lia].
Qed.

Lemma sum_wrap_small l : Forall (fun n => 0 <= n) l -> sum_of l <= i64_max -> sum_wrap l = sum_of l.
Proof. intros Hl Hm. unfold sum_wrap. rewrite sum_wrap_from; [done|done|done|lia]. Qed.

Section SplitFacts.
Context `{FX : FixedFormat} (ask : Ask) `{AC : !AskContract ask}.

Definition sent_by (es : list (Evaluation Answer)) : Z := sum_of (map requests es).
Definition single_answers (q : text * Question) (e : Evaluation Answer) : Prop :=
  Forall2 answered_by [q] (answers e) /\ 1 <= requests e.

(** What the singles leave: the answers of the first questions, and what each was paid. *)
Definition singles_end (current : option JevPurpose) (qs : list (text * Question)) (start : nat)
    (more : list (Evaluation Answer)) (r : result unit (DecisionError Answer)) : Prop :=
  Forall2 single_answers (take (length more) qs) more /\
  match r with
  | Ok _ => length more = length qs /\ sent_by more <= Z.of_nat (length qs + 5 - start)
  | Err e =>
      (length more < length qs)%nat /\ sent_by more <= Z.of_nat (length qs + 4 - start) /\
      forall ex, e = Exhausted ex -> 1 <= ex_requests ex /\ sent_by more + ex_requests ex <= Z.of_nat (length qs + 5 - start)
  end.

Lemma into_jev_exhausted (e : AskError Answer) ex : into_jev e = Exhausted ex -> e = AskJev (Exhausted ex).
Proof. by destruct e as [d|]; cbn; [intros ->|]. Qed.

Lemma ask_singles_spec current qs : forall n start answered paid, (start <= 5)%nat ->
  let '(r, answered', paid') := ask_singles current ask n qs start answered paid in
  exists more rest, answered' = answered ++ more /\
    paid' = paid ++ map (fun e => with_purpose current (ev_cost e)) more ++ rest /\
    (is_ok r = true -> rest = []) /\ singles_end current qs start more r.
Proof.
  induction qs as [|[key q] qs IH]; intros n start answered paid Hs; cbn [ask_singles].
  { exists [], []. rewrite !app_nil_r. unfold singles_end, sent_by. cbn.
    split_and!; try done; lia. }
  destruct (ask n [(key, q)] start false) as [[e|e] recorded] eqn:Ea.
  - destruct (ask_answers _ _ _ _ _ _ Hs Ea) as (Hans & Hreq & ->).
    assert (Hs' : (Nat.min (length RETRY_DELAYS_SECONDS) (start + Z.to_nat (requests e) - 1) <= 5)%nat)
      by (cbn [length RETRY_DELAYS_SECONDS]; lia).
    specialize (IH (S n) _ (answered ++ [e]) ((paid ++ []) ++ [with_purpose current (ev_cost e)]) Hs').
    destruct (ask_singles _ _ _ _ _ _ _) as [[r answered'] paid'].
    destruct IH as (more & rest & -> & -> & Hrest & Hq & Hr).
    exists (e :: more), rest. rewrite <- !app_assoc. cbn [app map].
    split_and!; try done. split; [cbn [length take]; constructor; [|done]; split; [done|lia]|].
    cbn [length RETRY_DELAYS_SECONDS] in Hr. unfold sent_by, sum_of in *. cbn [map foldr length].
    destruct r as [|err]; [lia|]. destruct Hr as (Hlen & Hsent & Hex).
    split_and!; [lia|lia|]. intros ex E. specialize (Hex ex E). lia.
  - exists [], recorded. rewrite app_nil_r. cbn [map app]. split_and!; try done.
    split; [constructor|]. unfold sent_by, sum_of. cbn [map foldr length]. split_and!; [lia|lia|].
    intros ex ->%into_jev_exhausted. destruct (ask_exhausts _ _ _ _ _ _ Hs Ea). lia.
Qed.

Lemma singles_answers qs es : Forall2 single_answers qs es -> Forall2 answered_by qs (concat (map answers es)).
Proof.
  induction 1 as [|q e qs es [Hq _] _ IH]; [constructor|]. cbn. exact (Forall2_app Hq IH).
Qed.

Lemma singles_nonneg qs es : Forall2 single_answers qs es -> Forall (fun n => 0 <= n) (map requests es).
Proof. induction 1 as [|q e qs es [_ H] _ IH]; constructor; [lia|done]. Qed.

Lemma answered_by_keys qs ans : Forall2 answered_by qs ans -> map fst ans = map fst qs.
Proof. induction 1 as [|q a qs ans [H _] _ IH]; [done|]. cbn. by rewrite H, IH. Qed.

Lemma total_singles qs es bound : Forall2 single_answers qs es -> sent_by es <= bound -> bound <= i64_max ->
  total_requests es = sent_by es /\ 0 <= sent_by es.
Proof.
  intros Hq Hb Hm. pose proof (singles_nonneg _ _ Hq) as Hn.
  split; [apply sum_wrap_small; [done|unfold sent_by in *; lia]|by apply sum_of_nonneg].
Qed.

(** How a call ends, with what it leaves in the scope around it. *)
Definition call_ends (current : option JevPurpose) (qs : list (text * Question))
    (r : result (Evaluation Answer) (DecisionError Answer)) (recorded : list CostLine) : Prop :=
  match r with
  | Ok e =>
      Forall2 answered_by qs (answers e) /\ 1 <= requests e <= Z.of_nat (length qs + 5) /\ recorded = []
  | Err e =>
      exists singles rest, Forall2 single_answers (take (length singles) qs) singles /\
        (singles = [] \/ length singles < length qs)%nat /\
        recorded = map (fun e => with_purpose current (ev_cost e)) singles ++ rest /\
        (forall ex, e = Exhausted ex ->
           answered ex = singles /\ 1 <= ex_requests ex <= Z.of_nat (length qs + 5))
  end.

Lemma with_purpose_twice current c : with_purpose current (with_purpose current c) = with_purpose current c.
Proof. unfold with_purpose. destruct c as [[] ? ? ? [] ? ? ? ?]; cbn; try done. by destruct current. Qed.

Lemma jev_call_ends current qs start split r recorded : qs <> [] -> (start <= 5)%nat ->
  ask 0%nat qs start split = (r, recorded) -> (forall next u, r <> Err (AskSplit next u)) ->
  call_ends current qs (match r with Ok e => Ok e | Err e => Err (into_jev e) end) recorded.
Proof.
  intros Hne Hs Ha Hsplit. assert (Hlen : (1 <= length qs)%nat) by (destruct qs; cbn; [done|lia]).
  destruct r as [e|e].
  - destruct (ask_answers _ _ _ _ _ _ Hs Ha) as (? & ? & ?). cbn. split_and!; try done; lia.
  - exists [], recorded. split_and!; try done; [by left|].
    intros ex ->%into_jev_exhausted. destruct (ask_exhausts _ _ _ _ _ _ Hs Ha) as [? ?]. split; [done|lia].
Qed.

Lemma map_with_purpose current (es : list (Evaluation Answer)) rest :
  map (with_purpose current) (map (fun e => with_purpose current (ev_cost e)) es ++ rest)
  = map (fun e => with_purpose current (ev_cost e)) es ++ map (with_purpose current) rest.
Proof.
  rewrite map_app, map_map. f_equal. apply map_ext. intros e. apply with_purpose_twice.
Qed.

Lemma merged_singles_end current price secs qs u es :
  NoDup (map fst qs) -> Forall2 single_answers qs es -> Z.of_nat (length qs) <= 2 ^ 62 ->
  2 <= us_requests u <= 5 -> sent_by es <= Z.of_nat (length qs + 5 - Z.to_nat (us_requests u)) ->
  call_ends current qs (Ok (merge_singles current price secs u es)) [].
Proof.
  intros Hnd Hq Hlen Hu Hsent. unfold i64_max in *.
  destruct (total_singles qs es _ Hq Hsent) as [Htotal Hpos]; [unfold i64_max; lia|].
  cbn. split_and!; [|rewrite Htotal, wrap64_id; unfold i64_min, i64_max; lia..|done].
  pose proof (singles_answers _ _ Hq) as Hans. pose proof (answered_by_keys _ _ Hans) as Hkeys.
  rewrite im_extend_fresh; [done|by rewrite Hkeys|]. intros k _. by apply not_elem_of_nil.
Qed.

Lemma asking_split_ends current price secs qs :
  qs <> [] -> NoDup (map fst qs) -> Z.of_nat (length qs) <= 2 ^ 62 ->
  let '(r, recorded) := asking_split current price secs ask qs in call_ends current qs r recorded.
Proof.
  intros Hne Hnd Hlen. unfold asking_split. destruct (length qs <? 2)%nat eqn:E2.
  { destruct (ask 0%nat qs 0%nat false) as [r recorded] eqn:Ea. cbn.
    apply (jev_call_ends current qs 0 false); [done|lia|done|].
    intros next u ->. by destruct (ask_splits _ _ _ _ _ _ _ (Nat.le_0_l 5) Ea) as [? _]. }
  destruct (ask 0%nat qs 0%nat true) as [r recorded] eqn:Ea.
  assert (Hother : (forall next u, r <> Err (AskSplit next u)) ->
    call_ends current qs (match r with Ok e => Ok e | Err e => Err (into_jev e) end) recorded)
    by (apply (jev_call_ends current qs 0 true); [done|lia|done]).
  destruct r as [e|[d|start u]]; [by apply Hother|by apply Hother|].
  destruct (ask_splits _ _ _ _ _ _ _ (Nat.le_0_l 5) Ea) as (_ & Hstart & Hs5 & Hu2 & ->).
  pose proof (ask_singles_spec current qs 1 start [] [] Hs5) as Hsingles.
  destruct (ask_singles current ask 1 qs start [] []) as [[r es] paid].
  destruct Hsingles as (more & rest & -> & -> & Hrest & Hq & Hend). cbn [app].
  assert (Hu5 : us_requests u <= 5) by lia.
  destruct r as [[]|e].
  - destruct Hend as [Hl Hsent]. rewrite Hl, firstn_all in Hq.
    apply merged_singles_end; try done. rewrite Hstart in Hsent. lia.
  - destruct Hend as (Hl & Hsent & Hex). rewrite map_with_purpose.
    assert (Herr : forall e', (forall ex, e' = Exhausted ex ->
        answered ex = more /\ 1 <= ex_requests ex <= Z.of_nat (length qs + 5)) ->
      call_ends current qs (Err e') (map (fun e => with_purpose current (ev_cost e)) more ++ map (with_purpose current) rest)).
    { intros e' He'. exists more, (map (with_purpose current) rest). split_and!; try done. by right. }
    destruct e as [| | |ex| |]; try (by apply Herr). apply Herr. intros ex' [= <-]. cbn. split; [done|].
    destruct (Hex ex eq_refl) as [Hex1 Hex2].
    destruct (total_singles _ more _ Hq Hsent) as [Htotal Hpos]; [unfold i64_max; lia|].
    rewrite Htotal, (wrap64_id (us_requests u + _)) by (unfold i64_min, i64_max; lia).
    rewrite wrap64_id by (unfold i64_min, i64_max; lia). lia.
Qed.

(** A batch that had to be split is still one call.  Against any client that keeps the
    contract, the answer is the questions' answers in their order; the batch and its singles
    together send at most five requests more than there are questions; and when a single fails,
    the error carries, and the scope around the call is left the receipts of, exactly the leading
    questions that were answered and paid for. *)
Theorem asking_split_exact current price secs qs :
  qs <> [] -> NoDup (map fst qs) -> Z.of_nat (length qs) <= 2 ^ 62 ->
  let '(r, recorded) := asking_split current price secs ask qs in
  match r with
  | Ok e =>
      Forall2 answered_by qs (answers e) /\ 1 <= requests e <= Z.of_nat (length qs + 5) /\ recorded = []
  | Err e =>
      exists singles rest, Forall2 single_answers (take (length singles) qs) singles /\
        (singles = [] \/ length singles < length qs)%nat /\
        recorded = map (fun e => with_purpose current (ev_cost e)) singles ++ rest /\
        (forall ex, e = Exhausted ex ->
           answered ex = singles /\ 1 <= ex_requests ex <= Z.of_nat (length qs + 5))
  end.
Proof. apply asking_split_ends. Qed.
End SplitFacts.

(** ** Choices of one option *)
Section OpenFacts.
Lemma unit_interval_one : unit_interval (f64_of_Z 1).
Proof. by vm_compute. Qed.

Lemma forced_answer_answers q a : forced_answer q = Some a -> answers_question q a.
Proof.
  destruct q as [[i [|[only v] [|]]]| | |]; cbn [forced_answer ch_criteria]; try done. intros [= <-].
  pose proof unit_interval_one as H1. repeat split; cbn [map fst ch_criteria]; try apply H1.
  - by left.
  - by left.
  - intros k Hk. exact Hk.
  - constructor; [exact H1|constructor].
Qed.

Definition forced_of (qs : list (text * Question)) : list (text * Answer) :=
  omap (fun kq => (fun a => (kq.1, a)) <$> forced_answer kq.2) qs.

Lemma forced_of_elem qs k a : (k, a) ∈ forced_of qs <-> exists q, (k, q) ∈ qs /\ forced_answer q = Some a.
Proof.
  unfold forced_of. rewrite list_elem_of_omap. split.
  - intros ([k' q] & Hin & E). cbn in E. destruct (forced_answer q) as [a'|] eqn:Ef; [|done].
    injection E as -> ->. eauto.
  - intros (q & Hin & E). exists (k, q). split; [done|]. cbn. by rewrite E.
Qed.

Lemma forced_of_nodup qs : NoDup (map fst qs) -> NoDup (map fst (forced_of qs)).
Proof.
  induction qs as [|[k q] qs IH]; [by constructor|]. intros [Hk Hn]%NoDup_cons.
  unfold forced_of. cbn. destruct (forced_answer q) as [a|]; [|by apply IH].
  cbn. apply NoDup_cons. split; [|by apply IH].
  intros ((k' & a') & -> & Hin)%list_elem_of_fmap. apply Hk.
  apply forced_of_elem in Hin as (q' & Hin & _). apply list_elem_of_fmap. by exists (k', q').
Qed.

Lemma forced_answers_elem qs k a : NoDup (map fst qs) ->
  im_get k (forced_answers qs) = Some a <-> exists q, (k, q) ∈ qs /\ forced_answer q = Some a.
Proof.
  intros Hn. unfold forced_answers. fold (forced_of qs).
  rewrite im_extend_fresh; [|by apply forced_of_nodup|intros k' _; by apply not_elem_of_nil].
  rewrite <- forced_of_elem. cbn [app]. split; [apply im_get_elem|]. apply im_get_nodup. by apply forced_of_nodup.
Qed.

(** What a caller is given: one answer to each question and none to anything else. *)
Definition answers_all (qs : list (text * Question)) (ans : list (text * Answer)) : Prop :=
  NoDup (im_keys ans) /\ (forall k, k ∈ im_keys ans -> k ∈ map fst qs) /\
  (forall k q, (k, q) ∈ qs -> exists a, im_get k ans = Some a /\ answers_question q a).

Definition open_ends (qs : list (text * Question)) (r : result (Evaluation Answer) (DecisionError Answer))
    (recorded : list CostLine) : Prop :=
  match r with
  | Ok e => answers_all qs (answers e) /\ 0 <= requests e <= Z.of_nat (length qs + 5) /\ recorded = []
  | Err (Exhausted ex) => 1 <= ex_requests ex <= Z.of_nat (length qs + 5)
  | Err _ => True
  end.

Lemma answered_answers_all qs ans : NoDup (map fst qs) -> Forall2 answered_by qs ans -> answers_all qs ans.
Proof.
  intros Hn Ha. pose proof (answered_by_keys _ _ Ha) as Hk. split_and!; unfold im_keys; rewrite ?Hk; try done.
  intros k q Hin. apply list_elem_of_lookup in Hin as [i Hi].
  destruct (Forall2_lookup_l _ _ _ _ _ Ha Hi) as ([k' a] & Hi' & [E Hq]). cbn in E, Hq. subst k'.
  exists a. split; [|done]. apply im_get_nodup; [by unfold im_keys; rewrite Hk|].
  apply list_elem_of_lookup. eauto.
Qed.

Lemma call_open_ends current qs r recorded :
  NoDup (map fst qs) -> call_ends current qs r recorded -> open_ends qs r recorded.
Proof.
  intros Hn H. destruct r as [e|e].
  - destruct H as (Ha & Hr & ->). split_and!; [by apply answered_answers_all|lia|lia|done].
  - destruct H as (singles & rest & _ & _ & _ & Hex). destruct e; try done. by destruct (Hex _ eq_refl).
Qed.

Section Forced.
Context (qs : list (text * Question)) (Hn : NoDup (map fst qs)).

Definition open_rest : list (text * Question) :=
  base.filter (fun kq => im_contains kq.1 (forced_answers qs) = false) qs.

Lemma open_rest_elem k q : (k, q) ∈ open_rest <-> (k, q) ∈ qs /\ k ∉ im_keys (forced_answers qs).
Proof.
  unfold open_rest. rewrite list_elem_of_filter. cbn. rewrite <- im_contains_spec.
  destruct (im_contains k (forced_answers qs)); intuition congruence.
Qed.

Lemma open_rest_nodup : NoDup (map fst open_rest).
Proof. eapply sublist_NoDup; [exact Hn|]. apply fmap_sublist, sublist_filter. Qed.

Lemma open_rest_length : (length open_rest <= length qs)%nat.
Proof. apply length_filter. Qed.

Lemma forced_covered k q : (k, q) ∈ qs -> k ∈ im_keys (forced_answers qs) ->
  exists a, im_get k (forced_answers qs) = Some a /\ answers_question q a.
Proof.
  intros Hin [a Ha]%im_get_some_keys. exists a. split; [done|].
  apply forced_answers_elem in Ha as (q' & Hin' & Hf); [|done].
  replace q with q'; [by apply forced_answer_answers|].
  pose proof (im_get_nodup _ _ _ Hn Hin). pose proof (im_get_nodup _ _ _ Hn Hin'). congruence.
Qed.

Lemma forced_keys k : k ∈ im_keys (forced_answers qs) -> k ∈ map fst qs.
Proof.
  intros [a Ha]%im_get_some_keys. apply forced_answers_elem in Ha as (q & Hin & _); [|done].
  apply list_elem_of_fmap. by exists (k, q).
Qed.

Lemma forced_nodup : NoDup (im_keys (forced_answers qs)).
Proof. apply im_extend_nodup. constructor. Qed.

Lemma forced_all : open_rest = [] -> answers_all qs (forced_answers qs).
Proof.
  intros Hrest. split_and!; [apply forced_nodup|apply forced_keys|].
  intros k q Hin. apply forced_covered; [done|]. destruct (decide (k ∈ im_keys (forced_answers qs))); [done|].
  exfalso. apply (not_elem_of_nil (k, q)). rewrite <- Hrest. by apply open_rest_elem.
Qed.

Lemma rest_and_forced ans : answers_all open_rest ans -> answers_all qs (im_extend ans (forced_answers qs)).
Proof.
  intros (Hnd & Hkeys & Hans). split_and!.
  - by apply im_extend_nodup.
  - intros k [Hk|Hk]%im_extend_keys; [|by apply forced_keys].
    apply Hkeys in Hk. apply list_elem_of_fmap in Hk as ((k' & q) & -> & Hin).
    apply open_rest_elem in Hin as [Hin _]. apply list_elem_of_fmap. by exists (k', q).
  - intros k q Hin. destruct (decide (k ∈ im_keys (forced_answers qs))) as [Hk|Hk].
    + destruct (forced_covered k q Hin Hk) as (a & Ha & Hq). exists a. split; [|done].
      apply im_get_extend_new; [apply forced_nodup|by apply im_get_elem].
    + rewrite im_get_extend_other by done. apply Hans. by apply open_rest_elem.
Qed.

Lemma asking_open_ends current name price ask :
  qs <> [] -> Z.of_nat (length qs) <= 2 ^ 62 ->
  (forall asked, asked <> [] -> NoDup (map fst asked) -> Z.of_nat (length asked) <= 2 ^ 62 ->
     let '(r, recorded) := ask asked in open_ends asked r recorded) ->
  let '(r, recorded) := asking_open current name price ask qs in open_ends qs r recorded.
Proof.
  intros Hne Hlen Hask. unfold asking_open. fold open_rest.
  destruct (is_empty (forced_answers qs)); [by apply Hask|].
  destruct open_rest as [|kq rest] eqn:Er.
  { cbn. split_and!; [by apply forced_all|lia|lia|done]. }
  cbn [is_empty]. rewrite <- Er.
  pose proof (Hask open_rest) as Hrest. rewrite Er in Hrest at 1.
  specialize (Hrest ltac:(done) open_rest_nodup ltac:(pose proof open_rest_length; lia)).
  destruct (ask open_rest) as [r recorded]. pose proof open_rest_length as Hl.
  destruct r as [e|e]; cbn in *.
  - destruct Hrest as (Ha & Hr & ->). split_and!; [by apply rest_and_forced|lia|lia|done].
  - destruct e; try done. lia.
Qed.
End Forced.
End OpenFacts.

(** ** What a call sends *)
(** The requests that came of asking, by how it ended. *)
Definition counts (r : result (Evaluation Answer) (AskError Answer)) (k : nat) : Prop :=
  match r with
  | Ok e => requests e = Z.of_nat k
  | Err (AskSplit _ u) => us_requests u = Z.of_nat k
  | Err (AskJev (Exhausted ex)) => ex_requests ex = Z.of_nat k
  | Err (AskJev _) => True
  end.
(** One request reads the network at its attempts and nowhere else, and counts each. *)
Class Consults (ask : (nat -> Outside) -> Ask) : Prop :=
  consults outside n qs start split : (start <= 5)%nat -> exists k, (k <= 6 - start)%nat /\ counts (ask outside n qs start split).1 k /\
    forall outside', alike (fun i => i ∈ seq start k) (outside n) (outside' n) -> ask outside' n qs start split = ask outside n qs start split.

(** Two networks that are alike at the attempts [sent], each by its request and its number. *)
Definition alike_on (sent : list (nat * nat)) (outside outside' : nat -> Outside) : Prop :=
  forall n, alike (fun i => (n, i) ∈ sent) (outside n) (outside' n).
Definition attempts_of (n start k : nat) : list (nat * nat) := map (pair n) (seq start k).

Lemma attempts_of_elem n start k c : c ∈ attempts_of n start k <-> c.1 = n /\ c.2 ∈ seq start k.
Proof.
  unfold attempts_of. rewrite list_elem_of_fmap. destruct c as [m i]; cbn. split; [by intros (j & [= -> ->] & Hj)|intros [-> Hi]; eauto].
Qed.
Lemma attempts_of_nodup n start k : NoDup (attempts_of n start k).
Proof. apply NoDup_fmap_2; [by intros ? ? [=]|apply NoDup_seq]. Qed.
Lemma attempts_of_length n start k : length (attempts_of n start k) = k.
Proof. unfold attempts_of. by rewrite length_map, length_seq. Qed.
(** The requests of one call and of the calls after it. *)
Lemma attempts_before n start k sent : NoDup sent -> (forall c, c ∈ sent -> S n <= c.1)%nat -> NoDup (attempts_of n start k ++ sent).
Proof.
  intros Hn Hs. apply NoDup_app. split_and!; [apply attempts_of_nodup| |done]. intros c [Hc _]%attempts_of_elem Hin%Hs. lia.
Qed.
Lemma alike_attempts n start k sent outside outside' : alike_on (attempts_of n start k ++ sent) outside outside' ->
  alike (fun i => i ∈ seq start k) (outside n) (outside' n).
Proof.
  intros Ha. destruct (Ha n) as (? & ? & ? & ? & Hn). split_and!; try done. intros rq i Hi. apply Hn, elem_of_app. left. by apply attempts_of_elem.
Qed.
Lemma alike_rest l sent outside outside' : alike_on (l ++ sent) outside outside' -> alike_on sent outside outside'.
Proof.
  intros Ha n. destruct (Ha n) as (? & ? & ? & ? & Hn). split_and!; try done. intros rq i Hi. apply Hn, elem_of_app. by right.
Qed.

Section Reads.
Context `{FX : FixedFormat} (ask : (nat -> Outside) -> Ask) `{AC : !forall outside, AskContract (ask outside)} `{RD : !Consults ask}.

Lemma sent_by_snoc es e : sent_by (es ++ [e]) = sent_by es + requests e.
Proof. unfold sent_by, sum_of. rewrite map_app, foldr_app. cbn. induction es as [|x es IH]; cbn; lia. Qed.

Lemma ask_singles_reads current outside qs : forall n start answered paid, (start <= 5)%nat ->
  exists sent, NoDup sent /\ (forall c, c ∈ sent -> n <= c.1)%nat /\ (length sent + start <= length qs + 5)%nat /\
    (let '(r, answered', _) := ask_singles current (ask outside) n qs start answered paid in
     match r with
     | Ok _ => sent_by answered' = sent_by answered + Z.of_nat (length sent)
     | Err (Exhausted ex) => sent_by answered' + ex_requests ex = sent_by answered + Z.of_nat (length sent)
     | Err _ => True
     end) /\
    forall outside', alike_on sent outside outside' ->
      ask_singles current (ask outside') n qs start answered paid = ask_singles current (ask outside) n qs start answered paid.
Proof.
  induction qs as [|[key q] qs IH]; intros n start answered paid Hs; cbn [ask_singles].
  { exists []. split_and!; [apply NoDup_nil_2|by intros c ?%not_elem_of_nil|cbn; lia|cbn; lia|done]. }
  destruct (consults (ask := ask) outside n [(key, q)] start false Hs) as (k & Hk & Hc & Hsame).
  destruct (ask outside n [(key, q)] start false) as [[e|e] recorded] eqn:Ea.
  - destruct (ask_answers _ _ _ _ _ _ Hs Ea) as (_ & Hreq & ->). cbn in Hc.
    assert (Hs' : (Nat.min (length RETRY_DELAYS_SECONDS) (start + Z.to_nat (requests e) - 1) <= 5)%nat)
      by (cbn [length RETRY_DELAYS_SECONDS]; lia).
    destruct (IH (S n) _ (answered ++ [e]) ((paid ++ []) ++ [with_purpose current (ev_cost e)]) Hs') as (sent & Hnd & Hfrom & Hlen & Hsum & Hrest).
    exists (attempts_of n start k ++ sent). rewrite length_app, attempts_of_length. cbn [length RETRY_DELAYS_SECONDS] in Hlen. split_and!.
    + by apply attempts_before.
    + intros c [[-> _]%attempts_of_elem|Hc'%Hfrom]%elem_of_app; lia.
    + cbn [length]. lia.
    + destruct (ask_singles _ _ _ _ _ _ _) as [[[u|err] answered'] paid']; rewrite sent_by_snoc in Hsum; [lia|]. destruct err; try done. lia.
    + intros outside' Ha. rewrite Hsame by (by eapply alike_attempts). apply Hrest. by eapply alike_rest.
  - exists (attempts_of n start k). rewrite attempts_of_length. cbn [length]. split_and!; [apply attempts_of_nodup|by intros c [-> _]%attempts_of_elem|lia| |].
    + destruct e as [d|]; cbn; [|done]. cbn in Hc. destruct d; try done. lia.
    + intros outside' Ha. rewrite Hsame; [done|]. eapply (alike_attempts _ _ _ []). by rewrite app_nil_r.
Qed.

(** The requests a call's end tells of. *)
Definition counted (r : result (Evaluation Answer) (DecisionError Answer)) (k : nat) : Prop :=
  match r with
  | Ok e => requests e = Z.of_nat k
  | Err (Exhausted ex) => ex_requests ex = Z.of_nat k
  | Err _ => True
  end.
(** A call [f] of its network sent exactly the requests [sent], no request twice: the network is read nowhere else. *)
Definition sends (f : (nat -> Outside) -> result (Evaluation Answer) (DecisionError Answer) * list CostLine)
    (outside : nat -> Outside) (bound : nat) : Prop :=
  exists sent, NoDup sent /\ (length sent <= bound)%nat /\ counted (f outside).1 (length sent) /\
    forall outside', alike_on sent outside outside' -> f outside' = f outside.

Lemma counts_counted r k : (forall next u, r <> Err (AskSplit next u)) -> counts r k ->
  counted (match r with Ok e => Ok e | Err e => Err (into_jev e) end) k.
Proof. intros Hns. destruct r as [e|[d|next u]]; cbn; [done|by destruct d|by destruct (Hns next u)]. Qed.

Lemma asking_split_sends current price secs outside qs : qs <> [] -> Z.of_nat (length qs) <= 2 ^ 62 ->
  sends (fun outside => asking_split current price secs (ask outside) qs) outside (length qs + 5).
Proof.
  intros Hne Hlen. assert (Hlen1 : (1 <= length qs)%nat) by (destruct qs; cbn; [done|lia]). unfold sends, asking_split.
  destruct (length qs <? 2)%nat.
  { destruct (consults (ask := ask) outside 0%nat qs 0%nat false ltac:(lia)) as (k & Hk & Hc & Hsame).
    exists (attempts_of 0 0 k). rewrite attempts_of_length. cbv zeta. cbn [fst]. split_and!; [apply attempts_of_nodup|lia| |].
    - apply counts_counted; [|done]. intros next u Ha. destruct (ask outside 0%nat qs 0%nat false) as [r recorded] eqn:Ea. cbn in Ha. subst r.
      by destruct (ask_splits _ _ _ _ _ _ _ (Nat.le_0_l 5) Ea) as [? _].
    - intros outside' Ha. rewrite Hsame; [done|]. eapply (alike_attempts _ _ _ []). by rewrite app_nil_r. }
  destruct (consults (ask := ask) outside 0%nat qs 0%nat true ltac:(lia)) as (k & Hk & Hc & Hsame).
  destruct (ask outside 0%nat qs 0%nat true) as [r recorded] eqn:Ea. cbn [fst] in Hc.
  assert (Hone : (forall next u, r <> Err (AskSplit next u)) -> exists sent, NoDup sent /\ (length sent <= length qs + 5)%nat /\
    counted (match r with Ok e => Ok e | Err e => Err (into_jev e) end) (length sent) /\
    forall outside', alike_on sent outside outside' -> ask outside' 0%nat qs 0%nat true = (r, recorded)).
  { intros Hns. exists (attempts_of 0 0 k). rewrite attempts_of_length. split_and!; [apply attempts_of_nodup|lia|by apply counts_counted|].
    intros outside' Ha. apply Hsame. eapply (alike_attempts _ _ _ []). by rewrite app_nil_r. }
  destruct r as [e|[d|start u]].
  1, 2: destruct Hone as (sent & Hnd & Hl & Hcd & Hall); [done|]; exists sent; split_and!; try done; intros outside' Ha; by rewrite (Hall outside' Ha).
  destruct (ask_splits _ _ _ _ _ _ _ (Nat.le_0_l 5) Ea) as (_ & Hstart & Hs5 & Hu2 & ->). cbn in Hc.
  destruct (ask_singles_reads current outside qs 1 start [] [] Hs5) as (sent & Hnd & Hfrom & Hl & Hsum & Hrest).
  pose proof (ask_singles_spec (ask outside) current qs 1 start [] [] Hs5) as Hspec.
  exists (attempts_of 0 0 k ++ sent). rewrite length_app, attempts_of_length. split_and!; [by apply attempts_before|lia| |].
  - destruct (ask_singles current (ask outside) 1 qs start [] []) as [[r es] paid]. destruct Hspec as (more & rest & -> & _ & _ & Hq & Hend).
    cbn [app] in *. replace (sent_by []) with 0 in Hsum by done.
    assert (Hwrap : forall n, 0 <= n <= Z.of_nat (length qs + 5) -> wrap64 n = n) by (intros n Hn; apply wrap64_id; unfold i64_min, i64_max in *; lia).
    assert (Htotal : sent_by more <= Z.of_nat (length sent) -> total_requests more = sent_by more /\ 0 <= sent_by more)
      by (intros Hm; eapply total_singles; [exact Hq|exact Hm|unfold i64_max; lia]).
    destruct r as [u'|[]]; try done; cbn.
    + destruct Htotal as [-> ?]; [lia|]. rewrite Hwrap; lia.
    + destruct Hend as (_ & Hb & Hex). destruct (Hex _ eq_refl) as [Hx1 Hx2]. destruct Htotal as [-> ?]; [lia|]. rewrite (Hwrap (us_requests u + _)), Hwrap; lia.
  - intros outside' Ha. rewrite Hsame by (by eapply alike_attempts). rewrite Hrest; [done|]. by eapply alike_rest.
Qed.

(** Nothing is sent for the questions answered here. *)
Lemma asking_open_sends current name price secs outside qs : qs <> [] -> Z.of_nat (length qs) <= 2 ^ 62 ->
  sends (fun outside => asking_open current name price (asking_split current price secs (ask outside)) qs) outside (length qs + 5).
Proof.
  intros Hne Hlen. unfold sends, asking_open. destruct (is_empty (forced_answers qs)); [by apply asking_split_sends|].
  fold (open_rest qs). destruct (is_empty (open_rest qs)) eqn:Er.
  { exists []. split_and!; [apply NoDup_nil_2|cbn; lia|done|done]. }
  pose proof (open_rest_length qs) as Hl.
  destruct (asking_split_sends current price secs outside (open_rest qs)) as (sent & Hnd & Hs & Hc & Hall); [by destruct (open_rest qs)|lia|].
  exists sent. split_and!; [done|lia| |].
  - destruct (asking_split _ _ _ _ (open_rest qs)) as [[e|e] recorded]; [done|]. by destruct e.
  - intros outside' Ha. by rewrite (Hall outside' Ha).
Qed.
End Reads.


(** ** Examples *)
Section Examples.
#[local] Existing Instance floor_format.

(** A batch refused twice, whose singles are answered; only yes-or-no questions are known. *)
Definition shrug (kq : text * Question) : option (text * Answer) :=
  match kq.2 with QNoul _ => Some (kq.1, ANoul EVEN_ODDS) | _ => None end.
Definition scripted : Ask := fun n qs start split =>
  if split && (start =? 0)%nat then (Err (AskSplit 2 (mkUsage 2 2 0 [])), [])
  else
    match mapM shrug qs with
    | Some ans => (Ok (mkEvaluation (lit "m") ans 10 (estimated_cost None (Some (f64_of_Z 1)) 10 0) 1), [])
    | None => (Err (AskJev (DecisionFailed [])), [])
    end.

Lemma even_odds_unit : unit_interval EVEN_ODDS.
Proof. by vm_compute. Qed.

Lemma shrug_answers qs ans : mapM shrug qs = Some ans -> Forall2 answered_by qs ans.
Proof.
  intros H%mapM_Some. eapply Forall2_impl; [exact H|]. intros [k q] a Hs. unfold shrug in Hs.
  destruct q; try done. injection Hs as <-. split; [done|apply even_odds_unit].
Qed.

#[local] Instance scripted_contract : AskContract scripted.
Proof.
  split; unfold scripted; intros n qs start split out; intros;
    (destruct (split && _) eqn:E; [|destruct (mapM shrug qs) eqn:Em]); simplify_eq; bool_hyps.
  - split_and!; [by apply shrug_answers|cbn [requests]; lia|cbn [requests]; lia|done].
  - match goal with H : (start =? 0)%nat = true |- _ => apply Nat.eqb_eq in H as -> end.
    split_and!; try done; vm_compute; lia.
Qed.

Definition two_questions : list (text * Question) :=
  [(lit "a", QNoul (mkNoulQuestion (lit "Is it?") None None)); (lit "b", QNoul (mkNoulQuestion (lit "Was it?") None None))].

Theorem asking_split_exact_witness :
  (let '(r, recorded) := asking_split None (Some (f64_of_Z 1)) f64_zero scripted two_questions in
   match r with Ok e => requests e = 4 /\ map fst (answers e) = [lit "a"; lit "b"] | Err _ => False end) /\
  let '(r, recorded) := asking_split None (Some (f64_of_Z 1)) f64_zero scripted two_questions in
  match r with
  | Ok e => Forall2 answered_by two_questions (answers e) /\ 1 <= requests e <= 7 /\ recorded = []
  | Err e =>
      exists singles rest, Forall2 single_answers (take (length singles) two_questions) singles /\
        (singles = [] \/ length singles < 2)%nat /\
        recorded = map (fun e => with_purpose None (ev_cost e)) singles ++ rest /\
        (forall ex, e = Exhausted ex -> answered ex = singles /\ 1 <= ex_requests ex <= 7)
  end.
Proof.
  split; [by vm_compute|].
  apply (asking_split_exact scripted None (Some (f64_of_Z 1)) f64_zero two_questions).
  - done.
  - vm_compute. apply (bool_decide_unpack (NoDup [[97]; [98]])). vm_compute. exact I.
  - vm_compute. discriminate.
Defined.

(** A choice with one option costs nothing, and the rest of the batch is asked without it. *)
Example forced_is_free :
  let forced := (lit "f", QChoice (mkChoiceQuestion (lit "Which?") [(lit "only", Null)])) in
  let '(r, _) := asking_open None (lit "m") None (asking_split None None f64_zero scripted) [forced] in
  match r with Ok e => requests e = 0 /\ map fst (answers e) = [lit "f"] | Err _ => False end.
Proof. by vm_compute. Qed.
End Examples.
