(* ===== verification/DecisionClients.v ===== *)
(** The decision clients: [SystemOneClient], [VercelGatewayJevClient] and
    [OpenAIDecisionsClient] of [crates/fastbrowse-clients/src] ([system_one.rs], [vercel.rs],
    [openai_decisions.rs]).

    Each client is its request: the body it posts, and the reading of a response into an
    [Evaluation].  All three satisfy [AskContract], so what [Split] proves of a call holds of
    each.  What a call meets outside is an [Outside] for each of its requests. *)

From S2P Require Import Prelude Float64 PyText Json Base64 DateTime Models Ledger Lax Config Receipts Spend Decision Validation Retry Split.

(** [images], by the key the state names each with, as PNG bytes. *)
Definition Images : Type := list (text * list Z).

Record SystemOneClient := mkSystemOneClient {
  so_api_key : text;
  so_base_url : text;
  so_model : text;
  so_profile : DecisionProfile;
  so_path : text;
  so_headers : list (text * text);
}.

Definition SYSTEM_ONE_PATH : text := lit "/v1/systemone".
Definition DECISIONS_PATH : text := lit "/v1/decisions".
Definition LONG_CONTEXT_HEADER : text * text := (lit "TypeSafe-Danger-Zone-Long-Context", lit "true").
Definition IMAGES_HEADER : text * text := (lit "TypeSafe-Danger-Zone-Images", lit "true").

Definition is_slash (c : Z) : bool := c =? 47.

Definition new_system_one (api_key base_url model : text) : SystemOneClient :=
  mkSystemOneClient api_key (trim_end is_slash base_url) model (for_model model) SYSTEM_ONE_PATH [].

Definition with_images (p : DecisionProfile) : DecisionProfile :=
  mkDecisionProfile (max_choice_options p) (max_score_levels p) (max_questions p) (max_largest_tokens p)
    (max_total_tokens p) (max_request_bytes p) (dollars_per_input_token p) true (profile_thresholds p).
Definition without_price (p : DecisionProfile) : DecisionProfile :=
  mkDecisionProfile (max_choice_options p) (max_score_levels p) (max_questions p) (max_largest_tokens p)
    (max_total_tokens p) (max_request_bytes p) None (images p) (profile_thresholds p).

Definition with_profile (c : SystemOneClient) (p : DecisionProfile) : SystemOneClient :=
  mkSystemOneClient (so_api_key c) (so_base_url c) (so_model c) p (so_path c) (so_headers c).
Definition so_long_context (c : SystemOneClient) : SystemOneClient := with_profile c (long_context (so_profile c)).
Definition so_images (c : SystemOneClient) : SystemOneClient := with_profile c (with_images (so_profile c)).
Definition so_typesafe (c : SystemOneClient) : SystemOneClient :=
  so_long_context (so_images
    (mkSystemOneClient (so_api_key c) (so_base_url c) (so_model c) (so_profile c) (so_path c)
       (so_headers c ++ [LONG_CONTEXT_HEADER]))).
Definition so_at (c : SystemOneClient) (path : text) : SystemOneClient :=
  mkSystemOneClient (so_api_key c) (so_base_url c) (so_model c) (so_profile c) path (so_headers c).
Definition so_unpriced (c : SystemOneClient) : SystemOneClient := with_profile c (without_price (so_profile c)).

Section Clients.
Context `{BR : BodyReader} `{FX : FixedFormat} `{RF : ReadFloat} `{FF : FloatFormat} `{VT : ValueText}.
(** The purpose the caller named, and what each request of a call meets. *)
Context (current : option JevPurpose) (outside : nat -> Outside).

(** *** What the clients share *)
(** A posted request's [Asked]: its response read by [parse], a value error as the call's. *)
Definition ask_with (what : text) (parse : Response -> RequestUsage -> result (Evaluation Answer) text)
    (posted : result Response (AskError Answer) * RequestUsage * list CostLine) : Asked :=
  let '(r, u, recorded) := posted in
  match r with
  | Err e => (Err e, recorded)
  | Ok response =>
      match parse response u with
      | Ok e => (Ok e, recorded)
      | Err detail => (Err (AskJev (response_error response (what ++ lit " (" ++ detail ++ lit ")"))), recorded)
      end
  end.

Definition optional_tokens (v : option value) : result Z text :=
  match v with None => Ok 0 | v => token_count v end.

Definition named_model (own : text) (v : option value) : result text text :=
  match v with
  | None => Ok own
  | Some (Str m) => Ok m
  | Some _ => Err (lit "invalid model name")
  end.

(** *** System One ([system_one.rs]) *)
Definition system_one_body (c : SystemOneClient) (state : value) (questions : list (text * Question)) (imgs : Images)
  : value :=
  let fields := [("model"%string, Str (so_model c)); ("state"%string, state);
                 ("questions"%string, wire_questions questions false)] in
  if is_empty imgs then obj fields
  else
    obj (fields ++
         [("assets"%string,
           Object (map (fun kp => (kp.1, obj [("type"%string, Str (lit "image")); ("format"%string, Str (lit "png"));
                                              ("data_base64"%string, Str (encode kp.2))])) imgs))]).

Definition system_one_headers (c : SystemOneClient) (imgs : Images) : list (text * text) :=
  so_headers c ++ if is_empty imgs then [] else [IMAGES_HEADER].

Definition read_system_one (c : SystemOneClient) (questions : list (text * Question)) (secs : f64)
    (response : Response) (sent : RequestUsage) : result (Evaluation Answer) text :=
  let price := dollars_per_input_token (so_profile c) in
  let? payload := json_object response in
  let? usage := object_value (im_get (lit "usage") payload) in
  let? tokens := token_count (im_get (lit "input_tokens") usage) in
  let? output_tokens := optional_tokens (im_get (lit "output_tokens") usage) in
  let? cost := reported_cost current (im_get (lit "cost") usage) tokens output_tokens price in
  let? name := named_model (so_model c) (im_get (lit "model") payload) in
  let? parsed := parse_answers (im_get (lit "answers") payload) questions false None in
  Ok (mkEvaluation name parsed tokens (timed cost sent secs) (us_requests sent)).

Definition system_one_ask (c : SystemOneClient) (state : value) (imgs : Images) : Ask :=
  fun n questions start_attempt split_batch =>
    let o := outside n in
    ask_with (lit "Invalid Jev response") (read_system_one c questions (o_seconds o))
      (post current o (so_base_url c ++ so_path c) (so_api_key c) (system_one_body c state questions imgs)
         (system_one_headers c imgs) start_attempt split_batch (dollars_per_input_token (so_profile c))
         (if is_empty imgs then None else Some (max_total_tokens (so_profile c)))).

Definition system_one_answer_all (c : SystemOneClient) (state : value) (secs : f64) (imgs : Images)
    (questions : list (text * Question)) : result (Evaluation Answer) (DecisionError Answer) * list CostLine :=
  let price := dollars_per_input_token (so_profile c) in
  asking_open current (so_model c) price (asking_split current price secs (system_one_ask c state imgs)) questions.

(** [evaluate_images]: a route that takes no images is sent the state without them. *)
Definition system_one_evaluate (c : SystemOneClient) (state : value) (secs : f64) (imgs : Images)
    (questions : list (text * Question)) : result (Evaluation Answer) (DecisionError Answer) * list CostLine :=
  if images (so_profile c) then system_one_answer_all c state secs imgs questions
  else system_one_answer_all c (without_images (map fst imgs) state) secs [] questions.

(** *** Vercel's gateway ([vercel.rs]) *)
Record VercelGatewayJevClient := mkVercel { vc_api_key : text; vc_base_url : text }.
Definition GATEWAY_MODEL : text := lit "typesafe-ai/jev-1.14.0".
Definition GATEWAY_PRICE : option f64 := Some JEV_DOLLARS_PER_INPUT_TOKEN.

Definition new_vercel (api_key base_url : text) : VercelGatewayJevClient :=
  mkVercel api_key (trim_end is_slash base_url).

Definition vercel_body (state : value) (questions : list (text * Question)) : value :=
  obj [("state"%string, state); ("questions"%string, wire_questions questions true)].
Definition vercel_headers : list (text * text) :=
  [(lit "ai-gateway-auth-method", lit "api-key"); (lit "ai-gateway-protocol-version", lit "0.0.1");
   (lit "ai-model-id", GATEWAY_MODEL); (lit "ai-evaluation-model-specification-version", lit "4")].

(** A field that may be missing, which then holds nothing. *)
Definition object_or_empty (v : option value) : result (list (text * value)) text :=
  object_value (Some (default (Object []) v)).

Definition read_vercel (questions : list (text * Question)) (secs : f64) (response : Response) (sent : RequestUsage)
  : result (Evaluation Answer) text :=
  let? payload := json_object response in
  let? usage := object_value (im_get (lit "usage") payload) in
  let? tokens := token_count (im_get (lit "inputTokens") usage) in
  let? output_tokens := optional_tokens (im_get (lit "outputTokens") usage) in
  let? metadata := object_or_empty (im_get (lit "providerMetadata") payload) in
  let? typesafe := object_or_empty (im_get (lit "typesafe") metadata) in
  let? confidence := object_or_empty (im_get (lit "confidence") typesafe) in
  let? gateway := object_or_empty (im_get (lit "gateway") metadata) in
  let? cost := reported_cost current (im_get (lit "cost") gateway) tokens output_tokens GATEWAY_PRICE in
  let? parsed := parse_answers (im_get (lit "answers") payload) questions true (Some confidence) in
  Ok (mkEvaluation GATEWAY_MODEL parsed tokens (timed cost sent secs) (us_requests sent)).

Definition vercel_ask (c : VercelGatewayJevClient) (state : value) : Ask :=
  fun n questions start_attempt split_batch =>
    let o := outside n in
    ask_with (lit "Invalid gateway response") (read_vercel questions (o_seconds o))
      (post current o (vc_base_url c ++ lit "/v4/ai/evaluation-model") (vc_api_key c) (vercel_body state questions)
         vercel_headers start_attempt split_batch GATEWAY_PRICE None).

Definition vercel_evaluate (c : VercelGatewayJevClient) (state : value) (secs : f64)
    (questions : list (text * Question)) : result (Evaluation Answer) (DecisionError Answer) * list CostLine :=
  asking_open current GATEWAY_MODEL GATEWAY_PRICE (asking_split current GATEWAY_PRICE secs (vercel_ask c state))
    questions.

(** *** OpenAI's Decisions API ([openai_decisions.rs]) *)
Record OpenAIDecisionsClient := mkOpenAI {
  oa_api_key : text; oa_base_url : text; oa_model : text; oa_profile : DecisionProfile
}.
Definition new_openai (api_key base_url model : text) : OpenAIDecisionsClient :=
  mkOpenAI api_key (trim_end is_slash base_url) model (for_model model).
Definition oa_unpriced (c : OpenAIDecisionsClient) : OpenAIDecisionsClient :=
  mkOpenAI (oa_api_key c) (oa_base_url c) (oa_model c) (without_price (oa_profile c)).

Definition openai_body (c : OpenAIDecisionsClient) (state : value) (questions : list (text * Question)) : value :=
  obj [("model"%string, Str (oa_model c)); ("input"%string, decisions_input state);
       ("questions"%string, decisions_questions questions)].

Definition read_openai (c : OpenAIDecisionsClient) (questions : list (text * Question)) (secs : f64)
    (response : Response) (sent : RequestUsage) : result (Evaluation Answer) text :=
  let price := dollars_per_input_token (oa_profile c) in
  let? payload := json_object response in
  let? usage := object_value (im_get (lit "usage") payload) in
  let? tokens := token_count (im_get (lit "input_tokens") usage) in
  let? name := named_model (oa_model c) (im_get (lit "model") payload) in
  let? rewritten := system_one_answers (im_get (lit "answers") payload) in
  let? parsed := parse_answers (Some rewritten) questions false None in
  Ok (mkEvaluation name parsed tokens (timed (estimated_cost current price tokens 0) sent secs) (us_requests sent)).

Definition openai_ask (c : OpenAIDecisionsClient) (state : value) : Ask :=
  fun n questions start_attempt split_batch =>
    let o := outside n in
    ask_with (lit "Invalid decisions response") (read_openai c questions (o_seconds o))
      (post current o (oa_base_url c ++ lit "/v1/decisions") (oa_api_key c) (openai_body c state questions) []
         start_attempt split_batch (dollars_per_input_token (oa_profile c)) None).

Definition openai_evaluate (c : OpenAIDecisionsClient) (state : value) (secs : f64)
    (questions : list (text * Question)) : result (Evaluation Answer) (DecisionError Answer) * list CostLine :=
  let price := dollars_per_input_token (oa_profile c) in
  asking_open current (oa_model c) price (asking_split current price secs (openai_ask c state)) questions.

(** * Properties *)
(** ** Each client keeps the contract *)
(** What a reading promises: an answer to each question, and the requests as they were counted. *)
Definition reads_answers (questions : list (text * Question))
    (parse : Response -> RequestUsage -> result (Evaluation Answer) text) : Prop :=
  forall response u e, parse response u = Ok e ->
    Forall2 answered_by questions (answers e) /\ requests e = us_requests u.

Ltac read_fields :=
  peel_reading; match goal with H : Ok _ = Ok _ |- _ => injection H as <- end.

Lemma read_system_one_answers c questions secs : reads_answers questions (read_system_one c questions secs).
Proof.
  intros response u e H. unfold read_system_one in H. cbv zeta in H. read_fields.
  split; [|done]. cbn. by eapply parse_answers_spec.
Qed.

Lemma read_vercel_answers questions secs : reads_answers questions (read_vercel questions secs).
Proof.
  intros response u e H. unfold read_vercel in H. read_fields.
  split; [|done]. cbn. by eapply parse_answers_spec.
Qed.

Lemma read_openai_answers c questions secs : reads_answers questions (read_openai c questions secs).
Proof.
  intros response u e H. unfold read_openai in H. cbv zeta in H. read_fields.
  split; [|done]. cbn. by eapply parse_answers_spec.
Qed.

(** A client is its reading and the [post] it makes. *)
Lemma ask_with_contract (what : text) (ask : Ask) parse url key body headers price image_context :
  (forall questions secs, reads_answers questions (parse questions secs)) ->
  (forall n questions start split, ask n questions start split =
     ask_with what (parse questions (o_seconds (outside n)))
       (post current (outside n) url key (body questions) headers start split price image_context)) ->
  AskContract ask.
Proof.
  intros Hparse Hask. assert (Hpost : forall n questions start split, (start <= 5)%nat ->
    exists r u recorded, post (A := Answer) current (outside n) url key (body questions) headers start split price
      image_context = (r, u, recorded) /\ sent_within start split u r /\
      (match r with Ok _ | Err (AskSplit _ _) => recorded = [] | _ => True end)).
  { intros n questions start split Hs.
    destruct (post current (outside n) url key (body questions) headers start split price image_context)
      as [[r u] recorded] eqn:Ep. exists r, u, recorded. split; [done|]. eapply post_sent_within; eauto. }
  split; intros n questions start split out; intros;
    match goal with H : ask _ _ _ _ = _ |- _ => rename H into Ha end;
    match goal with H : (start <= 5)%nat |- _ => rename H into Hs end;
    rewrite Hask in Ha; destruct (Hpost n questions start split Hs) as (r & u' & rec & Ep & Hw & Hrec);
    rewrite Ep in Ha; unfold ask_with in Ha; destruct Hw as (Hreq & Hun & Hr).
  - destruct r as [response|]; [|done].
    destruct (parse questions _ response u') as [e|] eqn:Eparse; [|done]. injection Ha as <- <-.
    destruct (Hparse _ _ _ _ _ Eparse) as [Hans ->]. split_and!; [done|lia|lia|done].
  - destruct r as [response|e]; [by destruct (parse questions _ response u')|]. injection Ha as -> <-.
    destruct Hr as (Hsp & -> & Hn & H5 & H2). done.
  - destruct r as [response|e]; [by destruct (parse questions _ response u')|]. injection Ha as -> <-.
    destruct Hr as (H1 & -> & _ & ->). split; [lia|done].
Qed.

#[export] Instance system_one_contract c state imgs : AskContract (system_one_ask c state imgs).
Proof. eapply ask_with_contract; [|done]. intros. apply read_system_one_answers. Qed.
#[export] Instance vercel_contract c state : AskContract (vercel_ask c state).
Proof. eapply ask_with_contract; [|done]. intros. apply read_vercel_answers. Qed.
#[export] Instance openai_contract c state : AskContract (openai_ask c state).
Proof. eapply ask_with_contract; [|done]. intros. apply read_openai_answers. Qed.
End Clients.

(** ** Any client *)
(** The trait object a run holds. *)
Inductive DecisionClient :=
| SystemOne (c : SystemOneClient)
| Vercel (c : VercelGatewayJevClient)
| OpenAI (c : OpenAIDecisionsClient).

Section AnyClient.
Context `{BR : BodyReader} `{FX : FixedFormat} `{RF : ReadFloat} `{FF : FloatFormat} `{VT : ValueText}.

(** [evaluate_images]; only System One takes any, the trait's default drops them
    ([decision.rs]). *)
Definition evaluate (client : DecisionClient) (current : option JevPurpose) (outside : nat -> Outside)
    (state : value) (secs : f64) (imgs : Images) (questions : list (text * Question))
  : result (Evaluation Answer) (DecisionError Answer) * list CostLine :=
  match client with
  | SystemOne c => system_one_evaluate current outside c state secs imgs questions
  | Vercel c => vercel_evaluate current outside c (without_images (map fst imgs) state) secs questions
  | OpenAI c => openai_evaluate current outside c (without_images (map fst imgs) state) secs questions
  end.

Lemma asking_ends current name price secs ask `{!AskContract ask} qs :
  qs <> [] -> NoDup (map fst qs) -> Z.of_nat (length qs) <= 2 ^ 62 ->
  let '(r, recorded) := asking_open current name price (asking_split current price secs ask) qs in
  open_ends qs r recorded.
Proof.
  intros Hne Hn Hlen. apply asking_open_ends; try done. intros asked Ha Hna Hla.
  pose proof (asking_split_ends ask current price secs asked Ha Hna Hla) as H.
  destruct (asking_split _ _ _ _ asked) as [r recorded]. by eapply call_open_ends.
Qed.

Lemma evaluate_open_ends client current outside state secs imgs questions :
  questions <> [] -> NoDup (map fst questions) -> Z.of_nat (length questions) <= 2 ^ 62 ->
  let '(r, recorded) := evaluate client current outside state secs imgs questions in open_ends questions r recorded.
Proof.
  intros Hne Hn Hlen. unfold evaluate, system_one_evaluate, system_one_answer_all, vercel_evaluate, openai_evaluate.
  destruct client as [c|c|c]; [destruct (images (so_profile c))|..]; by apply asking_ends; [typeclasses eauto|..].
Qed.

(** A client's request is its [post]'s, and its seconds its own. *)
Lemma ask_with_consults current what (ask : (nat -> Outside) -> Ask) parse url key body headers price image_context :
  (forall questions secs, reads_answers questions (parse questions secs)) ->
  (forall outside n questions start split, ask outside n questions start split =
     ask_with what (parse questions (o_seconds (outside n)))
       (post current (outside n) url key (body questions) headers start split price image_context)) ->
  Consults ask.
Proof.
  intros Hparse Hask outside n questions start split Hs. rewrite !Hask.
  destruct (post_reads (A := Answer) current (outside n) url key (body questions) headers start split price image_context Hs) as (k & Hk & Hc & Hsame).
  exists k. split_and!; [done| |].
  - destruct (post current (outside n) url key (body questions) headers start split price image_context) as [[r u] recorded] eqn:Ep.
    apply post_sent_within in Ep as [(_ & _ & Hr) _]; [|done]. cbn in Hc. unfold ask_with. destruct r as [response|e].
    + destruct (parse questions _ response u) as [e|] eqn:Eparse; [|done]. destruct (Hparse _ _ _ _ _ Eparse) as [_ E]. cbn. by rewrite E.
    + cbn. destruct e as [d|next u']; [destruct d; try done; destruct Hr as (_ & -> & _); done|]. by destruct Hr as (_ & -> & _).
  - intros outside' Ha. rewrite Hask, Hsame by done. by destruct Ha as (_ & _ & -> & _).
Qed.

#[export] Instance system_one_consults current c state imgs : Consults (fun outside => system_one_ask current outside c state imgs).
Proof. eapply ask_with_consults; [|done]. intros. apply read_system_one_answers. Qed.
#[export] Instance vercel_consults current c state : Consults (fun outside => vercel_ask current outside c state).
Proof. eapply ask_with_consults; [|done]. intros. apply read_vercel_answers. Qed.
#[export] Instance openai_consults current c state : Consults (fun outside => openai_ask current outside c state).
Proof. eapply ask_with_consults; [|done]. intros. apply read_openai_answers. Qed.

Lemma evaluate_sends client current outside state secs imgs questions :
  questions <> [] -> Z.of_nat (length questions) <= 2 ^ 62 ->
  sends (fun outside => evaluate client current outside state secs imgs questions) outside (length questions + 5).
Proof.
  intros Hne Hlen. unfold evaluate, system_one_evaluate, system_one_answer_all, vercel_evaluate, openai_evaluate.
  destruct client as [c|c|c]; [destruct (images (so_profile c))|..].
  - exact (asking_open_sends (fun outside => system_one_ask current outside c state imgs) _ _ _ _ _ _ Hne Hlen).
  - exact (asking_open_sends (fun outside => system_one_ask current outside c (without_images (map fst imgs) state) []) _ _ _ _ _ _ Hne Hlen).
  - exact (asking_open_sends (fun outside => vercel_ask current outside c (without_images (map fst imgs) state)) _ _ _ _ _ _ Hne Hlen).
  - exact (asking_open_sends (fun outside => openai_ask current outside c (without_images (map fst imgs) state)) _ _ _ _ _ _ Hne Hlen).
Qed.

(** C20: whatever a provider sends back, a decision call is answered in full or fails, and however it ends it has sent at most five
    requests more than there are questions, splits and repeats included: there is a list of that length, without repetition, of the
    requests of the call by their number and attempt, such that what the network would have answered to any other request is nothing
    to the result - a Jev error, a refused budget, an answer that does not parse and a lost transport as much as an answer.  An answer
    counts exactly those requests, answers every question that was asked, each with its own kind and range, and nothing else, and
    leaves no line behind in the spend scope to be counted again; a call that ran out of retries counts exactly those requests too,
    and at least one. *)
Theorem evaluate_answers_all client current outside state secs imgs questions :
  questions <> [] -> NoDup (map fst questions) -> Z.of_nat (length questions) <= 2 ^ 62 ->
  let '(r, recorded) := evaluate client current outside state secs imgs questions in
  exists sent : list (nat * nat), NoDup sent /\ (length sent <= length questions + 5)%nat /\
    (forall outside', alike_on sent outside outside' -> evaluate client current outside' state secs imgs questions = (r, recorded)) /\
    match r with
    | Ok e => answers_all questions (answers e) /\ requests e = Z.of_nat (length sent) /\ recorded = []
    | Err (Exhausted ex) => 1 <= ex_requests ex /\ ex_requests ex = Z.of_nat (length sent)
    | Err _ => True
    end.
Proof.
  intros Hne Hn Hlen. destruct (evaluate_sends client current outside state secs imgs questions Hne Hlen) as (sent & Hnd & Hl & Hc & Hall).
  pose proof (evaluate_open_ends client current outside state secs imgs questions Hne Hn Hlen) as Hends.
  destruct (evaluate client current outside state secs imgs questions) as [r recorded]. exists sent. split_and!; [done..|]. cbn in Hc.
  destruct r as [e|e]; cbn in *; [by destruct Hends as (? & _ & ?)|]. destruct e; try done. lia.
Qed.
End AnyClient.

(** ** Examples *)
Section Examples.
(** The interfaces at concrete functions: a body that is not empty is the recorded response. *)
Definition recorded_payload : value :=
  obj [("answers"%string, gateway_response);
       ("usage"%string, obj [("inputTokens"%string, Number (Int 389)); ("outputTokens"%string, Number (Int 61))]);
       ("providerMetadata"%string,
        obj [("typesafe"%string, obj [("confidence"%string, Object gateway_confidence)]);
             ("gateway"%string, obj [("cost"%string, Null)])])].
#[local] Instance recorded_bodies : BodyReader :=
  {| utf8_lossy b := b;
     from_slice b := if is_empty b then Err (mkJsonError (lit "EOF while parsing a value at line 1 column 0") 1 0)
                     else Ok recorded_payload |}.
#[local] Instance no_float_text : ReadFloat := {| read_float _ := None |}.
#[local] Instance text_values : ValueText := {| value_text v := match v with Str t => t | _ => lit "..." end |}.
#[local] Existing Instances floor_format exact_format.

Definition sent_back (status : Z) (body : list Z) : Sent := Got (mkResponse status [] body []).
Definition granted (net : nat -> Sent) : Outside := mkOutside (Ok tt) (fun _ => Ok tt) (fun _ => net) f64_zero (lit "h").
(** Overloaded once, then the gateway's recorded response. *)
Definition recorded_call (_ : nat) : Outside :=
  granted (fun i => if (i =? 0)%nat then sent_back 503 [] else sent_back 200 [123]).
Definition gateway : DecisionClient := Vercel (new_vercel (lit "key") (lit "https://ai-gateway.test/")).

Theorem evaluate_answers_all_witness :
  (let '(r, _) := evaluate gateway None recorded_call Null f64_zero [] gateway_questions in
   match r with
   | Ok e => requests e = 2 /\ ev_input_tokens e = 389 /\ map fst (answers e) = map fst gateway_questions
   | Err _ => False
   end) /\
  let '(r, recorded) := evaluate gateway None recorded_call Null f64_zero [] gateway_questions in
  exists sent : list (nat * nat), NoDup sent /\ (length sent <= 8)%nat /\
    (forall outside', alike_on sent recorded_call outside' ->
       evaluate gateway None outside' Null f64_zero [] gateway_questions = (r, recorded)) /\
    match r with
    | Ok e => answers_all gateway_questions (answers e) /\ requests e = Z.of_nat (length sent) /\ recorded = []
    | Err (Exhausted ex) => 1 <= ex_requests ex /\ ex_requests ex = Z.of_nat (length sent)
    | Err _ => True
    end.
Proof.
  split; [by vm_compute|].
  apply (evaluate_answers_all gateway None recorded_call Null f64_zero [] gateway_questions).
  - done.
  - apply (bool_decide_unpack (NoDup (map fst gateway_questions))). vm_compute. exact I.
  - vm_compute. discriminate.
Defined.

(** A batch that timed out once and was refused twice is split, and its first single fails: the
    error counts the unanswered request, which may have been billed, and the scope around the
    call is left nothing for it. *)
Definition lost_batch (n : nat) : Outside :=
  granted (fun i => match n, i with
                    | 0%nat, 0%nat => Timeout (lit "ReadTimeout")
                    | _, _ => sent_back 503 []
                    end).

Theorem failed_split_forgets_the_batch :
  let '(r, recorded) := evaluate gateway None lost_batch Null f64_zero [] gateway_questions in
  match r with
  | Err (Exhausted ex) => unaccounted_requests ex = 1 /\ ex_requests ex = 6
  | _ => False
  end /\ recorded = [].
Proof. by vm_compute. Qed.
End Examples.
