(* ===== verification/Page.v ===== *)
(** The seam between the browser layer and the decision loop:
    [crates/fastbrowse-core/src/page.rs].

    [Control], [Observation], [Block], [Capture] and [Action] are the records that cross it;
    [cut_with] is the binary search that shortens a page's text to a prompt's budget, and
    [today] the calendar every prompt shows.  What a browser does with an [Action] (the trait
    [Page]) is outside the model. *)

From S2P Require Import Prelude Float64 PyText Json DateTime Models.

Definition cut_marker (omitted : nat) : text :=
  [10] ++ lit "[Viewport text cut: " ++ show_Z (Z.of_nat omitted)
       ++ lit " characters omitted; read the page for the rest]".

Section Cut.
Context (t : text) (max_chars : nat) (json_encoded : bool) (marker : nat -> text).

(** What the budget counts: the characters, or those of the JSON literal without its quotes. *)
Definition size (t : text) : nat := if json_encoded then dumped_len t else length t.
Definition cut (keep : nat) : text := take keep t ++ marker (length t - keep)%nat.
Definition fits (keep : nat) : bool := (size (cut keep) <=? max_chars)%nat.

(** The [while low < high] of the search. *)
Fixpoint search (fuel low high : nat) : nat :=
  match fuel with
  | O => low
  | S fuel =>
      if (low <? high)%nat then
        let middle := ((low + high + 1) / 2)%nat in
        if fits middle then search fuel middle high else search fuel low (middle - 1)
      else low
  end.

Definition cut_with : text :=
  if (size t <=? max_chars)%nat then t
  else
    let low := search (S (length t)) 0 (Nat.min (length t) max_chars) in
    if (0 <? low)%nat && fits low then cut low else [].
End Cut.

Definition cut_text (t : text) (max_chars : nat) (json_encoded : bool) : text :=
  cut_with t max_chars json_encoded cut_marker.

Record Control := mkControl {
  c_id : text;
  c_frame_id : option text;
  c_frame_origin : option text;
  c_form_id : option text;
  c_retarget_key : option text;
  c_role : text;
  c_label : text;
  c_context : option text;
  c_operations : list Operation;
  c_value : option text;
  c_focused : option bool;
  c_href : option text;
  c_options : list text;
  c_input_type : option text;
  c_input_name : option text;
  c_max_length : option Z;
  c_autocomplete : option text;
  c_submit_semantics : option text;
  c_checked : option bool;
  c_selected : option bool;
  c_expanded : option bool;
  c_sensitive : bool;
  c_offscreen : bool;
  c_required : option bool;
  c_invalid : option bool;
  c_validation_message : option text;
  c_next_page : option bool;
  c_download : option bool;
  c_already_read : option bool;
}.

Definition new_control (id role label : text) (operations : list Operation) : Control :=
  mkControl id None None None None role label None operations None None None [] None None None
    None None None None None false false None None None None None None.

Definition pager_link (c : Control) : bool :=
  teqb (c_role c) (lit "link") && bool_decide (c_next_page c = Some true)
  && bool_decide (Click ∈ c_operations c)
  && match c_href c with Some href => negb (is_empty href) | None => false end.

Record Tab := mkTab {
  tab_id : text; tab_url : text; tab_title : text; tab_active : bool; tab_opener_id : option text;
}.

Record PageDialog := mkDialog {
  dialog_kind : text; dialog_message : text; dialog_default_prompt : option text;
}.

Record Media := mkMedia {
  media_kind : text; media_label : option text; media_heading : option text;
  media_paused : bool; media_ended : bool; media_muted : bool;
  elapsed_seconds : f64; duration_seconds : option f64;
}.

Record Observation := mkObservation {
  o_url : text;
  o_title : text;
  page_key : text;
  captured_at : DateTime;
  response_status : option Z;
  document_key : text;
  controls : list Control;
  viewport_text : text;
  offscreen_text : text;
  visual_content : bool;
  media : list Media;
  tabs : list Tab;
  dialog : option PageDialog;
  inaccessible_frames : Z;
  can_go_back : bool;
  history_entry : option text;
}.

(** [http_status], on a status already read as an int. *)
Definition http_status (status : option Z) : result (option Z) text :=
  match status with
  | Some s =>
      if negb (in_range 100 999 s) then Err (lit "Input should be between 100 and 999") else Ok status
  | None => Ok None
  end.

(** The days [start], a week later, and so on while the month lasts; [weeks] bounds the walk
    (a month has no sixth week after a start in its first seven days). *)
Fixpoint weekly (weeks : nat) (start : DateTime) (first_month : Z) : list Z :=
  match weeks with
  | O => []
  | S weeks =>
      if month start =? first_month then day start :: weekly weeks (add_days start 7) first_month
      else []
  end.

Definition month_columns (first : DateTime) : list (Z * list Z) :=
  map (fun offset =>
         let start := add_days first (Z.of_nat offset) in
         (weekday start, weekly 6 start (month first)))
      (seq 0 7).

Definition column_text (first : DateTime) (offset : nat) : Z * text :=
  let start := add_days first (Z.of_nat offset) in
  (weekday start,
   take 3 (weekday_name start) ++ lit " "
     ++ join (lit " ") (map show_Z (weekly 6 start (month first)))).

Definition column_le (a b : Z * text) : bool :=
  (a.1 <? b.1) || ((a.1 =? b.1) && text_le a.2 b.2).
Fixpoint insert_column (c : Z * text) (cs : list (Z * text)) : list (Z * text) :=
  match cs with
  | [] => [c]
  | d :: cs' => if column_le c d then c :: cs else d :: insert_column c cs'
  end.

Definition month_calendar (first : DateTime) : text :=
  let columns := fold_right insert_column [] (map (column_text first) (seq 0 7)) in
  month_name first ++ lit " " ++ show_Z (year first) ++ lit ": " ++ join (lit "; ") (map snd columns).

Fixpoint months (count : nat) (month : DateTime) : list text :=
  match count with
  | O => []
  | S count => month_calendar month :: months count (first_of_month (add_days month 32))
  end.

Definition today (o : Observation) : text :=
  let today := captured_at o in
  join [10] ((date_string today ++ lit " (" ++ weekday_name today ++ lit ")")
             :: months 13 (first_of_month today)).

Inductive BlockKind :=
| Heading | Paragraph | ListItem | Table | RecordBlock | Code | Link | ObservationBlock.
#[export] Instance BlockKind_eq_dec : EqDecision BlockKind.
Proof. solve_decision. Defined.

Record SourceControl := mkSourceControl {
  source_role : text; source_label : text; source_context : option text;
}.

Record Block := mkBlock {
  b_source_id : text;
  source_url : option text;
  complete_source : bool;
  kind : BlockKind;
  b_frame_id : option text;
  b_start : Z;
  b_end : Z;
  heading_path : list text;
  control_context : option SourceControl;
  b_href : option text;
  list_id : option text;
  list_count : option Z;
  list_frameless : bool;
}.

Record Capture := mkCapture {
  cap_url : text;
  cap_title : text;
  cap_captured_at : DateTime;
  sha256 : text;
  cap_text : text;
  blocks : list Block;
  cap_inaccessible_frames : Z;
}.

Definition block_text (c : Capture) (b : Block) : text :=
  let rest := drop (Z.to_nat (Z.max (b_start b) 0)) (cap_text c) in
  prefix rest (Z.to_nat (Z.max (wrap64 (b_end b - b_start b)) 0)).

Record Action := mkAction {
  operation : Operation;
  a_url : option text;
  target_id : option text;
  destination_id : option text;
  a_text : option text;
  secret : bool;
  a_tab_id : option text;
  secret_origin : option text;
  files : list Attachment;
  accept_dialog : option bool;
}.

Definition new_action (o : Operation) : Action :=
  mkAction o None None None None false None None [] None.

Inductive BrowserError :=
| BrowserFailed (m : text) | ContextLost (m : text) | BrowserUnavailable (m : text)
| PageUnresponsive (m : text) | ScreenshotsUnavailable (m : text) | NavigationTimeout (m : text)
| SiteUnreachable (m : text) | NeedsBrowser (m : text).

Definition needs_browser (e : BrowserError) : bool :=
  match e with NeedsBrowser _ => true | _ => false end.
Definition is_unavailable (e : BrowserError) : bool :=
  match e with BrowserUnavailable _ => true | _ => false end.

Record ActResult := mkActResult {
  outcome : StepOutcome; page_changed : bool; detail : option text; moved : bool;
}.

(** * Properties *)
Lemma dumped_len_app a b : dumped_len (a ++ b) = (dumped_len a + dumped_len b)%nat.
Proof. unfold dumped_len. rewrite map_app. induction (map _ a); simpl; lia. Qed.

Lemma dumped_len_char_pos c : (1 <= dumped_len_char c)%nat.
Proof. unfold dumped_len_char. repeat case_match; lia. Qed.

Lemma dumped_len_length t : (length t <= dumped_len t)%nat.
Proof.
  unfold dumped_len. induction t as [|c t IH]; simpl; [lia|].
  pose proof (dumped_len_char_pos c). lia.
Qed.

Lemma size_app js a b : size js (a ++ b) = (size js a + size js b)%nat.
Proof. unfold size. destruct js; [apply dumped_len_app|apply length_app]. Qed.

Lemma size_length js t : (length t <= size js t)%nat.
Proof. unfold size. destruct js; [apply dumped_len_length|lia]. Qed.

Lemma size_digits js t : forallb is_ascii_digit t = true -> size js t = length t.
Proof.
  intros H. unfold size. destruct js; [|done]. unfold dumped_len.
  apply digits_forall in H. induction H as [|c t Hc Ht IH]; [done|]. cbn [map sum_list length]. simpl.
  rewrite IH. unfold dumped_len_char.
  replace (one_of _ c) with false; [|].
  - by replace (in_range 32 126 c) with true
      by (symmetry; unfold in_range; apply andb_true_iff; split; apply Z.leb_le; lia).
  - symmetry. unfold one_of. simpl. rewrite !orb_false_iff, !Z.eqb_neq. unfold dquote, backslash. lia.
Qed.

(** The search over any predicate that only fails upwards finds the last place it holds. *)
Lemma search_spec t max js marker : forall fuel low high,
  (high - low < fuel)%nat -> (low <= high)%nat ->
  (forall i j, (i <= j)%nat -> (j <= high)%nat -> fits t max js marker j = true -> fits t max js marker i = true) ->
  let r := search t max js marker fuel low high in
  (low <= r <= high)%nat /\ (r = low \/ fits t max js marker r = true) /\
  (forall j, (r < j <= high)%nat -> fits t max js marker j = false).
Proof.
  induction fuel as [|fuel IH]; intros low high Hf Hle Hmono; [lia|]. cbn [search].
  destruct (low <? high)%nat eqn:E; [apply Nat.ltb_lt in E|apply Nat.ltb_ge in E].
  - set (middle := ((low + high + 1) / 2)%nat).
    assert (Hm : (low < middle <= high)%nat).
    { unfold middle. pose proof (Nat.div_mod_eq (low + high + 1) 2).
      pose proof (Nat.mod_upper_bound (low + high + 1) 2 ltac:(lia)). lia. }
    destruct (fits t max js marker middle) eqn:Efit.
    + destruct (IH middle high ltac:(lia) ltac:(lia) Hmono) as (H1 & H2 & H3).
      split_and!; [lia|lia| |done]. right. by destruct H2 as [-> | H2].
    + destruct (IH low (middle - 1)%nat ltac:(lia) ltac:(lia)) as (H1 & H2 & H3);
        [intros i j Hij Hj; apply Hmono; lia|].
      split_and!; [lia|lia|done|]. intros j Hj.
      destruct (decide (j <= middle - 1)%nat) as [Hjm|Hjm]; [apply H3; lia|].
      destruct (fits t max js marker j) eqn:Ej; [|done].
      rewrite (Hmono middle j) in Efit by (done || lia). done.
  - split_and!; [lia|lia|by left|]. intros j Hj. lia.
Qed.

(** A number one smaller is written with at most one digit less. *)
Lemma show_nat_length_pred n : 0 <= n -> (length (show_nat (n + 1)) <= S (length (show_nat n)))%nat.
Proof.
  intros Hn. destruct (show_nat_spec n Hn) as [Hv _].
  set (w := length (show_nat n)).
  assert (Hw : n < 10 ^ Z.of_nat w).
  { destruct (show_nat_spec n Hn) as [Hv' Hd]. rewrite <- Hv'. fold w.
    assert (G : forall t, forallb is_ascii_digit t = true -> 0 <= digits_value t < 10 ^ Z.of_nat (length t)).
    { intros t Ht. apply digits_forall in Ht. induction t as [|c t IH] using rev_ind; [done|].
      apply Forall_app in Ht as [Ht Hc]. apply Forall_cons in Hc as [Hc _]. specialize (IH Ht).
      rewrite digits_value_app, length_app, Nat2Z.inj_add, Z.pow_add_r by lia. simpl (10 ^ Z.of_nat _). lia. }
    apply (G _ Hd). }
  unfold show_nat. apply digits_of_length; [|lia].
  rewrite Nat2Z.inj_succ, Z.pow_succ_r by lia. lia.
Qed.

Lemma cut_size_step t js k :
  (k < length t)%nat -> (size js (cut t cut_marker k) <= size js (cut t cut_marker (S k)))%nat.
Proof.
  intros Hk. unfold cut, cut_marker. rewrite !size_app.
  destruct (lookup_lt_is_Some_2 t k Hk) as [c Hc].
  rewrite (take_S_r t k c Hc), size_app.
  assert (Hone : (1 <= size js [c])%nat) by (pose proof (size_length js [c]); simpl in *; lia).
  set (n := (length t - S k)%nat).
  replace (length t - k)%nat with (S n) by (unfold n; lia).
  assert (Hshow : forall n, size js (show_Z (Z.of_nat n)) = length (show_nat (Z.of_nat n))).
  { intros m. unfold show_Z. rewrite (proj2 (Z.ltb_ge _ _)) by lia.
    apply size_digits. apply show_nat_spec. lia. }
  rewrite !Hshow. rewrite Nat2Z.inj_succ, <- Z.add_1_r.
  pose proof (show_nat_length_pred (Z.of_nat n) ltac:(lia)). lia.
Qed.

Lemma cut_fits_mono t max js i j :
  (i <= j <= length t)%nat -> fits t max js cut_marker j = true -> fits t max js cut_marker i = true.
Proof.
  intros Hij. unfold fits. rewrite !Nat.leb_le. intros Hj. etransitivity; [|exact Hj].
  clear Hj. destruct Hij as [Hij Hjt]. induction Hij as [|j Hij IH]; [done|].
  etransitivity; [apply IH; lia|apply cut_size_step; lia].
Qed.

Lemma cut_long t max js j :
  (max < j)%nat -> (j <= length t)%nat -> fits t max js cut_marker j = false.
Proof.
  intros Hj Ht. apply Nat.leb_gt. unfold cut. rewrite size_app.
  pose proof (size_length js (take j t)). rewrite length_take in *. lia.
Qed.

(** Text over a budget keeps as much as fits: [cut_text] returns a text that fits as it is,
    and otherwise the longest prefix that fits together with the notice of what was left out,
    counted as the budget counts it (JSON escapes included), or nothing when no prefix fits. *)
Theorem cut_text_longest t max js :
  let fits k := (size js (cut t cut_marker k) <=? max)%nat in
  if (size js t <=? max)%nat then cut_text t max js = t
  else
    (exists k, (0 < k <= length t)%nat /\ cut_text t max js = cut t cut_marker k /\
       fits k = true /\ forall j, (k < j <= length t)%nat -> fits j = false) \/
    (cut_text t max js = [] /\ forall j, (0 < j <= length t)%nat -> fits j = false).
Proof.
  cbv zeta. unfold cut_text, cut_with. destruct (size js t <=? max)%nat; [done|].
  set (high := Nat.min (length t) max).
  destruct (search_spec t max js cut_marker (S (length t)) 0 high) as (Hr & Hfit & Hafter);
    [unfold high; lia|lia|intros i j Hij Hj; apply cut_fits_mono; unfold high in *; lia|].
  set (low := search t max js cut_marker (S (length t)) 0 high) in *.
  assert (Hbeyond : forall j, (low < j <= length t)%nat -> fits t max js cut_marker j = false).
  { intros j Hj. destruct (decide (j <= high)%nat) as [Hh|Hh]; [apply Hafter; lia|].
    apply cut_long; unfold high in Hh; lia. }
  destruct (0 <? low)%nat eqn:El; [apply Nat.ltb_lt in El|apply Nat.ltb_ge in El]; cbn [andb].
  - destruct Hfit as [Hz|Hfit]; [lia|]. rewrite Hfit. left. exists low.
    split_and!; [done|unfold high in Hr; lia|done|exact Hfit|exact Hbeyond].
  - right. split; [done|]. intros j Hj. apply Hbeyond. lia.
Qed.

Example cut_text_kept : cut_text (lit "abc") 3 false = lit "abc" /\ cut_text (lit "abcdef") 3 false = [].
Proof. by vm_compute. Qed.
