(* ===== verification/Origins.v ===== *)
(** Addresses and the exact-origin grant: [crates/fastbrowse-core/src/origins.rs] and
    [addresses.rs].

    Parsing an address is the WHATWG parser of the [url] crate: the interface [UrlParser], whose
    [Url] holds what the source reads off a parsed address. *)

From S2P Require Import Prelude PyText.

Inductive Host := Domain (d : text) | Ipv4 | Ipv6.

Record Url := mkUrl {
  scheme : text;
  username : text;
  password : option text;
  host : option Host;
  host_str : option text;
  port : option Z;
  path : text;
  query : option text;
  fragment : option text;
  as_str : text;
  ascii_origin : text;
}.

(** [Url::parse], and [Url::join] of a base and a reference. *)
Class UrlParser := {
  parse_url : text -> option Url;
  join_url : Url -> text -> option Url;
}.

Inductive OriginError := NotBare | Empty.
#[export] Instance OriginError_eq_dec : EqDecision OriginError.
Proof. solve_decision. Defined.

Definition domain (u : Url) : option text :=
  match host u with Some (Domain d) => Some d | _ => None end.

Section Origins.
Context `{UrlParser}.

Definition is_http (u : Url) : bool := teqb (scheme u) (lit "http") || teqb (scheme u) (lit "https").

Definition origin_of (url : text) : option text :=
  match parse_url url with
  | Some parsed => if negb (is_http parsed) then None else Some (ascii_origin parsed)
  | None => None
  end.

Definition parse_origin (v : text) : result text OriginError :=
  let lower := ascii_lower v in
  if existsb (fun c => (c <=? 32) || (c =? 127) || one_of (lit "\*?#@") c) v
     || negb (starts_with lower (lit "http://") || starts_with lower (lit "https://"))
     || contains_sub lower (lit ":///")
  then Err NotBare
  else
    let? parsed := ok_or (parse_url v) NotBare in
    if negb (is_empty (username parsed))
       || bool_decide (is_Some (password parsed))
       || negb (teqb (path parsed) (lit "/"))
       || bool_decide (is_Some (query parsed))
       || bool_decide (is_Some (fragment parsed))
       || match domain parsed with
          | Some d => starts_with d (lit ".") || contains_sub d (lit "..")
          | None => false
          end
    then Err NotBare
    else ok_or (origin_of v) NotBare.

(** The loop of [parse_origins]: the first refused entry ends it. *)
Fixpoint collect_origins (values seen : list text) : result (list text) OriginError :=
  match values with
  | [] => Ok seen
  | v :: values =>
      let? origin := parse_origin v in collect_origins values (is_insert origin seen)
  end.

Definition parse_origins (values : list text) : result (list text) OriginError :=
  let? origins := collect_origins values [] in
  if is_empty origins then Err Empty else Ok origins.

(** [OriginGrant::allows]. *)
Definition allows (origins : list text) (url : text) : bool :=
  match origin_of url with Some origin => bool_decide (origin ∈ origins) | None => false end.

Definition search_parts (url : text) : option Url := parse_url url.
Definition search_address (url : text) : text :=
  match search_parts url with Some u => as_str u | None => url end.

(** * Properties *)
Lemma parse_origin_origin v o : parse_origin v = Ok o -> origin_of v = Some o.
Proof.
  unfold parse_origin. destruct (_ || _); [done|]. destruct (parse_url v) as [u|]; simpl; [|done].
  destruct (_ || _); [done|]. destruct (origin_of v); simpl; congruence.
Qed.

Lemma collect_origins_spec values : forall seen origins,
  collect_origins values seen = Ok origins -> NoDup seen ->
  NoDup origins /\ seen `prefix_of` origins /\
  (forall o, o ∈ origins <-> o ∈ seen \/ exists v, v ∈ values /\ parse_origin v = Ok o) /\
  Forall (fun v => is_ok (parse_origin v) = true) values.
Proof.
  induction values as [|v values IH]; intros seen origins; simpl.
  - intros [= ->] Hs. split_and!; [done|done| |constructor]. intros o. set_solver.
  - destruct (parse_origin v) as [o|] eqn:E; [|done]. intros Hc Hs.
    destruct (IH _ _ Hc) as (Hnd & Hpre & Hin & Hall); [auto with fb|].
    split_and!; [done| | |].
    + etransitivity; [|exact Hpre]. unfold is_insert. case_decide; [done|by apply prefix_app_r].
    + intros o'. rewrite Hin, is_insert_elem. split.
      * intros [[-> | Ho]|(w & Hw & E')]; [right; exists v; set_solver|by left|right; exists w; set_solver].
      * intros [Ho|(w & Hw & E')]; [set_solver|].
        apply elem_of_cons in Hw as [-> | Hw]; [left; left; congruence|right; by exists w].
    + constructor; [by rewrite E|done].
Qed.

(** A run scoped to origins reads exactly them: when [parse_origins] accepts a grant it is
    non-empty and repeats nothing, every entry of it was accepted, and the run may read an
    address exactly when its http(s) origin is the origin of one of those entries. *)
Theorem grant_exact values origins :
  parse_origins values = Ok origins ->
  origins <> [] /\ NoDup origins /\ Forall (fun v => is_ok (parse_origin v) = true) values /\
  forall url, allows origins url = true <->
    exists v o, v ∈ values /\ parse_origin v = Ok o /\ origin_of v = Some o /\ origin_of url = Some o.
Proof.
  unfold parse_origins. destruct (collect_origins values []) as [os|] eqn:E; [|done].
  destruct (is_empty os) eqn:Ee; [done|]. intros [= <-].
  destruct (collect_origins_spec _ _ _ E) as (Hnd & _ & Hin & Hall); [constructor|].
  split_and!; [by intros ->|done|done|]. intros url. unfold allows.
  destruct (origin_of url) as [o|].
  - rewrite bool_decide_eq_true, Hin. split.
    + intros [Ho|(v & Hv & Ep)]; [set_solver|]. exists v, o. eauto using parse_origin_origin.
    + intros (v & o' & Hv & Ep & _ & [= ->]). right. by exists v.
  - split; [done|]. by intros (? & ? & _ & _ & _ & ?).
Qed.

End Origins.

(** A parser of plain addresses ([scheme://host[:port][/path]]), for the examples. *)
Definition plain_url (t : text) : option Url :=
  match find_sub (lit "://") t with
  | Some i =>
      let scheme := take i t in
      let rest := drop (i + 3) t in
      let n := default (length rest) (find_char (one_of (lit "/?#")) rest) in
      let authority := take n rest in
      let path := drop n rest in
      let '(name, port) := match split_once (chr ":") authority with
                           | Some (name, p) => (name, parse_u32 p)
                           | None => (authority, None)
                           end in
      if is_empty scheme || is_empty name then None
      else Some (mkUrl scheme [] None (Some (Domain name)) (Some name) port
                   (if is_empty path then lit "/" else path) None None t
                   (scheme ++ lit "://" ++ authority))
  | None => None
  end.
Definition plain_parser : UrlParser :=
  {| parse_url := plain_url;
     join_url base reference :=
       plain_url (scheme base ++ lit "://" ++ default [] (host_str base) ++ reference) |}.

Theorem grant_exact_witness :
  let P := plain_parser in
  allows [lit "https://a.test"; lit "http://b.test:8080"] (lit "https://a.test/x/y") = true /\
  (allows [lit "https://a.test"; lit "http://b.test:8080"] (lit "https://b.test/") = true <->
     exists v o, v ∈ [lit "https://a.test/"; lit "http://b.test:8080"; lit "https://a.test"] /\
       parse_origin v = Ok o /\ origin_of v = Some o /\ origin_of (lit "https://b.test/") = Some o).
Proof.
  cbv zeta. split; [vm_compute; reflexivity|].
  refine (proj2 (proj2 (proj2 (@grant_exact plain_parser
    [lit "https://a.test/"; lit "http://b.test:8080"; lit "https://a.test"] _ _))) _).
  vm_compute. reflexivity.
Defined.
