(* ===== verification/Navigation.v ===== *)
(** Addresses a run may open because its caller named them:
    [crates/fastbrowse-core/src/navigation.rs].

    [task_urls] reads the addresses a task's text names, in full or as a path on the caller's
    start page; [navigation_urls] leaves out the current document. *)

From S2P Require Import Prelude PyText Origins.

Definition SENTENCE_END : text := lit ".,;:'" ++ [0x2019; 0x201d; 0x2026].
Definition QUESTION_END : text := SENTENCE_END ++ lit "!?".

Definition ends_address (c : Z) : bool := is_space c || one_of (lit "<>`" ++ [dquote]) c.

(** The wrapper markers tried in order: the first that closes around the match is cut. *)
Fixpoint cut_marker_pair (before url : text) (markers : list text) : text :=
  match markers with
  | [] => url
  | marker :: rest =>
      if ends_with before marker && ends_with url marker
      then take (length url - length marker) url
      else cut_marker_pair before url rest
  end.

(** [while url.ends_with(right) && unmatched]: one closing bracket at a time. *)
Fixpoint cut_brackets (fuel : nat) (left right : Z) (url : text) : text :=
  match fuel with
  | O => url
  | S fuel =>
      if ends_with url [right] && (count_char left url <? count_char right url)%nat
      then cut_brackets fuel left right (take (length url - 1) url)
      else url
  end.

Definition trimmed (task : text) (start : nat) (found sentence_end : text) : text :=
  let url := trim_end (one_of sentence_end) found in
  let url := cut_marker_pair (take start task) url [lit "**"; lit "__"; lit "*"; lit "_"] in
  fold_left (fun url pair => cut_brackets (S (length url)) pair.1 pair.2 url)
    [(chr "(", chr ")"); (chr "[", chr "]"); (chr "{", chr "}")] url.

Section Navigation.
Context `{Unicode} `{UrlParser}.

(** The length of [https?://] at the start of the text, ignoring case. *)
Definition scheme_length (t : text) : option nat :=
  match starts_with_ignore_case t (lit "http") with
  | None => None
  | Some at_ =>
      let at_ := match drop at_ t with
                 | c :: _ => if one_of (lit "sS") c then S at_ else at_
                 | [] => at_
                 end in
      if starts_with (drop at_ t) (lit "://") then Some (at_ + 3)%nat else None
  end.

Fixpoint space_after_separators (task : text) : text :=
  match task with
  | [] => []
  | c :: rest =>
      c :: (if one_of (lit ",;") c && bool_decide (is_Some (scheme_length rest)) then lit " " else [])
        ++ space_after_separators rest
  end.

(** Every [https?://] run of address characters, with where it starts; [fuel] is the length. *)
Fixpoint addresses_from (fuel : nat) (at_ : nat) (t : text) : list (nat * text) :=
  match fuel, t with
  | S fuel, _ :: rest =>
      match scheme_length t with
      | Some s =>
          let body := drop s t in
          let n := default (length body) (find_char ends_address body) in
          if (0 <? n)%nat
          then (at_, take (s + n) t) :: addresses_from fuel (at_ + (s + n)) (drop (s + n) t)
          else addresses_from fuel (S at_) rest
      | None => addresses_from fuel (S at_) rest
      end
  | _, _ => []
  end.
Definition absolute_addresses (task : text) : list (nat * text) :=
  addresses_from (length task) 0 task.

Definition opens_word (previous : option Z) : bool :=
  match previous with
  | None => true
  | Some p => is_space p || one_of (lit "'`([<*_" ++ [dquote]) p
  end.

(** The paths a task names on their own; [fuel] is the length. *)
Fixpoint paths_from (fuel : nat) (at_ : nat) (previous : option Z) (t : text) : list (nat * text) :=
  match fuel, t with
  | S fuel, c :: rest =>
      let first_ok := match rest with
                      | f :: _ => is_ascii_alphanumeric f || one_of (lit "_~-") f
                      | [] => false
                      end in
      if (c =? chr "/") && opens_word previous && first_ok then
        let n := default (length rest) (find_char ends_address rest) in
        let body := take n rest in
        (at_, c :: body)
          :: paths_from fuel (at_ + S n) (match last body with Some p => Some p | None => previous end)
               (drop n rest)
      else paths_from fuel (S at_) (Some c) rest
  | _, _ => []
  end.
Definition task_paths (task : text) : list (nat * text) := paths_from (length task) 0 None task.

(** The authority as written holds an at sign. *)
Definition writes_userinfo (url : text) : bool :=
  match find_sub (lit "://") url with
  | None => false
  | Some i =>
      let rest := drop (i + 3) url in
      let authority := hd [] (split_parts (one_of (lit "/?#\")) rest) in
      bool_decide (chr "@" ∈ authority)
  end.

Definition valid_address (url : text) : bool :=
  match parse_url url with
  | None => false
  | Some parsed =>
      if bool_decide (origin_of url = None) || writes_userinfo url then false
      else
        (match host parsed with
         | Some (Domain d) =>
             negb (is_empty d)
             && forallb (fun b => is_ascii_alphanumeric b || one_of (lit "._-") b) d
         | Some Ipv4 | Some Ipv6 => true
         | None => false
         end) && negb (bool_decide (port parsed = Some 0))
  end.

Definition location (url : text) : text * text * text :=
  match parse_url url with
  | Some p => (if is_empty (path p) then lit "/" else path p, default [] (query p), default [] (fragment p))
  | None => (url, [], [])
  end.

Definition same_address (left right : text) : bool :=
  bool_decide (origin_of left = origin_of right) && bool_decide (location left = location right).

Definition insert_absolute (task : text) (urls : list text) (found : nat * text) : list text :=
  let url := trimmed task found.1 found.2 SENTENCE_END in
  if valid_address url then is_insert url urls else urls.

Definition insert_path (task : text) (base : Url) (urls : list text) (found : nat * text) : list text :=
  let path := trimmed task found.1 found.2 QUESTION_END in
  match join_url base path with
  | Some joined => if valid_address (as_str joined) then is_insert (as_str joined) urls else urls
  | None => urls
  end.

Definition task_urls (task : text) (start : option text) (include_start : bool) : list text :=
  let task := replace (lit "](") (lit "] (") (space_after_separators task) in
  let urls := fold_left (insert_absolute task) (absolute_addresses task) [] in
  match start with
  | Some start =>
      if valid_address start then
        let urls := match parse_url start with
                    | Some base => fold_left (insert_path task base) (task_paths task) urls
                    | None => urls
                    end in
        if include_start then is_insert start urls else urls
      else urls
  | None => urls
  end.

Definition navigation_urls (task current : text) (start start_landing : option text)
    (include_start : bool) : list text :=
  base.filter (fun url =>
    negb (same_address url current)
    && negb (match start, start_landing with
             | Some start, Some landing => same_address url start && same_address landing current
             | _, _ => false
             end) = true) (task_urls task start include_start).

(** * Properties *)
(** What an insertion loop keeps: the members satisfy [P] and none repeats. *)
Lemma fold_urls {A} (P : text -> Prop) (step : list text -> A -> list text) :
  (forall urls x, step urls x = urls \/ exists u, P u /\ step urls x = is_insert u urls) ->
  forall xs urls, Forall P urls -> NoDup urls ->
  Forall P (fold_left step xs urls) /\ NoDup (fold_left step xs urls).
Proof.
  intros Hstep. induction xs as [|x xs IH]; intros urls HP Hn; simpl; [done|].
  destruct (Hstep urls x) as [-> | (u & Hu & ->)]; apply IH; auto with fb.
  apply Forall_forall. intros v [-> | Hv]%is_insert_elem; [done|].
  rewrite Forall_forall in HP. auto.
Qed.

Lemma task_urls_valid task start include_start :
  Forall (fun u => valid_address u = true) (task_urls task start include_start) /\
  NoDup (task_urls task start include_start).
Proof.
  unfold task_urls. set (task' := replace _ _ _).
  destruct (fold_urls (fun u => valid_address u = true) (insert_absolute task')) with
    (xs := absolute_addresses task') (urls := @nil text) as [H1 H2]; [|constructor..|].
  { intros urls x. unfold insert_absolute. case_match; eauto. }
  destruct start as [start|]; [|done]. destruct (valid_address start) eqn:Es; [|done].
  set (urls := fold_left _ _ _) in *.
  assert (Hbase : let urls' := match parse_url start with
      Some base => fold_left (insert_path task' base) (task_paths task') urls | None => urls end in
      Forall (fun u => valid_address u = true) urls' /\ NoDup urls').
  { cbv zeta. destruct (parse_url start) as [base|]; [|done]. apply fold_urls; [|done..].
    intros us x. unfold insert_path. destruct (join_url base _) as [j|]; [|by left].
    case_match; eauto. }
  cbv zeta in Hbase. destruct Hbase as [H3 H4]. destruct include_start; [|done].
  split; [|auto with fb]. apply Forall_forall. intros v [-> | Hv]%is_insert_elem; [done|].
  rewrite Forall_forall in H3. auto.
Qed.

Lemma valid_address_http url :
  valid_address url = true ->
  writes_userinfo url = false /\ exists p o, parse_url url = Some p /\ is_http p = true /\
    origin_of url = Some o /\ port p <> Some 0.
Proof.
  unfold valid_address. destruct (parse_url url) as [p|] eqn:E; [|done].
  destruct (bool_decide (origin_of url = None)) eqn:Eo; [done|]. cbn [orb].
  destruct (writes_userinfo url); [done|]. intros Hv. apply andb_true_iff in Hv as [_ Hp].
  apply negb_true_iff, bool_decide_eq_false in Hp. apply bool_decide_eq_false in Eo.
  split; [done|]. destruct (origin_of url) as [o|] eqn:Eo'; [|done]. exists p, o.
  split_and!; try done. unfold origin_of in Eo'. rewrite E in Eo'. by destruct (is_http p).
Qed.

(** C39: a run is only ever offered addresses it may open: each is an http(s) address without
    credentials as written and with a usable port, none is the document it is on or the start
    page that redirected there, and none is offered twice. *)
Theorem navigation_urls_safe task current start landing include_start :
  let urls := navigation_urls task current start landing include_start in
  NoDup urls /\
  forall url, url ∈ urls ->
    same_address url current = false /\
    (forall s l, start = Some s -> landing = Some l -> same_address l current = true ->
       same_address url s = false) /\
    writes_userinfo url = false /\
    exists p o, parse_url url = Some p /\ is_http p = true /\ origin_of url = Some o /\ port p <> Some 0.
Proof.
  cbv zeta. destruct (task_urls_valid task start include_start) as [Hv Hn]. split.
  - by apply NoDup_filter.
  - intros url [Hf Hin]%list_elem_of_filter. bool_hyps. split_and!; try done.
    + intros s l -> -> Hl. rewrite Hl, andb_true_r in *. done.
    + rewrite Forall_forall in Hv. by apply valid_address_http, Hv.
    + rewrite Forall_forall in Hv. by apply valid_address_http, Hv.
Qed.

(** Two addresses are the same only as an equivalence: it compares one reading of each. *)
Lemma same_address_spec a b :
  same_address a b = true <-> origin_of a = origin_of b /\ location a = location b.
Proof. unfold same_address. by rewrite andb_true_iff, !bool_decide_eq_true. Qed.

End Navigation.

#[local] Existing Instances ascii_unicode plain_parser.

Example task_urls_reads :
  navigation_urls (lit "Compare https://a.test/x, (https://b.test/y) and sign in at /login.")
    (lit "https://a.test/x") (Some (lit "https://c.test/")) None false
  = [lit "https://b.test/y"; lit "https://c.test/login"].
Proof. vm_compute. reflexivity. Qed.
