(* ===== verification/Redactor.v ===== *)
(** Secret values kept out of anything written: the redactor of
    [crates/fastbrowse-core/src/safety.rs].

    [register] records every form a value is written in, [spans] finds where values sit in a
    text, and [redact], [mask] and [redact_value] write the text without them.  Offsets count
    characters (the source's byte ranges start and end on character boundaries). *)

From S2P Require Import Prelude PyText Json Origins Secrets.

Record Redactor := mkRedactor {
  values : list (text * text);
  typed_on : list (text * list text);
}.
Definition new_redactor : Redactor := mkRedactor [] [].

(** [json.dumps(value)[1:-1]]. *)
Definition json_escaped (v : text) (ascii : bool) : text :=
  let out := write_string v ascii in take (length out - 2) (drop 1 out).

(** Every occurrence of [v], overlapping ones included. *)
Fixpoint occurrences (fuel : nat) (from : nat) (v t : text) : list nat :=
  match fuel with
  | O => []
  | S fuel =>
      match find_sub v (drop from t) with
      | Some offset => (from + offset)%nat :: occurrences fuel (S (from + offset)) v t
      | None => []
      end
  end.
Definition all_occurrences (v t : text) : list nat := occurrences (S (length t)) 0 v t.

(** [str::match_indices]: occurrences that do not overlap. *)
Fixpoint match_indices (fuel : nat) (from : nat) (v t : text) : list nat :=
  match fuel with
  | O => []
  | S fuel =>
      match find_sub v (drop from t) with
      | Some offset => (from + offset)%nat :: match_indices fuel (from + offset + length v) v t
      | None => []
      end
  end.

Definition range := (nat * nat)%type.
Definition inside (at_ end_ : nat) (r : range) : bool := (r.1 <=? at_)%nat && (end_ <=? r.2)%nat.

Section Redact.
Context `{PercentEncoding} `{UnicodeStr} `{UrlParser}.

Definition forms (v : text) : list text :=
  [v; quote v; quote_plus v; json_escaped v true; json_escaped v false].

Definition register_form (name : text) (origin : option text) (r : Redactor) (form : text) : Redactor :=
  if is_empty form then r
  else
    let typed :=
      match origin with
      | Some origin =>
          im_insert form (is_insert (secret_origin_of origin) (default [] (im_get form (typed_on r))))
            (typed_on r)
      | None => typed_on r
      end in
    mkRedactor (im_insert form name (values r)) typed.

Definition register (r : Redactor) (name v : text) (origin : option text) : Redactor :=
  fold_left (register_form name origin) (forms v) r.

(** The host of every address in the text: its range and origin. *)
Definition ends_authority (c : Z) : bool :=
  is_space c || one_of (lit "/?#\<>'`" ++ [dquote]) c.
Definition closes_sentence (c : Z) : bool := one_of (lit ".,;:!?)}'" ++ [dquote]) c.
Definition scheme_char (c : Z) : bool := is_ascii_alphanumeric c || one_of (lit "+.-") c.

Fixpoint hosts_from (fuel : nat) (at_ : nat) (t : text) : list (range * text) :=
  match fuel, t with
  | S fuel, c :: rest =>
      if negb (is_ascii_alphabetic c) then hosts_from fuel (S at_) rest
      else
        let run := S (default (length rest) (find_char (fun c => negb (scheme_char c)) rest)) in
        if negb (starts_with (drop run t) (lit "://")) then hosts_from fuel (at_ + run) (drop run t)
        else
          let netloc_start := (run + 3)%nat in
          let body := drop netloc_start t in
          let n := default (length body) (find_char ends_authority body) in
          let netloc := trim_end closes_sentence (take n body) in
          let found :=
            match Origin_parse (take run t ++ lit "://" ++ netloc) with
            | Some origin =>
                let host_end := (at_ + netloc_start + length netloc)%nat in
                let host := match rsplit_once (chr "@") netloc with
                            | Some (_, host) => host
                            | None => netloc
                            end in
                [((host_end - length host, host_end)%nat, serialize origin)]
            | None => []
            end in
          found ++ hosts_from fuel (at_ + (netloc_start + n)) (drop (netloc_start + n) t)
  | _, _ => []
  end.
Definition hosts (t : text) : list (range * text) := hosts_from (length t) 0 t.

Definition marker (name : text) : text := lit "[secret:" ++ name ++ lit "]".

Definition markers (r : Redactor) (t : text) : list range :=
  flat_map (fun name =>
    map (fun at_ => (at_, (at_ + length (marker name))%nat)) (match_indices (S (length t)) 0 (marker name) t))
    (remove_dups (map snd (values r))).

(** Whether the occurrence sits in a host its value was typed on. *)
Definition published (typed : list text) (hs : list (range * text)) (at_ end_ : nat) : bool :=
  existsb (fun h => inside at_ end_ h.1 && bool_decide (h.2 ∈ typed)) hs.

(** The occurrences of one value that are to be hidden. *)
Definition found_of (hs : list (range * text)) (ms : list range) (t : text) (typed : list (text * list text))
    (kv : text * text) : list (nat * nat * text) :=
  let here := default [] (im_get kv.1 typed) in
  omap (fun at_ =>
    let end_ := (at_ + length kv.1)%nat in
    if negb (published here hs at_ end_) && negb (existsb (inside at_ end_) ms)
    then Some (at_, end_, kv.2) else None) (all_occurrences kv.1 t).

(** Longest first at each start. *)
Definition found_le (a b : nat * nat * text) : bool :=
  (a.1.1 <? b.1.1)%nat || ((a.1.1 =? b.1.1)%nat && (b.1.2 <=? a.1.2)%nat).
Fixpoint insert_found (x : nat * nat * text) (l : list (nat * nat * text)) : list (nat * nat * text) :=
  match l with
  | [] => [x]
  | y :: l' => if found_le x y then x :: l else y :: insert_found x l'
  end.
Definition sort_found : list (nat * nat * text) -> list (nat * nat * text) := fold_right insert_found [].

(** Merging into [last], the span being grown. *)
Fixpoint merge_from (last : nat * nat * text) (l : list (nat * nat * text)) : list (nat * nat * text) :=
  match l with
  | [] => [last]
  | x :: l =>
      if (x.1.1 <? last.1.2)%nat then merge_from (last.1.1, Nat.max last.1.2 x.1.2, last.2) l
      else last :: merge_from x l
  end.
Definition merge (l : list (nat * nat * text)) : list (nat * nat * text) :=
  match l with [] => [] | x :: l => merge_from x l end.

Definition hidden_hosts (r : Redactor) (t : text) : list (range * text) :=
  if is_empty (typed_on r) then [] else hosts t.

Definition found (r : Redactor) (t : text) : list (nat * nat * text) :=
  let hs := hidden_hosts r t in
  let ms := markers r t in
  concat (map (found_of hs ms t (typed_on r)) (values r)).

Definition spans (r : Redactor) (t : text) : list (nat * nat * text) := merge (sort_found (found r t)).

(** The text with each span replaced by what [f] makes of its name and its text. *)
Fixpoint render (f : text -> text -> text) (t : text) (at_ : nat) (ss : list (nat * nat * text)) : text :=
  match ss with
  | [] => drop at_ t
  | (s, e, name) :: ss =>
      take (s - at_) (drop at_ t) ++ f name (take (e - s) (drop s t)) ++ render f t e ss
  end.

Definition redact (r : Redactor) (t : text) : text :=
  render (fun name _ => lit "[secret:" ++ name ++ lit "]") t 0 (spans r t).

Definition bullet : Z := 0x2022.
Definition mask (r : Redactor) (t : text) : text :=
  render (fun _ hidden => replicate (length hidden) bullet) t 0 (spans r t).

Definition reveals (r : Redactor) (t : text) : bool := negb (is_empty (spans r t)).

Fixpoint redact_value (r : Redactor) (v : value) : value :=
  match v with
  | Str t => Str (redact r t)
  | Array items => Array (map (redact_value r) items)
  | Object fields => Object (map (fun kv => (kv.1, redact_value r kv.2)) fields)
  | v => v
  end.
End Redact.

(** * Properties *)
(** ** Occurrences *)
Lemma drop_find v t from off :
  find_sub v (drop from t) = Some off ->
  starts_with (drop (from + off) t) v = true /\
  (forall j, (from <= j < from + off)%nat -> starts_with (drop j t) v = false).
Proof.
  intros E. pose proof (find_sub_some _ _ _ E) as [Hs _]. rewrite drop_drop in Hs. split; [done|].
  intros j Hj. pose proof (find_sub_first _ _ _ (j - from)%nat E ltac:(lia)) as Hf.
  rewrite drop_drop in Hf. by replace (from + (j - from))%nat with j in Hf by lia.
Qed.

Lemma occurrences_complete v t fuel : forall from i,
  v <> [] -> (from <= i)%nat -> (length t < from + fuel)%nat ->
  starts_with (drop i t) v = true -> i ∈ occurrences fuel from v t.
Proof.
  induction fuel as [|fuel IH]; intros from i Hv Hi Hf Hs.
  - exfalso. rewrite drop_ge in Hs by lia. by destruct v.
  - cbn [occurrences]. destruct (find_sub v (drop from t)) as [off|] eqn:E.
    + destruct (drop_find _ _ _ _ E) as [_ Hfirst].
      destruct (decide (i = from + off)%nat) as [->|Hne]; [set_solver|].
      assert (from + off < i)%nat.
      { destruct (decide (i < from + off)%nat); [|lia]. by rewrite Hfirst in Hs by lia. }
      apply elem_of_cons. right. apply IH; [done|lia|lia|done].
    + pose proof (find_sub_none _ _ (i - from) E) as Hn. rewrite drop_drop in Hn.
      replace (from + (i - from))%nat with i in Hn by lia. congruence.
Qed.

Lemma occurrences_sound v t fuel : forall from i,
  i ∈ occurrences fuel from v t -> starts_with (drop i t) v = true.
Proof.
  induction fuel as [|fuel IH]; intros from i; cbn [occurrences]; [set_solver|].
  destruct (find_sub v (drop from t)) as [off|] eqn:E; [|set_solver].
  intros [-> | Hi]%elem_of_cons; [by apply drop_find in E as [? _]|by eapply IH].
Qed.

Lemma all_occurrences_spec v t i :
  v <> [] -> i ∈ all_occurrences v t <-> starts_with (drop i t) v = true.
Proof.
  intros Hv. split; [apply occurrences_sound|]. intros Hs. apply occurrences_complete; [done|lia|lia|done].
Qed.

Lemma occurrence_in_text v t i : starts_with (drop i t) v = true -> v <> [] -> (i + length v <= length t)%nat.
Proof. intros Hs%starts_with_length Hv. rewrite length_drop in Hs. destruct v; [done|]. simpl in *. lia. Qed.

(** ** Sorting and merging *)
Lemma insert_found_elem x l y : y ∈ insert_found x l <-> y = x \/ y ∈ l.
Proof. induction l as [|z l IH]; simpl; [set_solver|]. destruct (found_le x z); set_solver. Qed.

Lemma sort_found_elem l y : y ∈ sort_found l <-> y ∈ l.
Proof. induction l as [|x l IH]; simpl; [done|]. rewrite insert_found_elem. set_solver. Qed.

Definition starts_from (n : nat) (l : list (nat * nat * text)) : Prop := Forall (fun x => n <= x.1.1)%nat l.

Lemma starts_from_weaken n m l : (n <= m)%nat -> starts_from m l -> starts_from n l.
Proof. intros Hn Hl. eapply Forall_impl; [exact Hl|]. simpl. intros x ?. lia. Qed.

Inductive sorted_found : list (nat * nat * text) -> Prop :=
| sorted_nil : sorted_found []
| sorted_cons x l : starts_from x.1.1 l -> sorted_found l -> sorted_found (x :: l).

Lemma insert_found_sorted x l : sorted_found l -> sorted_found (insert_found x l).
Proof.
  induction 1 as [|y l Hy Hl IH]; simpl; [by repeat constructor|].
  destruct (found_le x y) eqn:E.
  - assert (x.1.1 <= y.1.1)%nat.
    { unfold found_le in E. apply orb_true_iff in E as [E|E]; [apply Nat.ltb_lt in E; lia|].
      apply andb_true_iff in E as [E _]. apply Nat.eqb_eq in E. lia. }
    constructor; [|by constructor]. constructor; [done|]. by eapply starts_from_weaken.
  - constructor; [|done]. apply Forall_forall. intros z [-> | Hz]%insert_found_elem.
    + unfold found_le in E. apply orb_false_iff in E as [E _]. apply Nat.ltb_ge in E. lia.
    + unfold starts_from in Hy. rewrite Forall_forall in Hy. by apply Hy.
Qed.

Lemma sort_found_sorted l : sorted_found (sort_found l).
Proof. induction l; simpl; [constructor|by apply insert_found_sorted]. Qed.

(** Spans in order: each non-empty, after the one before it, inside the text. *)
Fixpoint ordered (at_ bound : nat) (ss : list (nat * nat * text)) : Prop :=
  match ss with
  | [] => True
  | x :: ss => (at_ <= x.1.1 < x.1.2)%nat /\ (x.1.2 <= bound)%nat /\ ordered x.1.2 bound ss
  end.

Definition proper (bound : nat) (x : nat * nat * text) : Prop := (x.1.1 < x.1.2 <= bound)%nat.

Lemma merge_from_ordered bound l : forall last at_,
  proper bound last -> Forall (proper bound) l -> sorted_found l -> starts_from last.1.1 l ->
  (at_ <= last.1.1)%nat ->
  ordered at_ bound (merge_from last l) /\
  forall x, x = last \/ x ∈ l ->
    Exists (fun y => y.1.1 <= x.1.1 /\ x.1.2 <= y.1.2)%nat (merge_from last l).
Proof.
  unfold proper. induction l as [|x l IH]; intros last at_ Hlast Hl Hs Hfrom Hat; simpl.
  - split; [lia|]. intros y [-> | Hy]; [left; lia|set_solver].
  - apply Forall_cons in Hl as [Hx Hl]. inversion Hs as [|? ? Hxl Hsl]; subst.
    apply Forall_cons in Hfrom as [Hlx Hfrom].
    destruct (x.1.1 <? last.1.2)%nat eqn:E; [apply Nat.ltb_lt in E|apply Nat.ltb_ge in E].
    + destruct (IH (last.1.1, Nat.max last.1.2 x.1.2, last.2) at_) as [Ho Hc]; try done; [simpl; lia|].
      split; [done|].
      assert (Hw : forall y : nat * nat * text, (last.1.1 <= y.1.1)%nat -> (y.1.2 <= Nat.max last.1.2 x.1.2)%nat ->
        Exists (fun z => z.1.1 <= y.1.1 /\ y.1.2 <= z.1.2)%nat
          (merge_from (last.1.1, Nat.max last.1.2 x.1.2, last.2) l)).
      { intros y H1 H2. eapply Exists_impl; [apply (Hc _ (or_introl eq_refl))|]. simpl. lia. }
      intros y [-> | [-> | Hy]%elem_of_cons]; [apply Hw; lia|apply Hw; lia|apply Hc; by right].
    + destruct (IH x last.1.2) as [Ho Hc]; try done. split; [by split_and!; try lia|].
      intros y [-> | Hy]; [left; lia|right]. apply Hc. set_solver.
Qed.

Lemma merge_ordered bound l :
  Forall (proper bound) l -> sorted_found l ->
  ordered 0 bound (merge l) /\
  forall x, x ∈ l -> Exists (fun y => y.1.1 <= x.1.1 /\ x.1.2 <= y.1.2)%nat (merge l).
Proof.
  intros Hl Hs. destruct l as [|x l]; [split; [done|set_solver]|].
  apply Forall_cons in Hl as [Hx Hl]. inversion Hs as [|? ? Hxl Hsl]; subst.
  destruct (merge_from_ordered bound l x 0%nat Hx Hl Hsl Hxl ltac:(lia)) as [Ho Hc].
  split; [done|]. intros y Hy%elem_of_cons. by apply Hc.
Qed.

(** ** What the written text keeps *)
Definition in_span (ss : list (nat * nat * text)) (i : nat) : bool :=
  existsb (fun x => (x.1.1 <=? i)%nat && (i <? x.1.2)%nat) ss.

Lemma in_span_from ss at_ bound i : ordered at_ bound ss -> (i < at_)%nat -> in_span ss i = false.
Proof.
  revert at_. induction ss as [|x ss IH]; intros at_ Ho Hi; [done|].
  destruct Ho as (H1 & H2 & H3). simpl. rewrite (proj2 (Nat.leb_gt _ _)) by lia. simpl.
  eapply IH; [exact H3|lia].
Qed.

Lemma render_mask_length t ss : forall at_,
  ordered at_ (length t) ss -> (at_ <= length t)%nat ->
  length (render (fun _ hidden => replicate (length hidden) bullet) t at_ ss) = (length t - at_)%nat.
Proof.
  induction ss as [|[[s e] n] ss IH]; intros at_ Ho Hat; cbn [render].
  - by rewrite length_drop.
  - destruct Ho as (H1 & H2 & H3). cbn [fst snd] in *. autorewrite with fb_len.
    rewrite length_replicate, IH by done. autorewrite with fb_len. lia.
Qed.

Lemma render_mask_lookup t ss : forall at_ i,
  ordered at_ (length t) ss -> (at_ <= i < length t)%nat ->
  render (fun _ hidden => replicate (length hidden) bullet) t at_ ss !! (i - at_)%nat
  = if in_span ss i then Some bullet else t !! i.
Proof.
  induction ss as [|[[s e] n] ss IH]; intros at_ i Ho Hi; cbn [render].
  - rewrite lookup_drop. simpl. f_equal. lia.
  - destruct Ho as (H1 & H2 & H3). cbn [fst snd] in *.
    change (in_span ((s, e, n) :: ss) i) with (((s <=? i)%nat && (i <? e)%nat) || in_span ss i).
    assert (Hlen : length (take (s - at_) (drop at_ t)) = (s - at_)%nat)
      by (rewrite length_take, length_drop; lia).
    assert (Hhid : length (take (e - s) (drop s t)) = (e - s)%nat)
      by (rewrite length_take, length_drop; lia).
    destruct (decide (i < s)%nat) as [His|His].
    + rewrite (proj2 (Nat.leb_gt s i)) by lia. cbn [andb orb].
      rewrite (in_span_from ss e (length t) i H3) by lia.
      rewrite lookup_app_l by lia. rewrite lookup_take_lt by lia. rewrite lookup_drop. f_equal. lia.
    + rewrite (proj2 (Nat.leb_le s i)) by lia. cbn [andb].
      rewrite lookup_app_r by lia. rewrite Hlen.
      destruct (decide (i < e)%nat) as [Hie|Hie].
      * rewrite (proj2 (Nat.ltb_lt i e)) by lia. cbn [orb].
        rewrite lookup_app_l by (rewrite length_replicate; lia). apply lookup_replicate. split; [done|lia].
      * rewrite (proj2 (Nat.ltb_ge i e)) by lia. cbn [orb].
        rewrite lookup_app_r by (rewrite length_replicate; lia). rewrite length_replicate, Hhid.
        replace (i - at_ - (s - at_) - (e - s))%nat with (i - e)%nat by lia. apply IH; [done|lia].
Qed.

Section RedactFacts.
Context `{PercentEncoding} `{UnicodeStr} `{UrlParser}.

(** No registered form is empty: [register] skips them. *)
Definition forms_held (r : Redactor) : Prop := Forall (fun kv => kv.1 <> []) (values r).

Lemma im_insert_forall {V} (P : text * V -> Prop) k v (m : list (text * V)) :
  P (k, v) -> Forall P m -> Forall P (im_insert k v m).
Proof.
  intros Hkv. induction 1 as [|[k' v'] m Hx Hm IH]; simpl; [by constructor|].
  case_decide; [subst; by constructor|by constructor].
Qed.

Lemma register_forms_held r name v origin : forms_held r -> forms_held (register r name v origin).
Proof.
  unfold register. generalize (forms v). intros fs. revert r.
  induction fs as [|f fs IH]; intros r Hr; [done|]. cbn [fold_left]. apply IH.
  unfold register_form, forms_held. destruct f as [|c f]; [done|]. cbn [is_empty values].
  by apply im_insert_forall.
Qed.

(** An occurrence of a registered form that redaction leaves: in a host the value was typed on,
    or in a marker a redactor wrote. *)
Definition left_alone (r : Redactor) (t v : text) (i : nat) : Prop :=
  published (default [] (im_get v (typed_on r))) (hidden_hosts r t) i (i + length v) = true \/
  existsb (inside i (i + length v)) (markers r t) = true.

Lemma found_spec r t x :
  x ∈ found r t <->
  exists v, (v, x.2) ∈ values r /\ x.1.1 ∈ all_occurrences v t /\ x.1.2 = (x.1.1 + length v)%nat /\
    ~ left_alone r t v x.1.1.
Proof.
  unfold found, left_alone. rewrite list_elem_of_In, in_concat. setoid_rewrite in_map_iff.
  split.
  - intros (l & ([v n] & <- & Hkv) & Hx). apply list_elem_of_In, list_elem_of_omap in Hx as (i & Hi & Hx).
    cbv zeta in Hx. destruct (negb _ && negb _) eqn:E; [|done]. injection Hx as <-. bool_hyps.
    cbn [fst snd] in *. exists v. rewrite list_elem_of_In. split_and!; try done.
    intros [Hp|Hm]; congruence.
  - destruct x as [[i e] n]. cbn [fst snd]. intros (v & Hv & Hi & -> & Hl).
    exists (found_of (hidden_hosts r t) (markers r t) t (typed_on r) (v, n)).
    split; [exists (v, n); split; [done|by apply list_elem_of_In]|].
    apply list_elem_of_In, list_elem_of_omap. exists i. split; [done|]. cbn [fst snd].
    destruct (published _ _ _ _); [tauto|]. destruct (existsb _ _); [tauto|]. done.
Qed.

Lemma spans_spec r t :
  forms_held r ->
  ordered 0 (length t) (spans r t) /\
  forall v name i, (v, name) ∈ values r -> starts_with (drop i t) v = true -> ~ left_alone r t v i ->
    Exists (fun y => y.1.1 <= i /\ i + length v <= y.1.2)%nat (spans r t).
Proof.
  intros Hf. unfold spans.
  assert (Hproper : Forall (proper (length t)) (sort_found (found r t))).
  { apply Forall_forall. intros x Hx. apply sort_found_elem, found_spec in Hx as (v & Hv & Hi & He & _).
    unfold forms_held in Hf. rewrite Forall_forall in Hf. specialize (Hf _ Hv). cbn [fst] in Hf.
    apply all_occurrences_spec in Hi; [|done].
    pose proof (occurrence_in_text _ _ _ Hi Hf). unfold proper. destruct v; [done|]. simpl in *. lia. }
  destruct (merge_ordered _ _ Hproper (sort_found_sorted _)) as [Ho Hc]. split; [done|].
  intros v name i Hv Hs Hl.
  assert (Hne : v <> []) by (unfold forms_held in Hf; rewrite Forall_forall in Hf; apply (Hf _ Hv)).
  apply (Hc ((i, i + length v)%nat, name)). apply sort_found_elem, found_spec. exists v. cbn [fst snd].
  split_and!; try done. by apply all_occurrences_spec.
Qed.

Lemma starts_with_lookup t v i :
  starts_with (drop i t) v = true <-> (forall k c, v !! k = Some c -> t !! (i + k)%nat = Some c).
Proof.
  rewrite starts_with_spec. split.
  - intros [s Hs] k c Hk. rewrite <- lookup_drop, Hs. by apply lookup_app_l_Some.
  - intros Hall. exists (drop (length v) (drop i t)).
    rewrite <- (take_drop (length v) (drop i t)) at 1. f_equal.
    apply list_eq. intros k. destruct (v !! k) as [c|] eqn:E.
    + rewrite lookup_take_lt by (by eapply lookup_lt_Some). rewrite lookup_drop. by apply Hall.
    + rewrite lookup_take_ge; [done|]. by apply lookup_ge_None.
Qed.

(** What a text shows once the redactor has hidden its secrets: the same characters or bullets, and of the registered forms
    only what it leaves alone. *)
Definition hides (r : Redactor) (t shown : text) : Prop :=
  length shown = length t /\
  (forall i c, shown !! i = Some c -> c = bullet \/ t !! i = Some c) /\
  forall v name i, (v, name) ∈ values r -> bullet ∉ v -> starts_with (drop i shown) v = true ->
    starts_with (drop i t) v = true /\ left_alone r t v i.

Lemma mask_spec r t : forms_held r -> hides r t (mask r t).
Proof.
  intros Hf. unfold hides. destruct (spans_spec r t Hf) as [Ho Hc].
  assert (Hlen : length (mask r t) = length t)
    by (unfold mask; rewrite render_mask_length by (done || lia); lia).
  assert (Hlook : forall i, (i < length t)%nat ->
    mask r t !! i = if in_span (spans r t) i then Some bullet else t !! i).
  { intros i Hi. unfold mask. rewrite <- (render_mask_lookup t (spans r t) 0 i Ho ltac:(lia)).
    by rewrite Nat.sub_0_r. }
  split_and!; [done| |].
  - intros i c Hic. assert (Hi : (i < length t)%nat) by (rewrite <- Hlen; by eapply lookup_lt_Some).
    rewrite Hlook in Hic by done. destruct (in_span _ _); [left; congruence|by right].
  - intros v name i Hv Hb Hs. rewrite starts_with_lookup in Hs.
    assert (Hplain : forall k c, v !! k = Some c -> t !! (i + k)%nat = Some c /\ in_span (spans r t) (i + k) = false).
    { intros k c Hk. specialize (Hs k c Hk).
      assert (Hik : (i + k < length t)%nat) by (rewrite <- Hlen; by eapply lookup_lt_Some).
      rewrite Hlook in Hs by done. destruct (in_span _ _) eqn:E; [|done].
      injection Hs as <-. apply list_elem_of_lookup_2 in Hk. done. }
    assert (Ht : starts_with (drop i t) v = true)
      by (apply starts_with_lookup; intros k c Hk; by apply Hplain).
    split; [done|].
    destruct (decide (published (default [] (im_get v (typed_on r))) (hidden_hosts r t) i (i + length v) = true))
      as [Hp|Hp]; [by left|].
    destruct (decide (existsb (inside i (i + length v)) (markers r t) = true)) as [Hm|Hm]; [by right|].
    exfalso. specialize (Hc v name i Hv Ht ltac:(intros [?|?]; done)).
    apply Exists_exists in Hc as (y & Hy & Hys & Hye).
    assert (Hne : v <> []) by (unfold forms_held in Hf; rewrite Forall_forall in Hf; apply (Hf _ Hv)).
    destruct v as [|c v]; [done|]. destruct (Hplain 0%nat c eq_refl) as [_ Hout].
    rewrite Nat.add_0_r in Hout. apply not_true_iff_false in Hout. apply Hout.
    unfold in_span. apply existsb_exists. exists y. split; [by apply list_elem_of_In|].
    apply andb_true_iff. split; [apply Nat.leb_le; lia|apply Nat.ltb_lt; simpl in Hye; lia].
Qed.

(** C12: masking hides every secret and moves nothing: the masked text has the same length, each
    character is the original or a bullet, and wherever a registered form (one with no bullet of
    its own) can still be read in it, that occurrence was in the original text, inside a host the
    value was typed on or inside a marker. *)
Theorem mask_hides r t :
  forms_held r ->
  length (mask r t) = length t /\
  (forall i c, mask r t !! i = Some c -> c = bullet \/ t !! i = Some c) /\
  forall v name i, (v, name) ∈ values r -> bullet ∉ v -> starts_with (drop i (mask r t)) v = true ->
    starts_with (drop i t) v = true /\ left_alone r t v i.
Proof. apply mask_spec. Qed.

(** What [reveals] reports is what redaction would hide: it is true exactly when some
    registered form occurs in the text outside the hosts it was typed on and outside markers,
    and where it is false [redact] and [mask] leave the text as it is. *)
Theorem reveals_exact r t :
  forms_held r ->
  (reveals r t = true <->
     exists v name i, (v, name) ∈ values r /\ starts_with (drop i t) v = true /\ ~ left_alone r t v i) /\
  (reveals r t = false -> redact r t = t /\ mask r t = t).
Proof.
  intros Hf. destruct (spans_spec r t Hf) as [_ Hc]. split.
  - unfold reveals. split.
    + intros Hr. destruct (found r t) as [|x l] eqn:E.
      * unfold spans in Hr. by rewrite E in Hr.
      * assert (Hx : x ∈ found r t) by (rewrite E; set_solver).
        apply found_spec in Hx as (v & Hv & Hi & _ & Hl). exists v, x.2, x.1.1.
        unfold forms_held in Hf. rewrite Forall_forall in Hf.
        split_and!; [done| |done]. by apply all_occurrences_spec; [apply (Hf _ Hv)|].
    + intros (v & name & i & Hv & Hs & Hl). specialize (Hc v name i Hv Hs Hl).
      apply Exists_exists in Hc as (y & Hy & _). by destruct (spans r t); [set_solver|].
  - unfold reveals, redact, mask. by destruct (spans r t).
Qed.
End RedactFacts.

(** ** Examples *)
(** Percent-encoding of ASCII text: a safe character stays, any other is its byte in hex. *)
Definition ascii_encoding : PercentEncoding :=
  {| utf8_percent_encode unsafe t :=
       concat (map (fun c => if unsafe c then chr "%" :: map to_ascii_uppercase (hex 2 c) else [c]) t) |}.

#[local] Existing Instances plain_parser ascii_encoding.

Definition example_redactor : Redactor :=
  register (register new_redactor (lit "site") (lit "practice") (Some (lit "https://practice.test/")))
    (lit "token") (lit "p@ss word") None.

Lemma example_forms_held : forms_held example_redactor.
Proof. unfold example_redactor. do 2 apply register_forms_held. constructor. Qed.

Example redact_example :
  redact example_redactor (lit "practice at https://practice.test/practice?q=p%40ss+word")
  = lit "[secret:site] at https://practice.test/[secret:site]?q=[secret:token]".
Proof. vm_compute. reflexivity. Qed.

Theorem mask_hides_witness :
  let t := lit "see p@ss word" in
  mask example_redactor t = lit "see " ++ replicate 9 bullet /\ length (mask example_redactor t) = length t.
Proof.
  cbv zeta. split; [vm_compute; reflexivity|].
  apply (proj1 (mask_hides example_redactor (lit "see p@ss word") example_forms_held)).
Defined.

Theorem reveals_exact_witness :
  let t := lit "https://practice.test/secure" in
  reveals example_redactor t = false /\ redact example_redactor t = t.
Proof.
  cbv zeta. split; [vm_compute; reflexivity|].
  apply (proj2 (reveals_exact example_redactor (lit "https://practice.test/secure") example_forms_held)).
  vm_compute. reflexivity.
Defined.

(** Redacting twice can change the text: a value that starts with the marker's closing bracket
    straddles a marker's edge. *)
Theorem redact_not_idempotent :
  let r := register (register new_redactor (lit "a") (lit "foo") None) (lit "b") (lit "]bar") None in
  let t := lit "foobar" in
  redact r t = lit "[secret:a]bar" /\ redact r (redact r t) = lit "[secret:a[secret:b]".
Proof. vm_compute. split; reflexivity. Qed.
