(* ===== verification/Effects.v ===== *)
(** What an action visibly did: [crates/fastbrowse-core/src/effects.rs].

    [state_key] identifies a page by what can be done on it; [effect] compares the observations
    before and after a step.  SHA-256 and Rust's printing of a float are interfaces. *)

From S2P Require Import Prelude Float64 PyText Json DateTime Lax Models Page.

(** The digest of a text's UTF-8 bytes, and of raw bytes, as lowercase hex. *)
Class Sha256 := { sha256_hex : text -> text; sha256_hex_bytes : list Z -> text }.

Definition SETTING_ROLES : list text :=
  map lit ["option"; "checkbox"; "radio"; "switch"; "menuitemradio"; "menuitemcheckbox"]%string.

Record Effect := mkEffect {
  summary : text;
  set_something : bool;
  added : bool;
  changed : bool;
}.

Definition leavable (c : Control) : bool :=
  bool_decide (c_focused c = Some true) && bool_decide (Fill ∈ c_operations c).

Definition opt_str (t : option text) : value := match t with Some t => Str t | None => Null end.
Definition opt_bool (b : option bool) : value := match b with Some b => Bool b | None => Null end.

Definition control_key (c : Control) : value :=
  Array ([Str (c_role c); Str (c_label c); opt_str (c_context c); opt_str (c_value c);
          opt_bool (c_checked c); opt_bool (c_selected c); opt_bool (c_expanded c)]
         ++ (if leavable c then [Bool true] else [])).

Fixpoint insert_text (t : text) (l : list text) : list text :=
  match l with
  | [] => [t]
  | u :: l' => if text_le t u then t :: l else u :: insert_text t l'
  end.
Definition sort_texts : list text -> list text := fold_right insert_text [].

Definition state_key `{FloatFormat} `{Sha256} (o : Observation) : text :=
  let controls := sort_texts (map (fun c => dumps (control_key c)) (controls o)) in
  sha256_hex (dumps (Array [Str (o_url o); Array (map Str controls)])).

Inductive Shown := Missing | Text (t : text) | Flag (b : bool).
#[export] Instance Shown_eq_dec : EqDecision Shown.
Proof. solve_decision. Defined.

Definition of_text (t : option text) : Shown := match t with Some t => Text t | None => Missing end.
Definition of_flag (b : option bool) : Shown := match b with Some b => Flag b | None => Missing end.
Definition Shown_str (s : Shown) : text :=
  match s with
  | Missing => lit "None" | Text t => t | Flag true => lit "True" | Flag false => lit "False"
  end.

Definition short (s : Shown) : text :=
  let squashed := match s with Missing => [] | _ => squash (Shown_str s) end in
  if is_empty squashed then lit "empty" else squashed.

Definition listed (controls : list Control) : text :=
  show_Z (Z.of_nat (length controls)) ++ lit " control"
    ++ (if Nat.eqb (length controls) 1 then [] else lit "s") ++ lit ": "
    ++ join (lit ", ") (map (fun c => short (Text (c_label c))) controls).

Section Effects.
Context `{Unicode} `{F64Display}.

Definition plain (t : text) : text := casefold (squash t).

(** [choice.split(',').next().unwrap_or(choice).trim()]. *)
Definition first_part (choice : text) : text :=
  trim_matches is_whitespace (hd choice (split_parts (Z.eqb (chr ",")) choice)).

Definition shows (c : Control) (choice : text) : bool :=
  let shown :=
    (match c_value c with Some v => if is_empty v then [] else [plain v] | None => [] end)
    ++ (if teqb (c_role c) (lit "combobox") then [plain (c_label c)] else []) in
  existsb (fun t => contains_sub t choice || teqb t (first_part choice))
    (base.filter (fun t => is_empty t = false) shown).

Definition controls_by_id (cs : list Control) : list (text * Control) :=
  im_extend [] (map (fun c => (c_id c, c)) cs).

Definition name_of (c : Control) : text * text := (c_role c, strip (c_label c)).

(** The earlier controls sharing a role and label. *)
Definition namesakes (old : list (text * Control)) (now : Control) : list Control :=
  base.filter (fun c => name_of c = name_of now) (map snd old).

(** The control a present one is compared with. *)
Definition counterpart (old new : list (text * Control)) (key : text) (now : Control) : option Control :=
  match im_get key old with
  | Some was => Some was
  | None =>
      match namesakes old now with
      | [namesake] => if im_contains (c_id namesake) new then None else Some namesake
      | _ => None
      end
  end.

Definition attributes (was now : Control) : list (text * Shown * Shown) :=
  [(lit "label", Text (c_label was), Text (c_label now));
   (lit "value", of_text (c_value was), of_text (c_value now));
   (lit "checked", of_flag (c_checked was), of_flag (c_checked now));
   (lit "selected", of_flag (c_selected was), of_flag (c_selected now));
   (lit "expanded", of_flag (c_expanded was), of_flag (c_expanded now))].

Definition differs (was now : Control) (attribute : text * Shown * Shown) : bool :=
  let '(name, a, b) := attribute in
  if teqb name (lit "label") then negb (teqb (plain (c_label was)) (plain (c_label now)))
  else negb (bool_decide (a = b)).

Definition differing (was now : Control) : list (text * Shown * Shown) :=
  base.filter (fun a => differs was now a = true) (attributes was now).

Definition told (was : Control) (attribute : text * Shown * Shown) : text :=
  let '(name, a, b) := attribute in
  short (Text (c_label was)) ++ lit " " ++ name ++ lit ": " ++ short a ++ lit " -> " ++ short b.

Definition focus_change (was now : Control) : list text :=
  match c_focused was, c_focused now with
  | Some a, Some b =>
      if negb (Bool.eqb a b) && bool_decide (Fill ∈ c_operations now)
      then [short (Text (c_label was)) ++ lit " focused: " ++ Shown_str (Flag a) ++ lit " -> " ++ Shown_str (Flag b)]
      else []
  | _, _ => []
  end.

Definition control_changes (was now : Control) : list text :=
  map (told was) (differing was now) ++ focus_change was now.

(** The pairs that are compared, in the order of the page after the step. *)
Definition compared (old new : list (text * Control)) : list (Control * Control) :=
  omap (fun kv => (fun was => (was, kv.2)) <$> counterpart old new kv.1 kv.2) new.

Definition media_name (m : Media) : text :=
  match (match media_label m with Some l => Some l | None => media_heading m end) with
  | Some named => media_kind m ++ lit " " ++ named
  | None => media_kind m
  end.

Definition media_changes (was now : Media) : list text :=
  let name := media_name now in
  concat (map (fun '(attribute, a, b) =>
    if Bool.eqb a b then []
    else [name ++ lit " " ++ attribute ++ lit ": " ++ Shown_str (Flag a) ++ lit " -> " ++ Shown_str (Flag b)])
    [(lit "paused", media_paused was, media_paused now);
     (lit "ended", media_ended was, media_ended now);
     (lit "muted", media_muted was, media_muted now)]) ++
  (if media_paused was && media_paused now
      && negb (f64_eq (elapsed_seconds was) (elapsed_seconds now))
   then [name ++ lit " elapsed: " ++ f64_display (elapsed_seconds was) ++ lit " s -> "
           ++ f64_display (elapsed_seconds now) ++ lit " s"]
   else []).

Definition effect (before after : Observation) (chosen : option Control) : Effect :=
  let replaced := negb (teqb (document_key before) (document_key after)) in
  let old := controls_by_id (if replaced then [] else controls before) in
  let new := controls_by_id (controls after) in
  let navigated := negb (teqb (o_url before) (o_url after)) in
  let went := if navigated then [lit "went to " ++ short (Text (o_url after))] else [] in
  let failed :=
    match response_status after with
    | Some status =>
        if 400 <=? status
        then [lit "HTTP " ++ show_Z status ++ lit ": destination did not load successfully"] else []
    | None => []
    end in
  let pairs := compared old new in
  let text_changed := negb (teqb (viewport_text before) (viewport_text after)) in
  let content_changed :=
    text_changed || existsb (fun p => negb (is_empty (differing p.1 p.2))) pairs in
  let setting :=
    existsb (fun p => existsb (fun a => negb (teqb a.1.1 (lit "expanded"))) (differing p.1 p.2)) pairs in
  let changes :=
    concat (map (fun p => control_changes p.1 p.2) pairs) ++
    (if negb replaced && Nat.eqb (length (media before)) (length (media after))
     then concat (map (fun p => media_changes p.1 p.2) (combine (media before) (media after)))
     else []) in
  let changed_part := if is_empty changes then [] else [lit "changed " ++ join (lit "; ") changes] in
  let shown := map snd (base.filter (fun kv => im_contains kv.1 old = false) new) in
  let hidden := base.filter (fun c => replaced || negb (im_contains (c_id c) new) = true) (controls before) in
  let stayed_whole := negb navigated && negb replaced && is_empty hidden in
  let shown_part := if is_empty shown then [] else [lit "showed " ++ listed shown] in
  let hidden_part := if is_empty hidden then [] else [lit "removed " ++ listed hidden] in
  let parts := went ++ failed ++ changed_part ++ shown_part ++ hidden_part in
  let setting :=
    match chosen with
    | Some chosen =>
        if replaced then setting
        else setting || existsb (fun c => negb (existsb (teqb (c_role c)) SETTING_ROLES)
                                          && shows c (plain (c_label chosen))) (controls after)
    | None => setting
    end in
  let changed := negb (is_empty parts) || text_changed in
  mkEffect
    (if negb (is_empty parts) then join (lit "; ") parts
     else if changed then lit "only the page text changed" else lit "nothing visible changed")
    (navigated || setting)
    (stayed_whole && (content_changed || negb (is_empty shown)))
    changed.
End Effects.

(** * Properties *)
Lemma filter_nil_iff {A} (P : A -> Prop) `{forall x, Decision (P x)} l :
  base.filter P l = [] <-> Forall (fun x => ~ P x) l.
Proof.
  rewrite Forall_forall. split.
  - intros E x Hx HP. assert (Hin : x ∈ base.filter P l) by (by apply list_elem_of_filter).
    rewrite E in Hin. set_solver.
  - intros Hall. destruct (base.filter P l) as [|x r] eqn:E; [done|]. exfalso.
    assert (Hin : x ∈ base.filter P l) by (rewrite E; set_solver).
    apply list_elem_of_filter in Hin as [HP Hx]. by eapply Hall.
Qed.

Lemma concat_map_nil {A B} (f : A -> list B) l : concat (map f l) = [] <-> Forall (fun x => f x = []) l.
Proof.
  induction l as [|x l IH]; simpl; [by split|]. rewrite Forall_cons, <- IH.
  split; [apply app_nil|by intros [-> ->]].
Qed.

Lemma f64_eq_refl x : is_nan x = false -> f64_eq x x = true.
Proof.
  destruct x as [s|s| |s m e]; intros Hn; try done; [by destruct s|].
  unfold f64_eq, SFeqb, SFcompare.
  assert (Hm : (m ?= m)%positive = Eq) by apply Pos.compare_refl.
  assert (He : (e ?= e) = Eq) by apply Z.compare_refl.
  destruct s; rewrite He; cbn; rewrite Pos.compare_cont_refl || rewrite Hm; done.
Qed.

Section EffectFacts.
Context `{Unicode} `{F64Display}.

Lemma controls_by_id_keys cs x : x ∈ im_keys (controls_by_id cs) <-> x ∈ map c_id cs.
Proof. unfold controls_by_id. rewrite im_extend_keys, map_map. simpl. set_solver. Qed.

Lemma controls_by_id_nodup cs : NoDup (im_keys (controls_by_id cs)).
Proof. apply im_extend_nodup. constructor. Qed.

Lemma differing_nil was now :
  differing was now = [] <->
  plain (c_label was) = plain (c_label now) /\ c_value was = c_value now /\
  c_checked was = c_checked now /\ c_selected was = c_selected now /\ c_expanded was = c_expanded now.
Proof.
  unfold differing. rewrite filter_nil_iff. unfold attributes. rewrite !Forall_cons. cbn [differs].
  change (teqb (lit "label") (lit "label")) with true. change (teqb (lit "value") (lit "label")) with false.
  change (teqb (lit "checked") (lit "label")) with false.
  change (teqb (lit "selected") (lit "label")) with false.
  change (teqb (lit "expanded") (lit "label")) with false. cbv iota.
  rewrite !not_true_iff_false, !negb_false_iff, teqb_spec, !bool_decide_eq_true.
  unfold of_text, of_flag. split.
  - intros (H1 & H2 & H3 & H4 & H5 & _). split_and!; [done|..];
      repeat case_match; simplify_eq; done.
  - intros (H1 & -> & -> & -> & ->). split_and!; done || constructor.
Qed.

Lemma same_control_changes c : control_changes c c = [].
Proof.
  unfold control_changes. rewrite (proj2 (differing_nil c c)) by done. simpl.
  unfold focus_change. destruct (c_focused c) as [b|]; [|done]. by rewrite eqb_reflx.
Qed.

Lemma compared_self m p : NoDup (im_keys m) -> p ∈ compared m m -> p.1 = p.2.
Proof.
  intros Hn Hp. unfold compared in Hp. apply list_elem_of_omap in Hp as ([k now] & Hin & Hp).
  cbn [fst snd] in Hp. unfold counterpart in Hp. rewrite (im_get_nodup _ _ _ Hn Hin) in Hp.
  simpl in Hp. by injection Hp as <-.
Qed.

(** A step that did nothing is never told as progress: with a page that did not fail to
    load and no clock reading NaN, the same observation before and after yields no change, no
    value set and nothing added. *)
Theorem effect_of_nothing o :
  (forall s, response_status o = Some s -> s < 400) ->
  Forall (fun m => is_nan (elapsed_seconds m) = false) (media o) ->
  effect o o None = mkEffect (lit "nothing visible changed") false false false.
Proof.
  intros Hstatus Hmedia. unfold effect. rewrite !teqb_refl. cbn [negb orb andb].
  set (m := controls_by_id (controls o)). assert (Hn : NoDup (im_keys m)) by apply controls_by_id_nodup.
  replace (match response_status o with Some _ => _ | None => [] end) with (@nil text).
  2:{ destruct (response_status o) as [s|]; [|done]. specialize (Hstatus s eq_refl).
      by rewrite (proj2 (Z.leb_gt _ _)). }
  assert (Hd : Forall (fun p => differing p.1 p.2 = []) (compared m m)).
  { apply Forall_forall. intros p Hp. rewrite (compared_self m p Hn Hp). by apply differing_nil. }
  assert (Hc : concat (map (fun p => control_changes p.1 p.2) (compared m m)) = []).
  { apply concat_map_nil, Forall_forall. intros p Hp. rewrite (compared_self m p Hn Hp).
    apply same_control_changes. }
  rewrite Hc, Nat.eqb_refl. cbn [app].
  assert (Hm : concat (map (fun p => media_changes p.1 p.2) (combine (media o) (media o))) = []).
  { apply concat_map_nil. induction Hmedia as [|x l Hx Hl IH]; [constructor|]. constructor; [|done].
    cbn [fst snd]. unfold media_changes. rewrite f64_eq_refl by done.
    by destruct (media_paused x), (media_ended x), (media_muted x). }
  rewrite Hm.
  assert (Hs : base.filter (fun kv => im_contains kv.1 m = false) m = []).
  { apply filter_nil_iff, Forall_forall. intros [k c] Hin. rewrite not_false_iff_true.
    apply im_contains_spec. apply list_elem_of_fmap. by exists (k, c). }
  rewrite Hs.
  assert (Hh : base.filter (fun c => negb (im_contains (c_id c) m) = true) (controls o) = []).
  { apply filter_nil_iff, Forall_forall. intros c Hin. rewrite not_true_iff_false, negb_false_iff.
    apply im_contains_spec, controls_by_id_keys, list_elem_of_fmap. by exists c. }
  rewrite Hh. cbn [map is_empty app negb andb orb].
  replace (existsb (fun p => negb (is_empty (differing p.1 p.2))) (compared m m)) with false.
  2:{ symmetry. apply not_true_iff_false. rewrite existsb_exists. intros (p & Hp & E).
      rewrite Forall_forall in Hd. by rewrite (Hd p) in E by (by apply list_elem_of_In). }
  replace (existsb (fun p => existsb (fun a => _) (differing p.1 p.2)) (compared m m)) with false; [done|].
  symmetry. apply not_true_iff_false. rewrite existsb_exists. intros (p & Hp & E).
  rewrite Forall_forall in Hd. by rewrite (Hd p) in E by (by apply list_elem_of_In).
Qed.

(** A change is never missed: when a step is told as having changed nothing, the address and
    the visible text are the same, no control appeared or went, and every control still there
    shows the same label, value, checked, selected and expanded state. *)
Theorem effect_misses_nothing before after chosen :
  changed (effect before after chosen) = false ->
  o_url before = o_url after /\ viewport_text before = viewport_text after /\
  (forall id, id ∈ map c_id (controls before) <-> id ∈ map c_id (controls after)) /\
  forall id now, im_get id (controls_by_id (controls after)) = Some now ->
    exists was, im_get id (controls_by_id (controls before)) = Some was /\
      plain (c_label was) = plain (c_label now) /\ c_value was = c_value now /\
      c_checked was = c_checked now /\ c_selected was = c_selected now /\ c_expanded was = c_expanded now.
Proof.
  unfold effect. cbn [changed]. set (replaced := negb (teqb (document_key before) (document_key after))).
  set (old := controls_by_id (if replaced then [] else controls before)).
  set (new := controls_by_id (controls after)). intros Hc.
  apply orb_false_iff in Hc as [Hparts Htext]. apply negb_false_iff in Hparts, Htext.
  apply teqb_spec in Htext.
  match type of Hparts with is_empty ?p = true => assert (Hp : p = []) by (by destruct p) end.
  apply app_nil in Hp as [Hwent Hp]. apply app_nil in Hp as [_ Hp].
  apply app_nil in Hp as [Hchg Hp]. apply app_nil in Hp as [Hshown Hhid].
  assert (Hurl : o_url before = o_url after).
  { unfold teqb in Hwent. case_bool_decide; done. }
  assert (Hs : base.filter (fun kv => im_contains kv.1 old = false) new = []).
  { destruct (base.filter _ new) as [|x l]; [done|]. by simpl in Hshown. }
  assert (Hh : base.filter (fun c => replaced || negb (im_contains (c_id c) new) = true) (controls before) = []).
  { by destruct (base.filter _ (controls before)). }
  assert (Hpairs : Forall (fun p => control_changes p.1 p.2 = []) (compared old new)).
  { apply concat_map_nil. revert Hchg.
    by destruct (concat (map (fun p => control_changes p.1 p.2) (compared old new))). }
  rewrite filter_nil_iff, Forall_forall in Hs. rewrite filter_nil_iff, Forall_forall in Hh.
  rewrite Forall_forall in Hpairs.
  assert (Hnew : forall k now, (k, now) ∈ new -> k ∈ im_keys old).
  { intros k now Hin. apply im_contains_spec. specialize (Hs _ Hin). cbn [fst] in Hs. by destruct (im_contains k old). }
  assert (Hold : replaced = true -> controls before = [] /\ new = []).
  { intros Hr. split.
    - destruct (controls before) as [|c cs]; [done|]. exfalso. apply (Hh c); [set_solver|]. by rewrite Hr.
    - destruct new as [|[k c] l]; [done|]. exfalso.
      specialize (Hnew k c ltac:(set_solver)). unfold old in Hnew. rewrite Hr in Hnew.
      apply controls_by_id_keys in Hnew. set_solver. }
  assert (Heq : replaced = true \/ old = controls_by_id (controls before))
    by (unfold old; destruct replaced; auto).
  split_and!; [done|done| |].
  - intros id. rewrite <- !controls_by_id_keys. fold new.
    destruct Heq as [Hr | Ho].
    + destruct (Hold Hr) as [-> ->]. done.
    + rewrite <- Ho. split; intros Hid.
      * rewrite Ho in Hid. apply controls_by_id_keys, list_elem_of_fmap in Hid as (c & -> & Hin).
        specialize (Hh c Hin). apply not_true_iff_false in Hh. bool_hyps. by apply im_contains_spec.
      * apply im_get_some_keys in Hid as [now Hg]. apply im_get_elem in Hg. by eapply Hnew.
  - intros id now Hg. pose proof (im_get_elem _ _ _ Hg) as Hin.
    destruct Heq as [Hr | Ho]; [destruct (Hold Hr) as [_ E]; rewrite E in Hin; set_solver|].
    rewrite <- Ho. pose proof (Hnew _ _ Hin) as Hk. apply im_get_some_keys in Hk as [was Hw].
    exists was. split; [done|]. apply differing_nil.
    specialize (Hpairs (was, now)). cbn [fst snd] in Hpairs. unfold control_changes in Hpairs.
    destruct (differing was now) as [|x l]; [done|]. exfalso. enough (told was x :: map (told was) l ++ focus_change was now = []) by done.
    apply Hpairs. unfold compared. apply list_elem_of_omap. exists (id, now). split; [done|].
    unfold counterpart. cbn [fst snd]. by rewrite Hw.
Qed.
End EffectFacts.

(** ** Examples *)
Definition plain_display : F64Display := {| f64_display x := show_Z (f64_floor x) |}.
#[local] Existing Instances ascii_unicode plain_display.

Definition sample_field (v : text) : Control :=
  let c := new_control (lit "c1") (lit "textbox") (lit "Postcode") [Fill] in
  mkControl (c_id c) None None None None (c_role c) (c_label c) None (c_operations c) (Some v)
    (Some true) None [] None None None None None None None None false false None None None None None None.

Definition sample (key : string) (v : string) : Observation :=
  mkObservation (lit "https://shop.test/") (lit "Shop") (lit "p") (new_datetime 2026 9 27 0 0 0)
    (Some 200) (lit key) [sample_field (lit v); new_control (lit "c2") (lit "button") (lit "Go") [Click]]
    (lit "Welcome") [] false
    [mkMedia (lit "video") None (Some (lit "Tour")) true false false (f64_of_Z 3) None] [] None 0 false None.

Example effect_told :
  effect (sample "d1" "") (sample "d1" "N1 9GU") None
  = mkEffect (lit "changed Postcode value: empty -> N1 9GU") true true true.
Proof. vm_compute. reflexivity. Qed.

Theorem effect_of_nothing_witness :
  effect (sample "d1" "x") (sample "d1" "x") None
  = mkEffect (lit "nothing visible changed") false false false.
Proof.
  apply effect_of_nothing.
  - simpl. intros s [= <-]. lia.
  - repeat constructor.
Defined.

Theorem effect_misses_nothing_witness :
  o_url (sample "d1" "x") = o_url (sample "d1" "x") /\
  viewport_text (sample "d1" "x") = viewport_text (sample "d1" "x").
Proof.
  destruct (effect_misses_nothing (sample "d1" "x") (sample "d1" "x") None) as (H1 & H2 & _).
  - vm_compute. reflexivity.
  - exact (conj H1 H2).
Defined.
