(* ===== verification/Notes.v ===== *)
(** A run's evidence-backed memory: [crates/fastbrowse-agent/src/memory.rs].

    [Notes] holds the facts by id in read order, the ones standing as the task's answer, and the
    ids a later read retired.  [add] and [supersede] change it; [render] and
    [render_for_navigation] write it into prompts.  The [IndexMap]s are association lists; the
    hash sets, only asked for membership, are lists.  [citations::table_blocks], which a
    remembered capture is read with, is the interface [TableReader]. *)

From S2P Require Import Prelude Float64 PyText Json DateTime Models Page Effects.

(** ** Evidence ([models.rs]) *)
Record Evidence := mkEvidence {
  e_source_id : text;
  e_url : text;
  e_frame_id : option text;
  e_captured_at : DateTime;
  capture_sha256 : text;
  e_start : Z;
  e_end : Z;
  quote : text;
  e_complete_source : bool;
  e_control_context : option SourceControl;
  rendered_text : bool;
  e_heading_path : list text;
  capture_artifact : option text;
}.

Record Fact := mkFact {
  answers : bool;
  f_text : text;
  evidence : option Evidence;
  basis : list text;
  reader : FactReader;
}.

Definition fact_read (t : text) (e : Evidence) (r : FactReader) : Fact := mkFact false t (Some e) [] r.
Definition answering_fact (f : Fact) : Fact := mkFact true (f_text f) (evidence f) (basis f) (reader f).

Definition grounded (f : Fact) : result Fact text :=
  if bool_decide (evidence f = None) && is_empty (basis f)
  then Err (lit "Value error, a fact with no evidence must be derived from a basis") else Ok f.

Definition quoted (t : text) (ascii : bool) : text := write_string t ascii.

(** Each value once, in first-seen order. *)
Definition unique (l : list text) : list text := fold_left (fun s x => is_insert x s) l [].

Section Reading.
Context `{Unicode} `{UnicodeStr}.

(** [quote] as whole words somewhere in the text, tried at every start. *)
Fixpoint shows_from (previous : option Z) (t quote : text) : bool :=
  let here :=
    negb (match previous with Some p => is_word p | None => false end)
    && starts_with t quote
    && negb (match drop (length quote) t with c :: _ => is_word c | [] => false end) in
  here || match t with c :: t' => shows_from (Some c) t' quote | [] => false end.
Definition shows (t quote : text) : bool := shows_from None t quote.

(** [urlsplit]'s scheme and what follows it. *)
Definition split_scheme (url : text) : text * text :=
  let url := base.filter (fun c => c <> 9 /\ c <> 13 /\ c <> 10) (trim_start (fun c => c <=? 32) url) in
  match find_char (Z.eqb (chr ":")) url with
  | Some colon =>
      if (0 <? colon)%nat
         && match url with c :: _ => is_ascii_alphabetic c | [] => false end
         && forallb (fun c => is_ascii_alphanumeric c || one_of (lit "+-.") c) (take colon url)
      then (ascii_lower (take colon url), drop (S colon) url)
      else ([], url)
  | None => ([], url)
  end.

Definition CURRENCY : text :=
  [0xa3; chr "$"; 0x20ac; 0xa5; 0x20b9; 0x20a9; 0x20bd; 0xa2; 0x20ba; 0x20aa].
Definition UNITS : text := [chr "%"; 0x2030; 0x2031; 0xb0].
Definition minus : Z := 0x2212.

Definition kept (previous : option Z) (c : Z) (next : option Z) : bool :=
  let signs_amount :=
    one_of [chr "-"; minus] c
    && match previous with Some p => negb (is_alphanumeric p) | None => true end
    && match next with Some n => is_ascii_digit n || one_of CURRENCY n | None => false end in
  is_alphanumeric c || (c =? chr ".") || one_of CURRENCY c || one_of UNITS c || signs_amount.

(** The loop of [words]: [word] is the word being read. *)
Fixpoint words_from (previous : option Z) (word t : text) : list text :=
  let close :=
    let trimmed := trim_matches (Z.eqb (chr ".")) word in
    if is_empty trimmed then [] else [trimmed] in
  match t with
  | [] => close
  | c :: t' =>
      if kept previous c (head t')
      then words_from (Some c) (word ++ [if c =? minus then chr "-" else c]) t'
      else close ++ words_from (Some c) [] t'
  end.
Definition words (t : text) : list text := words_from None [] (str_lowercase t).
End Reading.

Definition USES_NETLOC : list text :=
  map lit [""; "ftp"; "http"; "gopher"; "nntp"; "telnet"; "imap"; "wais"; "file"; "mms"; "https";
           "shttp"; "snews"; "prospero"; "rtsp"; "rtsps"; "rtspu"; "rsync"; "svn"; "svn+ssh";
           "sftp"; "nfs"; "git"; "git+ssh"; "ws"; "wss"; "itms-services"]%string.

(** [urlsplit(url)._replace(fragment="").geturl()]. *)
Definition address (url : text) : text :=
  let '(scheme, cleaned) := split_scheme url in
  let '(netloc, rest) :=
    match strip_prefix cleaned (lit "//") with
    | Some after =>
        let end_ := default (length after) (find_char (one_of (lit "/?#")) after) in
        (take end_ after, drop end_ after)
    | None => ([], cleaned)
    end in
  let rest := match split_once (chr "#") rest with Some (before, _) => before | None => rest end in
  let '(path, query) := default (rest, []) (split_once (chr "?") rest) in
  let joined :=
    (if negb (is_empty netloc) then
       lit "//" ++ netloc
         ++ (if negb (is_empty path) && negb (starts_with path (lit "/")) then lit "/" else [])
     else if starts_with path (lit "//")
             || (negb (is_empty scheme) && existsb (teqb scheme) USES_NETLOC
                 && (is_empty path || starts_with path (lit "/")))
     then lit "//" else []) ++ path in
  (if is_empty scheme then [] else scheme ++ lit ":") ++ joined
    ++ (if is_empty query then [] else lit "?" ++ query).

Record CapturedPage := mkCapturedPage { page_url : text; page_title : text }.

(** The table blocks of a capture, as [citations.rs] reads them. *)
Class TableReader := { TableBlock : Type; table_blocks_of : Capture -> list TableBlock }.

(** [pages] is keyed by capture hash, address and time. *)
Record Notes `{TableReader} := mkNotes {
  facts : list (text * Fact);
  answering : list text;
  retired : list text;
  pages : list (text * text * DateTime * CapturedPage);
  tables : list (text * list TableBlock);
}.

#[export] Instance DateTime_eq_dec : EqDecision DateTime.
Proof. solve_decision. Defined.
#[export] Instance SourceControl_eq_dec : EqDecision SourceControl.
Proof. solve_decision. Defined.
#[export] Instance Evidence_eq_dec : EqDecision Evidence.
Proof. solve_decision. Defined.
#[export] Instance Fact_eq_dec : EqDecision Fact.
Proof. solve_decision. Defined.

Definition dump_control (c : SourceControl) : value :=
  Object [(lit "role", Str (source_role c)); (lit "label", Str (source_label c));
          (lit "context", opt_str (source_context c))].

Section Notes.
Context `{Unicode} `{UnicodeStr} `{FloatFormat} `{Sha256} `{TR : TableReader}.

Definition digest16 (t : text) : text := take 16 (sha256_hex t).

Definition evidence_id (e : Evidence) : text :=
  let identity :=
    capture_sha256 e ++ lit ":" ++ show_Z (e_start e) ++ lit ":" ++ show_Z (e_end e) ++ lit ":"
      ++ digest16 (address (e_url e)) in
  match e_control_context e with
  | Some control =>
      identity ++ lit ":"
        ++ digest16 (dumps (Array [opt_str (e_frame_id e); Str (e_source_id e); dump_control control]))
  | None => identity
  end.

Definition fact_id (f : Fact) : text :=
  match evidence f with
  | Some e => evidence_id e
  | None =>
      lit "derived:" ++ digest16 (dumps (Array [Str (f_text f); Array (map Str (sort_texts (basis f)))]))
  end.

Definition empty_notes : Notes := mkNotes _ [] [] [] [] [].

(** [IndexMap::entry(key).or_insert_with]: a known key keeps its value. *)
Definition or_insert {K V} `{EqDecision K} (k : K) (v : V) (m : list (K * V)) : list (K * V) :=
  match im_get k m with Some _ => m | None => im_insert k v m end.

Definition remember_capture (n : Notes) (c : Capture) : Notes :=
  mkNotes _ (facts n) (answering n) (retired n)
    (or_insert (sha256 c, cap_url c, cap_captured_at c) (mkCapturedPage (cap_url c) (cap_title c)) (pages n))
    (or_insert (sha256 c) (table_blocks_of c) (tables n)).

Definition table_blocks (n : Notes) (e : Evidence) : list TableBlock :=
  default [] (im_get (capture_sha256 e) (tables n)).
Definition captured_page (n : Notes) (e : Evidence) : option CapturedPage :=
  im_get (capture_sha256 e, e_url e, e_captured_at e) (pages n).

(** Not superseded, and if it answers, still standing. *)
Definition current (n : Notes) (key : text) : bool :=
  match im_get key (facts n) with
  | Some f => negb (bool_decide (key ∈ retired n)) && (negb (answers f) || bool_decide (key ∈ answering n))
  | None => false
  end.

Definition evidence_by_id (n : Notes) : list (text * Evidence) :=
  omap (fun kf => (fun e => (kf.1, e)) <$> evidence kf.2) (facts n).

Definition usable_evidence (n : Notes) : list (text * Evidence) :=
  omap (fun kf => (fun e => (kf.1, e)) <$> evidence kf.2)
    (base.filter (fun kf => current n kf.1 = true) (facts n)).

Definition current_evidence (n : Notes) (capture : option Capture) : list (text * Evidence) :=
  match capture with
  | None => usable_evidence n
  | Some c =>
      let page := address (cap_url c) in
      base.filter (fun ke => address (e_url ke.2) <> page \/ shows (cap_text c) (quote ke.2) = true)
        (usable_evidence n)
  end.

Definition derived (n : Notes) (key : text) : bool :=
  match im_get key (facts n) with Some f => bool_decide (evidence f = None) | None => false end.
Definition superseded (n : Notes) (key : text) : bool := bool_decide (key ∈ retired n).
Definition answered (n : Notes) : bool := negb (is_empty (answering n)).
Definition answers_key (n : Notes) (key : text) : bool := bool_decide (key ∈ answering n).

(** The fact a repeated read leaves. *)
Definition merged (previous fact : Fact) : Fact :=
  let basis := unique (basis previous ++ basis fact) in
  let new_kept := negb (answers previous) && answers fact in
  let kept := if new_kept then fact else previous in
  let text := f_text kept in
  let text :=
    if negb new_kept && answers fact && negb (contains_sub text (f_text fact))
    then text ++ [10] ++ f_text fact else text in
  let quoted := quote <$> evidence previous in
  let text :=
    if new_kept && negb (bool_decide (Some (f_text previous) = quoted))
       && negb (contains_sub text (f_text previous))
    then f_text previous ++ [10] ++ text else text in
  mkFact (answers kept) text (evidence kept) basis (reader kept).

(** Whether a new span was added, and the notes with it. *)
Definition add (n : Notes) (fact : Fact) : bool * Notes :=
  let key := fact_id fact in
  let retired := base.filter (fun k => k <> key) (retired n) in
  let answering := if answers fact then is_insert key (answering n) else answering n in
  match im_get key (facts n) with
  | Some previous =>
      (false, mkNotes _ (im_insert key (merged previous fact) (facts n)) answering retired (pages n) (tables n))
  | None => (true, mkNotes _ (im_insert key fact (facts n)) answering retired (pages n) (tables n))
  end.

Definition new_notes (fs : list Fact) : Notes := fold_left (fun n f => snd (add n f)) fs empty_notes.

Definition screenshot_reference (png : list Z) : text := lit "screenshot-" ++ sha256_hex_bytes png.

Definition add_image_read (n : Notes) (t url : text) (at_ : DateTime) (png : list Z) : bool * Notes :=
  let source := screenshot_reference png in
  add n (mkFact true t
    (Some (mkEvidence source url None at_ source 0 (len t) (lit "read from the screenshot: " ++ t)
             false None false [] None)) [] LlmImage).

(** [windows(n).any(|run| run == said)]. *)
Fixpoint has_run (note said : list text) : bool :=
  bool_decide (take (length said) note = said)
  || match note with _ :: note' => has_run note' said | [] => false end.

Definition repeats_page_text (n : Notes) (t url : text) : bool :=
  let page := address url in
  let said := words t in
  negb (is_empty said)
  && existsb (fun kf =>
       current n kf.1 && negb (bool_decide (reader kf.2 = LlmImage))
       && match evidence kf.2 with Some e => teqb (address (e_url e)) page | None => false end
       && has_run (words (f_text kf.2)) said) (facts n).

(** ** The transitive basis *)
(** The [while let Some(key) = pending.pop()] of the source: the last pending key first. *)
Fixpoint expand (fuel : nat) (fs : list (text * Fact)) (pending seen : list text) : list text :=
  match fuel with
  | O => seen
  | S fuel =>
      match rev pending with
      | [] => seen
      | key :: _ =>
          let rest := take (length pending - 1) pending in
          if bool_decide (key ∈ seen) then expand fuel fs rest seen
          else
            let more := match im_get key fs with Some f => basis f | None => [] end in
            expand fuel fs (rest ++ more) (key :: seen)
      end
  end.

(** Each fact's basis is pushed at most once, so this many pops empty [pending]. *)
Definition expand_fuel (fs : list (text * Fact)) (cited : list text) : nat :=
  S (length cited + sum_list (map (fun kf => length (basis kf.2)) fs)).

Definition expand_evidence_ids (n : Notes) (keys : list text) : list text :=
  let cited := unique keys in
  let seen := expand (expand_fuel (facts n) cited) (facts n) cited [] in
  base.filter (fun k => k ∈ seen) (im_keys (facts n))
    ++ base.filter (fun k => k ∉ im_keys (facts n)) cited.

Definition supporting (n : Notes) : list (text * Fact) :=
  omap (fun k => (fun f => (k, f)) <$> im_get k (facts n)) (answering n).

Definition supporting_evidence (n : Notes) : list Evidence :=
  omap (fun k => match im_get k (facts n) with Some f => evidence f | None => None end)
    (expand_evidence_ids n (map fst (supporting n))).

(** ** A later read *)
Definition fresh (n : Notes) (sha : text) : list Evidence :=
  base.filter (fun e => capture_sha256 e = sha) (map snd (usable_evidence n)).

Definition vanished (addresses : list text) (sha shown : text) (source : Evidence) : bool :=
  negb (teqb (capture_sha256 source) sha) && bool_decide (address (e_url source) ∈ addresses)
  && negb (shows shown (quote source)).

Definition from_capture (sha : text) (f : Fact) : bool :=
  match evidence f with Some e => teqb (capture_sha256 e) sha | None => false end.

(** Whether a fact that is not the read's own rests on a quote that is gone. *)
Definition stale (n : Notes) (addresses : list text) (sha shown : text) (key : text) (f : Fact) : bool :=
  if from_capture sha f then false
  else if negb (is_empty (basis f)) then
    existsb (vanished addresses sha shown)
      (omap (fun source => im_get source (evidence_by_id n)) (expand_evidence_ids n [key]))
  else match evidence f with Some e => vanished addresses sha shown e | None => false end.

(** The loop over the read's own facts: each drops the retired ids from its basis. *)
Definition drop_retired (gone : list text) (sha : text) (kf : text * Fact) : text * Fact :=
  if from_capture sha kf.2
  then (kf.1, mkFact (answers kf.2) (f_text kf.2) (evidence kf.2)
                (base.filter (fun k => k ∉ gone) (basis kf.2)) (reader kf.2))
  else kf.

Definition supersede (n : Notes) (url sha shown : text) : Notes :=
  let fresh := fresh n sha in
  if is_empty fresh then n
  else
    let addresses := address url :: map (fun e => address (e_url e)) fresh in
    let gone := map fst (base.filter (fun kf => stale n addresses sha shown kf.1 kf.2 = true) (facts n)) in
    mkNotes _ (map (drop_retired gone sha) (facts n))
      (base.filter (fun k => k ∉ gone) (answering n))
      (fold_left (fun s k => is_insert k s) gone (retired n)) (pages n) (tables n).
End Notes.

(** * Properties *)
Section NotesFacts.
Context `{Unicode} `{UnicodeStr} `{FloatFormat} `{Sha256} `{TR : TableReader}.

(** ** The transitive basis *)
Inductive rests_on (fs : list (text * Fact)) (roots : list text) : text -> Prop :=
| rests_root k : k ∈ roots -> rests_on fs roots k
| rests_step k f k' : rests_on fs roots k -> im_get k fs = Some f -> k' ∈ basis f -> rests_on fs roots k'.

Definition unseen (fs : list (text * Fact)) (seen : list text) : nat :=
  sum_list (map (fun kf => if bool_decide (kf.1 ∈ seen) then 0 else length (basis kf.2)) fs)%nat.

Lemma unseen_step fs seen k f :
  k ∉ seen -> im_get k fs = Some f -> (unseen fs (k :: seen) + length (basis f) <= unseen fs seen)%nat.
Proof.
  intros Hk. unfold unseen.
  assert (Hle : forall fs, (sum_list (map (fun kf => if bool_decide (kf.1 ∈ k :: seen) then 0 else length (basis kf.2)) fs)
    <= sum_list (map (fun kf => if bool_decide (kf.1 ∈ seen) then 0 else length (basis kf.2)) fs))%nat).
  { induction fs0 as [|[x g] fs0 IH]; [done|]. simpl. repeat case_bool_decide; set_solver || lia. }
  induction fs as [|[x g] fs IH]; simpl; [done|]. destruct (decide (k = x)) as [<-|Hne].
  - intros [= ->]. rewrite bool_decide_eq_true_2 by set_solver. rewrite bool_decide_eq_false_2 by done.
    specialize (Hle fs). lia.
  - intros Hg. specialize (IH Hg). repeat case_bool_decide; set_solver || lia.
Qed.

Lemma unseen_known fs seen k :
  im_get k fs = None -> (unseen fs (k :: seen) <= unseen fs seen)%nat.
Proof.
  intros _. unfold unseen. induction fs as [|[x g] fs IH]; [done|]. simpl.
  repeat case_bool_decide; set_solver || lia.
Qed.

Definition closed_upto (fs : list (text * Fact)) (seen pending : list text) : Prop :=
  forall k f k', k ∈ seen -> im_get k fs = Some f -> k' ∈ basis f -> k' ∈ seen \/ k' ∈ pending.

Lemma last_pending (pending : list text) key rest :
  rev pending = key :: rest -> pending = take (length pending - 1) pending ++ [key].
Proof.
  intros E. apply (f_equal (@rev text)) in E. rewrite rev_involutive in E. simpl in E. rewrite E.
  rewrite length_app, length_rev. simpl. rewrite Nat.add_sub. rewrite take_app_length' by (by rewrite length_rev).
  done.
Qed.

Lemma expand_spec fs roots fuel : forall pending seen,
  (length pending + unseen fs seen < fuel)%nat ->
  closed_upto fs seen pending ->
  (forall k, k ∈ seen \/ k ∈ pending -> rests_on fs roots k) ->
  let r := expand fuel fs pending seen in
  (forall k, k ∈ seen \/ k ∈ pending -> k ∈ r) /\ closed_upto fs r [] /\
  (forall k, k ∈ r -> rests_on fs roots k).
Proof.
  induction fuel as [|fuel IH]; intros pending seen Hf Hc Hr; [lia|]. cbn [expand].
  destruct (rev pending) as [|key rest] eqn:E.
  - apply (f_equal (@rev text)) in E. rewrite rev_involutive in E. simpl in E. subst pending.
    split_and!; [|done|]; intros k; set_solver.
  - pose proof (last_pending _ _ _ E) as Hp. set (front := take (length pending - 1) pending) in *.
    assert (Hlen : length pending = S (length front)) by (rewrite Hp, length_app; simpl; lia).
    case_bool_decide as Hin.
    + destruct (IH front seen) as (H1' & H2' & H3').
      * lia.
      * intros k f k' Hk Hg Hb. specialize (Hc k f k' Hk Hg Hb). rewrite Hp in Hc. set_solver.
      * intros k Hk. apply Hr. rewrite Hp. set_solver.
      * split_and!; [|done|done]. intros k Hk. apply H1'. rewrite Hp in Hk. set_solver.
    + set (more := match im_get key fs with Some f => basis f | None => [] end).
      assert (Hu : (length more + unseen fs (key :: seen) <= unseen fs seen)%nat).
      { unfold more. destruct (im_get key fs) as [f|] eqn:Ek; simpl.
        - pose proof (unseen_step fs seen key f Hin Ek). lia.
        - by apply unseen_known. }
      assert (Hroot : rests_on fs roots key) by (apply Hr; right; rewrite Hp; set_solver).
      destruct (IH (front ++ more) (key :: seen)) as (H1' & H2' & H3').
      * rewrite length_app. lia.
      * intros k f k' Hk Hg Hb. apply elem_of_cons in Hk as [-> | Hk].
        -- right. unfold more. rewrite Hg. set_solver.
        -- specialize (Hc k f k' Hk Hg Hb). rewrite Hp in Hc. set_solver.
      * intros k [Hk|Hk].
        -- apply elem_of_cons in Hk as [-> | Hk]; [done|auto].
        -- apply elem_of_app in Hk as [Hk|Hk]; [apply Hr; right; rewrite Hp; set_solver|].
           unfold more in Hk. destruct (im_get key fs) as [f|] eqn:Ek; [|set_solver].
           by eapply rests_step.
      * split_and!; [|done|done]. intros k Hk. apply H1'. rewrite Hp in Hk. set_solver.
Qed.

Lemma unique_elem l x : x ∈ unique l <-> x ∈ l.
Proof.
  unfold unique. enough (G : forall l s, x ∈ fold_left (fun s x => is_insert x s) l s <-> x ∈ s \/ x ∈ l)
    by (rewrite G; set_solver).
  clear l. induction l as [|y l IH]; intros s; simpl; [set_solver|]. rewrite IH, is_insert_elem. set_solver.
Qed.

Lemma unique_nodup l : NoDup (unique l).
Proof.
  unfold unique. enough (G : forall l s, NoDup s -> NoDup (fold_left (fun s x => is_insert x s) l s))
    by (apply G; constructor).
  clear l. induction l as [|y l IH]; intros s Hs; simpl; [done|]. apply IH. auto with fb.
Qed.

Lemma expand_closure fs cited :
  (forall k, k ∈ expand (expand_fuel fs cited) fs cited [] <-> rests_on fs cited k).
Proof.
  destruct (expand_spec fs cited (expand_fuel fs cited) cited []) as (H1' & H2' & H3').
  - unfold expand_fuel, unseen. simpl. lia.
  - intros k f k' Hk. set_solver.
  - intros k [Hk|Hk]; [set_solver|by constructor].
  - intros k. split; [apply H3'|]. induction 1 as [k Hk|k f k' Hk IH Hg Hb]; [auto|].
    destruct (H2' k f k' IH Hg Hb); [done|set_solver].
Qed.

Lemma rests_on_unique fs keys k : rests_on fs (unique keys) k <-> rests_on fs keys k.
Proof.
  split; induction 1 as [k Hk|k f k' Hk IH Hg Hb];
    try (by eapply rests_step); apply rests_root; by apply unique_elem.
Qed.

Lemma expand_evidence_ids_elem n keys k :
  k ∈ expand_evidence_ids n keys <->
  (k ∈ im_keys (facts n) /\ rests_on (facts n) keys k) \/ (k ∉ im_keys (facts n) /\ k ∈ keys).
Proof.
  unfold expand_evidence_ids. rewrite elem_of_app, !list_elem_of_filter, expand_closure, unique_elem.
  rewrite rests_on_unique. tauto.
Qed.

(** A cited claim brings everything it rests on: expanding citations ends (the worklist's
    fuel always suffices) with exactly the facts the cited ids reach through bases, each once in
    read order, followed by the cited ids no fact has. *)
Theorem expand_evidence_ids_exact n keys :
  NoDup (im_keys (facts n)) ->
  exists unknown,
    expand_evidence_ids n keys
      = base.filter (fun k => k ∈ expand_evidence_ids n keys) (im_keys (facts n)) ++ unknown /\
    NoDup (expand_evidence_ids n keys) /\
    (forall k, k ∈ unknown <-> k ∈ keys /\ k ∉ im_keys (facts n)) /\
    (forall k, k ∈ im_keys (facts n) -> k ∈ expand_evidence_ids n keys <-> rests_on (facts n) keys k).
Proof.
  intros Hn. exists (base.filter (fun k => k ∉ im_keys (facts n)) (unique keys)).
  assert (Hmem := expand_evidence_ids_elem n keys). split_and!.
  - unfold expand_evidence_ids at 1. f_equal. apply list_filter_ext. intros k Hk. rewrite Hmem.
    rewrite expand_closure, rests_on_unique. tauto.
  - unfold expand_evidence_ids. apply NoDup_app. split_and!.
    + by apply NoDup_filter.
    + intros k Hk Hk'. apply list_elem_of_filter in Hk as [_ Hk]. by apply list_elem_of_filter in Hk' as [? _].
    + apply NoDup_filter, unique_nodup.
  - intros k. rewrite list_elem_of_filter, unique_elem. tauto.
  - intros k Hk. rewrite Hmem. tauto.
Qed.

(** ** The notes over any sequence of operations *)
Record well_formed (n : Notes) : Prop := {
  wf_keys : NoDup (im_keys (facts n));
  wf_answering : NoDup (answering n);
  wf_known k : k ∈ answering n \/ k ∈ retired n -> k ∈ im_keys (facts n);
  wf_disjoint k : k ∈ answering n -> k ∉ retired n;
  wf_grounded k f : im_get k (facts n) = Some f -> evidence f = None -> basis f <> [];
}.

Inductive op := Add (f : Fact) | Supersede (url sha shown : text) | Remember (c : Capture).
Definition run_op (n : Notes) (o : op) : Notes :=
  match o with
  | Add f => snd (add n f)
  | Supersede url sha shown => supersede n url sha shown
  | Remember c => remember_capture n c
  end.
Definition op_grounded (o : op) : Prop := match o with Add f => is_ok (grounded f) = true | _ => True end.

Lemma grounded_basis f : is_ok (grounded f) = true -> evidence f = None -> basis f <> [].
Proof. unfold grounded. intros Hg He. rewrite He in Hg. by destruct (basis f). Qed.

Lemma merged_grounded p f :
  (evidence p = None -> basis p <> []) -> (evidence f = None -> basis f <> []) ->
  evidence (merged p f) = None -> basis (merged p f) <> [].
Proof.
  unfold merged. cbn [evidence basis]. intros Hp Hf He Hu.
  assert (Hnone : forall x, x ∉ basis p ++ basis f).
  { intros x Hx. apply unique_elem in Hx. rewrite Hu in Hx. set_solver. }
  destruct (negb (answers p) && answers f); [apply (Hf He)|apply (Hp He)].
  - destruct (basis f) as [|x l]; [done|]. exfalso. apply (Hnone x). set_solver.
  - destruct (basis p) as [|x l]; [done|]. exfalso. apply (Hnone x). set_solver.
Qed.

Lemma add_well_formed n f : well_formed n -> is_ok (grounded f) = true -> well_formed (snd (add n f)).
Proof.
  intros [Hk Ha Hkn Hd Hg] Hf. unfold add. set (key := fact_id f).
  assert (Hkeys : forall g, key ∈ im_keys (im_insert key g (facts n)) /\
    forall x, x ∈ im_keys (facts n) -> x ∈ im_keys (im_insert key g (facts n)))
    by (intros g; split; [|intros x Hx]; rewrite im_keys_insert; auto).
  assert (Hget : forall g k h, im_get k (im_insert key g (facts n)) = Some h ->
    h = g \/ im_get k (facts n) = Some h).
  { intros g k h Hh. destruct (decide (k = key)) as [->|Hne].
    - rewrite im_get_insert_eq in Hh. left. congruence.
    - rewrite im_get_insert_ne in Hh by done. by right. }
  assert (Hall : forall g, (evidence g = None -> basis g <> []) ->
    well_formed (mkNotes _ (im_insert key g (facts n))
      (if answers f then is_insert key (answering n) else answering n)
      (base.filter (fun k => k <> key) (retired n)) (pages n) (tables n))).
  { intros g Hgg. destruct (Hkeys g) as (Hin & Hsub). split; cbn [facts answering retired].
    - auto with fb.
    - destruct (answers f); auto with fb.
    - intros k [Hx|Hx].
      + destruct (answers f); [apply is_insert_elem in Hx as [-> | Hx]|]; auto.
      + apply list_elem_of_filter in Hx as [_ Hx]. auto.
    - intros k Hx Hr. apply list_elem_of_filter in Hr as [Hne Hr]. apply (Hd k); [|done].
      destruct (answers f); [by apply is_insert_elem in Hx as [-> | Hx]|done].
    - intros k h Hh He. destruct (Hget g k h Hh) as [-> | Hh']; [by apply Hgg|by eapply Hg]. }
  pose proof (grounded_basis f Hf) as Hfb.
  destruct (im_get key (facts n)) as [p|] eqn:E; cbn [snd]; apply Hall; [|done].
  apply merged_grounded; [exact (Hg _ _ E)|done].
Qed.

Lemma fold_insert_elem (l s : list text) x : x ∈ fold_left (fun s k => is_insert k s) l s <-> x ∈ s \/ x ∈ l.
Proof. revert s. induction l as [|y l IH]; intros s; simpl; [set_solver|]. rewrite IH, is_insert_elem. set_solver. Qed.

Lemma drop_retired_keys gone sha fs : im_keys (map (drop_retired gone sha) fs) = im_keys fs.
Proof.
  unfold im_keys. rewrite map_map. apply map_ext. intros [k f]. unfold drop_retired. by case_match.
Qed.

Lemma drop_retired_get gone sha fs k :
  im_get k (map (drop_retired gone sha) fs) = (fun f => snd (drop_retired gone sha (k, f))) <$> im_get k fs.
Proof.
  induction fs as [|[k' f] fs IH]; [done|]. cbn [map].
  assert (E : drop_retired gone sha (k', f) = (k', snd (drop_retired gone sha (k', f))))
    by (unfold drop_retired; by case_match).
  rewrite E. cbn [im_get]. case_decide as D; [by subst|done].
Qed.

Lemma gone_keys n addresses sha shown k :
  k ∈ map fst (base.filter (fun kf => stale n addresses sha shown kf.1 kf.2 = true) (facts n)) <->
  exists f, (k, f) ∈ facts n /\ stale n addresses sha shown k f = true.
Proof.
  rewrite list_elem_of_fmap. split.
  - intros ([k' f] & -> & Hf). apply list_elem_of_filter in Hf as [Hs Hf]. by exists f.
  - intros (f & Hf & Hs). exists (k, f). split; [done|]. by apply list_elem_of_filter.
Qed.

Lemma supersede_well_formed n url sha shown : well_formed n -> well_formed (supersede n url sha shown).
Proof.
  intros [Hk Ha Hkn Hd Hg]. unfold supersede. destruct (is_empty (fresh n sha)); [by split|].
  set (addresses := address url :: _). set (gone := map fst _). split; cbn [facts answering retired].
  - by rewrite drop_retired_keys.
  - by apply NoDup_filter.
  - intros k. rewrite drop_retired_keys. intros [Hx|Hx].
    + apply list_elem_of_filter in Hx as [_ Hx]. auto.
    + apply fold_insert_elem in Hx as [Hx|Hx]; [auto|]. apply gone_keys in Hx as (f & Hf & _).
      apply list_elem_of_fmap. by exists (k, f).
  - intros k Hx Hr. apply list_elem_of_filter in Hx as [Hng Hx].
    apply fold_insert_elem in Hr as [Hr|Hr]; [by eapply Hd|done].
  - intros k f. rewrite drop_retired_get. destruct (im_get k (facts n)) as [g|] eqn:E; [|done].
    simpl. intros [= <-]. unfold drop_retired. cbn [fst snd].
    destruct (from_capture sha g) eqn:Ec; cbn [snd evidence basis].
    + intros He. unfold from_capture in Ec. by rewrite He in Ec.
    + by apply Hg with k.
Qed.

Lemma run_ops_well_formed os : forall n,
  well_formed n -> Forall op_grounded os -> well_formed (fold_left run_op os n).
Proof.
  induction os as [|o os IH]; intros n Hn Hos; [done|]. apply Forall_cons in Hos as [Ho Hos].
  cbn [fold_left]. apply IH; [|done]. destruct o; simpl in *.
  - by apply add_well_formed.
  - by apply supersede_well_formed.
  - destruct Hn. by split.
Qed.

Lemma empty_well_formed : well_formed empty_notes.
Proof. split; cbn; try constructor; try set_solver. Qed.

(** C17: the notes stay coherent over any sequence of reads, supersessions and captures: ids are
    unique, every fact standing as the answer is a known one that no later read retired (so it is
    current), and every fact is grounded in a quote or in other facts. *)
Theorem notes_coherent os :
  Forall op_grounded os ->
  let n := fold_left run_op os empty_notes in
  NoDup (im_keys (facts n)) /\ NoDup (answering n) /\
  (forall k, answers_key n k = true -> current n k = true /\ superseded n k = false) /\
  (forall k, superseded n k = true -> exists f, im_get k (facts n) = Some f) /\
  (forall k f, im_get k (facts n) = Some f -> evidence f = None -> basis f <> []).
Proof.
  intros Hos n. destruct (run_ops_well_formed os empty_notes empty_well_formed Hos) as [Hk Ha Hkn Hd Hg].
  fold n in Hk, Ha, Hkn, Hd, Hg. split_and!; try done.
  - intros k Hx. unfold answers_key in Hx. bool_hyps. unfold current, superseded.
    rewrite (bool_decide_eq_false_2 (k ∈ retired n)) by auto.
    destruct (proj2 (im_get_some_keys k (facts n)) (Hkn k (or_introl Hx))) as [f ->].
    rewrite bool_decide_eq_true_2 by done. by rewrite orb_true_r.
  - intros k Hx. unfold superseded in Hx. bool_hyps. by apply im_get_some_keys, Hkn; right.
Qed.

(** ** Reading a span again *)
Lemma sub_keeps (a b p : text) : contains_sub b p = true -> contains_sub (a ++ [10] ++ b) p = true.
Proof. intros Hb. rewrite <- (app_nil_r b), app_assoc. by apply (contains_sub_app (a ++ [10]) b []). Qed.

Lemma sub_first (a b p : text) : contains_sub a p = true -> contains_sub (a ++ [10] ++ b) p = true.
Proof. apply (contains_sub_app [] a ([10] ++ b) p). Qed.

(** Reading a span again loses no claim: the fact kept under that id states everything the
    new read states if it answers, and everything the earlier one stated unless that was context
    repeating its own quote; it answers if either did, it rests on what either rested on, and no
    other fact changes. *)
Theorem add_keeps_claims n f :
  let n' := snd (add n f) in
  exists g, im_get (fact_id f) (facts n') = Some g /\
    (answers f = true -> contains_sub (f_text g) (f_text f) = true /\ answers_key n' (fact_id f) = true) /\
    (im_get (fact_id f) (facts n) = None -> g = f) /\
    (forall p, im_get (fact_id f) (facts n) = Some p ->
       (answers p = true \/ answers f = false \/ Some (f_text p) <> quote <$> evidence p ->
        contains_sub (f_text g) (f_text p) = true) /\
       answers g = answers p || answers f /\
       (forall k, k ∈ basis g <-> k ∈ basis p \/ k ∈ basis f)) /\
    (forall k, k <> fact_id f -> im_get k (facts n') = im_get k (facts n)).
Proof.
  cbv zeta. unfold add. set (key := fact_id f).
  assert (Hans : answers f = true -> forall fs rs ps ts,
    answers_key (mkNotes _ fs (if answers f then is_insert key (answering n) else answering n) rs ps ts) key = true).
  { intros -> fs rs ps ts. unfold answers_key. cbn [answering]. apply bool_decide_eq_true.
    apply is_insert_elem. by left. }
  destruct (im_get key (facts n)) as [p|] eqn:E; cbn [snd facts].
  - exists (merged p f). split_and!.
    + apply im_get_insert_eq.
    + intros Hf. split; [|by apply Hans]. unfold merged. cbn [f_text]. rewrite Hf, andb_true_r.
      destruct (answers p); cbn [negb andb].
      * destruct (contains_sub (f_text p) (f_text f)) eqn:Ec; cbn [negb]; [done|].
        apply sub_keeps, contains_sub_refl.
      * destruct (_ && _); [apply sub_keeps|]; apply contains_sub_refl.
    + done.
    + intros p' [= <-]. split_and!.
      * intros Hor. unfold merged. cbn [f_text].
        destruct (answers p) eqn:Ep, (answers f) eqn:Ef; cbn [negb andb];
          try apply contains_sub_refl.
        -- destruct (contains_sub (f_text p) (f_text f)); cbn [negb]; [apply contains_sub_refl|].
           apply sub_first, contains_sub_refl.
        -- destruct Hor as [Hor|[Hor|Hor]]; [done|done|].
           rewrite (bool_decide_eq_false_2 _ Hor). cbn [negb andb].
           destruct (contains_sub (f_text f) (f_text p)) eqn:Ec; cbn [negb]; [done|].
           apply sub_first, contains_sub_refl.
      * unfold merged. cbn [answers]. by destruct (answers p) eqn:Ep, (answers f) eqn:Ef.
      * intros k. unfold merged. cbn [basis]. rewrite unique_elem, elem_of_app. done.
    + intros k Hk. by apply im_get_insert_ne.
  - exists f. split_and!; try done.
    + apply im_get_insert_eq.
    + intros Hf. split; [apply contains_sub_refl|by apply Hans].
    + intros k Hk. by apply im_get_insert_ne.
Qed.

(** ** A later read of the same address *)
Lemma evidence_by_id_get n k :
  NoDup (im_keys (facts n)) ->
  im_get k (evidence_by_id n) = match im_get k (facts n) with Some f => evidence f | None => None end.
Proof.
  unfold evidence_by_id. induction (facts n) as [|[k' f] fs IH]; [done|]. intros Hn.
  simpl in Hn. apply NoDup_cons in Hn as [Hk Hn]. specialize (IH Hn). cbn [omap list_omap fst snd].
  destruct (evidence f) as [e|] eqn:Ee; cbn.
  - case_decide; [by subst|done].
  - case_decide; [subst|done]. rewrite IH. rewrite (proj2 (im_get_none k' fs)); done.
Qed.

(** Once a later read of an address has added evidence, nothing the page no longer shows
    stands: any fact still current from an earlier capture either quotes text the page shows, or
    rests (through its bases) only on such quotes; every fact stays in the notes as history with
    its text and its quote. *)
Theorem supersede_retires_vanished n url sha shown :
  NoDup (im_keys (facts n)) -> fresh n sha <> [] ->
  let n' := supersede n url sha shown in
  im_keys (facts n') = im_keys (facts n) /\
  forall k f, im_get k (facts n) = Some f ->
    (exists f', im_get k (facts n') = Some f' /\ f_text f' = f_text f /\ evidence f' = evidence f) /\
    (from_capture sha f = false -> current n' k = true ->
     forall source e, rests_on (facts n) [k] source ->
       match im_get source (facts n) with Some g => evidence g | None => None end = Some e ->
       capture_sha256 e <> sha -> address (e_url e) = address url ->
       (basis f = [] -> source = k) -> shows shown (quote e) = true).
Proof.
  intros Hn Hfresh n'. unfold n', supersede.
  destruct (is_empty (fresh n sha)) eqn:Ee; [by destruct (fresh n sha)|]. clear Ee.
  set (addresses := address url :: _). set (gone := map fst _). cbn [facts].
  split; [apply drop_retired_keys|]. intros k f Hf. split.
  - eexists. rewrite drop_retired_get, Hf. split; [done|]. unfold drop_retired. by case_match.
  - intros Hown Hcur source e Hrest Hev Hsha Haddr Hself.
    assert (Hnot : stale n addresses sha shown k f = false).
    { apply not_true_iff_false. intros Hs. unfold current in Hcur. cbn [facts retired answering] in Hcur.
      destruct (im_get k (map (drop_retired gone sha) (facts n))); [|done]. bool_hyps.
      match goal with Hr : k ∉ _ |- _ => apply Hr end. apply fold_insert_elem. right.
      apply gone_keys. exists f. split; [by apply im_get_elem|done]. }
    assert (Hv : vanished addresses sha shown e = false).
    { unfold stale in Hnot. rewrite Hown in Hnot. destruct (basis f) as [|b bs] eqn:Eb; cbn [is_empty negb] in Hnot.
      - rewrite (Hself eq_refl), Hf in Hev. by rewrite Hev in Hnot.
      - apply not_true_iff_false. intros Hvan. apply not_true_iff_false in Hnot. apply Hnot.
        apply existsb_exists. exists e. split; [|done]. apply list_elem_of_In, list_elem_of_omap.
        exists source. split.
        + apply expand_evidence_ids_elem. left. split; [|done]. apply im_get_some_keys.
          destruct (im_get source (facts n)); [by eexists|done].
        + by rewrite evidence_by_id_get. }
    unfold vanished in Hv. unfold teqb in Hv. rewrite (bool_decide_eq_false_2 (capture_sha256 e = sha)) in Hv by done.
    rewrite bool_decide_eq_true_2 in Hv by (unfold addresses; rewrite Haddr; set_solver).
    by apply negb_false_iff in Hv.
Qed.
End NotesFacts.

(** ** Examples *)
(** A digest that is its own text, and captures with no tables. *)
Definition plain_digest : Sha256 := {| sha256_hex t := t; sha256_hex_bytes t := t |}.
Definition no_tables : TableReader := {| TableBlock := Empty_set; table_blocks_of _ := [] |}.
#[local] Existing Instances ascii_unicode ascii_unicode_str exact_format plain_digest no_tables.

Definition sample_span (sha : string) (start end_ : Z) (q : string) : Evidence :=
  mkEvidence (lit "s1") (lit "https://shop.test/cart") None (new_datetime 2026 9 27 0 0 0) (lit sha)
    start end_ (lit q) false None true [] None.

Definition sample_ops : list op :=
  [Add (fact_read (lit "The total is 12.29") (sample_span "a" 0 5 "12.29") JevChoice);
   Add (answering_fact (fact_read (lit "Total: 14.00") (sample_span "b" 0 5 "14.00") JevChoice));
   Supersede (lit "https://shop.test/cart#top") (lit "b") (lit "Basket total 14.00 today")].

Definition sample_notes : Notes := fold_left run_op sample_ops empty_notes.

Example the_old_total_is_retired :
  map (fun kf => (f_text kf.2, current sample_notes kf.1)) (facts sample_notes)
  = [(lit "The total is 12.29", false); (lit "Total: 14.00", true)].
Proof. vm_compute. reflexivity. Qed.

Theorem notes_coherent_witness :
  NoDup (answering sample_notes) /\ NoDup (im_keys (facts sample_notes)).
Proof.
  destruct (notes_coherent sample_ops) as (H1 & H2 & _).
  - repeat constructor.
  - exact (conj H2 H1).
Defined.

Definition derived_notes : Notes :=
  let n := new_notes [fact_read (lit "A costs 3") (sample_span "a" 0 1 "3") JevChoice;
                      fact_read (lit "B costs 2") (sample_span "a" 2 3 "2") JevChoice] in
  snd (add n (mkFact true (lit "B is cheaper") None (im_keys (facts n)) JevChoice)).

Lemma derived_notes_nodup : NoDup (im_keys (facts derived_notes)).
Proof. apply (bool_decide_unpack _). vm_compute. exact I. Qed.

Theorem expand_evidence_ids_exact_witness :
  exists unknown,
    expand_evidence_ids derived_notes (answering derived_notes)
      = base.filter (fun k => k ∈ expand_evidence_ids derived_notes (answering derived_notes))
          (im_keys (facts derived_notes)) ++ unknown /\
    length (expand_evidence_ids derived_notes (answering derived_notes)) = 3%nat.
Proof.
  destruct (expand_evidence_ids_exact derived_notes (answering derived_notes) derived_notes_nodup)
    as (unknown & H1 & _).
  exists unknown. split; [exact H1|vm_compute; reflexivity].
Defined.

Definition before_supersede : Notes := fold_left run_op (take 2 sample_ops) empty_notes.

Theorem supersede_retires_vanished_witness :
  im_keys (facts (supersede before_supersede (lit "https://shop.test/cart") (lit "b") (lit "total 14.00")))
  = im_keys (facts before_supersede).
Proof.
  apply (supersede_retires_vanished before_supersede (lit "https://shop.test/cart") (lit "b") (lit "total 14.00")).
  - apply (bool_decide_unpack _). vm_compute. exact I.
  - vm_compute. discriminate.
Defined.
