(* ===== verification/NotesText.v ===== *)
(** The notes as prompts show them: [Notes::render] and [render_for_navigation] of
    [crates/fastbrowse-agent/src/memory.rs]. *)

From S2P Require Import Prelude Float64 PyText Json DateTime Models Page Effects Notes.

Inductive AgentError := Invalid (m : text) | NotesTooLarge (m : text).

Section Render.
Context `{Unicode} `{UnicodeStr} `{FloatFormat} `{Sha256} `{TR : TableReader}.

Definition entry : Type := text * Fact.
Definition entry_url (e : entry) : option text := e_url <$> evidence e.2.

(** ** For picking the next action *)
(** Each fact's rank among those of its address, latest first. *)
Fixpoint rank_facts (ranks : list (option text * nat)) (es : list entry) : list (nat * entry) :=
  match es with
  | [] => []
  | e :: es =>
      let rank := default 0%nat (im_get (entry_url e) ranks) in
      (rank, e) :: rank_facts (im_insert (entry_url e) (S rank) ranks) es
  end.

Fixpoint insert_ranked {A} (x : nat * A) (l : list (nat * A)) : list (nat * A) :=
  match l with
  | [] => [x]
  | y :: l' => if (x.1 <=? y.1)%nat then x :: l else y :: insert_ranked x l'
  end.
(** [sort_by_key] of the rank, which is stable. *)
Definition sort_ranked {A} : list (nat * A) -> list (nat * A) := fold_right insert_ranked [].

Definition navigation_line (n : Notes) (sources : list (text * nat)) (e : entry) : text :=
  let '(key, fact) := e in
  let source :=
    match evidence fact with
    | Some ev =>
        let address := e_url ev in
        let number := default (length sources + 1)%nat (im_get address sources) in
        lit " source=" ++ show_Z (Z.of_nat number)
          ++ (if im_contains address sources then [] else lit " url=" ++ quoted address true)
    | None => []
    end in
  let line := quoted (f_text fact) false ++ (if answers_key n key then lit " answers=true" else []) ++ source in
  match evidence fact with
  | Some ev =>
      if negb (teqb (quote ev) (f_text fact)) then line ++ lit " quote=" ++ quoted (quote ev) false
      else line
  | None => line
  end.

Fixpoint navigation_lines (n : Notes) (sources : list (text * nat)) (es : list entry) : list text :=
  match es with
  | [] => []
  | e :: es =>
      let sources' :=
        match evidence e.2 with
        | Some ev => or_insert (e_url ev) (length sources + 1)%nat sources
        | None => sources
        end in
      navigation_line n sources e :: navigation_lines n sources' es
  end.

Definition render_for_navigation (n : Notes) : text :=
  join [10] (navigation_lines n [] (map snd (sort_ranked (rank_facts [] (rev (facts n)))))).

(** ** Within a budget *)
Definition size (json_encoded : bool) (t : text) : nat := if json_encoded then dumped_len t else length t.

Definition line (n : Notes) (e : entry) (shared_url : bool) : text :=
  let '(key, fact) := e in
  let basis_text :=
    if is_empty (basis fact) then [] else lit " basis=" ++ dumps (Array (map Str (basis fact))) in
  let source :=
    match evidence fact with
    | None => lit "derived"
    | Some ev =>
        (if shared_url then [] else lit "url=" ++ quoted (e_url ev) true ++ lit " ")
          ++ lit "quote=" ++ quoted (quote ev) false
    end in
  let source :=
    match (match evidence fact with Some ev => e_control_context ev | None => None end) with
    | Some control => source ++ lit " control_context=" ++ dump_json (dump_control control)
    | None => source
    end in
  let plain := match evidence fact with Some ev => teqb (f_text fact) (quote ev) | None => false end in
  let claim := if plain then [] else quoted (f_text fact) false ++ lit " " in
  let answers := if answers_key n key then lit "answers=true " else [] in
  lit "[" ++ key ++ lit "] " ++ claim ++ answers ++ source ++ basis_text.

Definition shared_group (n : Notes) (url : text) (group : list entry) : text :=
  join [10] ((lit "# Source URL: " ++ quoted url true)
             :: map (fun e => lit "- " ++ line n e true) group).

(** Consecutive entries of one address. *)
Fixpoint groups (es : list entry) : list (option text * list entry) :=
  match es with
  | [] => []
  | e :: es =>
      match groups es with
      | (url, group) :: rest =>
          if decide (url = entry_url e) then (url, e :: group) :: rest
          else (entry_url e, [e]) :: (url, group) :: rest
      | [] => [(entry_url e, [e])]
      end
  end.

Fixpoint render_groups (n : Notes) (json_encoded previous_shared : bool)
    (gs : list (option text * list entry)) : list text :=
  match gs with
  | [] => []
  | (url, group) :: gs =>
      let inline := join [10] (map (fun e => line n e false) group) in
      let use_shared :=
        match url with
        | Some url => (size json_encoded (shared_group n url group) <? size json_encoded inline)%nat
        | None => false
        end in
      let inline :=
        if previous_shared && negb use_shared then lit "# Other evidence" ++ [10] ++ inline else inline in
      (if use_shared then shared_group n (default [] url) group else inline)
        :: render_groups n json_encoded use_shared gs
  end.

Definition render_entries (n : Notes) (json_encoded : bool) (es : list entry) : text :=
  join [10] (render_groups n json_encoded false (groups es)).

Section Budget.
Context (n : Notes) (max_chars : Z) (preserve_answer json_encoded : bool).

Definition required : list text := expand_evidence_ids n (answering n).

(** The answer's facts first, each group in read order. *)
Definition ordered : list entry :=
  base.filter (fun e => e.1 ∈ required) (facts n) ++ base.filter (fun e => e.1 ∉ required) (facts n).

Definition cut (count : nat) : text :=
  let body := render_entries n json_encoded (take count ordered) in
  let marker := lit "[" ++ show_Z (Z.of_nat (length ordered - count)) ++ lit " facts omitted]" in
  if is_empty body then marker else body ++ [10] ++ marker.

Definition fits (t : text) : bool := (size json_encoded t <=? Z.to_nat max_chars)%nat.

(** Where the scan starts: the [while over - fits > 1] search. *)
Fixpoint search_fits (fuel low over : nat) : nat :=
  match fuel with
  | O => low
  | S fuel =>
      if (1 <? over - low)%nat then
        let middle := ((low + over) / 2)%nat in
        if fits (cut middle) then search_fits fuel middle over else search_fits fuel low middle
      else low
  end.

Definition kept_keys (count : nat) : list text := map fst (take count ordered).
Definition loses_answer (count : nat) : bool :=
  existsb (fun k => negb (bool_decide (k ∈ kept_keys count))) required.
Definition loses_basis (count : nat) : bool :=
  existsb (fun e => existsb (fun k => negb (bool_decide (k ∈ kept_keys count))) (basis e.2))
    (take count ordered).

(** [for count in (0..=fits).rev()]. *)
Fixpoint scan (count : nat) : option (result text AgentError) :=
  if preserve_answer && loses_answer count then
    Some (Err (NotesTooLarge (lit "The answer's evidence exceeds the " ++ show_Z max_chars
                                ++ lit " character notes budget")))
  else if negb (loses_basis count) && fits (cut count) then Some (Ok (cut count))
  else match count with O => None | S count => scan count end.

Definition render : result text AgentError :=
  if max_chars <? 0 then Err (Invalid (lit "max_chars must be nonnegative"))
  else
    let complete := render_entries n json_encoded (facts n) in
    if fits complete then Ok complete
    else
      match scan (search_fits (S (length ordered)) 0 (length ordered)) with
      | Some r => r
      | None =>
          if preserve_answer
          then Err (NotesTooLarge (lit "The " ++ show_Z max_chars
                                     ++ lit " character notes budget cannot report omitted facts"))
          else Err (Invalid (lit "max_chars is too small to report omitted citations"))
      end.
End Budget.

(** * Properties *)
Lemma scan_spec n max preserve json count :
  match scan n max preserve json count with
  | Some (Ok t) => exists k, (k <= count)%nat /\ t = cut n json k /\ fits max json t = true /\
      loses_basis n k = false /\ (preserve = true -> loses_answer n k = false)
  | Some (Err _) => preserve = true /\ exists k, (k <= count)%nat /\ loses_answer n k = true
  | None => forall k, (k <= count)%nat -> loses_basis n k = true \/ fits max json (cut n json k) = false
  end.
Proof.
  induction count as [|count IH]; cbn [scan].
  - destruct (preserve && loses_answer n 0) eqn:E1; [bool_hyps; eauto|].
    destruct (negb (loses_basis n 0) && fits max json (cut n json 0)) eqn:E2; bool_hyps.
    + exists 0%nat. split_and!; try done. intros ->. done.
    + intros k Hk. assert (k = 0%nat) as -> by lia. apply andb_false_iff in E2 as [E2|E2]; bool_hyps; auto.
  - destruct (preserve && loses_answer n (S count)) eqn:E1; [bool_hyps; eauto|].
    destruct (negb (loses_basis n (S count)) && fits max json (cut n json (S count))) eqn:E2; bool_hyps.
    + exists (S count). split_and!; try done. intros ->. done.
    + destruct (scan n max preserve json count) as [[t|e]|].
      * destruct IH as (k & Hk & H'). exists k. split; [lia|done].
      * destruct IH as (Hp & k & Hk & H'). split; [done|]. exists k. split; [lia|done].
      * intros k Hk. destruct (decide (k = S count)) as [->|Hne]; [|apply IH; lia].
        apply andb_false_iff in E2 as [E2|E2]; bool_hyps; auto.
Qed.

Lemma existsb_false {A} (f : A -> bool) l : existsb f l = false -> Forall (fun x => f x = false) l.
Proof. induction l as [|x l IH]; simpl; intros E; [constructor|]. bool_hyps. constructor; auto. Qed.

Lemma fits_size max json s : fits max json s = true -> max <? 0 = false -> Z.of_nat (size json s) <= max.
Proof. unfold fits. intros Hs%Nat.leb_le Hm. bool_hyps. lia. Qed.

Lemma loses_none (n : Notes) : loses_basis n 0 = false.
Proof. reflexivity. Qed.

(** What a cut that passed the scan's two checks holds. *)
Lemma kept_whole (n : Notes) k (preserve : bool) :
  loses_basis n k = false -> (preserve = true -> loses_answer n k = false) ->
  (forall e key, e ∈ take k (ordered n) -> key ∈ basis e.2 -> key ∈ kept_keys n k) /\
  (preserve = true -> forall key, key ∈ required n -> key ∈ kept_keys n k).
Proof.
  intros Hb Ha. split.
  - intros e key He Hkey. apply existsb_false in Hb. rewrite Forall_forall in Hb.
    specialize (Hb _ He). apply existsb_false in Hb. rewrite Forall_forall in Hb.
    specialize (Hb _ Hkey). by bool_hyps.
  - intros Hp key Hkey. specialize (Ha Hp). apply existsb_false in Ha. rewrite Forall_forall in Ha.
    specialize (Ha _ Hkey). by bool_hyps.
Qed.

(** What is rendered fits, and preserving the answer fails as a budget too small, never as a bad one. *)
Lemma render_within n max preserve json t : render n max preserve json = Ok t -> Z.of_nat (size json t) <= max.
Proof.
  unfold render. destruct (max <? 0) eqn:Em; [done|].
  destruct (fits max json _) eqn:Ef; [intros [= <-]; eauto using fits_size|].
  pose proof (scan_spec n max preserve json (search_fits n max json (S (length (ordered n))) 0 (length (ordered n)))) as Hscan.
  destruct (scan n max preserve json _) as [[s|e]|]; [|done|by destruct preserve].
  destruct Hscan as (k & _ & -> & Hs & _). intros [= <-]. eauto using fits_size.
Qed.

Lemma scan_error n max json count e : scan n max true json count = Some (Err e) -> exists m, e = NotesTooLarge m.
Proof.
  induction count as [|count IH]; cbn [scan]; destruct (true && loses_answer n _); try (intros [= <-]; by eexists);
    destruct (negb _ && _); done || auto.
Qed.

Lemma render_too_large n max json e : 0 <= max -> render n max true json = Err e -> exists m, e = NotesTooLarge m.
Proof.
  intros Hm. unfold render. rewrite (proj2 (Z.ltb_ge max 0)) by done. destruct (fits max json _); [done|].
  destruct (scan _ _ _ _ _) as [r|] eqn:Es; [intros ->; by eapply scan_error|intros [= <-]; by eexists].
Qed.

(** Notes cut to a prompt's budget stay sound: what [render] writes fits the budget; it is
    every fact, or the first [k] of the facts with the answer's ordered first and a notice of how
    many were left out, where each fact shown has every fact it rests on shown too, and, when the
    answer must be preserved, so has every fact the answer rests on.  It writes every fact when
    they all fit, and when the answer need not be preserved it fails only on a budget that cannot
    even say how many facts it left out. *)
Theorem render_sound n max preserve json :
  let complete := render_entries n json (facts n) in
  (forall t, render n max preserve json = Ok t ->
     Z.of_nat (size json t) <= max /\
     (t = complete \/
      exists k, t = cut n json k /\
        (forall e key, e ∈ take k (ordered n) -> key ∈ basis e.2 -> key ∈ kept_keys n k) /\
        (preserve = true -> forall key, key ∈ required n -> key ∈ kept_keys n k))) /\
  (Z.of_nat (size json complete) <= max -> render n max preserve json = Ok complete) /\
  (preserve = false -> Z.of_nat (size json (cut n json 0)) <= max ->
     exists t, render n max preserve json = Ok t).
Proof.
  cbv zeta. unfold render.
  pose proof (scan_spec n max preserve json (search_fits n max json (S (length (ordered n))) 0 (length (ordered n)))) as Hscan.
  destruct (max <? 0) eqn:Em.
  { bool_hyps. split_and!; [done| |]; intros; lia. }
  destruct (fits max json (render_entries n json (facts n))) eqn:Ef.
  { split_and!; [|done|by eauto]. intros t [= <-]. eauto using fits_size. }
  assert (Hbig : ~ Z.of_nat (size json (render_entries n json (facts n))) <= max).
  { unfold fits in Ef. apply Nat.leb_gt in Ef. bool_hyps. lia. }
  destruct (scan n max preserve json _) as [[s|e]|].
  - destruct Hscan as (k & _ & -> & Hs & Hb & Ha). split_and!; [|done|by eauto].
    intros t [= <-]. split; [eauto using fits_size|]. right. exists k. split; [done|]. by apply kept_whole.
  - destruct Hscan as (-> & _). by split_and!.
  - split_and!; [by destruct preserve|done|]. intros -> Hnone.
    destruct (Hscan 0%nat) as [Hb|Hb]; [lia|by rewrite loses_none in Hb|].
    unfold fits in Hb. apply Nat.leb_gt in Hb. bool_hyps. lia.
Qed.
End Render.

(** ** Examples *)
#[local] Existing Instances ascii_unicode ascii_unicode_str exact_format plain_digest no_tables.

Theorem render_sound_witness :
  exists t, render derived_notes 160 false false = Ok t /\ Z.of_nat (size false t) <= 160.
Proof.
  destruct (render_sound derived_notes 160 false false) as (Hok & _ & Hsome).
  destruct Hsome as [t Ht]; [done|vm_compute; discriminate|].
  exists t. split; [done|]. apply (Hok t Ht).
Defined.
