(* ===== verification/Citations.v ===== *)
(** Citation text as the page shows it, and links that highlight it: [crates/fastbrowse-core/src/citations.rs].

    Offsets are code points, as in the source; an index outside the text reads nothing.  [capture_tables] is what
    Notes.v asks of a [TableReader].  Percent-encoding is the interface of PyText.v. *)

From stdpp Require Import list.
From S2P Require Import Prelude PyText Page Notes.

(** ** Text fragments *)
(** [TERM]: what is percent-encoded in a text directive. *)
Definition TERM (c : Z) : bool := negb (is_ascii_alphanumeric c) && negb (one_of (lit "_.~") c).

Definition EmptyQuote : text := lit "A text fragment needs a nonempty quote".

(** [str::split_whitespace]. *)
Definition split_whitespace (t : text) : list text := base.filter (fun w => w <> []) (split_parts is_whitespace t).

(** [str::split_once] at a string. *)
Definition split_once_sub (p t : text) : option (text * text) :=
  match find_sub p t with Some i => Some (take i t, drop (i + length p) t) | None => None end.

(** [str::split] at a string. *)
Fixpoint split_sub_from (fuel : nat) (p t : text) : list text :=
  match fuel with
  | O => [t]
  | S fuel =>
      match find_sub p t with
      | None => [t]
      | Some i => take i t :: split_sub_from fuel p (drop (i + length p) t)
      end
  end.
Definition split_sub (p t : text) : list text := split_sub_from (S (length t)) p t.

Definition terms (words : list text) : list text :=
  let long := (sum_list (map length words) + length words - 1)%nat in
  if (120 <? Z.of_nat long) && (10 <? Z.of_nat (length words))
  then [join (lit " ") (take 5 words); join (lit " ") (drop (length words - 5) words)]
  else [join (lit " ") words].

Definition text_fragment `{PercentEncoding} (url t : text) : result text text :=
  match split_whitespace t with
  | [] => Err EmptyQuote
  | words =>
      let directive := map (utf8_percent_encode TERM) (terms words) in
      let '(base, fragment) := default (url, []) (split_once (chr "#") url) in
      let anchor := match split_once_sub (lit ":~:") fragment with Some (a, _) => a | None => fragment end in
      Ok (base ++ lit "#" ++ anchor ++ lit ":~:text=" ++ join (lit ",") directive)
  end.

(** ** Table blocks *)
Record TableSpan := mkTableSpan {
  t_start : Z; t_end : Z; t_row : Z; t_divider : option (Z * Z); t_repeats : bool;
}.

(** [chars.get]. *)
Definition char_at (t : text) (at_ : Z) : option Z := if at_ <? 0 then None else t !! Z.to_nat at_.
Definition clamp_to (n : nat) (at_ : Z) : nat := Nat.min (Z.to_nat (Z.max at_ 0)) n.
(** [chars[from..to]], both held within the text. *)
Definition chars_between (t : text) (from to : Z) : text :=
  let from := clamp_to (length t) from in
  let to := Nat.max (clamp_to (length t) to) from in
  take (to - from) (drop from t).
Definition trimmed_between (t : text) (from to : Z) : text := trim_end is_whitespace (chars_between t from to).

Definition divider_line (line : text) : bool :=
  match strip_prefix (trim_end (one_of [10; 13]) line) (lit "| ") with
  | Some inner =>
      ends_with inner (lit " |")
      && forallb (teqb (lit "---")) (split_sub (lit " | ") (take (length inner - 2) inner))
  | None => false
  end.

(** Where the rows of a block start. *)
Definition row_starts (t : text) (start end_ : Z) : list Z :=
  base.filter (fun at_ =>
    bool_decide (char_at t at_ = Some (chr "|")) && ((at_ =? start) || bool_decide (char_at t (at_ - 1) = Some 10)) = true)
    (seqZ start (end_ - start)).

(** Whether [prefix] repeats the block before. *)
Definition repeats_before (t : text) (before : option TableSpan) (prefix : text) : bool :=
  negb (is_empty prefix)
  && match before with
     | Some table =>
         teqb (trimmed_between t (t_start table) (t_row table)) prefix
         || ((t_row table =? t_start table) && teqb (trimmed_between t (t_start table) (t_end table)) prefix)
     | None => false
     end.

Definition table_span (t : text) (before : option TableSpan) (start end_ : Z) : TableSpan :=
  let rows := row_starts t start end_ in
  let last := default start (last rows) in
  let above := default start (rows !! (length rows - 2)%nat) in
  let '(row, divider) :=
    if (2 <? Z.of_nat (length rows)) && divider_line (trimmed_between t above last) then (last, Some (above, last))
    else if (1 <? Z.of_nat (length rows)) && divider_line (trimmed_between t last end_)
            && negb (repeats_before t before (trimmed_between t start last))
         then (end_, Some (last, end_))
    else (last, None) in
  mkTableSpan start end_ row divider (repeats_before t before (trimmed_between t start row)).

(** A downloaded file's table is the file's own text. *)
Definition tabular (b : Block) : bool := bool_decide (kind b = Table) && negb (starts_with (b_source_id b) (lit "download/")).

(** The tables of the blocks from [index] on, after [before] at [previous]. *)
Fixpoint table_spans (t : text) (index : nat) (before : option (nat * TableSpan)) (bs : list Block) : list TableSpan :=
  match bs with
  | [] => []
  | b :: bs =>
      if tabular b then
        let adjacent := match before with Some (i, table) => if Nat.eqb (S i) index then Some table else None | None => None end in
        let table := table_span t adjacent (b_start b) (b_end b) in
        table :: table_spans t (S index) (Some (index, table)) bs
      else table_spans t (S index) before bs
  end.
Definition capture_tables (c : Capture) : list TableSpan := table_spans (cap_text c) 0 None (blocks c).

Definition table_reader : TableReader := {| TableBlock := TableSpan; table_blocks_of := capture_tables |}.

(** ** Cells *)
Record Cells := mkCells { shown_cells : text; open_cell : text; new_row : bool }.

Definition close_cell (c : Cells) : Cells :=
  let shown := trim_matches is_whitespace (open_cell c) in
  if is_empty shown then mkCells (shown_cells c) [] (new_row c || one_of (open_cell c) 10)
  else
    let sep := if is_empty (shown_cells c) then [] else if new_row c then [10] else lit " " in
    mkCells (shown_cells c ++ sep ++ shown) [] false.

Definition push_char (c : Cells) (x : Z) : Cells := mkCells (shown_cells c) (open_cell c ++ [x]) (new_row c).

Fixpoint read_cells (c : Cells) (t : text) : Cells :=
  match t with
  | [] => c
  | x :: t' =>
      if x =? backslash then
        match t' with
        | y :: t'' => if y =? chr "|" then read_cells (push_char c y) t'' else read_cells (push_char c x) t'
        | [] => read_cells (push_char c x) t'
        end
      else if x =? chr "|" then read_cells (close_cell c) t'
      else read_cells (push_char c x) t'
  end.
Definition cells (markdown : text) : text := shown_cells (close_cell (read_cells (mkCells [] [] false) markdown)).

(** ** The page's own text *)
Definition table_text (q : text) (start : Z) (table : TableSpan) : text :=
  let end_ := start + len q in
  let span from to := chars_between q (from - start) (to - start) in
  let head :=
    if negb (t_repeats table) || ((t_start table <=? start) && (end_ <=? t_row table)) then
      let '(cut, resume) := default (t_row table, t_row table) (t_divider table) in
      [cells (span (t_start table) cut ++ span resume (t_row table))]
    else [] in
  join [10] (base.filter (fun part => part <> []) (head ++ [cells (span (t_row table) (t_end table))])).

Definition page_text (q : text) (start : Z) (tables : list TableSpan) : text :=
  let end_ := start + len q in
  let span from to := chars_between q (from - start) (to - start) in
  let '(shown, at_) :=
    fold_left (fun acc table => (acc.1 ++ span acc.2 (t_start table) ++ table_text q start table, Z.max (t_end table) acc.2))
      (base.filter (fun table => (t_start table <? end_) && (start <? t_end table) = true) tables) ([], start) in
  if at_ =? start then q else shown ++ span at_ end_.

(** * Properties *)
(** ** A table's markdown and its cells *)
(** How a capture writes a table: a pipe of a cell's own is escaped. *)
Definition escape_pipe (cell : text) : text := replace_char (chr "|") (lit "\|") cell.
Definition row_markdown (row : list text) : text := lit "| " ++ join (lit " | ") (map escape_pipe row) ++ lit " |".
Definition table_markdown (rows : list (list text)) : text := join [10] (map row_markdown rows).

(** A cell as it is shown: some text, with no whitespace around it. *)
Definition plain_cell (cell : text) : Prop :=
  exists a b, head cell = Some a /\ last cell = Some b /\ is_whitespace a = false /\ is_whitespace b = false.

Lemma plain_cell_nonempty cell : plain_cell cell -> cell <> [].
Proof. by intros (a & b & Ha & _) ->. Qed.

Lemma read_escaped cell : forall s o n rest, head rest <> Some (chr "|") ->
  read_cells (mkCells s o n) (escape_pipe cell ++ rest) = read_cells (mkCells s (o ++ cell) n) rest.
Proof.
  induction cell as [|x cell IH]; intros s o n rest Hr; [by rewrite app_nil_r|].
  unfold escape_pipe, replace_char in *. cbn [map concat]. rewrite <- app_assoc. destruct (x =? chr "|") eqn:Ex.
  - apply Z.eqb_eq in Ex as ->. change (read_cells (mkCells s (o ++ [124]) n) (concat (map (fun d => if d =? chr "|" then lit "\|" else [d]) cell) ++ rest)
      = read_cells (mkCells s (o ++ 124 :: cell) n) rest).
    rewrite IH by done. by rewrite <- app_assoc.
  - cbn [app read_cells]. rewrite Ex.
    assert (Hstep : read_cells (push_char (mkCells s o n) x) (concat (map (fun d => if d =? chr "|" then lit "\|" else [d]) cell) ++ rest)
                    = read_cells (mkCells s (o ++ x :: cell) n) rest).
    { change (push_char (mkCells s o n) x) with (mkCells s (o ++ [x]) n). rewrite IH by done. by rewrite <- app_assoc. }
    destruct (x =? backslash); [|done].
    assert (Hh : head (concat (map (fun d => if d =? chr "|" then lit "\|" else [d]) cell) ++ rest) <> Some (chr "|")).
    { destruct cell as [|y cell]; [done|]. cbn [map concat]. destruct (y =? chr "|") eqn:Ey; [done|]. cbn. intros [= ->].
      by rewrite Z.eqb_refl in Ey. }
    destruct (concat _ ++ rest) as [|y t]; [done|]. destruct (y =? chr "|") eqn:Ey; [|done].
    apply Z.eqb_eq in Ey as ->. by destruct Hh.
Qed.

(** The text after [s] once another row, or another cell of the row, is read. *)
Definition joined_cells (s : text) (n : bool) (t : text) : text := s ++ (if is_empty s then [] else if n then [10] else lit " ") ++ t.

Lemma read_cell s n cell rest : plain_cell cell ->
  read_cells (mkCells s [] n) (lit " " ++ escape_pipe cell ++ lit " |" ++ rest) = read_cells (mkCells (joined_cells s n cell) [] false) rest.
Proof.
  intros Hc. change (lit " " ++ escape_pipe cell ++ lit " |" ++ rest) with (32 :: escape_pipe cell ++ 32 :: 124 :: rest).
  change (read_cells (mkCells s [32] n) (escape_pipe cell ++ 32 :: 124 :: rest) = read_cells (mkCells (joined_cells s n cell) [] false) rest).
  rewrite read_escaped by done.
  change (read_cells (close_cell (mkCells s (([32] ++ cell) ++ [32]) n)) rest = read_cells (mkCells (joined_cells s n cell) [] false) rest).
  unfold close_cell. cbn [open_cell shown_cells]. rewrite <- app_assoc.
  destruct Hc as (a & b & Ha & Hb & Wa & Wb). rewrite (trim_matches_around is_whitespace [32] cell [32] a b) by (done || by repeat constructor).
  assert (is_empty cell = false) as -> by (by destruct cell). done.
Qed.

Lemma read_row row : forall s n rest, row <> [] -> Forall plain_cell row ->
  read_cells (mkCells s [] n) (lit " " ++ join (lit " | ") (map escape_pipe row) ++ lit " |" ++ rest)
  = read_cells (mkCells (joined_cells s n (join (lit " ") row)) [] false) rest.
Proof.
  induction row as [|c row IH]; intros s n rest Hne Hall; [done|]. apply Forall_cons in Hall as [Hc Hall].
  destruct row as [|d row].
  { cbn [map join concat]. rewrite !app_nil_r. by apply read_cell. }
  change (join (lit " | ") (map escape_pipe (c :: d :: row))) with (escape_pipe c ++ lit " | " ++ join (lit " | ") (map escape_pipe (d :: row))).
  change (lit " | ") with (lit " |" ++ lit " ") at 1. rewrite <- !app_assoc, read_cell by done. rewrite IH by done. f_equal. f_equal.
  unfold joined_cells. assert (is_empty (s ++ (if is_empty s then [] else if n then [10] else lit " ") ++ c) = false) as ->.
  { apply plain_cell_nonempty in Hc. destruct s; [|done]. cbn. by destruct c. }
  change (join (lit " ") (c :: d :: row)) with (c ++ lit " " ++ join (lit " ") (d :: row)). by rewrite <- !app_assoc.
Qed.

Lemma read_rows rows : forall s, rows <> [] -> Forall (fun row => row <> [] /\ Forall plain_cell row) rows -> s <> [] ->
  shown_cells (close_cell (read_cells (mkCells s [] false) ([10] ++ table_markdown rows)))
  = s ++ [10] ++ join [10] (map (join (lit " ")) rows).
Proof.
  unfold table_markdown. induction rows as [|row rows IH]; intros s Hne Hall Hs; [done|]. apply Forall_cons in Hall as [[Hr Hc] Hall].
  assert (Hstep : forall rest, read_cells (mkCells s [] false) ([10] ++ row_markdown row ++ rest)
                    = read_cells (mkCells (s ++ [10] ++ join (lit " ") row) [] false) rest).
  { intros rest. unfold row_markdown. rewrite <- !app_assoc.
    change (read_cells (mkCells s [] true) (lit " " ++ join (lit " | ") (map escape_pipe row) ++ lit " |" ++ rest)
            = read_cells (mkCells (s ++ [10] ++ join (lit " ") row) [] false) rest).
    rewrite read_row by done. unfold joined_cells. by destruct s. }
  destruct rows as [|row' rows].
  - cbn [map join concat]. rewrite app_nil_r, <- (app_nil_r ([10] ++ row_markdown row)), <- app_assoc, Hstep. cbn. by rewrite app_nil_r.
  - change (join [10] (map row_markdown (row :: row' :: rows))) with (row_markdown row ++ [10] ++ join [10] (map row_markdown (row' :: rows))).
    rewrite Hstep, IH by (done || by destruct s).
    change (join [10] (map (join (lit " ")) (row :: row' :: rows))) with (join (lit " ") row ++ [10] ++ join [10] (map (join (lit " ")) (row' :: rows))).
    by rewrite <- !app_assoc.
Qed.

(** A table written as a capture writes it reads back as its cells: a space between the cells of a row, a line break between
    rows, and the pipes of the cells' own as they are. *)
Theorem cells_read_back rows :
  rows <> [] -> Forall (fun row => row <> [] /\ Forall plain_cell row) rows ->
  cells (table_markdown rows) = join [10] (map (join (lit " ")) rows).
Proof.
  intros Hne Hall. destruct rows as [|row rows]; [done|]. apply Forall_cons in Hall as [[Hr Hc] Hall]. unfold cells.
  assert (Hstep : forall rest, read_cells (mkCells [] [] false) (row_markdown row ++ rest) = read_cells (mkCells (join (lit " ") row) [] false) rest).
  { intros rest. unfold row_markdown. rewrite <- !app_assoc.
    change (read_cells (mkCells [] [] false) (lit " " ++ join (lit " | ") (map escape_pipe row) ++ lit " |" ++ rest)
            = read_cells (mkCells (join (lit " ") row) [] false) rest).
    by rewrite read_row. }
  assert (join (lit " ") row <> []) as Hj.
  { destruct row as [|c row]; [done|]. apply Forall_cons in Hc as [Hc%plain_cell_nonempty _]. by destruct c. }
  destruct rows as [|row' rows].
  - unfold table_markdown. cbn [map join concat]. rewrite <- (app_nil_r (row_markdown row ++ [])), <- app_assoc, Hstep. cbn. by rewrite app_nil_r.
  - change (table_markdown (row :: row' :: rows)) with (row_markdown row ++ [10] ++ table_markdown (row' :: rows)).
    rewrite Hstep, read_rows by done. done.
Qed.

Theorem cells_read_back_witness :
  cells (lit "| Hacker Newsnew \| past | login |" ++ [10] ++ lit "| Ada | 10 |")
  = lit "Hacker Newsnew | past login" ++ [10] ++ lit "Ada 10".
Proof.
  apply (cells_read_back [[lit "Hacker Newsnew | past"; lit "login"]; [lit "Ada"; lit "10"]]); [discriminate|].
  repeat constructor; try discriminate; (eexists _, _; split_and!; [reflexivity..]).
Defined.

(** ** Blocks of a capture, as its tests write them *)
Definition table_block (id : string) (start end_ : Z) : Block :=
  mkBlock (lit id) None false Table None start end_ [] None None None None false.
Definition scores : text :=
  lit "| Name | Score |" ++ [10] ++ lit "| --- | --- |" ++ [10] ++ lit "| Ada | 10 |" ++ [10] ++
  lit "| Name | Score |" ++ [10] ++ lit "| --- | --- |" ++ [10] ++ lit "| Grace | 9 |".
Definition scored_tables : list TableSpan := table_spans scores 0 None [table_block "s0" 0 43; table_block "s1" 44 88].

Example header_shown_once : page_text scores 0 scored_tables = lit "Name Score" ++ [10] ++ lit "Ada 10" ++ [10] ++ lit "Grace 9".
Proof. vm_compute. reflexivity. Qed.
Example later_row_alone : page_text (drop 44 scores) 44 scored_tables = lit "Grace 9".
Proof. vm_compute. reflexivity. Qed.
Example repeated_header_alone : page_text (lit "| Name | Score |") 44 scored_tables = lit "Name Score".
Proof. vm_compute. reflexivity. Qed.
Example prose_keeps_its_pipes : page_text (lit "a | b") 0 [] = lit "a | b".
Proof. vm_compute. reflexivity. Qed.
