(* ===== verification/Answers.v ===== *)
(** Answers written from the notes: [crates/fastbrowse-agent/src/retrieval/answers.rs].

    A claim rests on facts of Notes.v and is shown with the quotes they cite (Citations.v).  [review_claims] is the check every
    composed claim passes: Jev judges each against its quotes, code adds and counts, and a claim that does not hold is left
    out.  What is asked of Jev, of the LLM and of the ledger is the record [Models]; [W] is whatever those calls leave changed.
    The bytes of a compose request around its messages ([m_envelope]) stand for the JSON Schema it carries. *)

From stdpp Require Import list.
From S2P Require Import Prelude Float64 PyText Json DateTime Models Config Page Secrets Effects Notes Decision Citations.

#[local] Existing Instance table_reader.

(** ** Answers *)
Record Claim := mkClaim { cl_text : text; evidence_ids : list text }.
Record Citation := mkCitation { ci_id : Z; ci_text : text; ci_url : text; ci_quote : text; deep_link : text }.
Record ComposedAnswer := mkComposed {
  ca_answer : text; linked_answer : text; ca_claims : list Claim; citations : list Citation; problem : option text;
}.
Definition with_problem (a : ComposedAnswer) (p : option text) : ComposedAnswer :=
  mkComposed (ca_answer a) (linked_answer a) (ca_claims a) (citations a) p.

#[export] Instance Claim_eq_dec : EqDecision Claim.
Proof. solve_decision. Defined.

Definition blank : text := nl ++ nl.
Definition opt_array (o : option (list text)) : value := match o with Some l => Array (map Str l) | None => Null end.

Definition COMPOSER : text :=
  lit "# Composer" ++ nl ++ lit "Write the answer to the task as self-contained plain-text claims in reading order, each citing the evidence_ids of the notes it rests on. Answer only what the task asks to be told: a step the task asks to be carried out stays out of the answer unless the task asks to be told about it. Write every value the task asks for in the claim text itself, and every number in digits. A claim that compares, counts, totals or picks a superlative cites every note it is drawn from. Do not claim what the notes do not evidence: state what remains unsupported instead of supplying a related value. Write what the notes show as what was found, and never mention the notes. Say an answer is partial only when a note itself shows part of what the task covers was not reached, never because the notes might lack something. When the task asks for a table, set columns to its column names and write each claim as one row: its cells in column order, separated by " ++ [dquote] ++ lit " | " ++ [dquote] ++ lit ", with no other text. Otherwise set columns to null." ++ nl ++ nl ++ lit "# Trust" ++ nl.
Definition DESCRIPTIVE_VALUES : text :=
  lit "Interpret the requested field by its meaning, not by literal labels in the source. A value stated in descriptive prose counts even when no heading names that field. A statement that a value is not shown contradicts such a value. Use only a value stated by the description, including equivalent wording; do not infer a value from a merely related detail.".
Definition SOURCE_STATE : text :=
  lit "A quote marked superseded was replaced by a later read of its source. It remains evidence about that earlier state, not the current value. Notes are in reading order and name the page each was read on: a later page reached by changing filters, sorting or inputs shows the state after that change. Judge which state the task requests; historical comparisons can use earlier states.".
Definition UNREDUCED : text :=
  lit "The composed claims did not reduce to one request within the composing model's context window, so no single composition saw every note.".
Definition NOT_A_COUNT : text :=
  lit "No number in the claim is a count of records it draws from its quotes: for example a price, rating, date or page number, or a total that a quote itself states.".
Definition PARTIAL_NOTICE : text :=
  lit "Partial evidence only. Remaining coverage is omitted; totals may be incomplete.".

Section Answers.
Context `{Unicode} `{UnicodeStr} `{FloatFormat} `{Sha256} `{PercentEncoding} `{ValueText}.

(** The quote and link a reader is shown for [e], each passed through [redact]. *)
Definition cited_quote (e : Evidence) (n : Notes) (redact : text -> text) : text * text :=
  let url := redact (e_url e) in
  if negb (rendered_text e) then (redact (quote e), url)
  else
    let shown := redact (page_text (quote e) (e_start e) (table_blocks n e)) in
    (shown, match text_fragment url shown with Ok link => link | Err _ => url end).

(** A citation for each fact with a page, numbered in reading order. *)
Definition known_citations (n : Notes) : list (text * Citation) :=
  im_extend []
    (imap (fun i fe =>
       let '(shown, link) := cited_quote fe.2 n (fun t => t) in
       (fact_id fe.1, mkCitation (Z.of_nat i + 1) (f_text fe.1) (e_url fe.2) shown link))
       (omap (fun kf => (fun e => (kf.2, e)) <$> evidence kf.2) (facts n))).

Definition citation_link (c : Citation) : text := lit "[" ++ show_Z (ci_id c) ++ lit "](<" ++ deep_link c ++ lit ">)".

Definition assemble_answer (claims : list Claim) (n : Notes) : ComposedAnswer :=
  let supports := map (fun c => expand_evidence_ids n (evidence_ids c)) claims in
  let known := known_citations n in
  let linked := zip_with (fun c support =>
    cl_text c ++ lit " " ++ join (lit " ") (map citation_link (omap (fun key => im_get key known) support))) claims supports in
  mkComposed (join blank (map cl_text claims)) (join blank linked) claims
    (map snd (base.filter (fun kc => kc.1 ∈ concat supports) known)) None.

(** *** Tables *)
Definition CELL : text := lit " | ".

Definition table_cells (t : text) (columns : list text) : option (list text) :=
  let cells := map (trim_matches is_whitespace) (split_sub CELL t) in
  if (1 <? Z.of_nat (length columns)) && negb (one_of t 10) && Nat.eqb (length cells) (length columns) then Some cells else None.

Definition row_text (cells : list text) : text := lit "| " ++ join CELL cells ++ lit " |".
Definition rule (count : nat) : text := row_text (replicate count (lit "---")).

(** The cells of a claim's row, and its links. *)
Definition claim_row (columns : list text) (c : Claim) (line : text) : option (list text * text) :=
  match table_cells (cl_text c) columns, strip_prefix line (cl_text c) with
  | Some cells, Some links => Some (cells, trim_matches is_whitespace links)
  | _, _ => None
  end.

(** The answer as the table the task asked for, one row per claim. *)
Definition tabled (columns : option (list text)) (a : ComposedAnswer) : ComposedAnswer :=
  match columns with
  | Some columns =>
      if Z.of_nat (length columns) <=? 1 then a
      else
        let lines := split_sub blank (linked_answer a) in
        match (if Nat.eqb (length lines) (length (ca_claims a)) then mapM id (zip_with (claim_row columns) (ca_claims a) lines) else None) with
        | None => a
        | Some rows =>
            let width := length columns in
            mkComposed
              (join nl (row_text columns :: rule width :: map (fun row => row_text row.1) rows))
              (join nl (row_text (columns ++ [lit "Sources"]) :: rule (S width) :: map (fun row => row_text (row.1 ++ [row.2])) rows))
              (ca_claims a) (citations a) (problem a)
        end
  | None => a
  end.

(** *** Numbers a claim states *)
(** Where the run of digits at [at_] ends: commas group thousands. *)
Definition digit_at (t : text) (at_ : nat) : bool := match t !! at_ with Some c => is_ascii_digit c | None => false end.
Definition is_at (t : text) (at_ : nat) (c : Z) : bool := bool_decide (t !! at_ = Some c).
Fixpoint number_end (fuel : nat) (t : text) (at_ : nat) : nat :=
  match fuel with
  | O => at_
  | S fuel =>
      if digit_at t at_
         || (is_at t at_ (chr ",") && digit_at t (at_ + 1) && digit_at t (at_ + 2) && digit_at t (at_ + 3) && negb (digit_at t (at_ + 4)))
      then number_end fuel t (S at_) else at_
  end.

Definition parse_u64 (t : text) : option Z := parse_int 0 (2 ^ 64 - 1) t.

Fixpoint numbers_from (fuel : nat) (t : text) (start : nat) (found : list Z) : list Z :=
  match fuel with
  | O => found
  | S fuel =>
      if (length t <=? start)%nat then found
      else if negb (digit_at t start)
              || ((0 <? start)%nat && (digit_at t (start - 1) || is_at t (start - 1) (chr "."))) then numbers_from fuel t (S start) found
      else
        let end_ := number_end (length t) t start in
        let digits := base.filter (fun c => is_ascii_digit c = true) (take (end_ - start) (drop start t)) in
        let found :=
          if is_at t end_ (chr ".") && digit_at t (end_ + 1) then found
          else match parse_u64 digits with
               | Some number => if bool_decide (number ∈ found) then found else found ++ [number]
               | None => found
               end in
        numbers_from fuel t (Nat.max end_ (S start)) found
  end.
(** [whole_numbers]: each whole number written, once, in reading order; a decimal is no count. *)
Definition whole_numbers (t : text) : list Z := numbers_from (S (length t)) t 0 [].

(** One part of a breakdown: the number it starts with. *)
Definition breakdown_part (part : text) : option Z :=
  let part := trim_matches is_whitespace part in
  let part := trim_start is_whitespace (default part (strip_prefix part (lit "and "))) in
  let digits := take (default (length part) (find_char (fun c => negb (is_ascii_digit c)) part)) part in
  match parse_u64 digits with
  | Some n => if starts_with (drop (length digits) part) (lit " ") then Some n else None
  | None => None
  end.
Definition sum_u64 (l : list Z) : Z := fold_left (fun s n => (s + n) mod 2 ^ 64) l 0.

(** The sum of the breakdown a claim gives after its headline. *)
Definition breakdown_sum (claim : text) : option Z :=
  match find_char (one_of (lit ":(")) claim with
  | None => None
  | Some i =>
      let head := str_lowercase (take i claim) in
      if negb (existsb is_ascii_digit head) || contains_sub head (lit "includ") || contains_sub head (lit "such as") then None
      else
        let tail := trim_end (one_of (lit ".)")) (trim_end is_whitespace (drop (S i) claim)) in
        match mapM breakdown_part (split_parts (one_of (lit ",;")) tail) with
        | Some parts => if (2 <=? length parts)%nat then Some (sum_u64 parts) else None
        | None => None
        end
  end.
(** *** Quotes and questions *)
(** serde's form of an [Evidence], and of a quote with whether a later read superseded it. *)
Definition evidence_fields (e : Evidence) : list (text * value) :=
  [(lit "source_id", Str (e_source_id e)); (lit "url", Str (e_url e)); (lit "frame_id", opt_str (e_frame_id e));
   (lit "captured_at", Str (isoformat (e_captured_at e))); (lit "capture_sha256", Str (capture_sha256 e));
   (lit "start", Number (Int (e_start e))); (lit "end", Number (Int (e_end e))); (lit "quote", Str (quote e));
   (lit "complete_source", Bool (e_complete_source e));
   (lit "control_context", match e_control_context e with Some c => dump_control c | None => Null end);
   (lit "rendered_text", Bool (rendered_text e)); (lit "heading_path", Array (map Str (e_heading_path e)))]
  ++ match capture_artifact e with Some a => [(lit "capture_artifact", Str a)] | None => [] end.
Definition quote_state (e : Evidence) (superseded : bool) : value :=
  Object (evidence_fields e ++ [(lit "superseded", Bool superseded)]).

Definition cited_quotes (c : Claim) (n : Notes) : list value :=
  omap (fun f => (fun e => quote_state e (superseded n (fact_id f))) <$> evidence f)
    (omap (fun id => im_get id (facts n)) (expand_evidence_ids n (evidence_ids c))).

(** [model_dump_json] of a question. *)
Definition question_dump (q : Question) : text :=
  dump_json (Object match q with
    | QChoice q => [(lit "type", Str (lit "choice")); (lit "instructions", Str (ch_instructions q)); (lit "criteria", Object (ch_criteria q))]
    | QNoul q => [(lit "type", Str (lit "noul")); (lit "instructions", Str (instructions q));
                  (lit "true", opt_str (q_true q)); (lit "false", opt_str (q_false q))]
    | QScore q => [(lit "type", Str (lit "score")); (lit "instructions", Str (sc_instructions q)); (lit "criteria", Array (map Str (sc_criteria q)))]
    | QBox i => [(lit "type", Str (lit "box")); (lit "instructions", Str i)]
    end).

(** Whether a check holds, or None when Jev gave it no probability; even odds does not hold. *)
Definition judged (a : option Answer) : option bool :=
  match a with
  | Some (ANoul p) => if f64_le f64_zero p && f64_le p (f64_of_Z 1) then Some (f64_gt p EVEN_ODDS) else None
  | _ => None
  end.

Definition claim_texts (claims : list Claim) : value := Array (map (fun c => Str (cl_text c)) claims).
Definition claim_json (c : Claim) : value :=
  Object [(lit "text", Str (cl_text c)); (lit "evidence_ids", Array (map Str (evidence_ids c)))].

Definition coverage_question (task : text) (columns : option (list text)) (claims : list Claim) : Question :=
  QNoul (mkNoulQuestion
    (UNTRUSTED ++ lit " Does the written answer give every requested fact or value in the original task, without dropping a requested item while correcting its wording or citations? Judge the written answer, not whether unseen notes could answer it. Citation support and browser actions are checked separately. Judge only whether the written claims include the requested facts and values. A claim that a requested value is not shown or does not exist answers that request; whether it holds is checked separately. Task: "
       ++ dumps (Str task) ++ lit " Answer: "
       ++ dumps (Object [(lit "columns", opt_array columns); (lit "claims", claim_texts claims)]))
    (Some (lit "The written answer covers every fact and value the task asks to be told."))
    (Some (lit "A requested fact or value is absent from the written answer."))).

(** Which number in the claim, if any, counts records drawn from its cited quotes. *)
Definition count_question (c : Claim) (quotes : list value) : option Question :=
  let numbers := whole_numbers (cl_text c) in
  if is_empty numbers then None
  else
    let criteria :=
      fold_left (fun m number =>
        im_insert (show_Z number)
          (Str (lit "The claim's " ++ show_Z number ++ lit " states how many records it counted from its cited quotes.")) m)
        numbers [(lit "none", Str NOT_A_COUNT)] in
    let cited := Object [(lit "claim", Str (cl_text c)); (lit "quotes", Array quotes)] in
    Some (QChoice (mkChoiceQuestion
      (UNTRUSTED ++ nl ++ lit "Which number in this claim states how many records it counts from its cited quotes? " ++ value_text cited)
      criteria)).

Definition breakdown_question (c : Claim) : Question :=
  QNoul (mkNoulQuestion
    (UNTRUSTED ++ nl ++ lit "Does this claim split the records its headline counts into numbered parts, such as how many are on each page, so that the parts together make up the headline's total? Parts that count other things, such as authors or genres, are not a split. "
       ++ value_text (Object [(lit "claim", Str (cl_text c))]))
    (Some (lit "Each numbered part counts some of the same records the headline counts, and no record is in two parts."))
    (Some (lit "The numbered parts count something other than the headline's records, or may overlap."))).

Definition support_question (focus : text) (cited : value) : Question :=
  QNoul (mkNoulQuestion
    (UNTRUSTED ++ nl ++ focus ++ lit " Does it follow from its cited quotes, preserving which record each value belongs to and every stated value? A count, total or comparison may be derived from the quoted facts. A cell marked unavailable is supported only when these quotes give no value for that field of the same record. Judge the scope as well as each value. A statement about every member or an absent value across a whole set needs evidence about that whole set; quotes about some members support only those members. A source's population counter supports its population size, not the number extracted or included in this answer. A count of reported records requires those records as evidence."
       ++ nl ++ value_text cited ++ lit " " ++ DESCRIPTIVE_VALUES ++ lit " " ++ SOURCE_STATE)
    (Some (lit "Every assertion being judged is supported by these quotes."))
    (Some (lit "An assertion being judged changes a value, belongs to another record, or has no support in these quotes."))).

Definition claim_key (index : nat) : text := lit "claim" ++ show_Z (Z.of_nat index).
Definition claim_columns (columns : option (list text)) (c : Claim) : option (list text * list text) :=
  match columns with
  | Some columns => (fun cells => (columns, cells)) <$> table_cells (cl_text c) columns
  | None => None
  end.

(** What a claim must pass: one check for each cell of its row, or one for the whole claim. *)
Definition claim_checks (columns : option (list text)) (index : nat) (c : Claim) : list (text * text) :=
  match claim_columns columns c with
  | Some (columns, cells) =>
      imap (fun cell (cv : text * text) =>
        (claim_key index ++ lit "/cell" ++ show_Z (Z.of_nat cell),
         lit "Judge only the cell for field " ++ repr cv.1 ++ lit " with value " ++ repr cv.2
           ++ lit " in this row. Use the whole row to identify which record it belongs to."))
        (zip columns cells)
  | None => [(claim_key index, lit "Judge every assertion in this claim.")]
  end.

(** The questions of a review, by what they settle. *)
Record Review := mkReview {
  questions : list (text * Question);
  counts : list (text * Question);
  breakdowns : list (text * Question);
  uncited : list (nat * value);
}.
Definition no_questions : Review := mkReview [] [] [] [].

Definition unknown_ids (n : Notes) (c : Claim) : list text := base.filter (fun id => im_get id (facts n) = None) (evidence_ids c).
Definition uncited_json (n : Notes) (index : nat) (c : Claim) : value :=
  Object [(lit "claim", Number (Int (Z.of_nat index))); (lit "unknown_evidence_ids", Array (map Str (unknown_ids n c)))].

Definition review_claim (columns : option (list text)) (n : Notes) (r : Review) (index : nat) (c : Claim) : Review :=
  let sources := cited_quotes c n in
  if is_empty sources then mkReview (questions r) (counts r) (breakdowns r) (uncited r ++ [(index, uncited_json n index c)])
  else
    let cited := Object [(lit "columns", opt_array columns); (lit "claim", Str (cl_text c)); (lit "quotes", Array sources)] in
    let plain := bool_decide (claim_columns columns c = None) in
    let counted := if plain then count_question c sources else None in
    let broken := plain && bool_decide (is_Some (breakdown_sum (cl_text c))) in
    mkReview
      (fold_left (fun m check => im_insert check.1 (support_question check.2 cited) m) (claim_checks columns index c) (questions r))
      (match counted with Some q => im_insert (claim_key index) q (counts r) | None => counts r end)
      (if broken then im_insert (claim_key index ++ lit "/breakdown") (breakdown_question c) (breakdowns r) else breakdowns r)
      (uncited r).

Fixpoint review_from (columns : option (list text)) (n : Notes) (r : Review) (index : nat) (claims : list Claim) : Review :=
  match claims with
  | [] => r
  | c :: claims => review_from columns n (review_claim columns n r index c) (S index) claims
  end.

(** The keys of the checks a claim needs to hold: a claim citing no quote fails one that is never asked. *)
Definition required (columns : option (list text)) (n : Notes) (index : nat) (c : Claim) : list text :=
  if is_empty (cited_quotes c n) then [claim_key index ++ lit "/citations"] else map fst (claim_checks columns index c).

Definition fact_page (f : Fact) : option text := e_url <$> evidence f.
(** The pages the notes were read on, once each in reading order. *)
Definition pages_read (n : Notes) : list text := unique (omap (fun kf => fact_page kf.2) (facts n)).
Definition review_state (task : text) (n : Notes) : value :=
  Object [(lit "task", Str task); (lit "pages_read", Array (map Str (pages_read n)))].
End Answers.

(** ** What answering asks *)
(** A pass of questions fails for Jev's part, or for the run's. *)
Inductive PassError (E : Type) := JevFailed (m : text) | RunFailed (e : E).
Arguments JevFailed {E}.
Arguments RunFailed {E}.

(** An LLM's draft: its claims, and the columns when the task asks for a table. *)
Record AnswerDraft := mkAnswerDraft { draft_claims_of : list Claim; draft_columns : option (list text) }.

Record Models (W E : Type) := mkModels {
  m_tokens : TokenBudget;
  m_judge : value -> list (text * Question) -> W -> result (option (list (text * Answer))) (PassError E) * W;
  m_ask : value -> list (text * Question) -> W -> result (option (list (text * Answer))) E * W;
  m_write : list text -> W -> result AnswerDraft E * W;
  m_context : W -> option Z * W;
  m_envelope : Z;
  m_failed : text -> E;
}.
Arguments m_tokens {W E}.
Arguments m_judge {W E}.
Arguments m_ask {W E}.
Arguments m_write {W E}.
Arguments m_context {W E}.
Arguments m_envelope {W E}.
Arguments m_failed {W E}.

Section Asking.
Context {W E : Type}.
Definition Asks (A : Type) : Type := W -> result A E * W.
Definition done {A} (a : A) : Asks A := fun w => (Ok a, w).
Definition failing {A} (e : E) : Asks A := fun w => (Err e, w).
Definition andthen {A B} (m : Asks A) (k : A -> Asks B) : Asks B := fun w => match m w with (Ok a, w) => k a w | (Err e, w) => (Err e, w) end.
End Asking.
Arguments Asks : clear implicits.
Notation "'let*' x := m 'in' k" := (andthen m (fun x => k)) (at level 200, x pattern, m at level 100, k at level 200) : asks_scope.
Open Scope asks_scope.

Section Reviewing.
Context `{Unicode} `{UnicodeStr} `{FloatFormat} `{Sha256} `{PercentEncoding} `{ValueText}.
Context {W E : Type} (models : Models W E).

(** [evaluate_batches], a failure of Jev's being no answer. *)
Definition judge_or_none (state : value) (qs : list (text * Question)) : Asks W E (option (list (text * Answer))) := fun w =>
  match m_judge models state qs w with
  | (Ok answered, w) => (Ok answered, w)
  | (Err (JevFailed _), w) => (Ok None, w)
  | (Err (RunFailed e), w) => (Err e, w)
  end.
(** The pass, and the message of Jev's failure. *)
Definition judge_or_say (state : value) (qs : list (text * Question)) : Asks W E (option (list (text * Answer)) * option text) := fun w =>
  match m_judge models state qs w with
  | (Ok answered, w) => (Ok (answered, None), w)
  | (Err (JevFailed m), w) => (Ok (None, Some (lit "Jev could not judge composed claims: " ++ m)), w)
  | (Err (RunFailed e), w) => (Err e, w)
  end.

(** *** Counting records *)
Definition ONE_RECORD : text := lit "1".
Definition STATED_TOTAL : text := lit "total".
Definition SURE_OF_A_QUOTE : f64 := dec 8 1.

Definition quote_key (index : nat) : text := lit "quote" ++ show_Z (Z.of_nat index).
Definition quote_question (stated : Z) (index : nat) : Question :=
  QChoice (mkChoiceQuestion
    (UNTRUSTED ++ nl ++ lit "The claim states " ++ show_Z stated ++ lit " as the number of records it counted from its quotes. How many of the records that count includes does quote "
       ++ show_Z (Z.of_nat index) ++ lit " hold, leaving out any record an earlier quote in the list already holds?")
    [(lit "0", Str (lit "None: it holds no record the count includes, or only records an earlier quote holds."));
     (ONE_RECORD, Str (lit "Exactly one record the count includes."));
     (lit "several", Str (lit "More than one record the count includes."));
     (STATED_TOTAL, Str (lit "It states " ++ show_Z stated ++ lit " itself as a total, such as a number of results, rather than holding the records it counts."))]).

Definition sure (choice : text) (probabilities : list (text * f64)) (option : text) : bool :=
  f64_le SURE_OF_A_QUOTE
    (match im_get option probabilities with Some p => p | None => if teqb choice option then f64_of_Z 1 else f64_zero end).

(** The fewest and most records the quotes hold, read in order. *)
Fixpoint count_answers (answered : list (text * Answer)) (keys : list text) (least most : Z) : option (Z * Z) :=
  match keys with
  | [] => Some (least, most)
  | key :: keys =>
      match im_get key answered with
      | Some (AChoice choice probabilities _) =>
          if negb (teqb choice ONE_RECORD) && negb (teqb choice (lit "0")) then None
          else count_answers answered keys (least + (if sure choice probabilities ONE_RECORD then 1 else 0))
                 (most + (if sure choice probabilities (lit "0") then 0 else 1))
      | _ => None
      end
  end.

Definition counted_state (task : text) (c : Claim) (quotes : list value) : value :=
  Object [(lit "task", Str task); (lit "claim", Str (cl_text c));
          (lit "quotes", Array (imap (fun i q => Object [(lit "index", Number (Int (Z.of_nat i))); (lit "quote", q)]) quotes))].

Definition counted_records (task : text) (c : Claim) (stated : Z) (n : Notes) : Asks W E (option (Z * Z)) :=
  let quotes := cited_quotes c n in
  let asked := imap (fun i _ => (quote_key i, quote_question stated i)) quotes in
  let* answered := judge_or_none (counted_state task c quotes) asked in
  done (match answered with Some answered => count_answers answered (map fst asked) 0 0 | None => None end).

(** *** Reviewing the claims *)
Definition answered_by (pass : option (list (text * Answer))) (key : text) : option Answer :=
  match pass with Some answers => im_get key answers | None => None end.
Definition holds (pass : option (list (text * Answer))) (key : text) : option bool := judged (answered_by pass key).

Definition stated_count (pass : option (list (text * Answer))) (index : nat) : option Z :=
  match answered_by pass (claim_key index ++ lit "/count") with Some (AChoice choice _ _) => parse_u64 choice | _ => None end.
Definition breaks_down (pass : option (list (text * Answer))) (index : nat) : bool :=
  match answered_by pass (claim_key index ++ lit "/breakdown") with Some (ANoul p) => f64_gt p EVEN_ODDS | _ => false end.

Definition miscount_json (index : nat) (stated : Z) (name : string) (held : Z) : value :=
  Object [(lit "claim", Number (Int (Z.of_nat index))); (lit "states", Number (Int stated)); (lit name, Number (Int held))].

(** The records the quotes hold, where they are not as many as stated. *)
Definition records_miscounted (index : nat) (stated : Z) (counted : option (Z * Z)) : option value :=
  match counted with
  | Some (least, most) =>
      if (least <=? stated) && (stated <=? most) then None
      else Some (miscount_json index stated "records_in_cited_quotes" (if stated <? least then least else most))
  | None => None
  end.

(** A claim's miscount: its parts add up to another number, or its quotes hold another number of records. *)
Definition miscount (task : text) (n : Notes) (pass : option (list (text * Answer))) (index : nat) (c : Claim) : Asks W E (option value) :=
  match stated_count pass index with
  | None => done None
  | Some stated =>
      match (if breaks_down pass index then breakdown_sum (cl_text c) ≫= (fun sum => if sum =? stated then None else Some sum) else None) with
      | Some sum => done (Some (miscount_json index stated "breakdown_sums_to" sum))
      | None => let* counted := counted_records task c stated n in done (records_miscounted index stated counted)
      end
  end.

Fixpoint miscounts_from (task : text) (n : Notes) (pass : option (list (text * Answer))) (index : nat) (claims : list Claim)
  : Asks W E (list (nat * value)) :=
  match claims with
  | [] => done []
  | c :: claims =>
      let* found := miscount task n pass index c in
      let* rest := miscounts_from task n pass (S index) claims in
      done (match found with Some m => (index, m) :: rest | None => rest end)
  end.

Record CheckedClaims := mkChecked { checked_claims : list Claim; checked_problem : option text; rejection : option text }.

Definition too_large (state_chars : Z) (q : Question) : bool := input_chars (m_tokens models) [question_dump q] <? state_chars.
(** The coverage of the task is asked for where one claim can be checked at all. *)
Definition with_coverage (task : text) (columns : option (list text)) (claims : list Claim) (require_coverage : bool) (state_chars : Z)
    (qs : list (text * Question)) : list (text * Question) :=
  if require_coverage && existsb (fun kq => negb (too_large state_chars kq.2)) qs
  then im_insert (lit "coverage") (coverage_question task columns claims) qs else qs.

(** Everything asked beside the claims' support. *)
Definition asked_with (r : Review) (qs : list (text * Question)) : list (text * Question) :=
  im_extend [] (qs ++ map (fun kq => (kq.1 ++ lit "/count", kq.2)) (counts r) ++ breakdowns r).

Definition supports (columns : option (list text)) (n : Notes) (pass : option (list (text * Answer))) (index : nat) (c : Claim) : bool :=
  let keys := required columns n index c in
  negb (is_empty keys) && forallb (fun key => bool_decide (holds pass key = Some true)) keys.

Definition feedback_json (columns : option (list text)) (claims : list Claim) (rejected : list text) (miscounts : list (nat * value))
    (uncited : list (nat * value)) : value :=
  Object ([(lit "columns", opt_array columns); (lit "draft_claims", Array (map claim_json claims));
           (lit "rejected_checks", Array (map Str rejected))]
          ++ (if is_empty miscounts then [] else [(lit "miscounted_claims", Array (map snd miscounts))])
          ++ (if is_empty uncited then [] else [(lit "uncited_claims", Array (map snd uncited))])).

Definition kept_claims (columns : option (list text)) (n : Notes) (pass : option (list (text * Answer))) (miscounts : list (nat * value))
    (claims : list Claim) : list Claim :=
  map snd (base.filter (fun ic => supports columns n pass ic.1 ic.2 && negb (existsb (Nat.eqb ic.1) (map fst miscounts)) = true)
             (imap pair claims)).

Definition review_claims (task : text) (columns : option (list text)) (claims : list Claim) (n : Notes) (require_coverage : bool)
  : Asks W E CheckedClaims :=
  if is_empty claims then done (mkChecked claims (Some (lit "The composer returned no supported claims.")) None)
  else
    let r := review_from columns n no_questions 0 claims in
    let state := review_state task n in
    let state_chars := len (dumps state) in
    let qs := with_coverage task columns claims require_coverage state_chars (questions r) in
    let oversized_claim := existsb (fun kq => negb (teqb kq.1 (lit "coverage")) && too_large state_chars kq.2) qs in
    let oversized_coverage := match im_get (lit "coverage") qs with Some q => too_large state_chars q | None => false end in
    let* (pass, failure) := judge_or_say state (asked_with r qs) in
    let missing := existsb (fun key => bool_decide (answered_by pass key = None)) (im_keys qs) in
    let* miscounts := miscounts_from task n pass 0 claims in
    let rejected :=
      base.filter (fun key => holds pass key = Some false) (im_keys qs)
      ++ map (fun iu => claim_key iu.1 ++ lit "/citations") (uncited r)
      ++ map (fun im => claim_key im.1 ++ lit "/count") miscounts in
    let supported := kept_claims columns n pass miscounts claims in
    let problem :=
      match failure with
      | Some m => Some m
      | None =>
          if oversized_claim then Some (lit "A composed claim's quotes exceed the decision model's input limits.")
          else if oversized_coverage then Some (lit "The written answer exceeds the decision model's input limits for checking task coverage.")
          else if negb (is_empty (uncited r)) then Some (lit "A composed claim has no retained source quote.")
          else if missing then Some (lit "Jev left a composed claim's support unanswered.")
          else if negb (is_empty miscounts) then Some (lit "A composed claim states a count that differs from the records its cited quotes hold.")
          else if negb (Nat.eqb (length supported) (length claims)) then Some (lit "A composed claim is unsupported by its cited quotes.")
          else if require_coverage && negb (bool_decide (holds pass (lit "coverage") = Some true))
               then Some (lit "The answer does not establish every requested fact or value.")
          else None
      end in
    let told := negb (is_empty rejected) && bool_decide (failure = None) && negb (oversized_claim || oversized_coverage)
                && forallb (fun key => bool_decide (is_Some (holds pass key))) (im_keys qs) in
    done (mkChecked supported problem
            (if told then Some (dumps (feedback_json columns claims rejected miscounts (uncited r))) else None)).
End Reviewing.

(** * Properties *)
(** ** The keys of a review's questions *)
(** [key] is one of claim [i]'s: its name, and nothing or a part after a slash. *)
Definition part_of (suffix : text) : Prop := suffix = [] \/ head suffix = Some (chr "/").
Definition own_key (i : nat) (key : text) : Prop := exists suffix, key = claim_key i ++ suffix /\ part_of suffix.

Lemma digits_prefix a : forall b s s', forallb is_ascii_digit a = true -> forallb is_ascii_digit b = true -> part_of s -> part_of s' ->
  a ++ s = b ++ s' -> a = b /\ s = s'.
Proof.
  assert (Hd : forall x s l, is_ascii_digit x = true -> part_of s -> s <> x :: l).
  { intros x s l Hx [->|Hs] E; [done|]. rewrite E in Hs. injection Hs as ->. done. }
  induction a as [|x a IH]; intros [|y b] s s' Ha Hb Hs Hs' E; cbn in Ha, Hb; try apply andb_prop in Ha as [Hx Ha]; try apply andb_prop in Hb as [Hy Hb].
  - done.
  - by destruct (Hd y s (b ++ s')).
  - by destruct (Hd x s' (a ++ s)).
  - injection E as -> E. destruct (IH b s s' Ha Hb Hs Hs' E) as [-> ->]. done.
Qed.
Lemma show_index_digits i : forallb is_ascii_digit (show_Z (Z.of_nat i)) = true.
Proof. unfold show_Z. destruct (Z.ltb_spec (Z.of_nat i) 0); [lia|]. apply show_nat_spec. lia. Qed.
Lemma claim_key_inj i j s s' : part_of s -> part_of s' -> claim_key i ++ s = claim_key j ++ s' -> i = j /\ s = s'.
Proof.
  unfold claim_key. rewrite <- !app_assoc. intros Hs Hs' E%app_inv_head.
  apply digits_prefix in E as [->%show_index_inj ->]; auto using show_index_digits.
Qed.
Lemma own_key_unique i j key : own_key i key -> own_key j key -> i = j.
Proof. intros (s & -> & Hs) (s' & E & Hs'). by apply claim_key_inj in E as [-> _]. Qed.
Lemma own_key_not_coverage i : ~ own_key i (lit "coverage").
Proof. by intros (s & E & _). Qed.

Section Keys.
Context `{Unicode} `{UnicodeStr} `{FloatFormat} `{Sha256} `{PercentEncoding} `{ValueText}.

(** A check's part: the whole claim, or a cell of its row. *)
Definition check_part (suffix : text) : Prop := suffix = [] \/ exists rest, suffix = lit "/cell" ++ rest.
Lemma check_part_of suffix : check_part suffix -> part_of suffix.
Proof. intros [->|[rest ->]]; [by left|by right]. Qed.

Lemma claim_checks_keys columns i c key focus : (key, focus) ∈ claim_checks columns i c -> exists suffix, key = claim_key i ++ suffix /\ check_part suffix.
Proof.
  unfold claim_checks. destruct (claim_columns columns c) as [[cols cells]|].
  - intros (cell & [col v] & [= -> _] & _)%elem_of_lookup_imap. eexists. split; [done|]. right. eauto.
  - rewrite list_elem_of_singleton. intros [= -> _]. exists []. rewrite app_nil_r. split; [done|by left].
Qed.
Lemma claim_checks_nodup columns i c : NoDup (map fst (claim_checks columns i c)).
Proof.
  unfold claim_checks. destruct (claim_columns columns c) as [[cols cells]|]; [|repeat constructor; set_solver].
  change (map fst) with (fmap (M := list) (fst (A := text) (B := text))). rewrite fmap_imap. apply NoDup_alt. intros a b x Ha Hb.
  rewrite list_lookup_imap in Ha, Hb. destruct (zip cols cells !! a); [|done]. destruct (zip cols cells !! b); [|done].
  change (Some (claim_key i ++ lit "/cell" ++ show_Z (Z.of_nat a)) = Some x) in Ha.
  change (Some (claim_key i ++ lit "/cell" ++ show_Z (Z.of_nat b)) = Some x) in Hb.
  rewrite <- Hb in Ha. apply (inj Some), (app_inv_head (claim_key i)), (app_inv_head (lit "/cell")) in Ha. by apply show_index_inj.
Qed.

(** The question a check asks, with the claim's own quotes. *)
Definition cited_json (columns : option (list text)) (n : Notes) (c : Claim) : value :=
  Object [(lit "columns", opt_array columns); (lit "claim", Str (cl_text c)); (lit "quotes", Array (cited_quotes c n))].

Lemma insert_checks cited (checks : list (text * text)) : forall (m : list (text * Question)) (key : text),
  im_get key (fold_left (fun m check => im_insert check.1 (support_question check.2 cited) m) checks m)
  = match im_get key (map (fun check => (check.1, support_question check.2 cited)) (rev checks)) with Some q => Some q | None => im_get key m end.
Proof.
  induction checks as [|[k focus] checks IH] using rev_ind; intros m key; [done|].
  rewrite fold_left_app, rev_app_distr. cbn [rev app map fold_left im_get fst snd]. case_decide as E; subst.
  - by rewrite im_get_insert_eq.
  - rewrite im_get_insert_ne by done. apply IH.
Qed.
End Keys.

(** ** What a review asks *)
Section Asked.
Context `{Unicode} `{UnicodeStr} `{FloatFormat} `{Sha256} `{PercentEncoding} `{ValueText}.

Lemma is_empty_false {A} (l : list A) : l <> [] <-> is_empty l = false.
Proof. by destruct l. Qed.

Lemma review_claim_questions columns n r i c : questions (review_claim columns n r i c) =
  if is_empty (cited_quotes c n) then questions r
  else fold_left (fun m check => im_insert check.1 (support_question check.2 (cited_json columns n c)) m) (claim_checks columns i c) (questions r).
Proof. unfold review_claim, cited_json. by destruct (is_empty _). Qed.

(** A later claim's questions leave an earlier one's. *)
Lemma review_claim_other columns n r i c j key : own_key j key -> i <> j ->
  im_get key (questions (review_claim columns n r i c)) = im_get key (questions r).
Proof.
  intros Hkey Hij. rewrite review_claim_questions. destruct (is_empty _); [done|]. rewrite insert_checks.
  destruct (im_get key (map _ (rev _))) eqn:E; [|done]. exfalso. apply im_get_elem, list_elem_of_In, in_map_iff in E as ([k focus] & [= -> _] & Hin).
  rewrite <- in_rev in Hin. apply list_elem_of_In, claim_checks_keys in Hin as (suffix & -> & Hs%check_part_of).
  apply Hij. eapply own_key_unique; [|done]. by exists suffix.
Qed.
Lemma review_from_other columns n claims : forall r i j key, own_key j key -> (j < i)%nat ->
  im_get key (questions (review_from columns n r i claims)) = im_get key (questions r).
Proof.
  induction claims as [|c claims IH]; intros r i j key Hkey Hj; [done|]. cbn [review_from].
  rewrite (IH _ _ j) by (done || lia). apply (review_claim_other _ _ _ _ _ j); [done|lia].
Qed.

Lemma review_claim_asks columns n r i c key focus : cited_quotes c n <> [] -> (key, focus) ∈ claim_checks columns i c ->
  im_get key (questions (review_claim columns n r i c)) = Some (support_question focus (cited_json columns n c)).
Proof.
  intros Hq%is_empty_false Hin. rewrite review_claim_questions, Hq, insert_checks.
  enough (im_get key (map (fun check => (check.1, support_question check.2 (cited_json columns n c))) (rev (claim_checks columns i c)))
          = Some (support_question focus (cited_json columns n c))) as -> by done.
  apply im_get_nodup.
  - unfold im_keys. rewrite map_map. cbn [fst]. rewrite map_rev. apply NoDup_ListNoDup, NoDup_rev, NoDup_ListNoDup, claim_checks_nodup.
  - apply list_elem_of_In, in_map_iff. exists (key, focus). split; [done|]. rewrite <- in_rev. by apply list_elem_of_In.
Qed.

(** Every check of a claim with quotes is asked, under its own key. *)
Lemma review_from_asks columns n claims : forall r i j c key focus, claims !! j = Some c -> cited_quotes c n <> [] ->
  (key, focus) ∈ claim_checks columns (i + j) c ->
  im_get key (questions (review_from columns n r i claims)) = Some (support_question focus (cited_json columns n c)).
Proof.
  induction claims as [|c' claims IH]; intros r i [|j] c key focus Hc Hq Hin; [done..| |]; cbn [review_from].
  - injection Hc as <-. rewrite Nat.add_0_r in Hin. pose proof Hin as Hk. apply claim_checks_keys in Hk as (suffix & E & Hs%check_part_of).
    rewrite (review_from_other _ _ _ _ _ i) by (lia || by exists suffix). by apply review_claim_asks.
  - apply (IH _ (S i) j); [done|done|]. by rewrite <- Nat.add_succ_comm in Hin.
Qed.

Lemma fold_insert_nodup {A} (f : A -> text * Question) l : forall m, NoDup (im_keys m) -> NoDup (im_keys (fold_left (fun m x => im_insert (f x).1 (f x).2 m) l m)).
Proof. induction l as [|x l IH]; intros m Hm; [done|]. cbn [fold_left]. by apply IH, im_insert_nodup. Qed.
Lemma review_from_nodup columns n claims : forall r i, NoDup (im_keys (questions r)) -> NoDup (im_keys (questions (review_from columns n r i claims))).
Proof.
  induction claims as [|c claims IH]; intros r i Hr; [done|]. cbn [review_from]. apply IH. rewrite review_claim_questions.
  destruct (is_empty _); [done|]. by apply (fold_insert_nodup (fun check => (check.1, support_question check.2 (cited_json columns n c)))).
Qed.

(** The questions of counts and breakdowns have keys of their own. *)
Definition beside (r : Review) : Prop :=
  (forall kq, kq ∈ counts r -> exists k, kq.1 = claim_key k) /\ (forall kq, kq ∈ breakdowns r -> exists k, kq.1 = claim_key k ++ lit "/breakdown").
Lemma review_claim_beside columns n r i c : beside r -> beside (review_claim columns n r i c).
Proof.
  intros [Hc Hb]. unfold review_claim. destruct (is_empty _); [done|]. split; cbn.
  - destruct (if bool_decide _ then _ else None); [|done]. intros kq [->|Hin]%im_insert_elem; eauto.
  - destruct (_ && _); [|done]. intros kq [->|Hin]%im_insert_elem; eauto.
Qed.
Lemma review_from_beside columns n claims : forall r i, beside r -> beside (review_from columns n r i claims).
Proof. induction claims as [|c claims IH]; intros r i Hr; [done|]. cbn. by apply IH, review_claim_beside. Qed.

Lemma check_beside i suffix r : beside r -> check_part suffix ->
  claim_key i ++ suffix ∉ map fst (map (fun kq : text * Question => (kq.1 ++ lit "/count", kq.2)) (counts r) ++ breakdowns r).
Proof.
  intros [Hc Hb] Hs Hin. apply list_elem_of_In, in_map_iff in Hin as ([k q] & E & Hin). cbn in E. subst k.
  apply in_app_or in Hin as [Hin|Hin]; [apply in_map_iff in Hin as (kq & [= Ek _] & Hin)|]; apply list_elem_of_In in Hin.
  - destruct (Hc _ Hin) as [k Hk]. rewrite Hk in Ek. apply claim_key_inj in Ek as [_ Ek]; [|by right|by apply check_part_of].
    by destruct Hs as [->|[rest ->]].
  - destruct (Hb _ Hin) as [k Hk]. cbn in Hk. apply claim_key_inj in Hk as [_ Ek]; [|by apply check_part_of|by right].
    by destruct Hs as [->|[rest ->]].
Qed.

Lemma im_extend_app {K V} `{EqDecision K} (m a b : list (K * V)) : im_extend m (a ++ b) = im_extend (im_extend m a) b.
Proof. unfold im_extend. by rewrite fold_left_app. Qed.

(** Adding the counts and breakdowns changes none of the claims' own checks. *)
Lemma asked_with_check r qs i suffix : beside r -> NoDup (im_keys qs) -> check_part suffix ->
  im_get (claim_key i ++ suffix) (asked_with r qs) = im_get (claim_key i ++ suffix) qs.
Proof.
  intros Hr Hqs Hs. unfold asked_with. rewrite im_extend_app, im_get_extend_other by by apply check_beside.
  by rewrite im_extend_fresh by (done || set_solver).
Qed.

Section Whole.
Context {W E : Type} (models : Models W E).
Lemma with_coverage_check task columns claims require state_chars qs i suffix : part_of suffix ->
  im_get (claim_key i ++ suffix) (with_coverage models task columns claims require state_chars qs) = im_get (claim_key i ++ suffix) qs.
Proof.
  intros Hs. unfold with_coverage. destruct (_ && _); [|done]. apply im_get_insert_ne. intros E'.
  apply (own_key_not_coverage i). rewrite <- E'. by exists suffix.
Qed.
Lemma with_coverage_nodup task columns claims require state_chars qs :
  NoDup (im_keys qs) -> NoDup (im_keys (with_coverage models task columns claims require state_chars qs)).
Proof. intros Hq. unfold with_coverage. destruct (_ && _); [by apply im_insert_nodup|done]. Qed.

(** What one review asks, all of it. *)
Definition review_asks (task : text) (columns : option (list text)) (claims : list Claim) (n : Notes) (require_coverage : bool) : list (text * Question) :=
  let r := review_from columns n no_questions 0 claims in
  asked_with r (with_coverage models task columns claims require_coverage (len (dumps (review_state task n))) (questions r)).

Lemma review_asks_check task columns claims n require i c key focus :
  claims !! i = Some c -> cited_quotes c n <> [] -> (key, focus) ∈ claim_checks columns i c ->
  im_get key (review_asks task columns claims n require) = Some (support_question focus (cited_json columns n c)).
Proof.
  intros Hc Hq Hin. pose proof Hin as Hk. apply claim_checks_keys in Hk as (suffix & -> & Hs). unfold review_asks.
  rewrite asked_with_check; [|apply review_from_beside; split; set_solver|apply with_coverage_nodup, review_from_nodup; constructor|done].
  rewrite with_coverage_check by by apply check_part_of. by apply (review_from_asks _ _ _ _ 0 i).
Qed.
End Whole.
End Asked.

(** ** What a review keeps *)
Section Kept.
Context `{Unicode} `{UnicodeStr} `{FloatFormat} `{Sha256} `{PercentEncoding} `{ValueText}.
Context {W E : Type} (models : Models W E).

Lemma andthen_ok {A B} (m : Asks W E A) (k : A -> Asks W E B) w b w' :
  andthen m k w = (Ok b, w') -> exists a w1, m w = (Ok a, w1) /\ k a w1 = (Ok b, w').
Proof. unfold andthen. destruct (m w) as [[a|e] w1]; [eauto|done]. Qed.

(** A miscount names the claim it is of, and a claim with none adds up. *)
Definition adds_up (pass : option (list (text * Answer))) (i : nat) (c : Claim) : Prop :=
  forall stated sum, stated_count pass i = Some stated -> breaks_down pass i = true -> breakdown_sum (cl_text c) = Some sum -> sum = stated.

Lemma miscount_adds_up task n pass i c w w' : miscount models task n pass i c w = (Ok None, w') -> adds_up pass i c.
Proof.
  unfold miscount, adds_up. intros E' stated sum Hs Hb Hsum. rewrite Hs, Hb, Hsum in E'. cbn in E'.
  destruct (Z.eqb_spec sum stated); [done|]. cbn in E'. done.
Qed.
Lemma miscounts_adds_up task n pass claims : forall i w miscounts w', miscounts_from models task n pass i claims w = (Ok miscounts, w') ->
  (forall k, k ∈ map fst miscounts -> (i <= k)%nat) /\
  (forall j c, claims !! j = Some c -> (i + j)%nat ∉ map fst miscounts -> adds_up pass (i + j) c).
Proof.
  induction claims as [|c claims IH]; intros i w miscounts w' E'; cbn [miscounts_from] in E'.
  - injection E' as <- _. split; [set_solver|done].
  - apply andthen_ok in E' as (found & w1 & Em & E'). apply andthen_ok in E' as (rest & w2 & Er & E'). injection E' as <- _.
    apply IH in Er as [Hge Hadds]. split.
    + intros k Hk. destruct found; cbn in Hk; [apply elem_of_cons in Hk as [->|Hk]|]; [lia|apply Hge in Hk; lia..].
    + intros [|j] c' Hc Hni.
      * injection Hc as <-. destruct found; [cbn in Hni; rewrite Nat.add_0_r in Hni; set_solver|]. rewrite Nat.add_0_r. by eapply miscount_adds_up.
      * cbn in Hc. rewrite <- Nat.add_succ_comm in *. apply Hadds; [done|]. destruct found; [|done]. cbn in Hni. set_solver.
Qed.

Lemma elem_of_kept columns n pass miscounts claims c : c ∈ kept_claims columns n pass miscounts claims ->
  exists i, claims !! i = Some c /\ supports columns n pass i c = true /\ i ∉ map fst miscounts.
Proof.
  unfold kept_claims. intros Hc. apply list_elem_of_In, in_map_iff in Hc as ([i c'] & [= ->] & Hin). apply list_elem_of_In, list_elem_of_filter in Hin as [Hk Hin].
  apply elem_of_lookup_imap in Hin as (j & y & [= -> ->] & Hy). exists j. cbn [fst snd] in Hk. apply andb_prop in Hk as [Hs Hm].
  split_and!; [done..|]. intros Hin. apply negb_true_iff in Hm. enough (existsb (Nat.eqb j) (map fst miscounts) = true) by congruence.
  apply existsb_exists. exists j. split; [by apply list_elem_of_In|apply Nat.eqb_refl].
Qed.
Lemma filter_full {A} (P : A -> Prop) `{forall x, Decision (P x)} (l : list A) : length (base.filter P l) = length l -> base.filter P l = l.
Proof.
  induction l as [|x l IH]; [done|]. rewrite filter_cons. case_decide; cbn; intros E'.
  - f_equal. apply IH. lia.
  - pose proof (length_filter P l). lia.
Qed.
Lemma kept_all columns n pass miscounts claims : length (kept_claims columns n pass miscounts claims) = length claims ->
  kept_claims columns n pass miscounts claims = claims.
Proof.
  unfold kept_claims. intros E'. rewrite length_map in E'. rewrite filter_full; [|by rewrite length_imap].
  change (map snd) with (fmap (M := list) (@snd nat Claim)). rewrite fmap_imap. change (imap (fun _ c => c) claims = claims).
  apply list_eq. intros i. rewrite list_lookup_imap. by destruct (claims !! i).
Qed.

Lemma claim_checks_some columns i c : claim_checks columns i c <> [].
Proof.
  unfold claim_checks, claim_columns, table_cells. destruct columns as [columns|]; [|done].
  destruct (_ && _ && _) eqn:E'; [|done]. cbn [fmap option_fmap option_map]. apply andb_prop in E' as [E' Hl%Nat.eqb_eq].
  apply andb_prop in E' as [Hc%Z.ltb_lt _]. destruct columns as [|col columns]; [done|]. cbn in Hl. destruct (map _ _); [done|]. done.
Qed.

(** Jev answers no question it was not asked: what Decision.v's contract and Batches.v's passes promise. *)
Class AnswersOnlyAsked : Prop := answers_only_asked : forall state qs w answers w',
  m_judge models state qs w = (Ok (Some answers), w') -> im_keys answers ⊆ im_keys qs.

Lemma review_from_check_keys columns n claims key : forall r i, key ∈ im_keys (questions (review_from columns n r i claims)) ->
  key ∈ im_keys (questions r) \/ exists j suffix, key = claim_key j ++ suffix /\ check_part suffix.
Proof.
  induction claims as [|c claims IH]; intros r i Hk; [by left|]. cbn [review_from] in Hk. apply IH in Hk as [Hk|]; [|by right].
  rewrite review_claim_questions in Hk. destruct (is_empty _); [by left|]. rewrite <- im_get_some_keys, insert_checks in Hk.
  destruct (im_get key (map _ (rev _))) eqn:Eg; [|left; by rewrite im_get_some_keys in Hk]. right.
  apply im_get_elem, list_elem_of_In, in_map_iff in Eg as ([k focus] & [= -> _] & Hin). rewrite <- in_rev in Hin.
  exists i. by eapply claim_checks_keys, list_elem_of_In.
Qed.
Lemma review_asks_keys task columns claims n require key : key ∈ im_keys (review_asks models task columns claims n require) ->
  key = lit "coverage" \/ exists i suffix, key = claim_key i ++ suffix /\ (check_part suffix \/ suffix = lit "/count" \/ suffix = lit "/breakdown").
Proof.
  unfold review_asks, asked_with. rewrite im_extend_keys, !map_app. intros [Hk|Hk]; [set_solver|]. rewrite !elem_of_app in Hk.
  pose proof (review_from_beside columns n claims no_questions 0 ltac:(split; set_solver)) as [Hc Hb]. destruct Hk as [Hk|[Hk|Hk]].
  - assert (Hq : key = lit "coverage" \/ key ∈ im_keys (questions (review_from columns n no_questions 0 claims))).
    { unfold with_coverage in Hk. destruct (_ && _); [by apply im_keys_insert in Hk|by right]. }
    destruct Hq as [->|Hq]; [by left|]. right. apply review_from_check_keys in Hq as [Hq|(i & suffix & -> & Hs)]; [set_solver|exists i, suffix; auto].
  - right. rewrite map_map in Hk. apply list_elem_of_In, in_map_iff in Hk as (kq & <- & Hin). apply list_elem_of_In, Hc in Hin as [k Ek]. exists k, (lit "/count"). cbn. rewrite Ek. auto.
  - right. apply list_elem_of_In, in_map_iff in Hk as (kq & <- & Hin). apply list_elem_of_In, Hb in Hin as [k Ek]. exists k, (lit "/breakdown"). auto.
Qed.

Lemma supports_spec columns n pass i c : answered_by pass (claim_key i ++ lit "/citations") = None -> supports columns n pass i c = true ->
  cited_quotes c n <> [] /\ forall key focus, (key, focus) ∈ claim_checks columns i c -> holds pass key = Some true.
Proof.
  unfold supports, required. intros Hn [_ Hall]%andb_prop. rewrite forallb_forall in Hall. destruct (is_empty (cited_quotes c n)) eqn:E'.
  - specialize (Hall _ (or_introl eq_refl)). apply bool_decide_eq_true in Hall. unfold holds in Hall. by rewrite Hn in Hall.
  - split; [by apply is_empty_false|]. intros key focus Hin. specialize (Hall key). rewrite bool_decide_eq_true in Hall. apply Hall, in_map_iff.
    exists (key, focus). split; [done|by apply list_elem_of_In].
Qed.

Lemma judge_or_say_answers state qs w pass failure w' : AnswersOnlyAsked ->
  judge_or_say models state qs w = (Ok (pass, failure), w') -> forall key, key ∉ im_keys qs -> answered_by pass key = None.
Proof.
  intros Ha Ej key Hk. unfold judge_or_say in Ej.
  destruct (m_judge models state qs w) as [[[answers|]|[m|e]] w1] eqn:Em; inversion Ej; subst; [|done..].
  apply im_get_none. intros Hin. by apply Hk, (Ha _ _ _ _ _ Em).
Qed.
End Kept.

Section Holds.
Context `{Unicode} `{UnicodeStr} `{FloatFormat} `{Sha256} `{PercentEncoding} `{ValueText}.
Context {W E : Type} (models : Models W E).

Lemma citations_not_asked task columns claims n require i : claim_key i ++ lit "/citations" ∉ im_keys (review_asks models task columns claims n require).
Proof.
  intros Hk. apply review_asks_keys in Hk as [E'|(j & suffix & E' & Hs)].
  - apply (own_key_not_coverage i). rewrite <- E'. eexists. split; [done|]. by right.
  - apply claim_key_inj in E' as [_ E']; [|by right|].
    + destruct Hs as [[->|[rest ->]]|[->| ->]]; done.
    + destruct Hs as [Hs%check_part_of|[->| ->]]; [done|by right..].
Qed.

(** What a kept claim has passed: it cites a quote, each of its checks was asked of those quotes and held, and its parts add up. *)
Definition held_up (asked : list (text * Question)) (pass : option (list (text * Answer))) (columns : option (list text)) (n : Notes) (i : nat) (c : Claim) : Prop :=
  cited_quotes c n <> [] /\
  (forall key focus, (key, focus) ∈ claim_checks columns i c ->
     im_get key asked = Some (support_question focus (cited_json columns n c)) /\ holds pass key = Some true) /\
  adds_up pass i c.

(** One pass judged all that was asked, [kept] of the claims held up in it, and with no problem all did and the task was covered. *)
Definition upheld (task : text) (columns : option (list text)) (claims : list Claim) (n : Notes) (require : bool) (w : W) (kept : list Claim)
    (problem : option text) : Prop :=
  let asked := review_asks models task columns claims n require in
  exists pass failure w1, judge_or_say models (review_state task n) asked w = (Ok (pass, failure), w1) /\
    (forall c, c ∈ kept -> exists i, claims !! i = Some c /\ held_up asked pass columns n i c) /\
    (problem = None -> kept = claims /\ failure = None /\ (require = true -> holds pass (lit "coverage") = Some true)).

Lemma review_upheld task columns claims n require w checked w' :
  AnswersOnlyAsked models -> claims <> [] -> review_claims models task columns claims n require w = (Ok checked, w') ->
  upheld task columns claims n require w (checked_claims checked) (checked_problem checked).
Proof.
  intros Ha Hne%is_empty_false Er. unfold upheld. unfold review_claims in Er. rewrite Hne in Er.
  apply andthen_ok in Er as ([pass failure] & w1 & Ej & Er). apply andthen_ok in Er as (miscounts & w2 & Em & Er). injection Er as <- _.
  exists pass, failure, w1. split; [exact Ej|]. cbn [checked_claims checked_problem]. split.
  - intros c (i & Hi & Hs & Hm)%elem_of_kept. exists i. split; [done|]. apply supports_spec in Hs as [Hq Hs].
    + split_and!; [done| |by eapply (proj2 (miscounts_adds_up _ _ _ _ _ _ _ _ _ Em) i)].
      intros key focus Hin. split; [by eapply review_asks_check|eauto].
    + eapply judge_or_say_answers; [done|exact Ej|apply citations_not_asked].
  - destruct failure; [done|]. repeat (match goal with |- context [if ?b then Some _ else _] => destruct b eqn:?; [done|] end). intros _.
    split_and!; [|done|].
    + apply kept_all. by match goal with Hx : negb (Nat.eqb _ _) = false |- _ => apply negb_false_iff, Nat.eqb_eq in Hx end.
    + intros ->. match goal with Hx : true && negb _ = false |- _ => cbn in Hx; by apply negb_false_iff, bool_decide_eq_true in Hx end.
Qed.

(** C10: [review_claims] keeps no claim but those that held up against their own quotes, in one pass of everything asked; a review with no
    problem keeps every claim, and the task's coverage held where it is required. *)
Theorem review_keeps_what_holds task columns claims n require w checked w' :
  AnswersOnlyAsked models -> claims <> [] ->
  review_claims models task columns claims n require w = (Ok checked, w') ->
  let asked := review_asks models task columns claims n require in
  exists pass failure w1, judge_or_say models (review_state task n) asked w = (Ok (pass, failure), w1) /\
    (forall c, c ∈ checked_claims checked -> exists i, claims !! i = Some c /\ cited_quotes c n <> [] /\
       (forall key focus, (key, focus) ∈ claim_checks columns i c ->
          im_get key asked = Some (support_question focus (cited_json columns n c)) /\ holds pass key = Some true) /\
       adds_up pass i c) /\
    (checked_problem checked = None ->
       checked_claims checked = claims /\ failure = None /\ (require = true -> holds pass (lit "coverage") = Some true)).
Proof. intros Ha Hne Er. exact (review_upheld task columns claims n require w checked w' Ha Hne Er). Qed.
End Holds.

(** ** Examples *)
#[local] Existing Instances ascii_unicode ascii_unicode_str exact_format plain_digest.
#[local] Instance kept_percent : PercentEncoding := {| utf8_percent_encode _ t := t |}.
#[local] Instance dumped_values : ValueText := {| value_text v := dumps v |}.

Definition total_span (sha : string) (q : string) : Evidence :=
  mkEvidence (lit "s1") (lit "https://shop.test/cart") None (new_datetime 2026 9 27 0 0 0) (lit sha) 0 5 (lit q) false None true [] None.
Definition total_notes : Notes :=
  new_notes [fact_read (lit "The total is 12.29") (total_span "a" "12.29") JevChoice; fact_read (lit "Total: 14.00") (total_span "b" "14.00") JevChoice].

(** A Jev that holds the first claim and the coverage, and not the second. *)
Definition doubts_second (asked : list (text * Question)) : list (text * Answer) :=
  base.filter (fun ka => ka.1 ∈ im_keys asked)
    [(lit "claim0", ANoul (dec 9 1)); (lit "claim1", ANoul (dec 1 1)); (lit "coverage", ANoul (dec 9 1))].
Definition doubting : Models unit text :=
  mkModels unit text default_tokens (fun _ qs w => (Ok (Some (doubts_second qs)), w)) (fun _ qs w => (Ok (Some (doubts_second qs)), w))
    (fun _ w => (Ok (mkAnswerDraft [] None), w)) (fun w => (None, w)) 0 (fun m => m).
Definition two_claims : list Claim :=
  imap (fun i id => mkClaim (if Nat.eqb i 0 then lit "The total was 12.29." else lit "The total is 99.00.") [id]) (im_keys (facts total_notes)).

Theorem review_keeps_what_holds_witness :
  exists checked, review_claims doubting (lit "What was the total?") None two_claims total_notes true tt = (Ok checked, tt) /\
    map cl_text (checked_claims checked) = [lit "The total was 12.29."] /\
    forall c, c ∈ checked_claims checked -> cited_quotes c total_notes <> [].
Proof.
  set (r := review_claims doubting (lit "What was the total?") None two_claims total_notes true tt).
  assert (Hr : exists checked, r = (Ok checked, tt) /\ map cl_text (checked_claims checked) = [lit "The total was 12.29."]).
  { unfold r. vm_compute. eexists. split; reflexivity. }
  destruct Hr as (checked & Hr & Ht). exists checked. split; [exact Hr|]. split; [exact Ht|].
  destruct (review_keeps_what_holds doubting (lit "What was the total?") None two_claims total_notes true tt checked tt) as (pass & failure & w1 & _ & Hk & _).
  - intros state qs w answers w' E'. injection E' as <- <-. intros k Hin. unfold doubts_second in Hin.
    apply list_elem_of_In, in_map_iff in Hin as (ka & <- & Hin). apply list_elem_of_In, list_elem_of_filter in Hin as [Hin _]. exact Hin.
  - discriminate.
  - exact Hr.
  - intros c Hc. destruct (Hk c Hc) as (i & _ & Hq & _). exact Hq.
Defined.

Example numbers_read : whole_numbers (lit "10 quotes, 1,234 pages, 12.50, 3. Then 7,8") = [10; 1234; 3; 7; 8].
Proof. vm_compute. reflexivity. Qed.
Example parts_added :
  map breakdown_sum
    [lit "8 quotes are by Albert Einstein: 3 on page 1, 1 on page 2, and 6 on page 9."; lit "There are 10 quotes (3 on page 1; 7 on page 2).";
     lit "Einstein quotes appear as follows: 3 on page 1, 1 on page 2, and 0 on page 10."; lit "10 quotes, including: 3 on page 1, 1 on page 2.";
     lit "10 quotes: 3 on page 1, and others elsewhere."; lit "Page 2 lists 1 quote by Albert Einstein."]
  = [Some 10; Some 10; None; None; None; None].
Proof. vm_compute. reflexivity. Qed.
Example table_written :
  table_cells (lit "Ada | 10") [lit "Name"; lit "Score"] = Some [lit "Ada"; lit "10"].
Proof. vm_compute. reflexivity. Qed.
