(* ===== verification/PageState.v ===== *)
(** What Jev is shown of a page it is asked a question about: [page_state] of
    [crates/fastbrowse-agent/src/verification/mod.rs].

    The state is a JSON object of the date, the page, its controls and the notes, within what Jev's
    input limits leave beside the questions: the notes' answering evidence is kept whole, and the
    page's text, then the controls that hold no value, give way to it. *)

From S2P Require Import Prelude Float64 PyText Json DateTime Models Config Page Origins Effects Notes.
From S2P Require NotesText.

(** A state whose notes cannot be rendered, or one that does not fit. *)
Inductive StateError := OfNotes (e : NotesText.AgentError) | ObservationTooLarge (m : text).

(** [model_dump(exclude_none, include=...)] of a control, in declaration order. *)
Definition some_field (name : string) (v : option value) : list (text * value) :=
  match v with Some v => [(lit name, v)] | None => [] end.
Definition control_state (c : Control) : value :=
  Object ([(lit "role", Str (c_role c)); (lit "label", Str (c_label c))]
          ++ some_field "context" (Str <$> c_context c) ++ some_field "value" (Str <$> c_value c)
          ++ some_field "checked" (Bool <$> c_checked c) ++ some_field "selected" (Bool <$> c_selected c)).
Definition control_states (cs : list Control) : value := Array (map control_state cs).

(** The controls holding a value, a check or a selection. *)
Definition holds_state (c : Control) : bool :=
  bool_decide (is_Some (c_value c)) || bool_decide (is_Some (c_checked c)) || bool_decide (is_Some (c_selected c)).
Definition stateful (cs : list Control) : list Control := base.filter (fun c => holds_state c = true) cs.

(** A float as JSON holds it: one that is not finite is null. *)
Definition json_float (x : f64) : value := if is_finite x then Number (Float x) else Null.
Definition media_state (m : Media) : value :=
  Object [(lit "kind", Str (media_kind m)); (lit "label", opt_str (media_label m)); (lit "heading", opt_str (media_heading m));
          (lit "paused", Bool (media_paused m)); (lit "ended", Bool (media_ended m)); (lit "muted", Bool (media_muted m));
          (lit "elapsed_seconds", json_float (elapsed_seconds m));
          (lit "duration_seconds", match duration_seconds m with Some d => json_float d | None => Null end)].

(** The page with [shown] of its text. *)
Definition page_value (o : Observation) (shown : text) : value :=
  Object ([(lit "url", Str (o_url o)); (lit "title", Str (o_title o)); (lit "text", Str shown)]
          ++ (if is_empty (media o) then [] else [(lit "media", Array (map media_state (media o)))])).

Section PageState.
Context `{Unicode} `{FloatFormat} `{UrlParser} `{TR : TableReader}.
Context (o : Observation) (n : Notes) (tokens : TokenBudget) (questions : list text) (context : option (list (text * value))).

(** [state.insert]: a key held keeps its place. *)
Definition put (key : string) (v : value) (state : list (text * value)) : list (text * value) := im_insert (lit key) v state.

Definition opening_state : list (text * value) :=
  put "notes" (Str []) (put "controls" (control_states (controls o))
    (put "page" (page_value o (viewport_text o)) (put "date" (Str (today o)) (default [] context)))).

Definition budget : Z := input_chars tokens questions.
Definition state_size (state : list (text * value)) : Z := len (dumps (Object state)).
Definition room (state : list (text * value)) : Z := Z.max (budget - state_size state) 0.

Definition with_text (shown : text) (state : list (text * value)) : list (text * value) := put "page" (page_value o shown) state.
Definition with_stateful (state : list (text * value)) : list (text * value) :=
  let kept := stateful (controls o) in
  put "controls" (control_states kept)
    (put "controls_omitted" (Number (Int (Z.of_nat (length (controls o) - length kept)))) state).

Definition render_into (state : list (text * value)) : result (list (text * value)) NotesText.AgentError :=
  let? rendered := NotesText.render n (room state) true true in Ok (put "notes" (Str rendered) state).

(** The state with its notes, and whether the page's text gave way to them. *)
Definition with_notes : result (list (text * value) * bool) NotesText.AgentError :=
  match render_into opening_state with
  | Ok state => Ok (state, false)
  | Err (NotesText.NotesTooLarge _) =>
      let state := with_text [] opening_state in
      match render_into state with
      | Ok state => Ok (state, true)
      | Err (NotesText.NotesTooLarge _) =>
          let? state := render_into (with_stateful state) in Ok (state, true)
      | Err e => Err e
      end
  | Err e => Err e
  end.

Definition cut_page (state : list (text * value)) : list (text * value) :=
  let state := with_text [] state in
  with_text (cut_text (viewport_text o) (Z.to_nat (room state)) true) state.

Definition page_state : result value StateError :=
  match with_notes with
  | Err e => Err (OfNotes e)
  | Ok (state, gave_way) =>
      let state := if gave_way || (budget <? state_size state) then cut_page state else state in
      let state :=
        if (budget <? state_size state) && negb (im_contains (lit "controls_omitted") state)
        then with_stateful state else state in
      if budget <? state_size state then
        Err (ObservationTooLarge (lit "the state on " ++ o_url o ++ lit " exceeds Jev's input limits with no page text"))
      else Ok (Object state)
  end.
End PageState.

(** * Properties *)
(** ** Lengths *)
Section Lengths.
Context `{FloatFormat}.

Lemma join_length (sep : text) items : items <> [] ->
  (length (join sep items) + length sep = sum_list (map (fun t => length t + length sep) items))%nat.
Proof.
  destruct items as [|x items]; [done|]. intros _. unfold join. rewrite length_app.
  induction items as [|y items IH]; simpl in *; [lia|]. rewrite !length_app. lia.
Qed.

Definition weight (depth : nat) (v : value) : nat := length (write_value v DUMPS depth).
Definition entry_text (depth : nat) (kv : text * value) : text :=
  write_string kv.1 true ++ lit ": " ++ write_value kv.2 DUMPS (S depth).
Definition entry_len (depth : nat) (kv : text * value) : nat := length (write_string kv.1 true) + 4 + weight (S depth) kv.2.

Lemma written_object depth st : st <> [] ->
  write_value (Object st) DUMPS depth = lit "{" ++ join (lit ", ") (map (entry_text depth) st) ++ lit "}".
Proof.
  intros Hne. cbn [write_value]. change (sort_keys DUMPS) with false. cbv iota. rewrite map_map.
  assert (E : map (fun kv : text * value => snd (kv.1, write_string kv.1 (ensure_ascii DUMPS) ++ key_separator DUMPS
                     ++ write_value kv.2 DUMPS (S depth))) st = map (entry_text depth) st) by done.
  rewrite E. unfold write_items. destruct (map (entry_text depth) st) as [|t l] eqn:El; [by destruct st|]. rewrite <- El.
  change (newline DUMPS _) with (@nil Z).
  by rewrite (map_ext _ (fun t => t)), map_id by done.
Qed.

Lemma object_weight depth st : st <> [] -> weight depth (Object st) = sum_list (map (entry_len depth) st).
Proof.
  intros Hne. unfold weight. rewrite written_object by done. rewrite !length_app.
  pose proof (join_length (lit ", ") (map (entry_text depth) st)) as Hj. rewrite map_map in Hj.
  specialize (Hj ltac:(by destruct st)). change (length (lit ", ")) with 2%nat in Hj.
  assert (Hs : map (fun kv => length (entry_text depth kv) + 2)%nat st = map (entry_len depth) st).
  { apply map_ext. intros kv. unfold entry_text, entry_len, weight. rewrite !length_app.
    change (length (lit ": ")) with 2%nat. lia. }
  rewrite Hs in Hj. change (length (lit "{")) with 1%nat. change (length (lit "}")) with 1%nat. lia.
Qed.

Lemma string_weight depth t : weight depth (Str t) = (dumped_len t + 2)%nat.
Proof. unfold weight. cbn [write_value]. by rewrite dumped_len_written. Qed.

(** Setting a key that is held changes the length by the values' own. *)
Lemma insert_weight depth k v old st : im_get k st = Some old ->
  (weight depth (Object (im_insert k v st)) + weight (S depth) old = weight depth (Object st) + weight (S depth) v)%nat.
Proof.
  intros Hk. assert (Hne : st <> []) by (by destruct st). assert (Hi : im_insert k v st <> []).
  { destruct st as [|[k0 w] st]; [done|]. cbn. by destruct (decide (k = k0)). }
  rewrite !object_weight by done. clear Hne Hi. induction st as [|[k0 w] st IH]; [done|].
  cbn [im_get] in Hk. cbn [im_insert]. destruct (decide (k = k0)) as [->|].
  - injection Hk as ->. cbn [map sum_list_with]. unfold id, entry_len. cbn [fst snd]. lia.
  - specialize (IH Hk). cbn [map sum_list_with]. unfold id in *. lia.
Qed.
End Lengths.

(** ** What is cut *)
Lemma dumped_len_nil t : dumped_len t = 0%nat -> t = [].
Proof.
  destruct t as [|c t]; [done|]. unfold dumped_len. cbn [map sum_list_with]. unfold id, dumped_len_char.
  repeat case_match; lia.
Qed.

Lemma cut_text_fits t max : (dumped_len (cut_text t max true) <= max)%nat.
Proof.
  unfold cut_text, cut_with. cbn [Page.size]. destruct (Nat.leb_spec (dumped_len t) max); [done|].
  destruct (_ && fits _ _ _ _ _) eqn:E; [|cbn; lia].
  apply andb_true_iff in E as [_ E]. unfold Page.fits, Page.size in E. by apply Nat.leb_le in E.
Qed.

Section Laws.
Context `{Unicode} `{FloatFormat} `{UrlParser} `{TR : TableReader}.
Context (o : Observation) (n : Notes) (tokens : TokenBudget) (questions : list text) (context : option (list (text * value))).
Let size := state_size.
Let budget := budget tokens questions.
Let room := room tokens questions.
Let first := opening_state o context.

(** The state with nothing left to give up but the notes. *)
Definition least_state : list (text * value) := with_stateful o (with_text o [] (opening_state o context)).

Lemma size_put key v old st : im_get (lit key) st = Some old ->
  size (put key v st) + Z.of_nat (weight 1 old) = size st + Z.of_nat (weight 1 v).
Proof.
  intros Hk. pose proof (insert_weight 0 (lit key) v old st Hk) as Hw. unfold size, state_size, len, dumps, write, put.
  unfold weight at 1 3 in Hw. lia.
Qed.

Lemma page_weight shown : weight 1 (page_value o shown) = (weight 1 (page_value o []) + dumped_len shown)%nat.
Proof.
  unfold page_value. rewrite !object_weight by done. rewrite !map_app. cbn [map app sum_list_with].
  unfold id, entry_len. cbn [fst snd]. rewrite !string_weight. change (dumped_len []) with 0%nat. lia.
Qed.

Lemma size_text shown st : lit "page" ∈ im_keys st ->
  size (with_text o shown st) = size (with_text o [] st) + Z.of_nat (dumped_len shown).
Proof.
  intros Hk. assert (E : with_text o shown st = with_text o shown (with_text o [] st)) by (symmetry; apply im_insert_again).
  rewrite E. unfold with_text at 1.
  pose proof (size_put "page" (page_value o shown) (page_value o []) (with_text o [] st) (im_get_insert_eq _ _ _)) as Hs.
  rewrite (page_weight shown) in Hs. unfold with_text in *. lia.
Qed.

Lemma size_notes t st : im_get (lit "notes") st = Some (Str []) ->
  size (put "notes" (Str t) st) = size st + Z.of_nat (dumped_len t).
Proof. intros Hk. pose proof (size_put "notes" (Str t) _ _ Hk) as Hs. rewrite !string_weight in Hs. cbn in Hs. lia. Qed.

(** Rendering into the room a state leaves keeps it within the budget, or adds nothing to it. *)
Lemma render_into_spec st :
  im_get (lit "notes") st = Some (Str []) ->
  match render_into n tokens questions st with
  | Ok st' => exists t, NotesText.render n (room st) true true = Ok t /\ st' = put "notes" (Str t) st /\
                (size st' <= budget \/ (budget < size st /\ st' = st))
  | Err e => NotesText.render n (room st) true true = Err e /\ exists m, e = NotesText.NotesTooLarge m
  end.
Proof.
  intros Hk. unfold render_into. fold room. destruct (NotesText.render n (room st) true true) as [t|e] eqn:Er.
  - exists t. split_and!; [done|done|]. apply NotesText.render_within in Er. cbn [NotesText.size] in Er.
    rewrite size_notes by done. unfold room, PageState.room in Er. fold size budget in Er.
    destruct (decide (budget < size st)); [|left; lia]. right. split; [done|].
    assert (t = []) as -> by (apply dumped_len_nil; lia). by apply im_insert_same.
  - split; [done|]. eapply NotesText.render_too_large, Er. unfold room, PageState.room. lia.
Qed.

(** Cutting the page's text brings a state within the budget, or leaves none of the text. *)
Lemma cut_page_spec st : lit "page" ∈ im_keys st ->
  (exists shown max, shown = cut_text (viewport_text o) max true /\ cut_page o tokens questions st = with_text o shown st) /\
  (size (cut_page o tokens questions st) <= budget \/
   (budget < size (with_text o [] st) /\ cut_page o tokens questions st = with_text o [] st)).
Proof.
  intros Hk. unfold cut_page. fold room. set (max := Z.to_nat (room (with_text o [] st))).
  pose proof (cut_text_fits (viewport_text o) max) as Hf. set (shown := cut_text (viewport_text o) max true) in *.
  assert (E : with_text o shown (with_text o [] st) = with_text o shown st) by apply im_insert_again.
  rewrite E. split; [by exists shown, max|]. rewrite size_text by done.
  unfold max, room, PageState.room in Hf. fold size budget in Hf.
  destruct (decide (budget < size (with_text o [] st))); [|left; lia]. right. split; [done|].
  assert (shown = []) as -> by (apply dumped_len_nil; lia). done.
Qed.

(** ** The states a page is told in *)
Definition holds (st : list (text * value)) : Prop :=
  im_get (lit "notes") st = Some (Str []) /\ lit "page" ∈ im_keys st /\ lit "controls" ∈ im_keys st.

Lemma keys_put key k v st : k ∈ im_keys st -> k ∈ im_keys (put key v st).
Proof. intros Hk. apply im_keys_insert. by right. Qed.

Lemma opening_holds : holds first.
Proof.
  unfold first, opening_state. split_and!; [apply im_get_insert_eq| |].
  - do 2 apply keys_put. apply im_keys_insert. by left.
  - apply keys_put. apply im_keys_insert. by left.
Qed.
Lemma holds_text shown st : holds st -> holds (with_text o shown st).
Proof. intros (Hn & Hp & Hc). split_and!; [|by apply keys_put..]. unfold with_text, put. by rewrite im_get_insert_ne. Qed.
Lemma holds_stateful st : holds st -> holds (with_stateful o st).
Proof.
  intros (Hn & Hp & Hc). split_and!; [|by do 2 apply keys_put..]. unfold with_stateful, put. by rewrite !im_get_insert_ne.
Qed.

Lemma text_of_notes shown t st : holds st -> with_text o shown (put "notes" t st) = put "notes" t (with_text o shown st).
Proof. intros (_ & Hp & _). by apply im_insert_commute. Qed.
Lemma text_again shown shown' st : with_text o shown (with_text o shown' st) = with_text o shown st.
Proof. apply im_insert_again. Qed.
Lemma text_of_stateful shown st : holds st -> with_text o shown (with_stateful o st) = with_stateful o (with_text o shown st).
Proof.
  intros (_ & Hp & _). unfold with_text, with_stateful, put. rewrite im_insert_commute; [|done|by apply im_keys_insert; right].
  f_equal. by apply im_insert_commute.
Qed.

(** What of the page is told: the whole of it, or its text left out, or its controls too. *)
Definition told (base : list (text * value)) : Prop :=
  base = first \/ base = with_text o [] first \/ base = least_state.

Lemma with_notes_spec :
  match with_notes o n tokens questions context with
  | Ok (st, gave_way) => exists base t, told base /\ (gave_way = false -> base = first) /\
      NotesText.render n (room base) true true = Ok t /\ st = put "notes" (Str t) base /\
      (size st <= budget \/ (budget < size base /\ st = base))
  | Err e => NotesText.render n (room least_state) true true = Err e
  end.
Proof.
  unfold with_notes, told. fold first. pose proof (render_into_spec first (proj1 opening_holds)) as R1.
  destruct (render_into n tokens questions first) as [st|e].
  { destruct R1 as (t & Ht & -> & Hs). exists first, t. split_and!; auto. }
  destruct R1 as (_ & m & ->). pose proof (holds_text [] _ opening_holds) as Hh2.
  pose proof (render_into_spec _ (proj1 Hh2)) as R2.
  destruct (render_into n tokens questions (with_text o [] first)) as [st|e].
  { destruct R2 as (t & Ht & -> & Hs). exists (with_text o [] first), t. split_and!; auto. done. }
  destruct R2 as (_ & m' & ->). pose proof (render_into_spec _ (proj1 (holds_stateful _ Hh2))) as R3. fold least_state.
  change (with_stateful o (with_text o [] first)) with least_state in *.
  destruct (render_into n tokens questions least_state) as [st|e]; [|apply R3].
  destruct R3 as (t & Ht & -> & Hs). exists least_state, t. split_and!; auto. done.
Qed.

Hypothesis plain : im_get (lit "controls_omitted") (default [] context) = None.

Definition all_controls (st : list (text * value)) : Prop :=
  im_get (lit "controls") st = Some (control_states (controls o)).
Definition only_stateful (st : list (text * value)) : Prop :=
  im_get (lit "controls") st = Some (control_states (stateful (controls o))) /\
  im_get (lit "controls_omitted") st = Some (Number (Int (Z.of_nat (length (controls o) - length (stateful (controls o)))))).

Lemma first_controls : all_controls first /\ im_get (lit "controls_omitted") first = None.
Proof.
  unfold all_controls, first, opening_state, put. rewrite im_get_insert_ne, im_get_insert_eq by done. split; [done|].
  by rewrite !im_get_insert_ne.
Qed.
Lemma stateful_controls st : only_stateful (with_stateful o st).
Proof. unfold only_stateful, with_stateful, put. rewrite im_get_insert_eq, im_get_insert_ne, im_get_insert_eq by done. done. Qed.
Lemma controls_other (k : string) v st : lit k <> lit "controls" -> lit k <> lit "controls_omitted" ->
  (all_controls (put k v st) <-> all_controls st) /\ (only_stateful (put k v st) <-> only_stateful st) /\
  im_contains (lit "controls_omitted") (put k v st) = im_contains (lit "controls_omitted") st.
Proof. intros Hc Ho. unfold all_controls, only_stateful, im_contains, put. by rewrite !im_get_insert_ne. Qed.
(** A whole text, or a cut of it. *)
Definition text_told (st : list (text * value)) : Prop :=
  exists shown, im_get (lit "page") st = Some (page_value o shown) /\
    (shown = viewport_text o \/ exists max, shown = cut_text (viewport_text o) max true).
Definition controls_told (st : list (text * value)) : Prop :=
  (all_controls st /\ im_contains (lit "controls_omitted") st = false) \/
  (only_stateful st /\ im_contains (lit "controls_omitted") st = true).

Lemma told_holds base : told base -> holds base /\ controls_told base.
Proof.
  pose proof opening_holds as Hh. destruct first_controls as [Ha Ho].
  assert (Hf : controls_told first) by (left; unfold im_contains; by rewrite Ho).
  assert (Hp : controls_told (with_text o [] first)).
  { destruct (controls_other "page" (page_value o []) first) as (E1 & _ & E3); [done..|]. left.
    unfold with_text. rewrite E3, E1. unfold im_contains. by rewrite Ho. }
  intros [->|[->| ->]]; [done|by split; [apply holds_text|]|].
  split; [by apply holds_stateful, holds_text|]. right. pose proof (stateful_controls (with_text o [] first)) as Hs. fold least_state in Hs.
  change (with_stateful o (with_text o [] first)) with least_state in Hs. split; [done|].
  unfold im_contains. by rewrite (proj2 Hs).
Qed.

Lemma controls_told_put (k : string) v st : lit k <> lit "controls" -> lit k <> lit "controls_omitted" ->
  controls_told st -> controls_told (put k v st).
Proof.
  intros Hc Ho Ht. destruct (controls_other k v st Hc Ho) as (E1 & E2 & E3). unfold controls_told. by rewrite E1, E2, E3.
Qed.

Lemma nothing_told : [] = cut_text (viewport_text o) 0 true.
Proof. symmetry. apply dumped_len_nil. pose proof (cut_text_fits (viewport_text o) 0). lia. Qed.

Lemma text_told_with shown st : (shown = viewport_text o \/ exists max, shown = cut_text (viewport_text o) max true) ->
  text_told (with_text o shown st).
Proof. intros Hs. exists shown. split; [apply im_get_insert_eq|done]. Qed.
Lemma told_page base : told base -> exists shown, im_get (lit "page") base = Some (page_value o shown).
Proof.
  intros [->|[->| ->]]; [exists (viewport_text o)|exists []..].
  - unfold first, opening_state, put. rewrite !im_get_insert_ne by done. apply im_get_insert_eq.
  - apply im_get_insert_eq.
  - unfold least_state, with_stateful, put. rewrite !im_get_insert_ne by done. apply im_get_insert_eq.
Qed.

Lemma without_text_smaller st shown : im_get (lit "page") st = Some (page_value o shown) -> size (with_text o [] st) <= size st.
Proof.
  intros Hk. assert (E : with_text o shown st = st) by (by apply im_insert_same).
  rewrite <- E at 2. rewrite (size_text shown st); [lia|]. apply im_get_some_keys. by rewrite Hk.
Qed.

(** What is left when a state without its text is still too long. *)
Lemma least_of base : told base ->
  (if negb (im_contains (lit "controls_omitted") (with_text o [] base)) then with_stateful o (with_text o [] base)
   else with_text o [] base) = least_state.
Proof.
  pose proof (told_holds first (or_introl eq_refl)) as [_ Hf].
  assert (Hc : im_contains (lit "controls_omitted") first = false).
  { unfold im_contains. by rewrite (proj2 first_controls). }
  intros [->|[->| ->]].
  - destruct (controls_other "page" (page_value o []) first) as (_ & _ & E); [done..|]. unfold with_text at 1. by rewrite E, Hc.
  - rewrite text_again. destruct (controls_other "page" (page_value o []) first) as (_ & _ & E); [done..|].
    unfold with_text at 1. by rewrite E, Hc.
  - unfold least_state. rewrite text_of_stateful by apply holds_text, opening_holds. fold first. rewrite text_again.
    unfold im_contains. by rewrite (proj2 (stateful_controls _)).
Qed.

(** The state told from [base], its text cut where [cut] says so, and its controls dropped at last. *)
Lemma final_state base t (cut : bool) :
  told base -> (cut = false -> base = first) ->
  let st := put "notes" (Str t) base in
  (size st <= budget \/ (budget < size base /\ st = base)) ->
  let st1 := if cut || (budget <? size st) then cut_page o tokens questions st else st in
  let st2 := if (budget <? size st1) && negb (im_contains (lit "controls_omitted") st1) then with_stateful o st1 else st1 in
  (size st2 <= budget /\ im_get (lit "notes") st2 = Some (Str t) /\ text_told st2 /\ controls_told st2) \/
  (budget < size st2 /\ st2 = least_state).
Proof.
  intros Hb Hcut st Hs st1 st2. destruct (told_holds _ Hb) as [Hh Hc].
  assert (Hp : lit "page" ∈ im_keys st) by (apply keys_put, Hh).
  destruct (cut_page_spec st Hp) as [(shown & max & Hsh & E) Hcp].
  assert (Hctl : forall v, controls_told (with_text o v st)) by (intros v; apply controls_told_put; [done..|]; by apply controls_told_put).
  assert (Hnotes : forall v, im_get (lit "notes") (with_text o v st) = Some (Str t)).
  { intros v. unfold with_text, st, put. by rewrite im_get_insert_ne, im_get_insert_eq. }
  unfold st2, st1. destruct (cut || (budget <? size st)) eqn:Ecut; cycle 1.
  { apply orb_false_iff in Ecut as [-> Hfit]. rewrite Hfit. cbn [andb]. apply Z.ltb_ge in Hfit. left.
    split_and!; [done|apply im_get_insert_eq| |by apply controls_told_put].
    exists (viewport_text o). split; [|by left]. unfold st. rewrite (Hcut eq_refl).
    unfold first, opening_state, put. rewrite !im_get_insert_ne by done. apply im_get_insert_eq. }
  destruct Hcp as [Hfit|[Hbig Hno]].
  { rewrite (proj2 (Z.ltb_ge _ _) Hfit). cbn [andb]. left. rewrite E.
    split_and!; [by rewrite <- E|apply Hnotes|apply text_told_with; eauto|apply Hctl]. }
  destruct (told_page _ Hb) as [shown' Hpage].
  assert (Hsame : st = base).
  { destruct Hs as [Hs|[_ Hs]]; [|done]. pose proof (without_text_smaller st shown') as Hw.
    unfold st at 1, put at 1 in Hw. rewrite im_get_insert_ne in Hw by done. specialize (Hw Hpage). lia. }
  rewrite Hno, (proj2 (Z.ltb_lt _ _) Hbig). cbn [andb]. rewrite Hsame, least_of by done.
  destruct (decide (size least_state <= budget)) as [Hle|Hgt]; [left|right; split; [lia|done]].
  destruct (told_holds least_state) as [_ Hcl]; [by right; right|]. split_and!; [done| |exists []; split|done].
  - rewrite <- (least_of base Hb), <- Hsame.
    destruct (negb (im_contains (lit "controls_omitted") (with_text o [] st))); [|apply Hnotes].
    unfold with_stateful, put. rewrite !im_get_insert_ne by done. apply Hnotes.
  - unfold least_state, with_stateful, put. rewrite !im_get_insert_ne by done. apply im_get_insert_eq.
  - right. exists 0%nat. apply nothing_told.
Qed.

(** C32: What Jev is shown of a page fits its input limits, with the notes as rendered into the room the page left (so no
    fact of the answer's is cut, or the page gives way), the page's text whole or cut with a notice, and every control or
    every one that holds a value; a page whose state fits is told whole. It is refused as too large only when it is so
    with no text, no control but those, and no notes, and the notes are refused only when they do not fit beside that. *)
Theorem page_state_exact :
  match page_state o n tokens questions context with
  | Ok v => exists st base t, v = Object st /\ size st <= budget /\ told base /\
      NotesText.render n (room base) true true = Ok t /\ im_get (lit "notes") st = Some (Str t) /\
      text_told st /\ (all_controls st \/ only_stateful st)
  | Err (ObservationTooLarge _) => budget < size least_state
  | Err (OfNotes e) => NotesText.render n (room least_state) true true = Err e
  end /\
  (forall t, NotesText.render n (room first) true true = Ok t -> size (put "notes" (Str t) first) <= budget ->
     page_state o n tokens questions context = Ok (Object (put "notes" (Str t) first))).
Proof.
  split.
  - unfold page_state. pose proof with_notes_spec as Hn.
    destruct (with_notes o n tokens questions context) as [[st cut]|e]; [|done].
    destruct Hn as (base & t & Hb & Hcut & Ht & -> & Hs). pose proof (final_state base t cut Hb Hcut Hs) as Hf. cbv zeta in Hf.
    unfold size, budget, first in Hf. destruct Hf as [(Hle & Hn & Htext & Hc)|[Hgt E]].
    + rewrite (proj2 (Z.ltb_ge _ _) Hle). eexists _, base, t. split_and!; try done. by destruct Hc as [[? _]|[? _]]; auto.
    + rewrite (proj2 (Z.ltb_lt _ _) Hgt). by rewrite E in Hgt.
  - intros t Ht Hle. unfold page_state, with_notes, render_into. fold room first. rewrite Ht. cbn [orb].
    change (PageState.budget tokens questions) with budget. change state_size with size.
    assert (Hfit : budget <? size (put "notes" (Str t) first) = false) by (by apply Z.ltb_ge).
    do 3 (rewrite Hfit; cbn [andb]). done.
Qed.
End Laws.

(** ** Cases *)
#[local] Existing Instances ascii_unicode exact_format no_tables plain_parser.

(** A page whose text does not fit beside the questions is told cut, its fields kept. *)
Definition long_page : Observation :=
  let o := sample "d1" "N1 9GU" in
  mkObservation (o_url o) (o_title o) (page_key o) (captured_at o) (response_status o) (document_key o) (controls o)
    (concat (replicate 40 (lit "All rooms are taken. "))) (offscreen_text o) (visual_content o) (media o) (tabs o) (dialog o)
    (inaccessible_frames o) (can_go_back o) (history_entry o).
Definition small_tokens : TokenBudget := mkTokenBudget 1600 3200 8000 (f64_of_Z 3) None.

Lemma long_page_test :
  exists st, page_state long_page empty_notes small_tokens [] None = Ok (Object st) /\ (state_size st <=? 2400) = true /\
    im_get (lit "controls") st = Some (control_states (controls long_page)).
Proof. eexists. split_and!; [vm_compute; reflexivity|vm_compute; reflexivity|vm_compute; reflexivity]. Qed.

Theorem page_state_exact_witness :
  page_state (sample "d1" "N1 9GU") empty_notes default_tokens [lit "Is it open?"] None
    = Ok (Object (put "notes" (Str []) (opening_state (sample "d1" "N1 9GU") None))).
Proof.
  apply (page_state_exact (sample "d1" "N1 9GU") empty_notes default_tokens [lit "Is it open?"] None eq_refl);
    [vm_compute; reflexivity|vm_compute; discriminate].
Defined.
