(* ===== verification/Batches.v ===== *)
(** Many independent questions against one shared state, packed under a model's input limits:
    [crates/fastbrowse-agent/src/batches.rs].

    [pack] is the packing loop; [evaluate_batches] reserves the whole pass on the ledger, runs it
    and bills it.  What a request comes back with is an [attempt], in the order the requests
    finish; a pass that fails drops the requests still under way, which are the attempts left, and
    keeps what their receipts hold.  A question is its key and the JSON it dumps as. *)

From S2P Require Import Prelude Float64 PyText Json Models Ledger Lax Config Receipts Decision.

Definition question : Type := text * text.

(** ** Packing *)
Section Pack.
Context (tokens : TokenBudget) (max_questions : option nat) (state_chars : Z).

Definition weight (q : question) : f64 := f64_div (f64_of_Z (len q.2)) (chars_per_token tokens).
Definition limit : f64 := f64_of_Z (Z.min (batch_tokens tokens) (state_plus_all_questions tokens)).

(** The state and these questions within the model's input limits. *)
Definition within_input (qs : list question) : bool := state_chars <=? input_chars tokens (map snd qs).

Definition full (n : nat) : bool :=
  match max_questions with Some most => (most <=? n)%nat | None => false end.

Record packing := mkPacking { batches : list (list question); batch : list question; batch_size : f64 }.

Definition pack_step (p : packing) (q : question) : packing :=
  let size := weight q in
  if negb (within_input [q]) then p
  else
    let p :=
      if negb (is_empty (batch p))
         && (full (length (batch p)) || f64_gt (f64_add (batch_size p) size) limit
             || negb (within_input (batch p ++ [q])))
      then mkPacking (batches p ++ [batch p]) [] f64_zero
      else p in
    mkPacking (batches p) (batch p ++ [q]) (f64_add (batch_size p) size).

Definition pack (questions : list question) : list (list question) :=
  let p := fold_left pack_step questions (mkPacking [] [] f64_zero) in
  if is_empty (batch p) then batches p else batches p ++ [batch p].

(** A batch's weight, as the loop adds it up. *)
Definition weight_of (b : list question) : f64 := fold_left (fun s q => f64_add s (weight q)) b f64_zero.
End Pack.

(** ** A pass *)
(** What one batch's request comes back with: the lines its spend scope collected, and the
    evaluation or the error. *)
Definition attempt (A : Type) : Type := nat * list CostLine * result (Evaluation A) (DecisionError A).

Record Spent := mkSpent {
  paid : list CostLine;
  receipts : list (list CostLine);
  sp_input_tokens : Z;
  sp_requests : Z;
}.

Record Answered (A : Type) := mkAnswered {
  an_answers : list (text * A);
  an_cost : list CostLine;
  an_input_tokens : Z;
  an_requests : Z;
}.
Arguments mkAnswered {A}.
Arguments an_answers {A}.
Arguments an_cost {A}.

Inductive pass_error (A : Type) := Refused (e : BudgetExceeded) | PassFailed (e : DecisionError A).
Arguments Refused {A}.
Arguments PassFailed {A}.

Section Pass.
Context {A : Type} `{FF : FloatFormat}.

(** One request finishing: what it adds to the totals, and its answers or its error. *)
Definition finish (allow_failed : bool) (s : Spent) (a : attempt A)
  : Spent * result (option (list (text * A))) (DecisionError A) :=
  let '(i, receipt, outcome) := a in
  let s := mkSpent (paid s) (<[i := receipt]> (receipts s)) (sp_input_tokens s) (sp_requests s) in
  match outcome with
  | Ok e =>
      (mkSpent (paid s ++ [ev_cost e]) (receipts s) (wrap64 (sp_input_tokens s + ev_input_tokens e))
         (wrap64 (sp_requests s + requests e)), Ok (Some (answers e)))
  | Err error =>
      let s :=
        match error with
        | Exhausted ex =>
            if is_empty receipt
            then mkSpent (paid s ++ map ev_cost (answered ex)) (receipts s) (sp_input_tokens s) (sp_requests s)
            else s
        | _ => s
        end in
      (s, if negb allow_failed then Err error else Ok None)
  end.

(** A request dropped under way: its receipt holds what its spend scope collected by then, what
    it would have answered is never seen. *)
Definition keep_receipt (s : Spent) (a : attempt A) : Spent :=
  mkSpent (paid s) (<[a.1.1 := a.1.2]> (receipts s)) (sp_input_tokens s) (sp_requests s).

(** [try_join_all]: results by batch; the first error drops the rest. *)
Fixpoint join_all (allow_failed : bool) (s : Spent) (results : list (option (list (text * A))))
    (attempts : list (attempt A)) : Spent * result (list (option (list (text * A)))) (DecisionError A) :=
  match attempts with
  | [] => (s, Ok results)
  | a :: attempts =>
      let '(s, r) := finish allow_failed s a in
      match r with
      | Ok got => join_all allow_failed s (<[a.1.1 := got]> results) attempts
      | Err e => (fold_left keep_receipt attempts s, Err e)
      end
  end.

(** [Billing]'s drop: receipts of every request, delivered or not, then the ledger's lines. *)
Definition bill (s : Spent) (ledger : option LedgerState) : Spent * option LedgerState :=
  let paid := paid s ++ concat (receipts s) in
  (mkSpent paid (receipts s) (sp_input_tokens s) (sp_requests s),
   (fun st => mkLedgerState (lines st ++ paid) (steps st) (jev_calls st) (llm_calls st)) <$> ledger).

(** [flatten().flatten().collect()] into one map. *)
Definition collect_answers (results : list (option (list (text * A)))) : list (text * A) :=
  im_extend [] (concat (map (default []) results)).

(** The price of the whole pass: the state once per batch, and every question. *)
Definition pass_estimate (tokens : TokenBudget) (profile : DecisionProfile) (state_chars : Z)
    (bs : list (list question)) : f64 :=
  let ratio := chars_per_token tokens in
  let sent := f64_div (f64_of_Z (Z.of_nat (sum_list (map (fun b => sum_list (map (fun q => length q.2) b)) bs)))) ratio in
  default f64_zero (input_dollars profile
    (f64_add (f64_mul (f64_of_Z (Z.of_nat (length bs))) (f64_div (f64_of_Z state_chars) ratio)) sent)).

Definition evaluate_batches (tokens : TokenBudget) (profile : DecisionProfile) (state_chars : Z)
    (questions : list question) (limits : Limits) (elapsed elapsed' : option f64)
    (ledger : option LedgerState) (attempts : list (attempt A)) (allow_failed : bool)
  : result (option (Answered A)) (pass_error A) * option LedgerState :=
  let bs := pack tokens (max_questions profile) state_chars questions in
  if is_empty bs then (Ok None, ledger)
  else
    let estimate := pass_estimate tokens profile state_chars bs in
    let reserved :=
      match ledger with
      | Some st =>
          let '(r, st) := reserve limits elapsed st Jev estimate (Z.of_nat (length bs)) in
          (match r with Ok _ => None | Err e => Some e end, Some st)
      | None => (None, None)
      end in
    match reserved with
    | (Some refused, ledger) => (Err (Refused refused), ledger)
    | (None, ledger) =>
        let '(s, results) :=
          join_all allow_failed (mkSpent [] (repeat [] (length bs)) 0 0) (repeat None (length bs)) attempts in
        let '(s, ledger) := bill s ledger in
        match results with
        | Err e => (Err (PassFailed e), ledger)
        | Ok results =>
            match (match ledger with
                   | Some st => check_state limits elapsed' st f64_zero
                   | None => Ok tt
                   end) with
            | Err e => (Err (Refused e), ledger)
            | Ok _ =>
                if is_empty (paid s) then (Ok None, ledger)
                else (Ok (Some (mkAnswered (collect_answers results) (paid s) (sp_input_tokens s)
                                  (sp_requests s))), ledger)
            end
        end
    end.
End Pass.

(** * Properties *)
Section PackFacts.
Context (tokens : TokenBudget) (max_questions : option nat) (state_chars : Z).

Definition fits_alone (q : question) : Prop := within_input tokens state_chars [q] = true.

(** A batch that may be sent: not empty, within the input limits, at most the model's count, and
    within the target weight unless it is a single question. *)
Definition good_batch (b : list question) : Prop :=
  b <> [] /\ within_input tokens state_chars b = true /\
  (forall most, max_questions = Some most -> (length b <= Nat.max 1 most)%nat) /\
  (length b = 1%nat \/ f64_gt (weight_of tokens b) (limit tokens) = false).

Definition pack_inv (p : packing) (taken : list question) : Prop :=
  concat (batches p) ++ batch p = base.filter fits_alone taken /\
  Forall good_batch (batches p) /\ (batch p = [] \/ good_batch (batch p)) /\
  batch_size p = weight_of tokens (batch p).

Lemma weight_of_snoc b q : weight_of tokens (b ++ [q]) = f64_add (weight_of tokens b) (weight tokens q).
Proof. unfold weight_of. by rewrite fold_left_app. Qed.

Lemma single_good q : fits_alone q -> good_batch [q].
Proof.
  intros Hq. split_and!; [done|done| |by left]. intros most _. simpl. lia.
Qed.

Lemma pack_step_inv p taken q :
  pack_inv p taken -> pack_inv (pack_step tokens max_questions state_chars p q) (taken ++ [q]).
Proof.
  intros (Hcat & Hbs & Hb & Hsize). unfold pack_inv. rewrite filter_app, <- Hcat. unfold pack_step.
  destruct (within_input tokens state_chars [q]) eqn:Hq; cbn [negb].
  2:{ rewrite filter_cons, filter_nil, decide_False by (unfold fits_alone; by rewrite Hq).
      by rewrite app_nil_r. }
  rewrite filter_cons, filter_nil, decide_True by done.
  destruct (negb (is_empty (batch p)) && _) eqn:Ecut; cbn [batches batch batch_size].
  - bool_hyps. split_and!.
    + rewrite concat_app. simpl. rewrite app_nil_r. by rewrite <- app_assoc.
    + apply Forall_app. split; [done|]. constructor; [|done].
      destruct Hb as [Hb|Hb]; [|done]. rewrite Hb in *. done.
    + right. by apply single_good.
    + done.
  - rewrite app_assoc. split_and!; [done|done| |by rewrite weight_of_snoc, Hsize].
    right. destruct (batch p) as [|b0 b] eqn:Eb; [by apply single_good|].
    cbn [is_empty negb andb] in Ecut. apply orb_false_iff in Ecut as [Ecut Hin].
    apply orb_false_iff in Ecut as [Hfull Hw]. apply negb_false_iff in Hin.
    split_and!; [done|exact Hin| |].
    + intros most Hm. unfold full in Hfull. rewrite Hm in Hfull. apply Nat.leb_gt in Hfull.
      rewrite length_app. simpl in *. lia.
    + right. rewrite weight_of_snoc, <- Hsize. done.
Qed.

Lemma pack_fold_inv qs : forall p taken,
  pack_inv p taken ->
  pack_inv (fold_left (pack_step tokens max_questions state_chars) qs p) (taken ++ qs).
Proof.
  induction qs as [|q qs IH]; intros p taken Hp; [by rewrite app_nil_r|].
  cbn [fold_left]. rewrite cons_middle, app_assoc. apply IH. by apply pack_step_inv.
Qed.

Lemma pack_good qs :
  concat (pack tokens max_questions state_chars qs) = base.filter fits_alone qs /\
  Forall good_batch (pack tokens max_questions state_chars qs).
Proof.
  unfold pack. set (p := fold_left _ _ _).
  assert (Hp : pack_inv p qs).
  { apply (pack_fold_inv qs (mkPacking [] [] f64_zero) []). split_and!; try done. by left. }
  destruct Hp as (Hcat & Hbs & Hb & _). destruct (batch p) as [|b0 b]; cbn [is_empty].
  - by rewrite app_nil_r in Hcat.
  - rewrite concat_app. simpl. rewrite app_nil_r. split; [done|]. apply Forall_app. split; [done|].
    constructor; [|done]. by destruct Hb.
Qed.

(** Packing sends every question once: the batches, in order, are exactly the questions that
    fit beside the state, each batch fits the model's input limits and question count, and one of
    several questions stays within the batch's target weight. *)
Theorem pack_exact qs :
  concat (pack tokens max_questions state_chars qs)
    = base.filter (fun q => within_input tokens state_chars [q] = true) qs /\
  forall b, b ∈ pack tokens max_questions state_chars qs ->
    b <> [] /\ within_input tokens state_chars b = true /\
    (forall most, max_questions = Some most -> (length b <= Nat.max 1 most)%nat) /\
    (length b = 1%nat \/ f64_gt (weight_of tokens b) (limit tokens) = false).
Proof.
  destruct (pack_good qs) as [Hcat Hgood]. split; [exact Hcat|]. rewrite Forall_forall in Hgood. exact Hgood.
Qed.
End PackFacts.

Section PassFacts.
Context {A : Type} `{FF : FloatFormat}.

(** What a request adds to the totals itself, beside its receipt. *)
Definition own_lines (a : attempt A) : list CostLine :=
  match a.2 with
  | Ok e => [ev_cost e]
  | Err (Exhausted ex) => if is_empty a.1.2 then map ev_cost (answered ex) else []
  | Err _ => []
  end.

(** The requests that finished before the pass ended: up to the first error that ends it. *)
Fixpoint finished (allow_failed : bool) (attempts : list (attempt A)) : list (attempt A) :=
  match attempts with
  | [] => []
  | a :: rest => a :: (if allow_failed || is_ok a.2 then finished allow_failed rest else [])
  end.

Lemma finish_spec allow s a :
  let s' := fst (finish allow s a) in
  paid s' = paid s ++ own_lines a /\ receipts s' = <[a.1.1 := a.1.2]> (receipts s) /\
  is_ok (snd (finish allow s a)) = allow || is_ok a.2.
Proof.
  destruct a as [[i receipt] outcome]. unfold finish, own_lines. cbn [fst snd].
  destruct outcome as [e|[m|m|m|ex|m|e]]; cbn [fst snd paid receipts is_ok];
    rewrite ?orb_true_r, ?app_nil_r; try (by destruct allow).
  destruct (is_empty receipt); cbn [paid receipts]; rewrite ?app_nil_r; by destruct allow.
Qed.

Lemma keep_receipts (attempts : list (attempt A)) : forall s,
  paid (fold_left keep_receipt attempts s) = paid s /\
  receipts (fold_left keep_receipt attempts s)
    = fold_left (fun rs a => <[a.1.1 := a.1.2]> rs) attempts (receipts s).
Proof. induction attempts as [|a attempts IH]; intros s; [done|]. apply (IH (keep_receipt s a)). Qed.

Lemma join_all_spec allow attempts : forall s results,
  let s' := fst (join_all allow s results attempts) in
  paid s' = paid s ++ concat (map own_lines (finished allow attempts)) /\
  receipts s' = fold_left (fun rs a => <[a.1.1 := a.1.2]> rs) attempts (receipts s) /\
  is_ok (snd (join_all allow s results attempts)) = (allow || forallb (fun a => is_ok a.2) attempts).
Proof.
  induction attempts as [|a attempts IH]; intros s results; cbn [join_all finished].
  - cbn. by rewrite app_nil_r, orb_true_r.
  - destruct (finish_spec allow s a) as (Hp & Hr & Hok).
    destruct (finish allow s a) as [s1 [got|e]]; cbn [fst snd is_ok] in *.
    + rewrite <- Hok. destruct (IH s1 (<[a.1.1 := got]> results)) as (H1 & H2 & H3).
      cbn [map concat fold_left forallb]. rewrite H1, H2, H3, Hp, Hr, app_assoc. split_and!; try done.
      by destruct allow, (is_ok a.2).
    + rewrite <- Hok. destruct (keep_receipts attempts s1) as (H1 & H2).
      cbn [map concat fold_left forallb]. rewrite app_nil_r, H1, H2, Hp, Hr. split_and!; try done.
      symmetry in Hok. apply orb_false_iff in Hok as [-> ->]. done.
Qed.

(** What a pass is billed: each finished request's own lines in the order they finished, then
    every batch's receipt in batch order, those of the requests dropped under way included. *)
Definition billed (batches : nat) (allow_failed : bool) (attempts : list (attempt A)) : list CostLine :=
  concat (map own_lines (finished allow_failed attempts)) ++
  concat (fold_left (fun rs a => <[a.1.1 := a.1.2]> rs) attempts (repeat [] batches)).

(** C19: a pass spends nothing it was not granted and loses no bill: when the ledger refuses the
    whole pass nothing is sent and nothing changes; otherwise its batches are counted as that many
    calls before any is sent, and whether the pass ends in answers, in an error or over a limit,
    the ledger holds the earlier lines followed by everything its requests were billed. *)
Theorem evaluate_batches_billed tokens profile state_chars qs limits elapsed elapsed' st attempts allow :
  let bs := pack tokens (max_questions profile) state_chars qs in
  bs <> [] ->
  let reservation :=
    reserve limits elapsed st Jev (pass_estimate tokens profile state_chars bs) (Z.of_nat (length bs)) in
  let '(r, after) := evaluate_batches tokens profile state_chars qs limits elapsed elapsed' (Some st) attempts allow in
  match fst reservation with
  | Err e => r = Err (Refused e) /\ after = Some st
  | Ok _ =>
      exists st', after = Some st' /\
        lines st' = lines st ++ billed (length bs) allow attempts /\
        jev_calls st' = wrap64 (jev_calls st + Z.of_nat (length bs)) /\
        llm_calls st' = llm_calls st /\ steps st' = steps st /\
        (allow || forallb (fun a => is_ok a.2) attempts = false ->
           exists e, r = Err (PassFailed e))
  end.
Proof.
  intros bs Hbs reservation. unfold evaluate_batches, reservation. fold bs.
  replace (is_empty bs) with false by (by destruct bs).
  cbv zeta. destruct (reserve_spec limits elapsed st Jev (pass_estimate tokens profile state_chars bs)
                        (Z.of_nat (length bs)))
    as [[_ E]|[_ [e E]]]; rewrite E; cbn [fst]; [|done].
  destruct (join_all_spec allow attempts (mkSpent [] (repeat [] (length bs)) 0 0) (repeat None (length bs)))
    as (Hp & Hr & Hok).
  destruct (join_all _ _ _ _) as [s res]. cbn [fst snd paid receipts] in *.
  unfold bill. cbn [fmap option_fmap option_map]. rewrite Hp, Hr. cbn [app].
  set (st' := mkLedgerState _ _ _ _).
  assert (Hst : lines st' = lines st ++ billed (length bs) allow attempts /\
    jev_calls st' = wrap64 (jev_calls st + Z.of_nat (length bs)) /\
    llm_calls st' = llm_calls st /\ steps st' = steps st) by done.
  destruct res as [results|err]; cbn [is_ok] in Hok.
  - destruct (check_state limits elapsed' st' f64_zero) as [[]|e].
    + destruct (is_empty _); exists st'; (split; [done|]); destruct Hst as (H1 & H2 & H3 & H4);
        split_and!; try done; congruence.
    + exists st'. split; [done|]. destruct Hst as (H1 & H2 & H3 & H4). split_and!; try done. congruence.
  - exists st'. split; [done|]. destruct Hst as (H1 & H2 & H3 & H4). split_and!; try done. intros _. by exists err.
Qed.
End PassFacts.

(** ** Examples *)
#[local] Existing Instance exact_format.

Definition small_tokens : TokenBudget := mkTokenBudget 40 80 4 (f64_of_Z 3) None.
Definition sample_questions : list question :=
  [(lit "a", lit "12345678"); (lit "b", lit "1234"); (lit "c", replicate 90 (chr "x")); (lit "d", lit "12345678901")].

Example sample_packed :
  map (map fst) (pack small_tokens None 20 sample_questions) = [[lit "a"; lit "b"]; [lit "d"]].
Proof. vm_compute. reflexivity. Qed.

Definition sample_attempts : list (attempt text) :=
  [(1%nat, [], Err (DecisionFailed (lit "bad answer")));
   (0%nat, [new_cost_line Jev Estimated (Some (dec 2 2))],
    Ok (mkEvaluation (lit "jev") [(lit "d", lit "yes")] 7 (new_cost_line Jev Metered (Some (dec 1 2))) 1))].

Theorem evaluate_batches_billed_witness :
  let r := evaluate_batches small_tokens jev 20 sample_questions (mkLimits None (Some 5) None None None)
             None None (Some empty_state) sample_attempts false in
  exists st', snd r = Some st' /\
    lines st' = [new_cost_line Jev Estimated (Some (dec 2 2))] /\
    jev_calls st' = 2.
Proof.
  pose proof (evaluate_batches_billed small_tokens jev 20 sample_questions (mkLimits None (Some 5) None None None)
    None None empty_state sample_attempts false ltac:(vm_compute; discriminate)) as Hpass.
  destruct (evaluate_batches _ _ _ _ _ _ _ _ _ _) as [r after] eqn:E.
  vm_compute in Hpass. destruct Hpass as (st' & Hafter & Hlines & Hcalls & _).
  exists st'. split_and!; [exact Hafter|exact Hlines|exact Hcalls].
Defined.
