(* ===== verification/Judging.v ===== *)
(** Jev and the ledger, as a step, a read and a field ask them: what [DecisionClient] (crates/fastbrowse-core/src/decision.rs) and
    [Ledger] (telemetry.rs) are to [crates/fastbrowse-agent].

    [Judge] is the interface: the ledger's reservation and receipt, one request, and a pass of batches with every answer it
    brought.  A caller's theorems rest on [answers_the_questions] alone; [client_answers_the_questions] discharges it for every
    client of DecisionClients.v. *)

From S2P Require Import Prelude Float64 PyText Json Dump DateTime Lax Models Ledger Config Receipts Retry DecisionClients Page Origins Navigation Secrets Redactor Effects Notes PageState Citations Answers Decision Split Batches.

Record Judge (W E : Type) := mkJudge {
  j_reserve : W -> Prelude.result unit E * W;
  j_record : CostLine -> W -> Prelude.result unit E * W;
  j_evaluate : JevPurpose -> value -> list (text * Question) -> list (text * list Z) -> W -> Prelude.result (Evaluation Answer) E * W;
  j_batches : JevPurpose -> value -> list (text * Question) -> W ->
    (Prelude.result (option (Answered Answer)) E * list (text * Answer)) * W;
}.
Arguments j_reserve {W E}.
Arguments j_record {W E}.
Arguments j_evaluate {W E}.
Arguments j_batches {W E}.

Section Asking.
Context {W E : Type} (judge : Judge W E).

Definition raised {A} (r : Prelude.result A E) : Asks W E A := match r with Ok a => done a | Err e => failing e end.
(** One request: let through by the ledger, sent, and its bill recorded before its answer is used. *)
Definition ask_once (purpose : JevPurpose) (state : value) (q : list (text * Question)) (images : list (text * list Z)) : Asks W E (Evaluation Answer) :=
  let* _ := j_reserve judge in
  let* e := j_evaluate judge purpose state q images in
  let* _ := j_record judge (ev_cost e) in
  done e.

(** What a judge promises: it answers each question asked, by the question's own choices. *)
Definition answers_the_questions : Prop :=
  forall purpose st qs images w e w', qs <> [] -> NoDup (map fst qs) -> Z.of_nat (length qs) <= 2 ^ 62 ->
  j_evaluate judge purpose st qs images w = (Ok e, w') -> answers_all qs (answers e).

Lemma raised_ok {A} (x : Prelude.result A E) (w : W) a w' : raised x w = (Ok a, w') -> x = Ok a /\ w' = w.
Proof. destruct x; by intros [= -> ->]. Qed.
Lemma ask_answered purpose st q images w e w' : ask_once purpose st q images w = (Ok e, w') ->
  exists wa wb, j_evaluate judge purpose st q images wa = (Ok e, wb).
Proof.
  unfold ask_once. intros (_ & w1 & _ & E')%andthen_ok. apply andthen_ok in E' as (e' & w2 & He & E').
  apply andthen_ok in E' as (_ & w3 & _ & [= -> _]). by exists w1, w2.
Qed.

Section Client.
Context `{BodyReader} `{FixedFormat} `{ReadFloat} `{FloatFormat} `{ValueText}.
(** Every client of DecisionClients.v keeps it, whatever its provider sends back and whatever is done around its call. *)
Lemma client_answers_the_questions (client : DecisionClient) :
  (forall purpose st qs images w e w', j_evaluate judge purpose st qs images w = (Ok e, w') ->
     exists current outside secs recorded, DecisionClients.evaluate client current outside st secs images qs = (Ok e, recorded)) ->
  answers_the_questions.
Proof.
  intros Hc purpose st qs images w e w' Hne Hnd Hlen He. apply Hc in He as (current & outside & secs & recorded & He).
  pose proof (evaluate_open_ends client current outside st secs images qs Hne Hnd Hlen) as Ho. rewrite He in Ho. by destruct Ho.
Qed.
End Client.
End Asking.

(** * A judge to compute with *)
(** A judge that takes the first choice offered and finds nothing likely or relevant. *)
Definition first_answer (q : Question) : option Answer :=
  match q with
  | QChoice q => (fun k => AChoice k [(k, f64_zero)] f64_zero) <$> head (im_keys (ch_criteria q))
  | QNoul _ => Some (ANoul f64_zero)
  | _ => None
  end.
Definition first_answers (qs : list (text * Question)) : option (list (text * Answer)) :=
  mapM (fun kq => pair kq.1 <$> first_answer kq.2) qs.
Definition first_judge {E} (unasked : E) : Judge unit E :=
  mkJudge unit E (fun w => (Ok tt, w)) (fun _ w => (Ok tt, w))
    (fun _ _ qs _ w => (match first_answers qs with
                      | Some answers => Ok (mkEvaluation (lit "jev") answers 10 (new_cost_line Jev Metered None) 1)
                      | None => Err unasked
                      end, w))
    (fun _ _ qs w => ((Ok ((fun answers => mkAnswered answers [] 0 1) <$> first_answers qs), default [] (first_answers qs)), w)).

Lemma first_answer_answers q a : first_answer q = Some a -> answers_question q a.
Proof.
  assert (unit_interval f64_zero) as Hz by by split. destruct q as [q|q|q|q]; cbn [first_answer]; try by intros [=].
  - intros (k & Hk & ->)%fmap_Some. unfold im_keys in Hk. apply head_Some_elem_of in Hk.
    split_and!; [done|by left|by intros ? ->%list_elem_of_singleton|by apply Forall_singleton|done].
  - by intros [= <-].
Qed.
Lemma first_judge_answers {E} (unasked : E) : answers_the_questions (first_judge unasked).
Proof.
  intros purpose st qs images w e w' _ Hnd _. cbn. destruct (first_answers qs) as [answers|] eqn:Ea; intros [= <- _]. cbn.
  apply answered_answers_all; [done|]. apply mapM_Some in Ea. eapply Forall2_impl; [exact Ea|]. intros [k q] [k' a]. cbn.
  intros (a' & Ha & [= -> ->])%fmap_Some. split; [done|]. by apply first_answer_answers.
Qed.
