(* ===== verification/Failover.v ===== *)
(** Keeping a run on its backup provider: [crates/fastbrowse-clients/src/failover.rs].

    A client is what one call to it comes back with, as a function of the questions asked.  The
    switch is the flag [on_backup], which concurrent calls share; [step] is one atomic access to
    it. *)

From S2P Require Import Prelude Float64 PyText Json Models Ledger Lax Config Receipts Decision Batches.

Section Failover.
Context {A : Type} `{FixedFormat}.

Definition client : Type := list question -> result (Evaluation A) (DecisionError A).

(** A failure of the primary that moves the run to the backup. *)
Definition moves (e : DecisionError A) : option (RetriesExhausted A) :=
  match e with
  | Exhausted ex => Some ex
  | Rejected reason => Some (mkRetriesExhausted reason f64_zero 0 1 [] reason)
  | _ => None
  end.

(** The answers a failed call already has. *)
Definition held (ex : RetriesExhausted A) : list (text * A) :=
  im_extend [] (concat (map answers (answered ex))).
Definition remaining_questions (ex : RetriesExhausted A) (qs : list question) : list question :=
  base.filter (fun q => im_contains q.1 (held ex) = false) qs.

Definition with_seconds (c : CostLine) (secs : option f64) (requests : option Z) : CostLine :=
  mkCostLine (component c) (basis c) (line_dollars c) (purpose c) (decision_purpose c)
    (input_tokens c) (output_tokens c) secs requests.

(** What the backup makes of a call the primary failed. *)
Definition resume (backup : client) (ex : RetriesExhausted A) (qs : list question)
  : result (Evaluation A) (DecisionError A) :=
  match backup (remaining_questions ex qs) with
  | Ok e =>
      let requests := wrap64 (requests e + ex_requests ex) in
      Ok (mkEvaluation (model e) (im_extend (held ex) (answers e))
            (wrap64 (ev_input_tokens e + sum_wrap (map ev_input_tokens (answered ex))))
            (with_seconds (ev_cost e)
               (Some (f64_add (ex_seconds ex) (default f64_zero (seconds (ev_cost e))))) (Some requests))
            requests)
  | Err (Exhausted bx) =>
      let requests := wrap64 (ex_requests ex + ex_requests bx) in
      let seconds := f64_add (ex_seconds ex) (ex_seconds bx) in
      Err (Exhausted (mkRetriesExhausted (exhausted_text requests seconds (last_response bx)) seconds
             (wrap64 (unaccounted_requests ex + unaccounted_requests bx)) requests
             (answered ex ++ answered bx) (last_response bx)))
  | Err other => Err other
  end.

(** [switching]: the flag as it was read, and the flag and result after the call. *)
Definition switching (primary backup : client) (on_backup : bool) (qs : list question)
  : bool * result (Evaluation A) (DecisionError A) :=
  if on_backup then (true, backup qs)
  else
    match primary qs with
    | Err error =>
        match moves error with
        | Some ex => (true, resume backup ex qs)
        | None => (false, Err error)
        end
    | Ok e => (false, Ok e)
    end.

(** [evaluate_paid]: [paid] are the lines the call's spend scope collected. *)
Definition evaluate_paid (current : option JevPurpose) (paid : list CostLine)
    (r : result (Evaluation A) (DecisionError A)) : result (Evaluation A) (DecisionError A) :=
  let? e := r in
  let cost :=
    if is_empty paid then ev_cost e
    else
      let m := merged_cost current (paid ++ [ev_cost e]) in
      with_seconds m (seconds (ev_cost e)) (physical_requests m) in
  Ok (mkEvaluation (model e) (answers e) (ev_input_tokens e)
        (with_seconds cost (seconds cost) (Some (requests e))) (requests e)).

(** ** Calls side by side *)
(** A call under way has read the flag; [true] means it went to the backup at once. *)
Record shared := mkShared { on_backup : bool; in_flight : list (nat * bool) }.

Inductive step : shared -> shared -> Prop :=
| step_begin s id :
    step s (mkShared (on_backup s) ((id, on_backup s) :: in_flight s))
| step_switch s id rest :
    (id, false) ∈ in_flight s -> step s (mkShared true rest)
| step_end s rest : step s (mkShared (on_backup s) rest).
End Failover.

(** The LLM's failover: only a refused key switches. *)
Inductive LLMError := LLMRejected (reason : text) | LLMOther (m : text).

Definition generate_value {G} (primary backup : result G LLMError) (on_backup : bool)
  : bool * result G LLMError :=
  if negb on_backup then
    match primary with
    | Err (LLMRejected _) => (true, backup)
    | other => (false, other)
    end
  else (on_backup, backup).

Definition context_tokens (primary backup : option Z) : option Z :=
  match primary, backup with
  | Some p, Some b => Some (Z.min p b)
  | Some p, None => Some p
  | None, b => b
  end.

(** * Properties *)
Section FailoverFacts.
Context {A : Type} `{FixedFormat}.

(** A failover asks nothing twice and keeps what was paid for: when the primary runs out of
    retries or refuses its key, the backup is asked exactly the questions with no answer yet; if
    it answers those questions, every answer either provider gave is in the result, each held one
    as the primary gave it, and the requests of both are counted; and if the backup runs out too,
    the answers both had are kept with it. *)
Theorem failover_keeps_answers (primary backup : client (A := A)) qs error ex :
  primary qs = Err error -> moves error = Some ex ->
  let asked := remaining_questions ex qs in
  let '(flag, r) := switching primary backup false qs in
  flag = true /\
  (forall q, q ∈ asked <-> q ∈ qs /\ q.1 ∉ im_keys (held ex)) /\
  (forall e, backup asked = Ok e -> NoDup (map fst (answers e)) ->
     (forall k, k ∈ map fst (answers e) -> k ∈ map fst asked) ->
     exists e', r = Ok e' /\ requests e' = wrap64 (requests e + ex_requests ex) /\
       (forall k v, im_get k (held ex) = Some v -> im_get k (answers e') = Some v) /\
       (forall k v, (k, v) ∈ answers e -> im_get k (answers e') = Some v)) /\
  (forall bx, backup asked = Err (Exhausted bx) ->
     exists ex', r = Err (Exhausted ex') /\ answered ex' = answered ex ++ answered bx /\
       ex_requests ex' = wrap64 (ex_requests ex + ex_requests bx)).
Proof.
  intros Hp Hm asked. unfold switching. rewrite Hp, Hm. fold asked. split_and!.
  - done.
  - intros q. unfold asked, remaining_questions. rewrite list_elem_of_filter.
    rewrite <- im_contains_spec, <- not_true_iff_false. tauto.
  - intros e Hb Hn Hsub. unfold resume. fold asked. rewrite Hb. eexists. split; [done|]. cbn.
    split_and!; [done| |].
    + intros k v Hk. rewrite im_get_extend_other; [done|]. intros Hin. apply Hsub in Hin.
      apply list_elem_of_fmap in Hin as (q & -> & Hq). unfold asked, remaining_questions in Hq.
      apply list_elem_of_filter in Hq as [Hq _]. unfold im_contains in Hq. by rewrite Hk in Hq.
    + intros k v Hin. by apply im_get_extend_new.
  - intros bx Hb. unfold resume. fold asked. rewrite Hb. eexists. split; [done|]. done.
Qed.

(** A run that has moved to its backup stays there, whatever the calls in flight do. *)
Lemma switch_monotone s s' : step s s' -> on_backup s = true -> on_backup s' = true.
Proof. by destruct 1. Qed.
End FailoverFacts.

(** ** Examples *)
#[local] Existing Instance floor_format.

Definition half_answered : RetriesExhausted text :=
  mkRetriesExhausted (lit "503") (f64_of_Z 2) 0 3
    [mkEvaluation (lit "jev") [(lit "a", lit "yes")] 5 (new_cost_line Jev Metered (Some (dec 1 2))) 1] (lit "503").
Definition sample_backup : client (A := text) := fun qs =>
  Ok (mkEvaluation (lit "backup") (map (fun q => (q.1, lit "no")) qs) 4 (new_cost_line Jev Metered (Some (dec 1 2))) 1).

Theorem failover_keeps_answers_witness :
  let qs := [(lit "a", lit "?"); (lit "b", lit "?")] in
  exists e', snd (switching (fun _ => Err (Exhausted half_answered)) sample_backup false qs) = Ok e' /\
    im_get (lit "a") (answers e') = Some (lit "yes") /\ im_get (lit "b") (answers e') = Some (lit "no") /\
    requests e' = 4.
Proof.
  cbv zeta.
  destruct (failover_keeps_answers (fun _ => Err (Exhausted half_answered)) sample_backup
              [(lit "a", lit "?"); (lit "b", lit "?")] (Exhausted half_answered) half_answered eq_refl eq_refl)
    as (_ & _ & Hok & _).
  destruct (Hok _ eq_refl) as (e' & Hr & Hn & Ha & Hb).
  - apply (bool_decide_unpack _). vm_compute. exact I.
  - vm_compute. intros k Hk. exact Hk.
  - exists e'. split_and!; [exact Hr|apply Ha; vm_compute; reflexivity|apply Hb; vm_compute; constructor|].
    rewrite Hn. vm_compute. reflexivity.
Defined.
