(* ===== verification/Helpers.v ===== *)
(** What a step is judged by: [crates/fastbrowse-agent/src/agent/helpers.rs], with the records of
    a step in [policy.rs].

    A [Decision] is what Jev (or a recipe, or the run's own code) chose, a [HistoryEntry] what a
    step did.  The receipts and the request's figures a [Decision] carries for the trace are left
    out.  The facts stated to Jev about unsent, empty and changed fields are read off the history
    and the page as the source reads them. *)

From S2P Require Import Prelude Float64 PyText Json DateTime Models Page Origins Secrets Effects Notes Decision.

(** ** Steps *)
Record HistoryEntry := mkHistoryEntry {
  h_operation : option Operation;
  h_target : option text;
  h_outcome : StepOutcome;
  h_page_changed : bool;
  h_note : option text;
  h_text : option text;
  h_effect : option text;
  h_read_progress : bool;
  h_setting : option bool;
  h_added : bool;
}.
Definition new_entry (o : option Operation) (target : option text) (outcome : StepOutcome) (changed : bool)
  : HistoryEntry := mkHistoryEntry o target outcome changed None None None false None false.

Inductive Decider := DeciderJev | DeciderRecipe | DeciderCode.

Record Decision := mkDecision {
  d_operation : Operation;
  d_url : option text;
  d_target : option Control;
  d_tab_id : option text;
  d_operation_confidence : f64;
  d_target_confidence : option f64;
  d_login_required : option f64;
  d_bot_check : option f64;
  d_shows_answer : option f64;
  d_site_failure : option f64;
  d_destination : option Control;
  d_replayed : bool;
  d_by_code : bool;
  d_offered : list Control;
  d_ahead : list (text * Answer);
}.

Definition decider (d : Decision) : Decider :=
  if d_replayed d then DeciderRecipe else if d_by_code d then DeciderCode else DeciderJev.

(** As certain as its least certain choice. *)
Definition decision_confidence (d : Decision) : f64 :=
  match d_target_confidence d with
  | None => d_operation_confidence d
  | Some target => f64_min (d_operation_confidence d) target
  end.

(** ** Names *)
Definition describe (c : Control) : text :=
  match c_context c with
  | Some context => if is_empty context then c_label c else c_label c ++ lit " (" ++ context ++ lit ")"
  | None => c_label c
  end.

Definition decision_label (d : Decision) : option text :=
  match d_target d with
  | Some target => Some (describe target)
  | None => match d_url d with Some url => Some url | None => d_tab_id d end
  end.

Section Addresses.
Context `{UrlParser}.

Definition path_of (url : text) : text := match parse_url url with Some u => path u | None => [] end.
Definition scheme_of (url : text) : text := match parse_url url with Some u => scheme u | None => [] end.

Definition netloc (u : Url) : text :=
  match host_str u, port u with
  | Some host, Some port => host ++ lit ":" ++ show_Z port
  | Some host, None => host
  | None, _ => []
  end.
Definition netloc_of (url : text) : text := match parse_url url with Some u => netloc u | None => [] end.
End Addresses.

(** [drew_something]: anything to act on or to read. *)
Definition drew_something (o : Observation) : bool :=
  negb (is_empty (controls o)) || negb (is_empty (strip (viewport_text o))).

Definition caller_link (url : text) : Control :=
  let c := new_control (lit "caller-address") (lit "link") url [Click] in
  mkControl (c_id c) (c_frame_id c) (c_frame_origin c) (c_form_id c) (c_retarget_key c) (c_role c) (c_label c)
    (c_context c) (c_operations c) (c_value c) (c_focused c) (Some url) (c_options c) (c_input_type c)
    (c_input_name c) (c_max_length c) (c_autocomplete c) (c_submit_semantics c) (c_checked c) (c_selected c)
    (c_expanded c) (c_sensitive c) (c_offscreen c) (c_required c) (c_invalid c) (c_validation_message c)
    (c_next_page c) (c_download c) (c_already_read c).

Definition navigation_question (url : text) : NoulQuestion := irreversible_question Click (caller_link url) None [].

(** Accepting a dialog, asked as a commit; the kinds with nothing to accept ask nothing. *)
Definition dialog_question (task : text) (d : option PageDialog) : option NoulQuestion :=
  match d with
  | None => None
  | Some d =>
      if existsb (teqb (dialog_kind d)) [lit "confirm"; lit "prompt"; lit "beforeunload"] then
        Some (mkNoulQuestion
          (UNTRUSTED ++ nl ++ lit "Task: " ++ task ++ nl ++ lit "The agent is about to accept this " ++ dialog_kind d
           ++ lit " dialog: " ++ repr (dialog_message d)
           ++ lit ". Would accepting commit an irreversible or externally visible change, such as deleting data, sending a message or spending money?")
          (Some (lit "Acceptance commits a destructive or externally visible change."))
          (Some (lit "Acceptance only navigates, reveals information or edits a reversible draft.")))
      else None
  end.

(** ** Facts about the page, read off the history *)
Definition has_value (c : Control) : bool :=
  match c_value c with Some v => negb (is_empty v) | None => false end.

(** The fields filled since the last step that could have sent them, latest first. *)
Fixpoint unsent_fields (reversed : list HistoryEntry) : list text :=
  match reversed with
  | [] => []
  | e :: reversed =>
      if bool_decide (h_outcome e = Executed) then
        match h_operation e with
        | Some Fill => match h_target e with Some t => [t] | None => [] end ++ unsent_fields reversed
        | Some Read | Some Select | Some Scroll | Some ScrollUp | Some Wait => unsent_fields reversed
        | Some Click => if bool_decide (h_setting e = Some true) then unsent_fields reversed else []
        | _ => []
        end
      else unsent_fields reversed
  end.

Definition shows_value (o : Observation) (field : text) : bool :=
  existsb (fun c => teqb (describe c) field && has_value c) (controls o).

Definition unsent (history : list HistoryEntry) (o : Observation) : list text :=
  unique (rev (base.filter (fun f => shows_value o f = true) (unsent_fields (rev history)))).

Definition unsent_fact (history : list HistoryEntry) (o : Observation) : option text :=
  let fields := unsent history o in
  if is_empty fields then None
  else Some (lit "No action has sent what was typed into " ++ join (lit ", ") fields
    ++ lit ": the page holds the typed value, and it reaches the site only once the form's own control sends it.").

(** A field the task gives no value for: its page, label and context. *)
Definition MissingField : Type := text * text * option text.

Definition empty_fields_fact (missing : list MissingField) (o : Observation) : option text :=
  let empty :=
    map (fun c => repr (c_label c))
      (base.filter (fun c => bool_decide (Fill ∈ c_operations c) && negb (has_value c)
                             && negb (existsb (fun m => teqb m.1.2 (c_label c)) missing) = true) (controls o)) in
  if is_empty empty then None
  else Some (lit "No value has been entered on this page: " ++ join (lit ", ") empty
    ++ lit " are empty. A value the task states goes into its field before the form is confirmed.").

Definition page_change_fact (history : list HistoryEntry) (o : Observation) : option text :=
  match last history with
  | Some e =>
      if h_added e && bool_decide (h_operation e = Some Click) then
        match h_target e with
        | Some target =>
            if existsb (fun c => teqb (describe c) target) (controls o)
            then Some (lit "Since the last attempt to click " ++ target
              ++ lit ", page text or controls changed without removing earlier controls. " ++ target
              ++ lit " is still offered.")
            else None
        | None => None
        end
      else None
  | None => None
  end.

(** ** Links in an answer *)
(** The next [](<destination>)], from offset [from]: where it starts, and its destination's ends. *)
Fixpoint find_answer_link (fuel : nat) (t : text) (from : nat) : option (nat * nat * nat) :=
  match fuel with
  | O => None
  | S fuel =>
      match find_sub (lit "](<") (drop from t) with
      | None => None
      | Some found =>
          let start := (from + found)%nat in
          let destination := (start + 3)%nat in
          match find_char (Z.eqb (chr ">")) (drop destination t) with
          | None => None
          | Some width =>
              let end_ := (destination + width)%nat in
              if starts_with (drop end_ t) (lit ">)") then Some (start, destination, end_)
              else find_answer_link fuel t (S start)
          end
      end
  end.

(** [while let]: each link found leaves a shorter rest, so the length is fuel enough. *)
Fixpoint split_links (fuel : nat) (t : text) : list text :=
  match fuel with
  | O => [t]
  | S fuel =>
      match find_answer_link (S (length t)) t 0 with
      | Some (start, from, to) => take start t :: take (to - from) (drop from t) :: split_links fuel (drop (to + 2) t)
      | None => [t]
      end
  end.

Definition split_answer_links (t : text) : list text := split_links (S (length t)) t.

(** * Properties *)
(** What a link found is: its brackets around a destination with no [>]. *)
Lemma find_answer_link_spec fuel t : forall from start a b,
  find_answer_link fuel t from = Some (start, a, b) ->
  (from <= start)%nat /\ a = (start + 3)%nat /\ (a <= b)%nat /\
  t = take start t ++ lit "](<" ++ take (b - a) (drop a t) ++ lit ">)" ++ drop (b + 2) t /\
  Forall (fun c => c <> chr ">") (take (b - a) (drop a t)).
Proof.
  induction fuel as [|fuel IH]; intros from start a b H; cbn [find_answer_link] in H; [done|].
  destruct (find_sub _ _) as [found|] eqn:Ef; [|done].
  destruct (find_char _ _) as [width|] eqn:Ec; [|done].
  destruct (starts_with (drop _ t) (lit ">)")) eqn:Es.
  2: { apply IH in H as (Hle & Hrest). split; [lia|done]. }
  injection H as <- <- <-.
  apply find_sub_some in Ef as [Hstart _]. rewrite drop_drop in Hstart.
  destruct (find_char_spec _ _ _ Ec) as (Hw & _ & Hall).
  apply starts_with_spec in Hstart as [rest Hstart]. apply starts_with_spec in Es as [after Es].
  assert (Hrest : rest = drop (from + found + 3) t).
  { rewrite <- (drop_drop _ _ (from + found)), Hstart. done. }
  split_and!; [lia|done|lia| |].
  - rewrite <- (take_drop (from + found) t) at 1. f_equal. rewrite Hstart. f_equal. rewrite Hrest.
    replace (from + found + 3 + width - (from + found + 3))%nat with width by lia.
    rewrite <- (take_drop width (drop (from + found + 3) t)) at 1. f_equal.
    rewrite drop_drop, Es. f_equal.
    replace (from + found + 3 + width + 2)%nat with ((from + found + 3 + width) + 2)%nat by lia.
    rewrite <- (drop_drop t 2), Es. done.
  - replace (from + found + 3 + width - (from + found + 3))%nat with width by lia.
    eapply Forall_impl; [exact Hall|]. intros c Hc ->. by rewrite Z.eqb_refl in Hc.
Qed.

(** The pieces rebuilt: prose and destinations alternate, the destinations in their brackets. *)
Fixpoint weave (pieces : list text) : text :=
  match pieces with
  | [] => []
  | [prose] => prose
  | prose :: destination :: rest => prose ++ lit "](<" ++ destination ++ lit ">)" ++ weave rest
  end.

Lemma split_links_weave fuel : forall t, weave (split_links fuel t) = t /\ Nat.Odd (length (split_links fuel t)).
Proof.
  induction fuel as [|fuel IH]; intros t; cbn [split_links].
  { split; [done|]. by exists 0%nat. }
  destruct (find_answer_link _ t 0) as [[[start a] b]|] eqn:E.
  2: { split; [done|]. by exists 0%nat. }
  destruct (find_answer_link_spec _ _ _ _ _ _ E) as (_ & _ & _ & Ht & _).
  destruct (IH (drop (b + 2) t)) as [Hw [k Hk]]. split.
  - change (weave (take start t :: take (b - a) (drop a t) :: split_links fuel (drop (b + 2) t)))
      with (take start t ++ lit "](<" ++ take (b - a) (drop a t) ++ lit ">)" ++ weave (split_links fuel (drop (b + 2) t))).
    rewrite Hw. by rewrite <- Ht.
  - exists (S k). cbn [length]. rewrite Hk. lia.
Qed.

Theorem split_answer_links_weave t : weave (split_answer_links t) = t.
Proof. apply split_links_weave. Qed.

Example links_split :
  split_answer_links (lit "See [a](<https://a.test/x>) and [b](<no close")
  = [lit "See [a"; lit "https://a.test/x"; lit " and [b](<no close"].
Proof. vm_compute. reflexivity. Qed.

(** ** What is still unsent *)
(** A step that could have sent a form: performed, and neither a read, a wait, a scroll nor the
    setting of a value. *)
Definition could_send (e : HistoryEntry) : bool :=
  bool_decide (h_outcome e = Executed) &&
  match h_operation e with
  | Some (Fill | Read | Select | Scroll | ScrollUp | Wait) => false
  | Some Click => negb (bool_decide (h_setting e = Some true))
  | _ => true
  end.
Definition fills (f : text) (e : HistoryEntry) : Prop :=
  h_outcome e = Executed /\ h_operation e = Some Fill /\ h_target e = Some f.

Lemma unsent_fields_step e reversed f :
  f ∈ unsent_fields (e :: reversed) <-> fills f e \/ (could_send e = false /\ f ∈ unsent_fields reversed).
Proof.
  unfold could_send, fills. cbn [unsent_fields]. destruct (bool_decide_reflect (h_outcome e = Executed)) as [Ho|Ho]; cbn.
  2: { intuition congruence. }
  destruct (h_operation e) as [o|]; [|intuition (congruence || set_solver)].
  destruct o; try (intuition (congruence || set_solver)).
  - destruct (bool_decide_reflect (h_setting e = Some true)); cbn; intuition (congruence || set_solver).
  - destruct (h_target e) as [t|]; cbn; [rewrite elem_of_cons|]; intuition congruence.
Qed.

Lemma unsent_fields_spec reversed f : f ∈ unsent_fields reversed <->
  exists later e earlier, reversed = later ++ e :: earlier /\ fills f e /\ Forall (fun e => could_send e = false) later.
Proof.
  induction reversed as [|e reversed IH].
  { split; [by intros ?%not_elem_of_nil|]. by intros ([|] & e & earlier & ? & _). }
  rewrite unsent_fields_step, IH. split.
  - intros [Hf|(Hs & later & e' & earlier & -> & Hf & Hl)].
    + exists [], e, reversed. split_and!; [done|done|constructor].
    + exists (e :: later), e', earlier. split_and!; [done|done|by constructor].
  - intros ([|l later] & e' & earlier & [= -> ->] & Hf & Hl); [by left|].
    apply Forall_cons in Hl as [Hs Hl]. right. eauto 10.
Qed.

(** The fields a run is told it has typed into and not sent are exactly those the page shows a
    value in, that a performed fill wrote, and after which no step was performed that could have
    sent the form; each is named once. *)
Theorem unsent_exact history o :
  NoDup (unsent history o) /\
  forall f, f ∈ unsent history o <->
    shows_value o f = true /\
    exists before e after, history = before ++ e :: after /\ fills f e /\
      Forall (fun e => could_send e = false) after.
Proof.
  split; [apply unique_nodup|]. intros f. unfold unsent.
  rewrite unique_elem, list_elem_of_In, <- in_rev, <- list_elem_of_In, list_elem_of_filter, unsent_fields_spec.
  split; intros [Hs (a & e & b & E & Hf & Hl)]; (split; [done|]); exists (rev b), e, (rev a);
    (split_and!; [|done|by apply Forall_rev]).
  - rewrite <- (rev_involutive history), E, rev_app_distr. cbn. by rewrite <- app_assoc.
  - rewrite E, rev_app_distr. cbn. by rewrite <- app_assoc.
Qed.
