(* ===== verification/Pyre.v ===== *)
(** Python's backtracking patterns: [crates/fastbrowse-agent/src/pyre.rs].

    A [Pat] is a pattern's tree; [ends] lists every end a match can reach, in the order CPython's
    engine would try them.  [reach] is what a pattern means, without the engine: the theorems say
    that [ends] lists exactly the ends it allows, and that the searches over a text find what
    [re] finds.  A text is indexed by code point. *)

From S2P Require Import Prelude PyText.

(** ** Digits and letters *)
Definition DIGIT_ZEROS : list Z :=
  [0x30; 0x660; 0x6f0; 0x7c0; 0x966; 0x9e6; 0xa66; 0xae6; 0xb66; 0xbe6; 0xc66; 0xce6; 0xd66; 0xde6; 0xe50; 0xed0;
   0xf20; 0x1040; 0x1090; 0x17e0; 0x1810; 0x1946; 0x19d0; 0x1a80; 0x1a90; 0x1b50; 0x1bb0; 0x1c40; 0x1c50; 0xa620;
   0xa8d0; 0xa900; 0xa9d0; 0xa9f0; 0xaa50; 0xabf0; 0xff10; 0x104a0; 0x10d30; 0x11066; 0x110f0; 0x11136; 0x111d0;
   0x112f0; 0x11450; 0x114d0; 0x11650; 0x116c0; 0x11730; 0x118e0; 0x11950; 0x11c50; 0x11d50; 0x11da0; 0x11f50;
   0x16a60; 0x16ac0; 0x16b50; 0x1d7ce; 0x1d7d8; 0x1d7e2; 0x1d7ec; 0x1d7f6; 0x1e140; 0x1e2f0; 0x1e4f0; 0x1e950;
   0x1fbf0].

Definition digit (c : Z) : option Z :=
  (fun zero => c - zero) <$> find (fun zero => in_range zero (zero + 9) c) DIGIT_ZEROS.
Definition is_digit (c : Z) : bool := bool_decide (is_Some (digit c)).

(** [re.IGNORECASE] folds the dotted and dotless i, the long s and the Kelvin sign as well. *)
Definition same_letter_ignoring_case (c letter : Z) : bool :=
  (to_ascii_lowercase c =? letter)
  || ((letter =? chr "i") && one_of [0x130; 0x131] c)
  || ((letter =? chr "s") && (c =? 0x17f))
  || ((letter =? chr "k") && (c =? 0x212a)).

(** ** Patterns *)
(** A repeat with no [max] is one to [usize::MAX]. *)
Inductive Pat :=
| Class (predicate : Z -> bool)
| Lit (chars : text)
| ILit (chars : text)
| Seq (parts : list Pat)
| Alt (options : list Pat)
| Rep (pat : Pat) (min : nat) (max : option nat) (greedy : bool)
| Ahead (pat : Pat) (negate : bool)
| Behind (class : Z -> bool) (negate : bool)
| Boundary.

Definition lit_pat (t : text) : Pat := Lit t.
Definition opt (p : Pat) : Pat := Rep p 0 (Some 1%nat) true.
Definition star (p : Pat) : Pat := Rep p 0 None true.
Definition plus (p : Pat) : Pat := Rep p 1 None true.
Definition repeated (p : Pat) (min max : nat) : Pat := Rep p min (Some max) true.
Definition not_ahead (p : Pat) : Pat := Ahead p true.
Definition not_behind (class : Z -> bool) : Pat := Behind class true.

Section Matching.
Context `{Unicode} (t : text).

Definition char_at (at_ : nat) : option Z := t !! at_.
Definition char_before (at_ : nat) : option Z := match at_ with O => None | S i => t !! i end.
Definition holds_at (f : Z -> bool) (c : option Z) : bool := match c with Some c => f c | None => false end.

(** [want] against what stands at an offset, under [re.IGNORECASE]. *)
Definition same_char (want got : Z) : bool :=
  if is_ascii_alphabetic want then same_letter_ignoring_case got want else want =? got.
Definition same_chars (chars : text) (at_ : nat) : bool :=
  (at_ + length chars <=? length t)%nat
  && forallb (fun wg => same_char wg.1 wg.2) (zip chars (drop at_ t)).

Definition below (max : option nat) (count : nat) : bool :=
  match max with Some max => (count <? max)%nat | None => true end.

(** [repeat]: the iterations left to try from [count], the pattern's ends given by [f]. *)
Fixpoint repeat_ends (f : nat -> list nat) (min : nat) (max : option nat) (greedy : bool) (fuel count at_ : nat)
  : list nat :=
  let here := if (min <=? count)%nat then [at_] else [] in
  let more :=
    match fuel with
    | O => []
    | S fuel =>
        if below max count then
          concat (map (fun e =>
            if negb (e =? at_)%nat || (count <? min)%nat
            then repeat_ends f min max greedy fuel (S count) e else []) (f at_))
        else []
    end in
  if greedy then more ++ here else here ++ more.

(** Iterations past the minimum each take at least one character. *)
Definition repeat_fuel (min at_ : nat) : nat := (min + (length t - at_))%nat.

Fixpoint ends (p : Pat) (at_ : nat) {struct p} : list nat :=
  match p with
  | Class predicate => if holds_at predicate (char_at at_) then [S at_] else []
  | Lit chars => if teqb (take (length chars) (drop at_ t)) chars then [(at_ + length chars)%nat] else []
  | ILit chars => if same_chars chars at_ then [(at_ + length chars)%nat] else []
  | Seq parts =>
      (fix seq (parts : list Pat) (at_ : nat) : list nat :=
         match parts with
         | [] => [at_]
         | first :: rest => concat (map (seq rest) (ends first at_))
         end) parts at_
  | Alt options => concat (map (fun option => ends option at_) options)
  | Rep pat min max greedy => repeat_ends (ends pat) min max greedy (repeat_fuel min at_) 0 at_
  | Ahead pat negate => if Bool.eqb (is_empty (ends pat at_)) negate then [at_] else []
  | Behind class negate => if Bool.eqb (holds_at class (char_before at_)) negate then [] else [at_]
  | Boundary =>
      if Bool.eqb (holds_at is_word (char_before at_)) (holds_at is_word (char_at at_)) then [] else [at_]
  end.

Definition match_at (p : Pat) (at_ : nat) : option nat := head (ends p at_).

(** [(from..=len).find_map]: [count] positions from [from]. *)
Fixpoint search_from (p : Pat) (count from : nat) : option (nat * nat) :=
  match match_at p from with
  | Some e => Some (from, e)
  | None => match count with O => None | S count => search_from p count (S from) end
  end.
Definition search (p : Pat) (from : nat) : option (nat * nat) :=
  if (from <=? length t)%nat then search_from p (length t - from) from else None.

(** [find_iter]: the scan moves on after each match, so the length bounds its turns. *)
Fixpoint find_from (p : Pat) (fuel at_ : nat) : list (nat * nat) :=
  match fuel with
  | O => []
  | S fuel =>
      match search p at_ with
      | Some (start, e) => (start, e) :: find_from p fuel (if (e =? start)%nat then S e else e)
      | None => []
      end
  end.
Definition find_iter (p : Pat) : list (nat * nat) := find_from p (S (S (length t))) 0.

Definition full_match (p : Pat) : bool := existsb (Nat.eqb (length t)) (ends p 0).
End Matching.

(** * Properties *)
(** ** What a pattern means *)
Section Meaning.
Context `{Unicode} (t : text).

(** [n] iterations of a relation. *)
Inductive iterate (R : nat -> nat -> Prop) : nat -> nat -> nat -> Prop :=
| iterate_none at_ : iterate R 0 at_ at_
| iterate_more n at_ mid e : R at_ mid -> iterate R n mid e -> iterate R (S n) at_ e.

Fixpoint follow (Rs : list (nat -> nat -> Prop)) (at_ e : nat) : Prop :=
  match Rs with
  | [] => e = at_
  | R :: Rs => exists mid, R at_ mid /\ follow Rs mid e
  end.

(** A match of the pattern can start at one offset and end at the other. *)
Fixpoint reach (p : Pat) (at_ e : nat) {struct p} : Prop :=
  match p with
  | Class predicate => exists c, t !! at_ = Some c /\ predicate c = true /\ e = S at_
  | Lit chars => take (length chars) (drop at_ t) = chars /\ e = (at_ + length chars)%nat
  | ILit chars =>
      e = (at_ + length chars)%nat /\
      Forall2 (fun want got => same_char want got = true) chars (take (length chars) (drop at_ t))
  | Seq parts => follow (map reach parts) at_ e
  | Alt options => Exists (fun R => R at_ e) (map reach options)
  | Rep pat min max _ =>
      exists n, (min <= n)%nat /\ (forall m, max = Some m -> (n <= m)%nat) /\ iterate (reach pat) n at_ e
  | Ahead pat negate => e = at_ /\ (if negate then ~ exists e, reach pat at_ e else exists e, reach pat at_ e)
  | Behind class negate =>
      e = at_ /\ (if negate then ~ exists c, char_before t at_ = Some c /\ class c = true
                  else exists c, char_before t at_ = Some c /\ class c = true)
  | Boundary =>
      e = at_ /\ holds_at is_word (char_before t at_) <> holds_at is_word (char_at t at_)
  end.
End Meaning.

Section Pat_induction.
Context (P : Pat -> Prop).
Context (Hclass : forall f, P (Class f)) (Hlit : forall c, P (Lit c)) (Hilit : forall c, P (ILit c)).
Context (Hseq : forall ps, Forall P ps -> P (Seq ps)) (Halt : forall ps, Forall P ps -> P (Alt ps)).
Context (Hrep : forall p min max greedy, P p -> P (Rep p min max greedy)).
Context (Hahead : forall p negate, P p -> P (Ahead p negate)) (Hbehind : forall f negate, P (Behind f negate)).
Context (Hboundary : P Boundary).

Lemma Pat_induction : forall p, P p.
Proof.
  fix IH 1. intros [f|c|c|ps|ps|p min max greedy|p negate|f negate|].
  - apply Hclass.
  - apply Hlit.
  - apply Hilit.
  - apply Hseq. revert ps. fix go 1. intros [|p ps]; constructor; [apply IH|apply go].
  - apply Halt. revert ps. fix go 1. intros [|p ps]; constructor; [apply IH|apply go].
  - apply Hrep, IH.
  - apply Hahead, IH.
  - apply Hbehind.
  - apply Hboundary.
Qed.
End Pat_induction.

Section Engine.
Context `{Unicode} (t : text).

(** A relation that never leaves the text or goes back. *)
Definition forward (R : nat -> nat -> Prop) : Prop :=
  forall at_ e, (at_ <= length t)%nat -> R at_ e -> (at_ <= e <= length t)%nat.

Lemma iterate_forward R : forward R -> forall n, forward (iterate R n).
Proof.
  intros HR n at_ e Hat Hi. induction Hi as [|n at_ mid e HRm _ IH]; [lia|].
  pose proof (HR _ _ Hat HRm). specialize (IH ltac:(lia)). lia.
Qed.

Lemma follow_forward Rs : Forall forward Rs -> forward (follow Rs).
Proof.
  induction 1 as [|R Rs HR _ IH]; intros at_ e Hat; cbn; [lia|]. intros (mid & Hm & Hf).
  pose proof (HR _ _ Hat Hm). pose proof (IH mid e ltac:(lia) Hf). lia.
Qed.

Lemma taken_fits (chars : text) at_ : (at_ <= length t)%nat -> length (take (length chars) (drop at_ t)) = length chars ->
  (at_ + length chars <= length t)%nat.
Proof. rewrite length_take, length_drop. lia. Qed.

Lemma reach_forward p : forward (reach t p).
Proof.
  revert p. apply Pat_induction; cbn [reach].
  - intros f at_ e Hat (c & Hc & _ & ->). apply lookup_lt_Some in Hc. lia.
  - intros c at_ e Hat [Hc ->]. assert (length (take (length c) (drop at_ t)) = length c) by (by rewrite Hc).
    apply taken_fits in H0; lia.
  - intros c at_ e Hat [-> Hc]. apply Forall2_length in Hc. symmetry in Hc. apply taken_fits in Hc; lia.
  - intros ps Hps. apply follow_forward. by apply Forall_map.
  - intros ps Hps at_ e Hat He. apply Exists_exists in He as (R & HR & He).
    apply list_elem_of_fmap in HR as (p & -> & Hp). rewrite Forall_forall in Hps. by apply (Hps p Hp).
  - intros p min max greedy Hp at_ e Hat (n & _ & _ & Hi). by eapply iterate_forward.
  - intros p negate _ at_ e Hat [-> _]. lia.
  - intros f negate at_ e Hat [-> _]. lia.
  - intros at_ e Hat [-> _]. lia.
Qed.

(** What [f] lists is what the relation allows. *)
Definition lists (f : nat -> list nat) (R : nat -> nat -> Prop) : Prop :=
  forall at_ e, (at_ <= length t)%nat -> e ∈ f at_ <-> R at_ e.

Lemma elem_of_concat_map {A B} (f : A -> list B) l b : b ∈ concat (map f l) <-> exists a, a ∈ l /\ b ∈ f a.
Proof.
  rewrite list_elem_of_In, in_concat. split.
  - intros (x & Hx & Hb). apply in_map_iff in Hx as (a & <- & Ha). exists a. by rewrite !list_elem_of_In.
  - intros (a & Ha & Hb). exists (f a). rewrite list_elem_of_In in Hb. split; [|done].
    apply in_map. by apply list_elem_of_In.
Qed.

Section Repeat.
Context (f : nat -> list nat) (R : nat -> nat -> Prop) (Hf : lists f R) (HR : forward R).
Context (min : nat) (max : option nat) (greedy : bool).

Lemma repeat_ends_elem fuel count at_ e : e ∈ repeat_ends f min max greedy fuel count at_ <->
  (e = at_ /\ (min <= count)%nat) \/
  exists fuel', fuel = S fuel' /\ below max count = true /\
    exists mid, mid ∈ f at_ /\ (mid <> at_ \/ (count < min)%nat) /\ e ∈ repeat_ends f min max greedy fuel' (S count) mid.
Proof.
  assert (Hhere : e ∈ (if (min <=? count)%nat then [at_] else []) <-> e = at_ /\ (min <= count)%nat).
  { destruct (Nat.leb_spec min count); [rewrite list_elem_of_singleton; intuition lia|].
    split; [by intros ?%not_elem_of_nil|lia]. }
  destruct fuel as [|fuel]; cbn [repeat_ends].
  { destruct greedy; rewrite ?app_nil_r, ?app_nil_l, Hhere; firstorder done. }
  match goal with |- e ∈ (if greedy then ?more ++ ?here else _) <-> _ =>
    transitivity (e ∈ here \/ e ∈ more); [destruct greedy; rewrite elem_of_app; tauto|] end.
  rewrite Hhere. apply or_iff_compat_l. destruct (below max count).
  2: { split; [by intros ?%not_elem_of_nil|]. by intros (? & _ & ? & _). }
  rewrite elem_of_concat_map. split.
  - intros (mid & Hm & He). exists fuel. split_and!; [done|done|]. exists mid. split; [done|].
    destruct (Nat.eqb_spec mid at_), (Nat.ltb_spec count min); cbn in He; try (split; [lia|done]).
    by apply not_elem_of_nil in He.
  - intros (fuel' & [= <-] & _ & mid & Hm & Hne & He). exists mid. split; [done|].
    destruct (Nat.eqb_spec mid at_), (Nat.ltb_spec count min); cbn; try done. lia.
Qed.

Lemma repeat_ends_sound fuel : forall count at_ e, (at_ <= length t)%nat ->
  e ∈ repeat_ends f min max greedy fuel count at_ ->
  exists n, iterate R n at_ e /\ (min <= count + n)%nat /\ (forall m, max = Some m -> n = 0 \/ count + n <= m)%nat.
Proof.
  induction fuel as [|fuel IH]; intros count at_ e Hat He; apply repeat_ends_elem in He as [[-> Hc]|He].
  - exists 0%nat. split_and!; [constructor|lia|by left].
  - by destruct He as (? & ? & _).
  - exists 0%nat. split_and!; [constructor|lia|by left].
  - destruct He as (fuel' & [= <-] & Hb & mid & Hm & _ & He).
    apply Hf in Hm; [|done]. pose proof (HR _ _ Hat Hm) as Hmid.
    destruct (IH (S count) mid e ltac:(lia) He) as (n & Hi & Hn & Hmax).
    exists (S n). split_and!; [by econstructor|lia|]. intros m ->. specialize (Hmax m eq_refl).
    cbn in Hb. apply Nat.ltb_lt in Hb. lia.
Qed.

Lemma repeat_ends_complete n : forall fuel count at_ e, (at_ <= length t)%nat -> iterate R n at_ e ->
  (min <= count + n)%nat -> (forall m, max = Some m -> count + n <= m)%nat ->
  ((min - count) + (length t - at_) <= fuel)%nat ->
  e ∈ repeat_ends f min max greedy fuel count at_.
Proof.
  induction n as [|n IH]; intros fuel count at_ e Hat Hi Hmin Hmax Hfuel; apply repeat_ends_elem.
  - inversion Hi; subst. left. split; [done|lia].
  - inversion Hi as [|? ? mid ? HRm Hi']; subst. pose proof (HR _ _ Hat HRm) as Hmid.
    destruct (decide (mid = at_ /\ min <= count)%nat) as [[-> Hc]|Hne].
    + apply repeat_ends_elem. apply IH; [done|done|lia|intros m E; specialize (Hmax m E); lia|done].
    + destruct fuel as [|fuel]; [lia|]. right. exists fuel. split; [done|]. split.
      { unfold below. destruct max as [m|]; [|done]. apply Nat.ltb_lt. specialize (Hmax m eq_refl). lia. }
      exists mid. split_and!; [by apply Hf|lia|].
      apply IH; [lia|done|lia|intros m E; specialize (Hmax m E); lia|lia].
Qed.

Lemma repeat_ends_lists : lists (fun at_ => repeat_ends f min max greedy (repeat_fuel t min at_) 0 at_)
  (fun at_ e => exists n, (min <= n)%nat /\ (forall m, max = Some m -> (n <= m)%nat) /\ iterate R n at_ e).
Proof.
  intros at_ e Hat. split.
  - intros He. destruct (repeat_ends_sound _ _ _ _ Hat He) as (n & Hi & Hn & Hmax).
    exists n. split_and!; [lia| |done]. intros m E. specialize (Hmax m E). lia.
  - intros (n & Hn & Hmax & Hi). eapply repeat_ends_complete; [done|done|lia|done|]. unfold repeat_fuel. lia.
Qed.
End Repeat.

Lemma seq_lists ps : Forall (fun p => lists (ends t p) (reach t p)) ps -> lists (ends t (Seq ps)) (reach t (Seq ps)).
Proof.
  induction 1 as [|p ps Hp _ IH]; intros at_ e Hat; cbn [ends reach map follow].
  { by rewrite list_elem_of_singleton. }
  rewrite elem_of_concat_map. split; intros (mid & Hm & He); exists mid.
  - apply Hp in Hm; [|done]. pose proof (reach_forward p _ _ Hat Hm). split; [done|]. by apply IH; [lia|].
  - pose proof (reach_forward p _ _ Hat Hm). split; [by apply Hp|]. by apply IH; [lia|].
Qed.

Lemma alt_lists ps : Forall (fun p => lists (ends t p) (reach t p)) ps -> lists (ends t (Alt ps)) (reach t (Alt ps)).
Proof.
  intros Hps at_ e Hat. cbn [ends reach]. rewrite elem_of_concat_map, Exists_exists. rewrite Forall_forall in Hps. split.
  - intros (p & Hp & He). exists (reach t p). split; [by apply list_elem_of_fmap_2|]. by apply (Hps p Hp).
  - intros (R & HR & He). apply list_elem_of_fmap in HR as (p & -> & Hp). exists p. split; [done|]. by apply (Hps p Hp).
Qed.

Lemma elem_if (b : bool) (x y : nat) : x ∈ (if b then [y] else []) <-> b = true /\ x = y.
Proof. destruct b; rewrite ?list_elem_of_singleton; [intuition|]. split; [by intros ?%not_elem_of_nil|by intros []]. Qed.

Lemma elem_unless (b : bool) (x y : nat) : x ∈ (if b then [] else [y]) <-> b = false /\ x = y.
Proof. destruct b; rewrite ?list_elem_of_singleton; [|intuition]. split; [by intros ?%not_elem_of_nil|by intros []]. Qed.

Lemma holds_at_spec f c : holds_at f c = true <-> exists d, c = Some d /\ f d = true.
Proof. destruct c as [d|]; cbn; [|by split; [|intros (? & ? & _)]]. split; [eauto|]. by intros (? & [= <-] & ?). Qed.

Lemma same_chars_spec chars at_ : (at_ <= length t)%nat -> same_chars t chars at_ = true <->
  Forall2 (fun want got => same_char want got = true) chars (take (length chars) (drop at_ t)).
Proof.
  intros Hat. unfold same_chars. rewrite andb_true_iff, Nat.leb_le.
  assert (Hl : (at_ + length chars <= length t)%nat <-> (length chars <= length (drop at_ t))%nat)
    by (rewrite length_drop; lia).
  rewrite Hl. generalize (drop at_ t) as rest. clear Hl Hat. induction chars as [|c chars IH]; intros rest; cbn.
  { split; [constructor|]. intros _. split; [lia|done]. }
  destruct rest as [|d rest]; cbn; [split; [lia|by inversion 1]|]. rewrite andb_true_iff. specialize (IH rest). split.
  - intros (Hlen & Hs & Hr). constructor; [done|]. apply IH. split; [lia|done].
  - intros Hf. apply Forall2_cons in Hf as [Hs Hr]. apply IH in Hr as [Hlen Hr]. split_and!; [lia|done|done].
Qed.

Lemma ends_lists p : lists (ends t p) (reach t p).
Proof.
  revert p. apply Pat_induction.
  - intros f at_ e Hat. cbn [ends reach]. rewrite elem_if, holds_at_spec. unfold char_at. firstorder.
  - intros c at_ e Hat. cbn [ends reach]. rewrite elem_if. unfold teqb. by rewrite bool_decide_eq_true.
  - intros c at_ e Hat. cbn [ends reach]. rewrite elem_if, same_chars_spec by done. tauto.
  - apply seq_lists.
  - apply alt_lists.
  - intros p min max greedy Hp. apply repeat_ends_lists; [done|apply reach_forward].
  - intros p negate Hp at_ e Hat. cbn [ends reach]. rewrite elem_if.
    assert (Hf : is_empty (ends t p at_) = true <-> ~ exists e, reach t p at_ e).
    { specialize (fun e => Hp at_ e Hat). destruct (ends t p at_) as [|x xs]; cbn.
      - split; [|done]. intros _ (x & Hx). apply Hp in Hx. by apply not_elem_of_nil in Hx.
      - split; [done|]. intros Hn. exfalso. apply Hn. exists x. apply Hp. by left. }
    rewrite eqb_true_iff. destruct negate; [rewrite Hf; tauto|].
    rewrite <- not_true_iff_false, Hf. split.
    + intros [Hn ->]. split; [done|]. destruct (ends t p at_) as [|x xs] eqn:E.
      * exfalso. apply Hn. intros (y & Hy). apply Hp in Hy; [|done]. rewrite E in Hy. by apply not_elem_of_nil in Hy.
      * exists x. apply Hp; [done|]. rewrite E. by left.
    + intros [-> Hex]. split; [|done]. tauto.
  - intros f negate at_ e Hat. cbn [ends reach]. rewrite elem_unless, eqb_false_iff.
    pose proof (holds_at_spec f (char_before t at_)) as Hh.
    destruct negate, (holds_at f (char_before t at_)); intuition congruence.
  - intros at_ e Hat. cbn [ends reach]. rewrite elem_unless, eqb_false_iff. tauto.
Qed.

(** ** Searches *)
Lemma match_at_some p at_ e : (at_ <= length t)%nat -> match_at t p at_ = Some e -> reach t p at_ e.
Proof.
  unfold match_at. intros Hat Hh. apply ends_lists; [done|]. destruct (ends t p at_); [done|].
  injection Hh as ->. by left.
Qed.

Lemma match_at_none p at_ : (at_ <= length t)%nat -> match_at t p at_ = None <-> ~ exists e, reach t p at_ e.
Proof.
  unfold match_at. intros Hat. specialize (fun e => ends_lists p at_ e Hat).
  intros Hl. destruct (ends t p at_) as [|x xs]; cbn.
  - split; [|done]. intros _ (e & He). apply Hl in He. by apply not_elem_of_nil in He.
  - split; [done|]. intros Hn. exfalso. apply Hn. exists x. apply Hl. by left.
Qed.

(** What a search from an offset finds. *)
Definition first_match (p : Pat) (from : nat) (found : option (nat * nat)) : Prop :=
  match found with
  | Some (start, e) =>
      (from <= start <= length t)%nat /\ match_at t p start = Some e /\
      forall s, (from <= s < start)%nat -> ~ exists e, reach t p s e
  | None => forall s, (from <= s <= length t)%nat -> ~ exists e, reach t p s e
  end.

Lemma search_from_spec p count : forall from, (from + count = length t)%nat ->
  first_match p from (search_from t p count from).
Proof.
  induction count as [|count IH]; intros from Hc; cbn [search_from];
    destruct (match_at t p from) as [e|] eqn:E.
  - cbn. split_and!; [lia|lia|done|intros; lia].
  - apply match_at_none in E; [|lia]. intros s Hs. by replace s with from by lia.
  - cbn. split_and!; [lia|lia|done|intros; lia].
  - apply match_at_none in E; [|lia]. specialize (IH (S from) ltac:(lia)).
    destruct (search_from t p count (S from)) as [[s e]|]; cbn in *.
    + destruct IH as (Hs & Hm & Hno). split_and!; [lia|lia|done|].
      intros x Hx. destruct (decide (x = from)) as [->|]; [done|]. apply Hno. lia.
    + intros x Hx. destruct (decide (x = from)) as [->|]; [done|]. apply IH. lia.
Qed.

Lemma engine_search_spec p from : first_match p from (search t p from).
Proof.
  unfold search. destruct (Nat.leb_spec from (length t)).
  - apply search_from_spec. lia.
  - cbn. intros s Hs. lia.
Qed.

(** Matches that follow one another, from an offset on. *)
Fixpoint in_order (at_ : nat) (spans : list (nat * nat)) : Prop :=
  match spans with
  | [] => True
  | (start, e) :: spans => (at_ <= start <= e)%nat /\ in_order (if (e =? start)%nat then S e else e) spans
  end.

Lemma find_from_spec p fuel : forall at_, (S (length t) <= at_ + fuel)%nat ->
  in_order at_ (find_from t p fuel at_) /\
  Forall (fun se => match_at t p se.1 = Some se.2 /\ (se.2 <= length t)%nat) (find_from t p fuel at_) /\
  forall s, (at_ <= s <= length t)%nat -> (exists e, reach t p s e) ->
    exists start e, (start, e) ∈ find_from t p fuel at_ /\ (s = start \/ start < s < e)%nat.
Proof.
  induction fuel as [|fuel IH]; intros at_ Hfuel; cbn [find_from].
  { split_and!; [done|constructor|]. intros s Hs. lia. }
  pose proof (engine_search_spec p at_) as Hfound. destruct (search t p at_) as [[start e]|].
  2: { split_and!; [done|constructor|]. intros s Hs He. by destruct (Hfound s Hs). }
  destruct Hfound as (Hs & Hm & Hno). pose proof (match_at_some _ _ _ (proj2 Hs) Hm) as Hreach.
  pose proof (reach_forward p _ _ (proj2 Hs) Hreach) as Hfwd.
  destruct (IH (if (e =? start)%nat then S e else e)) as (Ho & Hf & Hcover).
  { destruct (Nat.eqb_spec e start); lia. }
  split_and!.
  - cbn. split; [lia|done].
  - constructor; [cbn [fst snd]; split; [done|lia]|done].
  - intros s Hs' Hex. destruct (decide (s < start)%nat); [by destruct (Hno s ltac:(lia))|].
    destruct (decide (s = start)) as [->|]; [exists start, e; split; [by left|by left]|].
    destruct (decide (s < e)%nat); [exists start, e; split; [by left|right; lia]|].
    destruct (Hcover s) as (a & b & Hin & Hab); [destruct (Nat.eqb_spec e start); lia|done|].
    exists a, b. split; [by right|done].
Qed.

(** C36: The engine finds what a pattern means: from any offset of a text, the ends [ends] lists,
    and it always returns, are exactly those at which the pattern can match, whatever its repeats,
    alternatives and lookarounds, empty iterations included; none lies outside the text. *)
Theorem ends_exact p at_ : (at_ <= length t)%nat ->
  (forall e, e ∈ ends t p at_ <-> reach t p at_ e) /\ Forall (fun e => (at_ <= e <= length t)%nat) (ends t p at_).
Proof.
  intros Hat. split; [intros e; by apply ends_lists|]. apply Forall_forall. intros e He.
  apply (reach_forward p); [done|]. by apply ends_lists.
Qed.

(** [find_iter] finds what [re.finditer] does: matches from left to right that do not
    overlap, each ending where the engine's first try does, and every offset at which a match
    could start either starts one or lies inside one. *)
Theorem find_iter_exact p :
  in_order 0 (find_iter t p) /\
  Forall (fun se => match_at t p se.1 = Some se.2 /\ (se.2 <= length t)%nat) (find_iter t p) /\
  forall s, (s <= length t)%nat -> (exists e, reach t p s e) ->
    exists start e, (start, e) ∈ find_iter t p /\ (s = start \/ start < s < e)%nat.
Proof.
  destruct (find_from_spec p (S (S (length t))) 0 ltac:(lia)) as (Ho & Hf & Hc). unfold find_iter.
  split_and!; [done|done|]. intros s Hs. apply Hc. lia.
Qed.

Theorem full_match_exact p : full_match t p = true <-> reach t p 0 (length t).
Proof.
  unfold full_match. rewrite existsb_exists, <- (ends_lists p 0%nat (length t)) by lia. split.
  - intros (e & Hin & E). apply Nat.eqb_eq in E. subst e. by apply list_elem_of_In.
  - intros He. exists (length t). split; [by apply list_elem_of_In|apply Nat.eqb_refl].
Qed.
End Engine.

(** ** Examples *)
Section Examples.
#[local] Existing Instance ascii_unicode.

(** [\b\d[\d,]*\b]. *)
Definition count_pattern : Pat :=
  Seq [Boundary; Class is_digit; star (Class (fun c => is_digit c || (c =? chr ","))); Boundary].
Definition count_text : text := lit "x 1,234, 5 a12".

Theorem ends_exact_witness :
  ends count_text count_pattern 2 = [7%nat; 4%nat; 3%nat] /\
  (forall e, e ∈ ends count_text count_pattern 2 <-> reach count_text count_pattern 2 e) /\
  Forall (fun e => (2 <= e <= length count_text)%nat) (ends count_text count_pattern 2).
Proof. split; [vm_compute; reflexivity|]. apply (ends_exact count_text count_pattern 2). vm_compute. lia. Defined.

Example counts_found : find_iter count_text count_pattern = [(2%nat, 7%nat); (9%nat, 10%nat)].
Proof. vm_compute. reflexivity. Qed.

(** [a.*?b] stops at the first end that lets the rest match. *)
Example lazy_stops :
  search (lit "xaxbxb") (Seq [Lit (lit "a"); Rep (Class (fun c => negb (c =? 10))) 0 None false; Lit (lit "b")]) 0
  = Some (1%nat, 4%nat).
Proof. vm_compute. reflexivity. Qed.
End Examples.
