(* ===== verification/Spans.v ===== *)
(** The spans code cuts from a page: [crates/fastbrowse-agent/src/retrieval/text.rs] and
    [retrieval/chunks.rs].

    Offsets are code points, clamped as a Python slice clamps them.  [evidence] is the one way a
    quote is made, so a quote is always the capture's own words at the offsets it records. *)

From S2P Require Import Prelude Float64 PyText Json DateTime Models Page Effects Notes Pyre.

(** ** Slices *)
Definition page_len (c : Capture) : Z := Z.of_nat (length (cap_text c)).
Definition clamp_at (c : Capture) (at_ : Z) : nat := Z.to_nat (Z.min (Z.max at_ 0) (page_len c)).

(** [slice] of a text, by offsets within it or past its end. *)
Definition slice (t : text) (start end_ : nat) : text :=
  let count := length t in
  let '(start, end_) := (Nat.min start count, Nat.min end_ count) in
  if (end_ <=? start)%nat then [] else take (end_ - start) (drop start t).

(** [Page::slice]. *)
Definition page_slice (c : Capture) (start end_ : Z) : text :=
  let '(start, end_) := (clamp_at c start, clamp_at c end_) in
  if (end_ <=? start)%nat then [] else take (end_ - start) (drop start (cap_text c)).

(** ** Lines *)
Definition line_break (c : Z) : bool :=
  one_of [10; 13; 0xb; 0xc; 0x1c; 0x1d; 0x1e; 0x85; 0x2028; 0x2029] c.

Fixpoint splitlines_from (chars : text) (fuel start at_ : nat) : list (nat * nat) :=
  match fuel with
  | O => []
  | S fuel =>
      match chars !! at_ with
      | None => if (start <? length chars)%nat then [(start, length chars)] else []
      | Some c =>
          if line_break c then
            let end_ := if (c =? 13) && bool_decide (chars !! S at_ = Some 10) then (at_ + 2)%nat else S at_ in
            (start, end_) :: splitlines_from chars fuel end_ end_
          else splitlines_from chars fuel start (S at_)
      end
  end.
Definition splitlines (chars : text) : list (nat * nat) := splitlines_from chars (S (length chars)) 0 0.

Definition span_of (chars : text) (span : nat * nat) : text := take (span.2 - span.1) (drop span.1 chars).

Definition lines_of (v : text) : list text := map (fun l => trim_end line_break (span_of v l)) (splitlines v).

Section Tables.
Definition separator_row (line : text) : bool :=
  negb (is_empty line) && forallb (fun c => is_space c || one_of (lit ":|-") c) line && contains_sub line (lit "---").

Definition table_header_from_text (v : text) : option text :=
  match splitlines v with
  | first :: second :: _ => if separator_row (span_of v second) then Some (span_of v (first.1, second.2)) else None
  | _ => None
  end.

(** [\|(?:\s*-+\s*\|)+\s*]. *)
Definition dash_row_pattern : Pat :=
  Seq [Lit (lit "|");
       plus (Seq [star (Class is_space); plus (Lit (lit "-")); star (Class is_space); Lit (lit "|")]);
       star (Class is_space)].
Definition dash_row `{Unicode} (line : text) : bool := full_match line dash_row_pattern.

Definition leading_spaces (t : text) : nat := length t - length (trim_start is_space t).

(** The lazy group of a cell, from where it starts: the first end a pipe follows. *)
Fixpoint cell_end (line : text) (fuel end_ : nat) : option (nat * nat) :=
  match fuel with
  | O => None
  | S fuel =>
      let next :=
        match line !! end_ with
        | None => None
        | Some c =>
            if (c =? chr "|") || (c =? 10) then None
            else if c =? 92 then
              match line !! S end_ with Some d => if d =? 10 then None else Some (end_ + 2)%nat | None => None end
            else Some (S end_)
        end in
      match next with
      | None => None
      | Some end_ =>
          let close := (end_ + leading_spaces (drop end_ line))%nat in
          if bool_decide (line !! close = Some (chr "|")) then Some (end_, close) else cell_end line fuel end_
      end
  end.

Fixpoint first_some {A B} (f : A -> option B) (l : list A) : option B :=
  match l with [] => None | a :: l => match f a with Some b => Some b | None => first_some f l end end.

(** A cell from just after a pipe: where it starts and stops, and where the match ends. *)
Definition cell_at (line : text) (at_ : nat) : option (nat * nat * nat) :=
  first_some (fun taken =>
    let start := (at_ + taken)%nat in
    (fun ec => (start, ec.1, ec.2)) <$> cell_end line (S (length line)) start)
    (rev (seq 0 (S (leading_spaces (drop at_ line))))).

Fixpoint row_cells (line : text) (offset fuel at_ : nat) : list (nat * nat * text) :=
  match fuel with
  | O => []
  | S fuel =>
      if (at_ <=? length line)%nat then
        match (if bool_decide (line !! (at_ - 1)%nat = Some (chr "|")) then cell_at line at_ else None) with
        | Some (start, stop, close) =>
            ((offset + start)%nat, (offset + stop)%nat, span_of line (start, stop))
              :: row_cells line offset fuel (Nat.max close (S at_))
        | None => row_cells line offset fuel (S at_)
        end
      else []
  end.

Definition cells `{Unicode} (table : text) : list (nat * nat * text) :=
  concat (map (fun l =>
    let line := span_of table l in
    if dash_row line then [] else row_cells line l.1 (S (length line)) 1) (splitlines table)).
End Tables.

(** ** Values *)
Inductive SpanKind := SpanStr | SpanBool | SpanDate | SpanNumber.

Definition at_end (chars : text) (at_ : nat) : bool :=
  (at_ =? length chars)%nat || ((S at_ =? length chars)%nat && bool_decide (chars !! at_ = Some 10)).

(** Where a sentence that reaches [end_] stops. *)
Fixpoint sentence_end (chars : text) (fuel end_ : nat) : nat :=
  match fuel with
  | O => end_
  | S fuel =>
      if holds_at (one_of (lit ".!?")) (chars !! end_)
         && (holds_at (one_of [32; 9]) (chars !! S end_) || at_end chars (S end_))
      then S end_
      else if bool_decide (chars !! end_ = Some 10) || at_end chars end_ then end_
      else sentence_end chars fuel (S end_)
  end.

Fixpoint sentences_from (chars : text) (fuel at_ : nat) : list (nat * nat) :=
  match fuel with
  | O => []
  | S fuel =>
      match find_char (fun c => negb (is_space c)) (drop at_ chars) with
      | None => []
      | Some skip =>
          let start := (at_ + skip)%nat in
          let end_ := sentence_end chars (S (length chars)) (S start) in
          (start, end_) :: sentences_from chars fuel end_
      end
  end.
Definition sentences (chars : text) : list (nat * nat) := sentences_from chars (S (length chars)) 0.

Definition currency (c : Z) : bool := one_of [36; 0xa3; 0x20ac; 0xa5] c.
Definition sign (c : Z) : bool := (c =? chr "+") || (c =? chr "-").

Section Values.
Context `{Unicode}.

Definition digit_pat : Pat := Class is_digit.
Definition span_pattern (kind : SpanKind) : Pat :=
  match kind with
  | SpanStr => Alt []
  | SpanBool => Seq [Boundary; Alt [ILit (lit "true"); ILit (lit "false"); ILit (lit "yes"); ILit (lit "no")]; Boundary]
  | SpanDate =>
      Seq [not_behind is_digit; repeated digit_pat 4 4; Lit (lit "-"); repeated digit_pat 2 2; Lit (lit "-");
           repeated digit_pat 2 2; not_ahead digit_pat]
  | SpanNumber =>
      Seq [not_behind (fun c => is_word c || (c =? chr ".") || (c =? chr ","));
           Alt [Seq [Alt [Seq [opt (Class sign); Class currency]; Seq [Class currency; opt (Class sign)]];
                     star (Class (fun c => (c =? 32) || (c =? 9)))];
                opt (Class sign)];
           Alt [Seq [repeated digit_pat 1 3; plus (Seq [Lit (lit ","); repeated digit_pat 3 3])]; plus digit_pat];
           opt (Seq [Lit (lit "."); plus digit_pat]);
           not_ahead (Alt [Class (fun c => is_word c || (c =? chr ",")); Seq [Lit (lit "."); digit_pat]])]
  end.

Definition spans (v : text) (kind : SpanKind) : list (nat * nat * text) :=
  map (fun se => (se, span_of v se))
    (match kind with SpanStr => sentences v | other => find_iter v (span_pattern other) end).

(** ** Words *)
(** [piece] says which piece this is, and of how many, of a word cut to a limit. *)
Record Word := mkWord { w_index : nat; w_start : nat; w_end : nat; w_piece : option (nat * nat);
                        w_starts : list nat; w_ends : list nat }.
Definition word_before (w : Word) (count : nat) : nat := nth (w_index w - count) (w_starts w) 0%nat.
Definition word_after (w : Word) (count : nat) : nat :=
  nth (Nat.min (w_index w + count) (length (w_ends w) - 1)) (w_ends w) 0%nat.

(** The last offset [rposition] finds. *)
Definition rposition (f : Z -> bool) (t : text) : option nat :=
  (fun i => (length t - 1 - i)%nat) <$> find_char f (rev t).

Definition trimmed_span (chars : text) (start end_ : nat) : list (nat * nat) :=
  let word := span_of chars (start, end_) in
  match find_char is_alphanumeric word, rposition is_alphanumeric word with
  | Some first, Some last => [((start + first)%nat, (start + last + 1)%nat)]
  | _, _ => []
  end.

(** The scan over [chars] and one space after them. *)
Fixpoint word_spans (chars rest : text) (at_ : nat) (from : option nat) : list (nat * nat) :=
  match rest with
  | [] => match from with Some start => trimmed_span chars start at_ | None => [] end
  | ch :: rest =>
      match is_whitespace ch, from with
      | false, None => word_spans chars rest (S at_) (Some at_)
      | true, Some start => trimmed_span chars start at_ ++ word_spans chars rest (S at_) None
      | _, _ => word_spans chars rest (S at_) from
      end
  end.

(** [(start..end).step_by(limit)], each piece with its number and, of more than one, their count. *)
Definition cut_word (limit : nat) (span : nat * nat) : list (nat * nat * option (nat * nat)) :=
  let '(start, end_) := span in
  let count := ((end_ - start + limit - 1) / limit)%nat in
  map (fun n =>
    let from := (start + n * limit)%nat in
    (from, Nat.min (from + limit) end_, if (1 <? count)%nat then Some (S n, count) else None)) (seq 0 count).

(** The words' spans, each with its piece. *)
Definition word_pieces (v : text) (limit : option nat) : list (nat * nat * option (nat * nat)) :=
  let spans := word_spans v v 0 None in
  match limit with
  | Some limit => if (0 <? limit)%nat then concat (map (cut_word limit) spans) else map (fun se => (se, None)) spans
  | None => map (fun se => (se, None)) spans
  end.

Definition words_of (v : text) (limit : option nat) : list Word :=
  let pieces := word_pieces v limit in
  let starts := map (fun p => p.1.1) pieces in
  let ends := map (fun p => p.1.2) pieces in
  imap (fun index p => mkWord index p.1.1 p.1.2 p.2 starts ends) pieces.

(** ** Quotes ([chunks.rs]) *)
Definition evidence_of (c : Capture) (b : Block) (start end_ : Z) : Evidence :=
  mkEvidence (b_source_id b) (default (cap_url c) (source_url b)) (b_frame_id b) (cap_captured_at c) (sha256 c)
    start end_ (page_slice c start end_)
    (complete_source b && (b_start b <=? start) && (start <? end_) && (end_ <=? b_end b)
     && is_empty (strip (page_slice c (b_start b) start)) && is_empty (strip (page_slice c end_ (b_end b))))
    (control_context b)
    (negb (existsb (fun item => bool_decide (kind item = ObservationBlock)
                                && (b_start item <? end_) && (start <? b_end item)) (blocks c)))
    (heading_path b) None.

Definition page_quotes (c : Capture) : list Evidence :=
  map (fun b => evidence_of c b (b_start b) (b_end b))
    (base.filter (fun b => negb (bool_decide (kind b = ObservationBlock)) && bool_decide (source_url b = None)
                           && negb (is_empty (strip (page_slice c (b_start b) (b_end b)))) = true) (blocks c)).

(** [whole_page_facts] ([choices.rs]). *)
Definition whole_page_facts (c : Capture) : list Fact :=
  map (fun b => let e := evidence_of c b (b_start b) (b_end b) in fact_read (strip (quote e)) e JevChoice)
    (base.filter (fun b => is_empty (strip (page_slice c (b_start b) (b_end b))) = false) (blocks c)).
End Values.

(** ** Spans of a text *)
Section SpanLaws.
Variable t : text.

Lemma span_drop a b : (a <= b)%nat -> span_of t (a, b) ++ drop b t = drop a t.
Proof.
  intros H. unfold span_of. cbn [fst snd].
  replace (drop b t) with (drop (b - a) (drop a t)) by (rewrite drop_drop; f_equal; lia). apply take_drop.
Qed.

Lemma span_join a b c : (a <= b <= c)%nat -> span_of t (a, b) ++ span_of t (b, c) = span_of t (a, c).
Proof.
  intros H. unfold span_of. cbn [fst snd].
  replace (drop b t) with (drop (b - a) (drop a t)) by (rewrite drop_drop; f_equal; lia).
  replace (c - a)%nat with ((b - a) + (c - b))%nat by lia. by rewrite take_take_drop.
Qed.

Lemma span_one b c : t !! b = Some c -> span_of t (b, S b) = [c].
Proof. intros H. unfold span_of. cbn [fst snd]. replace (S b - b)%nat with 1%nat by lia. by rewrite (drop_S _ _ _ H). Qed.

Lemma span_snoc a b c : (a <= b)%nat -> t !! b = Some c -> span_of t (a, S b) = span_of t (a, b) ++ [c].
Proof. intros H Hc. by rewrite <- (span_join a b (S b)), (span_one _ _ Hc) by lia. Qed.

Lemma span_empty a b : (b <= a)%nat -> span_of t (a, b) = [].
Proof. intros H. unfold span_of. cbn [fst snd]. by replace (b - a)%nat with 0%nat by lia. Qed.

Lemma span_lookup a b i : span_of t (a, b) !! i = if (i <? b - a)%nat then t !! (a + i)%nat else None.
Proof.
  unfold span_of. cbn [fst snd]. destruct (Nat.ltb_spec i (b - a)).
  - by rewrite lookup_take_lt, lookup_drop by lia.
  - by rewrite lookup_take_ge by lia.
Qed.

Lemma span_forall (P : Z -> Prop) a b :
  Forall P (span_of t (a, b)) <-> forall i c, (a <= i < b)%nat -> t !! i = Some c -> P c.
Proof.
  rewrite Forall_lookup. split.
  - intros H i c Hi Hc. apply (H (i - a)%nat). rewrite span_lookup. destruct (Nat.ltb_spec (i - a) (b - a)); [|lia].
    by replace (a + (i - a))%nat with i by lia.
  - intros H i c Hc. rewrite span_lookup in Hc. destruct (Nat.ltb_spec i (b - a)); [|done]. apply (H (a + i)%nat); [lia|done].
Qed.

(** *** Lines *)
(** A line runs to one break and holds no other; only the text's last may have none. *)
Definition is_line (l : nat * nat) : Prop :=
  (l.1 < l.2 <= length t)%nat /\
  exists body break, span_of t l = body ++ break /\ Forall (fun c => line_break c = false) body /\
    ((break = [] /\ l.2 = length t) \/ break = [13; 10] \/
     (exists c, break = [c] /\ line_break c = true /\ (c = 13 -> t !! l.2 <> Some 10))).

Lemma splitlines_from_spec fuel : forall start at_, (start <= at_ <= length t)%nat -> (length t < at_ + fuel)%nat ->
  Forall (fun c => line_break c = false) (span_of t (start, at_)) ->
  concat (map (span_of t) (splitlines_from t fuel start at_)) = drop start t /\
  Forall is_line (splitlines_from t fuel start at_).
Proof.
  induction fuel as [|fuel IH]; intros start at_ H Hf Hno; [lia|]. cbn [splitlines_from].
  destruct (t !! at_) as [c|] eqn:Ec.
  - pose proof (lookup_lt_Some _ _ _ Ec) as Hlt. destruct (line_break c) eqn:Eb.
    + set (two := (c =? 13) && bool_decide (t !! S at_ = Some 10)).
      set (stop := if two then (at_ + 2)%nat else S at_).
      assert (Hstop : (at_ < stop <= length t)%nat).
      { unfold stop, two. destruct (c =? 13); cbn [andb]; [case_bool_decide as E|lia]; [|lia].
        apply lookup_lt_Some in E. lia. }
      destruct (IH stop stop) as [Hcat Hlines]; [lia|lia|by rewrite span_empty|].
      split; [cbn [map concat]; rewrite Hcat; apply span_drop; lia|].
      constructor; [|done]. split; [cbn [fst snd]; lia|].
      exists (span_of t (start, at_)). subst stop. cbn [fst snd]. destruct two eqn:Et.
      * unfold two in Et. apply andb_true_iff in Et as [Ec' En]. apply Z.eqb_eq in Ec'. apply bool_decide_eq_true in En.
        subst c. exists [13; 10]. split; [|by auto].
        replace (at_ + 2)%nat with (S (S at_)) by lia.
        by rewrite (span_snoc start (S at_) 10), (span_snoc start at_ 13), <- app_assoc by (done || lia).
      * exists [c]. rewrite (span_snoc start at_ c) by (done || lia). split; [done|]. split; [done|]. right. right.
        exists c. split; [done|]. split; [done|]. intros -> E. unfold two in Et. rewrite Z.eqb_refl in Et.
        by rewrite bool_decide_eq_true_2 in Et.
    + apply IH; [lia|lia|]. rewrite (span_snoc start at_ c) by (done || lia). apply Forall_app. split; [done|by constructor].
  - apply lookup_ge_None in Ec. assert (at_ = length t) as -> by lia. destruct (Nat.ltb_spec start (length t)).
    + assert (Ed : span_of t (start, length t) = drop start t).
      { rewrite <- (span_drop start (length t)) by lia. by rewrite drop_all, app_nil_r. }
      split; [cbn [map concat]; by rewrite app_nil_r|]. constructor; [|done]. split; [cbn [fst snd]; lia|].
      exists (span_of t (start, length t)), []. rewrite app_nil_r. auto.
    + assert (start = length t) as -> by lia. by rewrite drop_all.
Qed.

(** *** Sentences *)
(** Where the pattern lets a sentence stop: after a stop a space, a tab or the end follows, before a newline, or at
    the text's end. *)
Definition stops_here (end_ : nat) : Prop :=
  end_ = length t \/ t !! end_ = Some 10 \/
  (exists c, t !! (end_ - 1)%nat = Some c /\ one_of (lit ".!?") c = true /\
    (holds_at (one_of [32; 9]) (t !! end_) = true \/ at_end t end_ = true)).

(** The sentences from [at_] on: each opens on a character that is not a space, holds no newline, stops where the
    pattern lets it, and only spaces lie outside them. *)
Inductive sentence_cover : nat -> list (nat * nat) -> Prop :=
| cover_end at_ : Forall (fun c => is_space c = true) (drop at_ t) -> sentence_cover at_ []
| cover_sentence at_ start end_ rest :
    (at_ <= start < end_)%nat -> (end_ <= length t)%nat ->
    Forall (fun c => is_space c = true) (span_of t (at_, start)) ->
    (exists c, t !! start = Some c /\ is_space c = false) ->
    Forall (fun c => c <> 10) (span_of t (start, end_)) -> stops_here end_ ->
    sentence_cover end_ rest -> sentence_cover at_ ((start, end_) :: rest).

Lemma sentence_end_spec fuel : forall start end_, (start <= end_ <= length t)%nat -> (length t < end_ + fuel)%nat ->
  Forall (fun c => c <> 10) (span_of t (start, end_)) ->
  let e := sentence_end t fuel end_ in
  (end_ <= e <= length t)%nat /\ Forall (fun c => c <> 10) (span_of t (start, e)) /\ stops_here e.
Proof.
  induction fuel as [|fuel IH]; intros start end_ H Hf Hno; [lia|]. cbn [sentence_end].
  destruct (t !! end_) as [c|] eqn:Ec.
  - pose proof (lookup_lt_Some _ _ _ Ec) as Hlt. cbn [holds_at].
    destruct (one_of (lit ".!?") c && _) eqn:Estop.
    + apply andb_true_iff in Estop as [Hc Hn]. apply orb_true_iff in Hn.
      split; [lia|]. split.
      * rewrite (span_snoc start end_ c) by (done || lia). apply Forall_app. split; [done|].
        constructor; [|done]. by intros ->.
      * right. right. exists c. by replace (S end_ - 1)%nat with end_ by lia.
    + destruct (bool_decide (Some c = Some 10) || at_end t end_) eqn:En.
      * split; [lia|]. split; [done|]. apply orb_true_iff in En as [En|En].
        -- apply bool_decide_eq_true in En. right. left. congruence.
        -- unfold at_end in En. apply orb_true_iff in En as [En|En]; [apply Nat.eqb_eq in En; by left|].
           apply andb_true_iff in En as [_ En]. apply bool_decide_eq_true in En. right. left. congruence.
      * apply orb_false_iff in En as [En _]. apply bool_decide_eq_false in En.
        destruct (IH start (S end_)) as (H1 & H2 & H3); [lia|lia| |split_and!; try done; lia].
        rewrite (span_snoc start end_ c) by (done || lia). apply Forall_app. split; [done|]. constructor; [congruence|done].
  - apply lookup_ge_None in Ec. assert (end_ = length t) as -> by lia. cbn [holds_at andb].
    unfold at_end. rewrite Nat.eqb_refl, orb_true_r. split; [lia|]. split; [done|by left].
Qed.

Lemma find_char_here f at_ skip : find_char f (drop at_ t) = Some skip ->
  (exists c, t !! (at_ + skip)%nat = Some c /\ f c = true) /\
  Forall (fun c => f c = false) (span_of t (at_, (at_ + skip)%nat)).
Proof.
  intros H. apply find_char_spec in H as (_ & (c & Hc & Hf) & Hb). rewrite lookup_drop in Hc.
  split; [eauto|]. unfold span_of. cbn [fst snd]. by replace (at_ + skip - at_)%nat with skip by lia.
Qed.

Lemma sentences_from_spec fuel : forall at_, (at_ <= length t)%nat -> (length t < at_ + fuel)%nat ->
  sentence_cover at_ (sentences_from t fuel at_).
Proof.
  induction fuel as [|fuel IH]; intros at_ H Hf; [lia|]. cbn [sentences_from].
  destruct (find_char _ (drop at_ t)) as [skip|] eqn:Es.
  - apply find_char_here in Es as [(c & Hc & Hn) Hb]. pose proof (lookup_lt_Some _ _ _ Hc).
    apply negb_true_iff in Hn.
    destruct (sentence_end_spec (S (length t)) (at_ + skip) (S (at_ + skip))) as (H1 & H2 & H3); [lia|lia| |].
    + rewrite (span_one _ _ Hc). constructor; [|done]. by intros ->.
    + constructor; [lia|lia| |eauto|done|done|apply IH; lia].
      eapply Forall_impl; [exact Hb|]. intros d Hd. by apply negb_false_iff in Hd.
  - constructor. apply Forall_forall. intros c Hc.
    apply negb_false_iff. exact (find_char_none _ _ _ Es Hc).
Qed.
End SpanLaws.

(** ** Words *)
Section WordLaws.
Context `{Unicode} (t : text).

(** A run of the text with no whitespace in it that opens and closes on a letter or a digit. *)
Definition word_run (span : nat * nat) : Prop :=
  (span.1 < span.2 <= length t)%nat /\ Forall (fun c => is_whitespace c = false) (span_of t span).

Definition in_spans (i : nat) (spans : list (nat * nat)) : Prop :=
  exists span, span ∈ spans /\ (span.1 <= i < span.2)%nat.

Lemma span_at a b i c : (a <= i < b)%nat -> t !! i = Some c -> span_of t (a, b) !! (i - a)%nat = Some c.
Proof.
  intros Hi Hc. rewrite span_lookup. destruct (Nat.ltb_spec (i - a) (b - a)); [|lia].
  by replace (a + (i - a))%nat with i by lia.
Qed.

Lemma span_char a b j c : span_of t (a, b) !! j = Some c -> t !! (a + j)%nat = Some c /\ (a + j < b)%nat.
Proof. rewrite span_lookup. destruct (Nat.ltb_spec j (b - a)); [|done]. intros; split; [done|lia]. Qed.

Lemma rposition_spec f (v : text) j : rposition f v = Some j ->
  (exists c, v !! j = Some c /\ f c = true) /\ (forall i c, (j < i)%nat -> v !! i = Some c -> f c = false).
Proof.
  unfold rposition. destruct (find_char f (rev v)) as [back|] eqn:E; [|done]. cbn. intros [= <-].
  apply find_char_spec in E as (Hl & (c & Hc & Hf) & Hb). rewrite length_rev in Hl.
  rewrite rev_alt in Hc, Hb. change (rev_append v []) with (reverse v) in Hc, Hb.
  rewrite reverse_lookup in Hc by done.
  split; [exists c; split; [|done]; by replace (length v - 1 - back)%nat with (length v - S back)%nat by lia|].
  intros i d Hi Hd. pose proof (lookup_lt_Some _ _ _ Hd). rewrite Forall_lookup in Hb.
  apply (Hb (length v - S i)%nat). rewrite lookup_take_lt, reverse_lookup by lia.
  by replace (length v - S (length v - S i))%nat with i by lia.
Qed.

Lemma rposition_none f (v : text) c : rposition f v = None -> c ∈ v -> f c = false.
Proof.
  unfold rposition. destruct (find_char f (rev v)) eqn:E; [done|]. intros _ Hc.
  apply (find_char_none _ _ _ E). by apply list_elem_of_In, in_rev, list_elem_of_In in Hc.
Qed.

Lemma trimmed_span_spec start end_ : (start <= end_ <= length t)%nat ->
  Forall (fun c => is_whitespace c = false) (span_of t (start, end_)) ->
  Forall word_run (trimmed_span t start end_) /\
  (forall i c, (start <= i < end_)%nat -> t !! i = Some c -> is_alphanumeric c = true ->
     in_spans i (trimmed_span t start end_)).
Proof.
  intros Hb Hw. unfold trimmed_span.
  destruct (find_char is_alphanumeric (span_of t (start, end_))) as [first|] eqn:Ef.
  2: { split; [constructor|]. intros i c Hi Hc Ha. exfalso. pose proof (span_at _ _ _ _ Hi Hc) as He.
       apply list_elem_of_lookup_2 in He. pose proof (find_char_none _ _ _ Ef He). congruence. }
  destruct (rposition is_alphanumeric (span_of t (start, end_))) as [last|] eqn:El.
  2: { split; [constructor|]. intros i c Hi Hc Ha. exfalso. pose proof (span_at _ _ _ _ Hi Hc) as He.
       apply list_elem_of_lookup_2 in He. pose proof (rposition_none _ _ _ El He). congruence. }
  apply find_char_spec in Ef as (Hf & (cf & Hcf & Haf) & Hbf). apply rposition_spec in El as [(cl & Hcl & Hal) Hbl].
  apply span_char in Hcl as [Hcl Hl].
  assert (Hmin : forall i c, (start <= i < end_)%nat -> t !! i = Some c -> is_alphanumeric c = true ->
                   (start + first <= i <= start + last)%nat).
  { intros i c Hi Hc Ha. pose proof (span_at _ _ _ _ Hi Hc) as He. split.
    - destruct (decide (start + first <= i)%nat); [done|]. exfalso.
      rewrite Forall_lookup in Hbf. specialize (Hbf (i - start)%nat c). rewrite lookup_take_lt in Hbf by lia.
      rewrite (Hbf He) in Ha. done.
    - destruct (decide (i <= start + last)%nat); [done|]. exfalso.
      rewrite (Hbl (i - start)%nat c) in Ha; [done|lia|done]. }
  apply span_char in Hcf as [Hcf Hf'].
  pose proof (Hmin (start + first)%nat cf ltac:(lia) Hcf Haf) as Hord.
  split.
  - constructor; [|constructor]. split; [cbn [fst snd]; lia|].
    apply span_forall. intros i c Hi Hc. rewrite span_forall in Hw. apply (Hw i c); [lia|done].
  - intros i c Hi Hc Ha. eexists. split; [apply list_elem_of_singleton; reflexivity|]. cbn [fst snd].
    pose proof (Hmin i c Hi Hc Ha). lia.
Qed.

Lemma in_spans_app i a b : in_spans i a \/ in_spans i b -> in_spans i (a ++ b).
Proof. intros [(s & Hs & Hi)|(s & Hs & Hi)]; exists s; rewrite elem_of_app; auto. Qed.

(** Letters and digits between blanks are what a word covers. *)
Definition word_char (i : nat) : Prop :=
  exists c, t !! i = Some c /\ is_alphanumeric c = true /\ is_whitespace c = false.

Lemma word_spans_spec rest : forall at_ from, rest = drop at_ t -> (at_ <= length t)%nat ->
  (forall start, from = Some start ->
     (start <= at_)%nat /\ Forall (fun c => is_whitespace c = false) (span_of t (start, at_))) ->
  Forall word_run (word_spans t rest at_ from) /\
  (forall i, (default at_ from <= i)%nat -> word_char i -> in_spans i (word_spans t rest at_ from)).
Proof.
  induction rest as [|ch rest IH]; intros at_ from Hrest Hat Hfrom; cbn [word_spans].
  - assert (at_ = length t) as -> by (apply (f_equal length) in Hrest; rewrite length_drop in Hrest; simpl in Hrest; lia).
    destruct from as [start|].
    + destruct (Hfrom start eq_refl) as [Hs Hw]. destruct (trimmed_span_spec start (length t)) as [H1 H2]; [lia|done|].
      split; [done|]. intros i Hi (c & Hc & Ha & _). pose proof (lookup_lt_Some _ _ _ Hc). apply (H2 i c); [simpl in Hi; lia|done|done].
    + split; [done|]. intros i Hi (c & Hc & _). pose proof (lookup_lt_Some _ _ _ Hc). simpl in Hi. lia.
  - assert (Hch : t !! at_ = Some ch) by (rewrite <- (Nat.add_0_r at_), <- lookup_drop, <- Hrest; done).
    pose proof (lookup_lt_Some _ _ _ Hch) as Hlt.
    assert (Hrest' : rest = drop (S at_) t).
    { rewrite (drop_S _ _ _ Hch) in Hrest. by injection Hrest. }
    destruct (is_whitespace ch) eqn:Ew, from as [start|].
    + destruct (Hfrom start eq_refl) as [Hs Hw]. destruct (trimmed_span_spec start at_) as [H1 H2]; [lia|done|].
      destruct (IH (S at_) None Hrest' ltac:(lia) ltac:(done)) as [H3 H4].
      split; [by apply Forall_app|]. intros i Hi (c & Hc & Ha & Hwc). apply in_spans_app. simpl in Hi.
      destruct (decide (i < at_)%nat); [left; apply (H2 i c); [lia|done|done]|]. right.
      destruct (decide (i = at_)) as [->|]; [congruence|]. apply H4; [simpl; lia|]. by exists c.
    + destruct (IH (S at_) None Hrest' ltac:(lia) ltac:(done)) as [H3 H4]. split; [done|].
      intros i Hi Hc. apply H4; [|done]. simpl in Hi |- *. destruct (decide (i = at_)) as [->|]; [|lia].
      destruct Hc as (c & Hc & _ & Hwc). congruence.
    + destruct (Hfrom start eq_refl) as [Hs Hw]. apply (IH (S at_) (Some start)); [done|lia|].
      intros start' [= ->]. split; [lia|]. rewrite (span_snoc t start' at_ ch) by (done || lia).
      apply Forall_app. split; [done|by constructor].
    + destruct (IH (S at_) (Some at_) Hrest' ltac:(lia)) as [H3 H4].
      * intros start [= <-]. split; [lia|]. rewrite (span_one t _ _ Hch). by constructor.
      * split; [done|]. intros i Hi. apply H4. done.
Qed.

Lemma cut_word_spec limit span : (0 < limit)%nat -> word_run span ->
  Forall (fun p => word_run p.1 /\ (p.1.2 - p.1.1 <= limit)%nat) (cut_word limit span) /\
  (forall i, (span.1 <= i < span.2)%nat -> exists p, p ∈ cut_word limit span /\ (p.1.1 <= i < p.1.2)%nat).
Proof.
  intros Hl [Hb Hw]. destruct span as [start end_]. cbn [fst snd] in *. unfold cut_word.
  set (count := ((end_ - start + limit - 1) / limit)%nat).
  split.
  - apply Forall_forall. intros p Hp. apply list_elem_of_In, in_map_iff in Hp as (n & <- & Hn).
    apply in_seq in Hn. cbn [fst snd].
    assert (n * limit < end_ - start)%nat.
    { pose proof (Nat.Div0.mul_div_le (end_ - start + limit - 1) limit). fold count in H0. nia. }
    split; [|lia]. split; [cbn [fst snd]; lia|]. apply span_forall. intros i c Hi Hc.
    rewrite span_forall in Hw. apply (Hw i c); [lia|done].
  - intros i Hi. set (n := ((i - start) / limit)%nat).
    pose proof (Nat.div_mod_eq (i - start) limit) as Hdm. fold n in Hdm.
    pose proof (Nat.mod_upper_bound (i - start) limit ltac:(lia)).
    assert (S n <= count)%nat by (apply Nat.div_le_lower_bound; [lia|nia]).
    eexists. split; [apply list_elem_of_In, in_map_iff; exists n; split; [reflexivity|apply in_seq; lia]|].
    cbn [fst snd]. nia.
Qed.

Lemma word_pieces_spec limit :
  Forall (fun p : nat * nat * option (nat * nat) => word_run p.1 /\
            match limit with Some l => l <> 0%nat -> (p.1.2 - p.1.1 <= l)%nat | None => True end) (word_pieces t limit) /\
  (forall i, word_char i -> exists p, p ∈ word_pieces t limit /\ (p.1.1 <= i < p.1.2)%nat).
Proof.
  destruct (word_spans_spec t 0 None) as [Hruns Hall]; [done|lia|done|].
  set (whole := fun se : nat * nat => (se, @None (nat * nat))).
  assert (Hplain : Forall (fun p => word_run p.1) (map whole (word_spans t t 0 None)) /\
    forall i, word_char i -> exists p, p ∈ map whole (word_spans t t 0 None) /\ (p.1.1 <= i < p.1.2)%nat).
  { split; [apply Forall_map; by eapply Forall_impl|]. intros i Hi.
    destruct (Hall i ltac:(cbn; lia) Hi) as (s & Hs & Hr). exists (whole s). split; [|done].
    by apply list_elem_of_In, in_map, list_elem_of_In. }
  destruct Hplain as [H1 H2]. unfold word_pieces. destruct limit as [limit|]; [destruct (Nat.ltb_spec 0 limit)|].
  - split.
    + apply Forall_concat, Forall_map. eapply Forall_impl; [exact Hruns|]. intros s Hs.
      eapply Forall_impl; [apply (cut_word_spec limit s); done|]. by intros p [? ?].
    + intros i Hi. destruct (Hall i ltac:(cbn; lia) Hi) as (s & Hs & Hr). rewrite Forall_forall in Hruns.
      destruct (proj2 (cut_word_spec limit s ltac:(done) (Hruns s Hs)) i Hr) as (p & Hp & Hpr).
      exists p. split; [|done]. apply list_elem_of_In, in_concat. exists (cut_word limit s).
      split; [apply in_map|]; by apply list_elem_of_In.
  - split; [|done]. eapply Forall_impl; [exact H1|]. intros p ?. split; [done|lia].
  - split; [|done]. by eapply Forall_impl; [exact H1|].
Qed.
End WordLaws.

(** ** Trimming keeps what is not trimmed *)
Section Kept.
Variable f : Z -> bool.
Definition kept (v : text) : text := base.filter (fun c => f c = false) v.

Lemma kept_app a b : kept (a ++ b) = kept a ++ kept b.
Proof. apply filter_app. Qed.

Lemma kept_nil v : kept v = [] <-> Forall (fun c => f c = true) v.
Proof.
  induction v as [|c v IH]; [done|]. unfold kept in *. rewrite filter_cons, Forall_cons, <- IH.
  destruct (f c) eqn:E; case_decide; try congruence; [tauto|]. split; [done|intros [? _]; done].
Qed.

Lemma kept_trim_start v : kept (trim_start f v) = kept v.
Proof.
  induction v as [|c v IH]; [done|]. cbn [trim_start]. destruct (f c) eqn:E; [|done].
  rewrite IH. unfold kept. rewrite filter_cons. by case_decide; [congruence|].
Qed.

Lemma kept_rev v : kept (rev v) = rev (kept v).
Proof.
  induction v as [|c v IH]; [done|]. cbn [rev]. rewrite kept_app, IH. unfold kept. rewrite filter_cons.
  change [c] with (c :: []). rewrite filter_cons. case_decide; [done|]. by rewrite app_nil_r.
Qed.

Lemma kept_trim v : kept (trim_matches f v) = kept v.
Proof. unfold trim_matches, trim_end. by rewrite kept_rev, kept_trim_start, kept_rev, rev_involutive, kept_trim_start. Qed.

Lemma trim_start_all v : Forall (fun c => f c = true) v -> trim_start f v = [].
Proof. intros H. rewrite <- (app_nil_r v). by rewrite trim_start_skip. Qed.

Lemma trim_matches_nil v : trim_matches f v = [] <-> Forall (fun c => f c = true) v.
Proof.
  split; [intros H; rewrite <- kept_nil, <- kept_trim; by rewrite H|].
  intros H. unfold trim_matches. by rewrite trim_start_all.
Qed.

Lemma trim_matches_pad a m b : Forall (fun c => f c = true) a -> Forall (fun c => f c = true) b ->
  trim_matches f (a ++ m ++ b) = trim_matches f m.
Proof.
  intros Ha Hb. unfold trim_matches. rewrite trim_start_skip by done.
  assert (E : trim_start f (m ++ b) = match trim_start f m with [] => [] | k => k ++ b end).
  { clear Ha. induction m as [|c m IH]; [by apply trim_start_all|]. cbn [app trim_start]. by destruct (f c). }
  rewrite E. destruct (trim_start f m) as [|c k]; [done|]. unfold trim_end. rewrite rev_app_distr, trim_start_skip; [done|].
  rewrite Forall_forall in *. intros x Hx. apply Hb. by apply list_elem_of_In, in_rev, list_elem_of_In.
Qed.

(** Two runs around a middle are trimmed away exactly when they hold nothing else. *)
Lemma trim_matches_pad_iff a m b :
  trim_matches f (a ++ m ++ b) = trim_matches f m <-> trim_matches f a = [] /\ trim_matches f b = [].
Proof.
  rewrite !trim_matches_nil. split; [|intros []; by apply trim_matches_pad].
  intros E. apply (f_equal kept) in E. rewrite !kept_trim, !kept_app in E. apply (f_equal length) in E.
  rewrite !length_app in E. rewrite <- !kept_nil. split; apply nil_length_inv; lia.
Qed.
End Kept.

Lemma page_slice_span c a b : page_slice c a b = span_of (cap_text c) (clamp_at c a, clamp_at c b).
Proof.
  unfold page_slice. destruct (Nat.leb_spec (clamp_at c b) (clamp_at c a)); [|done]. by rewrite span_empty.
Qed.

(** * Properties *)
(** A text is its lines laid end to end: [splitlines] cuts it after every break and nowhere else (a carriage
    return and the newline after it are one break, a line never ends between them), so no character of a page is lost
    or read twice, and only the last line may lack a break. *)
Theorem splitlines_exact t : concat (map (span_of t) (splitlines t)) = t /\ Forall (is_line t) (splitlines t).
Proof. unfold splitlines. apply (splitlines_from_spec t (S (length t)) 0 0); [lia|lia|by rewrite span_empty]. Qed.

(** The sentences of a text, in order: each opens on a character that is not a space, holds no newline, stops at
    a stop, a newline or the text's end, and whatever lies between them is space. *)
Theorem sentences_exact t : sentence_cover t 0 (sentences t).
Proof. apply sentences_from_spec; lia. Qed.

(** The words of a text: each lies within it with no whitespace inside, none is longer than a limit that is not
    zero, and every letter or digit of the text is in one, so cutting a long word to the limit loses none of it. *)
Theorem words_exact `{Unicode} t limit :
  Forall (fun w => word_run t (w_start w, w_end w) /\
                   match limit with Some l => l <> 0%nat -> (w_end w - w_start w <= l)%nat | None => True end)
    (words_of t limit) /\
  forall i, word_char t i -> exists w, w ∈ words_of t limit /\ (w_start w <= i < w_end w)%nat.
Proof.
  destruct (word_pieces_spec t limit) as [Hok Hin]. split.
  - apply Forall_lookup. intros i w Hw. unfold words_of in Hw. rewrite list_lookup_imap in Hw.
    destruct (word_pieces t limit !! i) as [p|] eqn:E; [|done]. injection Hw as <-. cbn.
    rewrite Forall_lookup in Hok. destruct (Hok i p E) as [? ?]. by destruct p as [[] ?].
  - intros i Hi. destruct (Hin i Hi) as (p & Hp & Hr). apply list_elem_of_lookup in Hp as [k Hk].
    eexists. split; [apply list_elem_of_lookup; exists k; unfold words_of; rewrite list_lookup_imap, Hk; reflexivity|done].
Qed.

(** C35: What a quote's [complete_source] flag claims: it is set exactly when the block holds its whole source, the quote is not
    empty and lies within the block, and the quote reads, spaces around it aside, as the whole block does.  Any block, any offsets and
    any page: a block cut short, a quote of nothing or one reaching out of the block is never flagged.  And whatever it is flagged, the
    quote is the capture's own words at the offsets it records, which are the ones asked for. *)
Theorem complete_quote_is_the_block c b start end_ :
  let e := evidence_of c b start end_ in
  e_start e = start /\ e_end e = end_ /\ quote e = page_slice c start end_ /\
  (e_complete_source e = true <->
     complete_source b = true /\ b_start b <= start < end_ /\ end_ <= b_end b /\
     strip (quote e) = strip (page_slice c (b_start b) (b_end b))).
Proof.
  split_and!; [done..|]. cbn [evidence_of e_complete_source quote]. rewrite !andb_true_iff, !Z.leb_le, Z.ltb_lt.
  assert (Hempty : forall v : text, is_empty v = true <-> v = []) by (by intros []). rewrite !Hempty.
  enough (b_start b <= start < end_ -> end_ <= b_end b ->
    (strip (page_slice c (b_start b) start) = [] /\ strip (page_slice c end_ (b_end b)) = [] <->
     strip (page_slice c start end_) = strip (page_slice c (b_start b) (b_end b)))) by (intuition lia).
  intros Hs He. rewrite !page_slice_span.
  assert (Hm : (clamp_at c (b_start b) <= clamp_at c start <= clamp_at c end_)%nat /\
               (clamp_at c end_ <= clamp_at c (b_end b))%nat) by (unfold clamp_at; lia).
  rewrite <- (span_join _ (clamp_at c (b_start b)) (clamp_at c start) (clamp_at c (b_end b))),
    <- (span_join _ (clamp_at c start) (clamp_at c end_) (clamp_at c (b_end b))) by lia.
  unfold strip. rewrite <- (trim_matches_pad_iff _ _ (span_of (cap_text c) (clamp_at c start, clamp_at c end_))). by split; intros ->.
Qed.

(** ** Cases *)
Lemma spans_test :
  map snd (cells (lit "| a | b\c |" ++ [10] ++ lit "|---|---|" ++ [10] ++ lit "|  | d |")) =
    [lit "a"; lit "b\c"; lit " "; lit "d"] /\
  map snd (spans (lit "One. Two!" ++ [10] ++ lit "three") SpanStr) = [lit "One."; lit "Two!"; lit "three"] /\
  map snd (spans (lit "$1,234.50 and -" ++ [0x20ac] ++ lit " 3 but 1234,567 x9") SpanNumber) =
    [lit "$1,234.50"; lit "-" ++ [0x20ac] ++ lit " 3"] /\
  map (fun w => (w_start w, w_piece w)) (words_of (lit "code 42 x") (Some 1%nat)) =
    [(0, Some (1, 4)); (1, Some (2, 4)); (2, Some (3, 4)); (3, Some (4, 4)); (5, Some (1, 2)); (6, Some (2, 2));
     (8, None)]%nat /\
  map snd (cells (lit "| a | b\|c |")) = [lit "a"; lit "b\|c"].
Proof. vm_compute. done. Qed.

(** A block "| 12 |" on a page of eight characters: quoting its middle with the spaces left out is quoting it whole. *)
Definition sample_block : Block :=
  mkBlock (lit "main") None true Paragraph None 1 7 [] None None None None false.
Definition sample_page : Capture :=
  mkCapture (lit "https://x.test/") [] (new_datetime 2024 1 1 0 0 0) (lit "0f") (lit "x  12  y") [sample_block] 0.

Theorem complete_quote_is_the_block_witness :
  let e := evidence_of sample_page sample_block 3 5 in
  e_complete_source e = true /\ quote e = lit "12" /\
  e_complete_source (evidence_of sample_page sample_block 3 4) = false.
Proof.
  split_and!; [|vm_compute; reflexivity..].
  apply (complete_quote_is_the_block sample_page sample_block 3 5). split_and!; vm_compute; (reflexivity || congruence).
Defined.
