(* ===== verification/Recipe.v ===== *)
(** Recipes: what a completed run keeps of its steps ([crates/fastbrowse-core/src/recipe.rs]) and
    how a later run replays them ([crates/fastbrowse-agent/src/agent/replay.rs]).

    A [Replay] hands out at most one saved step at a time ([pending]); Jev still chooses, and what
    it chose is matched against the saved steps.  Dropping the fragment of a joined address is the
    [UrlFragment] interface.  Reading and writing the recipe file is not modelled. *)

From coqutil Require Import Datatypes.RecordSetters.
From S2P Require Import Prelude Float64 PyText Json DateTime Models Page Origins Secrets Effects Notes Decision Helpers.

Import TriangleBracketNotations.

(** [Url::set_fragment(None)], then the address as text. *)
Class UrlFragment := { without_fragment : Url -> text }.

Definition RECIPE_VERSION : Z := 1.
Definition REPLAYABLE : list Operation := [Click; Enter; Fill; Hover; Scroll; ScrollUp; Back; Escape].

(** ** Saved steps ([recipe.rs]) *)
Record RecipePage := mkRecipePage {
  rp_origin : text; rp_path : text; rp_query : option text; rp_fragment : option text;
}.
#[export] Instance RecipePage_eq_dec : EqDecision RecipePage.
Proof. solve_decision. Defined.

Record RecipeTarget := mkRecipeTarget {
  rt_role : text; rt_label : text; rt_context : option text; rt_href : option text;
  rt_input_type : option text; rt_input_name : option text; rt_frame_origin : option text;
}.
#[export] Instance RecipeTarget_eq_dec : EqDecision RecipeTarget.
Proof. solve_decision. Defined.

Inductive RecipeText := Literal (t : text) | Live | Input (name : text) | Secret (name : text).
#[export] Instance RecipeText_eq_dec : EqDecision RecipeText.
Proof. solve_decision. Defined.

Record RecipeStep := mkRecipeStep {
  rs_operation : Operation;
  rs_page : RecipePage;
  rs_target : option RecipeTarget;
  rs_text : option RecipeText;
  rs_option : option text;
  read_first : bool;
  rs_replay : bool;
}.

Record Recipe := mkRecipe { rc_version : Z; rc_task : text; rc_start : option text; rc_steps : list RecipeStep }.

Definition replayable (s : RecipeStep) : bool :=
  rs_replay s && bool_decide (rs_operation s ∈ REPLAYABLE)
  && (negb (is_targeted (rs_operation s)) || bool_decide (is_Some (rs_target s)))
  && (negb (bool_decide (rs_operation s = Fill))
      || match rs_text s with Some t => negb (bool_decide (t = Live)) | None => false end).

Section Matching.
Context `{UrlParser} `{UrlFragment}.

Definition page_of_url (url : text) : option RecipePage :=
  match parse_url url with
  | Some u =>
      if existsb (teqb (scheme u)) [lit "http"; lit "https"]
      then Some (mkRecipePage (ascii_origin u) (path u) (query u) (fragment u)) else None
  | None => None
  end.

Definition resolve (base href : text) : option text :=
  match parse_url base with
  | Some base => match join_url base href with Some u => Some (without_fragment u) | None => None end
  | None => None
  end.

Definition leads (page_url : text) (c : Control) : option text :=
  match c_href c with Some href => resolve page_url href | None => None end.

Definition target_of (c : Control) (page_url : text) : RecipeTarget :=
  mkRecipeTarget (c_role c) (c_label c) (c_context c) (leads page_url c) (c_input_type c) (c_input_name c) (c_frame_origin c).

Definition target_matches (t : RecipeTarget) (c : Control) (page_url : text) : bool :=
  teqb (rt_role t) (c_role c) && teqb (rt_label t) (c_label c) && bool_decide (rt_context t = c_context c)
  && bool_decide (rt_input_type t = c_input_type c) && bool_decide (rt_input_name t = c_input_name c)
  && bool_decide (rt_frame_origin t = c_frame_origin c) && bool_decide (rt_href t = leads page_url c).

(** The one control on the page a target names, or none when none or several do. *)
Definition find_control (t : RecipeTarget) (cs : list Control) (page_url : text) : option Control :=
  match base.filter (fun c => target_matches t c page_url = true) cs with [c] => Some c | _ => None end.
End Matching.

(** ** Replaying ([replay.rs]) *)
Record Replay := mkReplay {
  saved : list RecipeStep;
  next : nat;
  pending : option nat;
  failed_steps : list nat;
  replayed : nat;
  fell_back : nat;
}.
Definition new_replay (r : Recipe) : Replay := mkReplay (rc_steps r) 0 None [] 0 0.

Definition active (r : Replay) : bool := (next r <? length (saved r))%nat.
Definition drop_pending (r : Replay) : Replay := r <| pending := None |>.
Definition gives_up_on (r : Replay) : Replay := r <| fell_back ::= S |>.

(** The text of the step handed out, and whether this field may take it. *)
Definition replay_text (r : Replay) : option RecipeText :=
  match pending r with Some index => match saved r !! index with Some s => rs_text s | None => None end | None => None end.
Definition text_for (r : Replay) (target : Control) (missing : bool) : option RecipeText :=
  if missing || is_password target then None
  else
    match replay_text r with
    | Some (Literal t) => if c_sensitive target then None else Some (Literal t)
    | Some Live => None
    | other => other
    end.

(** A step that acted on the site. *)
Definition recorded (o : Operation) : bool :=
  negb (bool_decide (o = Read) || bool_decide (o = Wait) || bool_decide (o = Done)).

Definition replayed_decision (o : Operation) (target : option Control) : Decision :=
  mkDecision o None target None (f64_of_Z 1) (match target with Some _ => Some (f64_of_Z 1) | None => None end)
    None None None None None true false [] [].

Section Replay.
Context `{UrlParser} `{UrlFragment}.

(** The control a saved step is certain about, where it takes one: [Some None] for a step that takes none. *)
Definition certain_target (s : RecipeStep) (offered : list Control) (url : text) : option (option Control) :=
  match rs_target s with
  | Some t =>
      match find_control t offered url with
      | Some c => if bool_decide (rs_operation s ∈ c_operations c) then Some (Some c) else None
      | None => None
      end
  | None => if is_targeted (rs_operation s) then None else Some None
  end.

(** [Replay::ahead]. *)
Definition replay_ahead (r : Replay) (url : text) (offered : list Control) (missing : Control -> bool)
  : option Decision * Replay :=
  let r := drop_pending r in
  let index := next r in
  match saved r !! index with
  | None => (None, r)
  | Some s =>
      if bool_decide (index ∈ failed_steps r) || negb (replayable s) || read_first s then (None, r)
      else
        match page_of_url url with
        | None => (None, r)
        | Some page =>
            if negb (bool_decide (rs_page s = page)) then (None, r)
            else
              match certain_target s offered url with
              | None => (None, r)
              | Some target =>
                  let r := r <| pending := Some index |> in
                  if bool_decide (rs_operation s = Fill)
                     && match target with
                        | Some c => bool_decide (text_for r c (missing c) = None)
                        | None => true
                        end
                  then (None, drop_pending r)
                  else (Some (replayed_decision (rs_operation s) target), r)
              end
        end
  end.

(** Whether a saved step is the choice Jev made. *)
Definition is_choice (s : RecipeStep) (page : RecipePage) (url : text) (offered : list Control) (d : Decision) : bool :=
  replayable s && bool_decide (rs_page s = page) && bool_decide (rs_operation s = d_operation d)
  && match rs_target s with
     | Some t =>
         match find_control t offered url with
         | Some c => bool_decide (rs_operation s ∈ c_operations c) && bool_decide (c_id <$> d_target d = Some (c_id c))
         | None => false
         end
     | None => bool_decide (d_target d = None)
     end.

(** The first saved step from [from] on that [f] holds of. *)
Fixpoint first_step (f : RecipeStep -> bool) (steps : list RecipeStep) (at_ : nat) : option nat :=
  match steps with [] => None | s :: steps => if f s then Some at_ else first_step f steps (S at_) end.
Definition from_next (r : Replay) (f : RecipeStep -> bool) : option nat := first_step f (drop (next r) (saved r)) (next r).

Definition matching_step (r : Replay) (url : text) (offered : list Control) (d : Decision) : option nat * Replay :=
  let r := drop_pending r in
  if negb (active r) then (None, r)
  else
    match page_of_url url with
    | None => (None, gives_up_on r)
    | Some page =>
        match from_next r (fun s => is_choice s page url offered d) with
        | Some index => (Some index, r <| pending := Some index |>)
        | None => (None, gives_up_on r)
        end
    end.

(** [Replay::confirm]: the decision, marked replayed where a saved step backs it. *)
Definition confirm (r : Replay) (url : text) (offered : list Control) (d : Decision) (missing : bool) : Decision * Replay :=
  if negb (recorded (d_operation d)) then (d, r)
  else
    match matching_step r url offered d with
    | (Some _, r) =>
        if bool_decide (d_operation d = Fill)
           && match d_target d with Some c => bool_decide (text_for r c missing = None) | None => true end
        then (d, gives_up_on (drop_pending r))
        else (d <| d_replayed := true |>, r)
    | (None, r) => (d, r)
    end.

Definition took (s : RecipeStep) (page : RecipePage) (url : text) (d : Decision) : bool :=
  bool_decide (rs_operation s = d_operation d) && bool_decide (rs_page s = page)
  && match rs_target s, d_target d with
     | Some t, Some c => target_matches t c url
     | None, None => true
     | _, _ => false
     end.

Definition advance (r : Replay) (index : nat) : Replay := r <| next := S index |>.

(** [Replay::followed]: an action the agent decided was carried out. *)
Definition followed_step (r : Replay) (url : text) (d : Decision) : Replay :=
  match page_of_url url with
  | None => r
  | Some page =>
      if negb (active r) then r
      else match from_next r (fun s => took s page url d) with Some index => advance r index | None => r end
  end.
End Replay.

Definition settled (r : Replay) (executed : bool) : Replay :=
  match pending r with
  | None => r
  | Some index =>
      let r := drop_pending r in
      if executed then (advance r index) <| replayed ::= S |>
      else r <| failed_steps ::= fun l => l ++ [index] |>
  end.
Definition declined (r : Replay) : Replay :=
  match pending r with
  | None => r
  | Some index => (drop_pending r) <| failed_steps ::= fun l => l ++ [index] |>
  end.

(** ** Recording ([step_of], [safe_steps]) *)
Section Recording.
Context `{UrlParser} `{UrlFragment} (reveals : text -> bool).

Definition shows_secret (t : option text) : bool := match t with Some t => reveals t | None => false end.

Definition target_reveals (t : RecipeTarget) : bool :=
  reveals (rt_role t) || reveals (rt_label t) || shows_secret (rt_context t) || shows_secret (rt_href t)
  || shows_secret (rt_input_type t) || shows_secret (rt_input_name t) || shows_secret (rt_frame_origin t).

(** The text kept of a fill, and whether the step can be replayed with it. *)
Definition kept_text (d : Decision) (a : Action) (source : option RecipeText) : option RecipeText * bool :=
  let replay := bool_decide (d_operation d ∈ REPLAYABLE) in
  if bool_decide (d_operation d = Fill) then
    match source with
    | Some Live => (Some Live, false)
    | Some (Input name) => (Some (Input name), replay)
    | Some (Secret name) => (Some (Secret name), replay)
    | _ =>
        let typed := default [] (a_text a) in
        let sensitive := match d_target d with Some t => c_sensitive t || is_password t | None => false end in
        if secret a || sensitive || reveals typed then (None, false) else (Some (Literal typed), replay)
    end
  else (None, replay).

Definition step_of (page_url : text) (d : Decision) (a : Action) (source : option RecipeText) : option RecipeStep :=
  if reveals page_url then None
  else
    match page_of_url page_url with
    | None => None
    | Some page =>
        let target := (fun t => target_of t page_url) <$> d_target d in
        if match target with Some t => target_reveals t | None => false end then None
        else
          let '(kept, replay) := kept_text d a source in
          Some (mkRecipeStep (d_operation d) page target kept None
                  (match d_shows_answer d with Some p => f64_gt p EVEN_ODDS | None => false end) replay)
    end.

(** [unwrap_or_default]: what is absent is asked about as the empty text. *)
Definition page_texts (p : RecipePage) : list text :=
  [rp_origin p; rp_path p; default [] (rp_query p); default [] (rp_fragment p)].
Definition target_texts (t : RecipeTarget) : list text :=
  [rt_role t; rt_label t; default [] (rt_context t); default [] (rt_href t); default [] (rt_input_type t);
   default [] (rt_input_name t); default [] (rt_frame_origin t)].

Definition safe_step (s : RecipeStep) : bool :=
  negb (existsb reveals (page_texts (rs_page s)))
  && negb (match rs_target s with Some t => existsb reveals (target_texts t) | None => false end)
  && negb (shows_secret (rs_option s))
  && match rs_text s with Some (Literal v) => negb (reveals v) | _ => true end.

Definition safe_steps (steps : list RecipeStep) : list RecipeStep := base.filter (fun s => safe_step s = true) steps.
End Recording.

(** ** One turn of the loop on a replay ([driving.rs]) *)
Section Turns.
Context `{UrlParser} `{UrlFragment}.

(** What a turn meets: the page, what Jev decides there ([picked] for a pick already made when it was asked again),
    and how carrying it out went: not tried, or tried and executed or not. *)
Record Turn := mkTurn {
  t_url : text; t_offered : list Control; t_missing : Control -> bool;
  t_picked : bool; t_decision : Decision; t_outcome : option bool;
}.

Definition agreed (saved d : Decision) : bool :=
  bool_decide (d_operation d = d_operation saved) && bool_decide (c_id <$> d_target d = c_id <$> d_target saved).

(** The saved steps replayed so far are logged by their place in the recipe. *)
Definition carry_out (r : Replay) (log : list nat) (d : Decision) (url : text) (outcome : option bool) : Replay * list nat :=
  match outcome with
  | None => (r, log)
  | Some executed =>
      if d_replayed d then
        (settled r executed,
         match pending r with Some index => if executed then log ++ [index] else log | None => log end)
      else if executed then (followed_step r url d, log) else (r, log)
  end.

Definition play (state : Replay * list nat) (t : Turn) : Replay * list nat :=
  let '(r, log) := state in
  let chosen := (t_decision t) <| d_replayed := false |> in
  if t_picked t then carry_out (drop_pending r) log chosen (t_url t) (t_outcome t)
  else
    match replay_ahead r (t_url t) (t_offered t) (t_missing t) with
    | (Some offered, r) =>
        if agreed offered chosen then carry_out r log (chosen <| d_replayed := true |>) (t_url t) (t_outcome t)
        else
          let r := declined r in
          if bool_decide (is_Some (d_target chosen)) then (r, log) else carry_out r log chosen (t_url t) (t_outcome t)
    | (None, r) =>
        let missing := match d_target chosen with Some c => t_missing t c | None => false end in
        let '(d, r) := confirm r (t_url t) (t_offered t) chosen missing in
        carry_out r log d (t_url t) (t_outcome t)
    end.
End Turns.

(** * Properties *)
Section ReplayLaws.
Context `{UrlParser} `{UrlFragment}.

Lemma find_control_spec t cs url c : find_control t cs url = Some c ->
  c ∈ cs /\ target_matches t c url = true /\ forall d, d ∈ cs -> target_matches t d url = true -> d = c.
Proof.
  unfold find_control. destruct (base.filter _ cs) as [|x [|]] eqn:E; [done| |done]. intros [= <-].
  assert (Hx : forall d, d ∈ [x] <-> target_matches t d url = true /\ d ∈ cs) by (intros d; by rewrite <- E, list_elem_of_filter).
  destruct (proj1 (Hx x)) as [? ?]; [set_solver|]. split_and!; try done.
  intros d Hd Ht. by apply list_elem_of_singleton, Hx.
Qed.

Lemma first_step_spec f steps at_ index : first_step f steps at_ = Some index ->
  (at_ <= index < at_ + length steps)%nat /\ exists s, steps !! (index - at_)%nat = Some s /\ f s = true.
Proof.
  revert at_. induction steps as [|s steps IH]; intros at_; cbn [first_step]; [done|]. destruct (f s) eqn:E.
  - intros [= <-]. cbn [length]. split; [lia|]. exists s. by rewrite Nat.sub_diag.
  - intros Hi. destruct (IH _ Hi) as (Hb & s' & Hs & Hf). cbn [length]. split; [lia|]. exists s'.
    replace (index - at_)%nat with (S (index - S at_)) by lia. done.
Qed.

Lemma from_next_spec r f index : from_next r f = Some index ->
  (next r <= index < length (saved r))%nat /\ exists s, saved r !! index = Some s /\ f s = true.
Proof.
  unfold from_next. intros Hi. apply first_step_spec in Hi as (Hb & s & Hs & Hf). rewrite length_drop in Hb.
  split; [lia|]. exists s. rewrite lookup_drop in Hs. replace (next r + (index - next r))%nat with index in Hs by lia. done.
Qed.

(** What a turn may do to a replay besides settling: the recipe, the place reached and the count stay. *)
Definition same_place (r r' : Replay) : Prop :=
  saved r' = saved r /\ next r' = next r /\ replayed r' = replayed r.
Definition pending_ahead (r : Replay) : Prop := forall i, pending r = Some i -> (next r <= i < length (saved r))%nat.

Lemma replay_ahead_place r url offered missing :
  let '(d, r') := replay_ahead r url offered missing in same_place r r' /\ pending_ahead r'.
Proof.
  unfold replay_ahead. destruct (saved (drop_pending r) !! next (drop_pending r)) as [s|] eqn:Es; [|done].
  destruct (_ || _ || _); [done|]. destruct (page_of_url url) as [page|]; [|done].
  destruct (negb _); [done|]. destruct (certain_target s offered url) as [target|]; [|done].
  destruct (_ && _); [done|]. split; [done|]. intros i [= <-]. apply lookup_lt_Some in Es. cbn in *. lia.
Qed.

Lemma confirm_place r url offered d missing : pending_ahead r ->
  let '(d', r') := confirm r url offered d missing in same_place r r' /\ pending_ahead r'.
Proof.
  intros Hp. unfold confirm. destruct (negb (recorded _)); [done|]. unfold matching_step.
  destruct (negb (active _)); [done|]. destruct (page_of_url url) as [page|]; [|done].
  destruct (from_next _ _) as [index|] eqn:Ei; [|done].
  apply from_next_spec in Ei as [Hi _]. destruct (_ && _); [done|]. split; [done|]. by intros i [= <-].
Qed.

Definition play_ok (state : Replay * list nat) : Prop :=
  let '(r, log) := state in
  Sorted lt log /\ Forall (fun i => (i < next r)%nat) log /\ (next r <= length (saved r))%nat /\ replayed r = length log.

Lemma sorted_snoc log n : Sorted lt log -> Forall (fun i => (i < n)%nat) log -> Sorted lt (log ++ [n]).
Proof.
  induction log as [|i log IH]; intros Hs Hf; [repeat constructor|]. apply Forall_cons in Hf as [Hi Hf].
  apply Sorted_inv in Hs as [Hs Hh]. cbn. constructor; [by apply IH|].
  destruct log as [|j log]; cbn; constructor; [done|by inversion Hh].
Qed.

Lemma carry_out_ok r log d url outcome : play_ok (r, log) -> pending_ahead r -> play_ok (carry_out r log d url outcome).
Proof.
  intros (Hs & Hf & Hn & Hr) Hp. unfold carry_out. destruct outcome as [executed|]; [|done].
  destruct (d_replayed d); [|destruct executed; [|done]].
  - unfold settled. destruct (pending r) as [index|] eqn:Ep; [|done]. pose proof (Hp index Ep) as Hi.
    destruct executed; [|done]. unfold play_ok.
    change (next _) with (S index). change (saved ((advance (drop_pending r) index) <| replayed ::= S |>)) with (saved r).
    change (replayed _) with (S (replayed r)). split_and!.
    + apply sorted_snoc; [done|]. eapply Forall_impl; [exact Hf|]. intros i ?; cbn beta in *; lia.
    + apply Forall_app. split; [eapply Forall_impl; [exact Hf|]; intros i ?; cbn beta in *; lia|constructor; [lia|done]].
    + lia.
    + rewrite length_app, Hr. cbn. lia.
  - unfold followed_step. destruct (page_of_url url) as [page|]; [|done]. destruct (negb (active r)); [done|].
    destruct (from_next _ _) as [index|] eqn:Ei; [|done]. apply from_next_spec in Ei as [Hi _].
    unfold play_ok. change (next _) with (S index). change (saved (advance r index)) with (saved r).
    change (replayed _) with (replayed r). split_and!; try done; [|lia].
    eapply Forall_impl; [exact Hf|]. intros i ?; cbn beta in *; lia.
Qed.

Lemma same_place_ok r r' log : same_place r r' -> play_ok (r, log) -> play_ok (r', log).
Proof. intros (Es & En & Er). unfold play_ok. by rewrite Es, En, Er. Qed.

Lemma play_step_ok state t : play_ok state -> play_ok (play state t).
Proof.
  destruct state as [r log]. intros Hok. unfold play. destruct (t_picked t); [apply carry_out_ok; done|].
  pose proof (replay_ahead_place r (t_url t) (t_offered t) (t_missing t)) as Ha.
  destruct (replay_ahead _ _ _ _) as [[offered|] r1]; destruct Ha as [Hsame Hp].
  - pose proof (same_place_ok _ _ _ Hsame Hok) as Hok1. destruct (agreed _ _); [by apply carry_out_ok|].
    assert (Hd : same_place r1 (declined r1) /\ pending (declined r1) = None).
    { unfold declined. destruct (pending r1) eqn:E; [done|]. by rewrite E. }
    destruct Hd as [Hd Hnone]. pose proof (same_place_ok _ _ _ Hd Hok1).
    destruct (bool_decide _); [done|]. apply carry_out_ok; [done|]. intros i Hi. congruence.
  - pose proof (same_place_ok _ _ _ Hsame Hok) as Hok1.
    pose proof (confirm_place r1 (t_url t) (t_offered t) ((t_decision t) <| d_replayed := false |>)
                  (match d_target ((t_decision t) <| d_replayed := false |>) with Some c => t_missing t c | None => false end) Hp) as Hc.
    destruct (confirm _ _ _ _ _) as [d r2]. destruct Hc as [Hc Hp2].
    apply carry_out_ok; [by apply (same_place_ok r1)|done].
Qed.
End ReplayLaws.

(** Replaying a recipe takes its steps in order and each at most once: over any turns - picks made when Jev was
    asked again, offers it agrees with, declines or cannot be made certain of, choices that match a later step, steps
    that fail or are never tried - the saved steps replayed are strictly increasing places in the recipe, all before
    the step offered next, and are counted. *)
Theorem replay_takes_each_step_once `{UrlParser} `{UrlFragment} recipe (turns : list Turn) :
  let '(r, log) := fold_left play turns (new_replay recipe, []) in
  Sorted lt log /\ Forall (fun i => (i < next r)%nat) log /\ (next r <= length (saved r))%nat /\ replayed r = length log.
Proof.
  assert (Hall : forall ts state, play_ok state -> play_ok (fold_left play ts state)).
  { induction ts as [|t ts IH]; intros state Hs; cbn; [done|]. by apply IH, play_step_ok. }
  pose proof (Hall turns (new_replay recipe, [])) as Hok. destruct (fold_left _ _ _) as [r log].
  apply Hok. unfold play_ok. cbn. split_and!; [constructor|constructor|lia|done].
Qed.

(** A saved step is offered to Jev alone only when nothing about it is left to choose: it is the next one, can be
    carried out again, read nothing first, did not fail before, was saved on exactly this page, and names exactly one
    control in view, one that takes the operation; a fill has a saved text that is not a password's, nor a literal for a
    sensitive field, nor a value the task is known to lack. *)
Theorem offered_step_is_certain `{UrlParser} `{UrlFragment} r url offered missing d r' :
  replay_ahead r url offered missing = (Some d, r') ->
  exists s, saved r !! next r = Some s /\ pending r' = Some (next r) /\ replayable s = true /\ read_first s = false /\
    next r ∉ failed_steps r /\ page_of_url url = Some (rs_page s) /\ d_operation d = rs_operation s /\
    match rs_target s with
    | Some t =>
        exists c, d_target d = Some c /\ c ∈ offered /\ rs_operation s ∈ c_operations c /\ target_matches t c url = true /\
          (forall other, other ∈ offered -> target_matches t other url = true -> other = c) /\
          (rs_operation s = Fill -> missing c = false /\ is_password c = false /\
             exists source, rs_text s = Some source /\ source <> Live /\
               (c_sensitive c = true -> forall t, source <> Literal t))
    | None => d_target d = None /\ is_targeted (rs_operation s) = false
    end.
Proof.
  unfold replay_ahead. change (next (drop_pending r)) with (next r). change (saved (drop_pending r)) with (saved r).
  change (failed_steps (drop_pending r)) with (failed_steps r).
  destruct (saved r !! next r) as [s|] eqn:Es; [|done].
  destruct (bool_decide _ || negb (replayable s) || read_first s) eqn:Eg; [done|].
  rewrite !orb_false_iff, negb_false_iff in Eg. destruct Eg as [[Hf Hrep] Hread]. apply bool_decide_eq_false in Hf.
  destruct (page_of_url url) as [page|] eqn:Ep; [|done].
  destruct (negb (bool_decide (rs_page s = page))) eqn:Em; [done|]. apply negb_false_iff, bool_decide_eq_true in Em. subst page.
  destruct (certain_target s offered url) as [target|] eqn:Et; [|done].
  set (r1 := (drop_pending r) <| pending := Some (next r) |>).
  destruct (bool_decide (rs_operation s = Fill) && _) eqn:Efill; [done|]. intros [= <- <-].
  exists s. split_and!; try done. unfold certain_target in Et.
  destruct (rs_target s) as [t|].
  - destruct (find_control t offered url) as [c|] eqn:Ec; [|done]. destruct (bool_decide (rs_operation s ∈ c_operations c)) eqn:Hop; [|done]. apply bool_decide_eq_true in Hop. injection Et as <-.
    apply find_control_spec in Ec as (Hin & Hm & Hu). exists c. split_and!; try done. intros Hfill.
    rewrite bool_decide_eq_true_2 in Efill by done. cbn [andb] in Efill. apply bool_decide_eq_false in Efill.
    unfold text_for in Efill. destruct (missing c || is_password c) eqn:Emp; [done|].
    apply orb_false_iff in Emp as [Hmiss Hpw]. split_and!; try done.
    assert (replay_text r1 = rs_text s) as Ert by (transitivity (match saved r !! next r with Some s => rs_text s | None => None end); [done|by rewrite Es]).
    rewrite Ert in Efill. destruct (rs_text s) as [source|]; [|done]. exists source. split; [done|].
    destruct source as [v| |name|name]; [|done| |]; (split; [done|]); intros Hs v'; [|done|done]. by rewrite Hs in Efill.
  - destruct (is_targeted (rs_operation s)); [done|]. by injection Et as <-.
Qed.

Section RecordingLaws.
Context `{UrlParser} `{UrlFragment} (reveals : text -> bool).

(** Every text of a saved step that was written down. *)
Definition step_texts (s : RecipeStep) : list text :=
  page_texts (rs_page s) ++ (match rs_target s with Some t => target_texts t | None => [] end)
  ++ (match rs_option s with Some t => [t] | None => [] end)
  ++ (match rs_text s with Some (Literal v) => [v] | _ => [] end).

Lemma existsb_false_forall (l : list text) : existsb reveals l = false <-> Forall (fun t => reveals t = false) l.
Proof. induction l as [|t l IH]; cbn; [done|]. by rewrite orb_false_iff, Forall_cons, IH. Qed.

Lemma safe_step_spec s : safe_step reveals s = true <-> Forall (fun t => reveals t = false) (step_texts s).
Proof.
  unfold safe_step, step_texts. rewrite !Forall_app, !andb_true_iff, !negb_true_iff, existsb_false_forall.
  assert (Ht : match rs_target s with Some t => existsb reveals (target_texts t) | None => false end = false <->
               Forall (fun t => reveals t = false) (match rs_target s with Some t => target_texts t | None => [] end)).
  { destruct (rs_target s); [apply existsb_false_forall|done]. }
  assert (Ho : shows_secret reveals (rs_option s) = false <->
               Forall (fun t => reveals t = false) (match rs_option s with Some t => [t] | None => [] end)).
  { unfold shows_secret. destruct (rs_option s); [|done]. by rewrite Forall_singleton. }
  assert (Hx : match rs_text s with Some (Literal v) => negb (reveals v) | _ => true end = true <->
               Forall (fun t => reveals t = false) (match rs_text s with Some (Literal v) => [v] | _ => [] end)).
  { destruct (rs_text s) as [[]|]; try done. by rewrite Forall_singleton, negb_true_iff. }
  rewrite Ht, Ho, Hx. tauto.
Qed.

(** C31: A recipe holds no resolved secret, and is not emptied to make it so: what is stored keeps exactly the recorded
    steps none of whose texts reveals one, in order, whenever the secret was learned; and a step is recorded with the
    text it typed only where that was neither a secret's nor for a field the page masks, and reveals none. *)
Theorem recipes_hold_no_secret steps :
  (forall s, s ∈ safe_steps reveals steps <-> s ∈ steps /\ Forall (fun t => reveals t = false) (step_texts s)) /\
  sublist (safe_steps reveals steps) steps /\
  forall url d a source s v, step_of reveals url d a source = Some s -> rs_text s = Some (Literal v) ->
    d_operation d = Fill /\ v = default [] (a_text a) /\ secret a = false /\ reveals v = false /\
    (forall c, d_target d = Some c -> c_sensitive c = false /\ is_password c = false).
Proof.
  split; [intros s; unfold safe_steps; rewrite list_elem_of_filter, safe_step_spec; tauto|].
  split; [apply sublist_filter|]. intros url d a source s v. unfold step_of.
  destruct (reveals url); [done|]. destruct (page_of_url url) as [page|]; [|done].
  destruct (match target_of _ _ <$> _ with _ => _ end) eqn:Em || destruct (match _ with Some t => target_reveals reveals t | None => false end) eqn:Em; [done|].
  destruct (kept_text reveals d a source) as [kept replay] eqn:Ek. intros [= <-]. cbn [rs_text]. intros ->.
  unfold kept_text in Ek. case_bool_decide as Hf; [|done].
  assert (Hl : (if secret a || match d_target d with Some t => c_sensitive t || is_password t | None => false end
                   || reveals (default [] (a_text a)) then (None, false)
                else (Some (Literal (default [] (a_text a))), bool_decide (d_operation d ∈ REPLAYABLE))) = (Some (Literal v), replay)).
  { by destruct source as [[]|]. }
  destruct (secret a || _ || _) eqn:Es; [done|]. injection Hl as <- _. rewrite !orb_false_iff in Es.
  destruct Es as [[Hsec Hsens] Hr]. split_and!; try done. intros c Hc. rewrite Hc in Hsens. by apply orb_false_iff in Hsens.
Qed.
End RecordingLaws.

(** ** Cases *)
#[local] Existing Instance plain_parser.
#[local] Instance plain_fragment : UrlFragment := {| without_fragment := Origins.as_str |}.

Definition search_box : Control :=
  (new_control (lit "4") (lit "textbox") (lit "Search") [Fill; Enter]) <| c_frame_origin := Some (lit "https://a.test") |>.
Definition search_button : Control := new_control (lit "5") (lit "button") (lit "Go") [Click].
Definition home : text := lit "https://a.test/".
Definition step_on (o : Operation) (c : Control) (t : option RecipeText) : RecipeStep :=
  mkRecipeStep o (default (mkRecipePage [] [] None None) (page_of_url home)) (Some (target_of c home)) t None false true.
Definition search_recipe : Recipe :=
  mkRecipe RECIPE_VERSION (lit "Search for hats") None
    [step_on Fill search_box (Some (Literal (lit "hats"))); step_on Click search_button None].
Definition jev_picks (o : Operation) (c : Control) : Decision :=
  mkDecision o None (Some c) None (dec 9 1) None None None None None None false false [] [].
Definition turn_with (d : Decision) (outcome : option bool) : Turn :=
  mkTurn home [search_box; search_button] (fun _ => false) false d outcome.

(** The fill is agreed with and carried out, the click fails, and is then Jev's own: the replay is over. *)
Lemma replay_test :
  let '(r, log) := fold_left play [turn_with (jev_picks Fill search_box) (Some true);
                                   turn_with (jev_picks Click search_button) (Some false);
                                   turn_with (jev_picks Click search_button) (Some true)] (new_replay search_recipe, []) in
  log = [0; 1]%nat /\ next r = 2%nat /\ active r = false /\ failed_steps r = [1%nat].
Proof. vm_compute. done. Qed.

Theorem offered_step_is_certain_witness :
  replay_ahead (new_replay search_recipe) home [search_box; search_button] (fun _ => false)
    = (Some (replayed_decision Fill (Some search_box)), (new_replay search_recipe) <| pending := Some 0%nat |>) /\
  exists s, saved (new_replay search_recipe) !! 0%nat = Some s /\ replayable s = true.
Proof.
  assert (E : replay_ahead (new_replay search_recipe) home [search_box; search_button] (fun _ => false)
    = (Some (replayed_decision Fill (Some search_box)), (new_replay search_recipe) <| pending := Some 0%nat |>))
    by (vm_compute; reflexivity).
  split; [exact E|].
  destruct (offered_step_is_certain (new_replay search_recipe) home [search_box; search_button] (fun _ => false) _ _ E)
    as (s & Hs & _ & Hr & _).
  exists s. split; [exact Hs|exact Hr].
Defined.
