(* ===== verification/RunState.v ===== *)
(** What one run keeps between steps: [crates/fastbrowse-agent/src/agent/state.rs], and how the
    loop reads it before a step ([agent/mod.rs], [page_read], [reads_before_leaving], [page_facts]).

    [RunState]'s fields are grouped by the part of the loop that owns them: [Reading] (what was
    read, and how it was reached), [Pager] (the list a whole-list task walks), [Stall] (the stall
    rule's evidence) and [Site] (a failure of the site).  [redactor] and [raw_page] are the agent's
    own, shared by the steps of a run (what it masks with, and the page as it was before masking), as is [observed_page], the page as models saw it.
    [counted_steps] is the count of steps on the run's ledger (Ledger.v), whose spending is modelled
    there, [tab_handed_over] the page's flag that its tab outlives the run, [frames_withheld] its flag
    that frames are held back, and [page_calls] the run's trace of what it asked of the page; the
    relevance cache is left out.  A [HashSet] is a [gset] and a [HashMap] a [gmap]; addresses are
    joined by the [UrlParser] interface. *)

From stdpp Require Import gmap.
From coqutil Require Import Datatypes.RecordSetters.
From S2P Require Import Prelude Float64 PyText Json DateTime Models Page Origins Secrets Redactor Effects Notes Decision Answers Helpers Recipe Pyre Spans.

Import TriangleBracketNotations.

(** ** Stops and what interrupts a step *)
Record Stop := mkStop {
  st_status : Status; st_error : option text; st_evidence : list Evidence; st_wall : option WallKind;
}.
Definition new_stop (status : Status) (error : text) : Stop := mkStop status (Some error) [] None.

Record Unsure := mkUnsure { u_reason : text; gives_up_as : Status }.
Definition new_unsure (reason : text) : Unsure := mkUnsure reason Stuck.

(** [E] is the agent's own error, whose variants other components name. *)
Inductive Flow (E : Type) :=
| FlowStop (s : Stop) | FlowUnsure (u : Unsure) | FlowAgent (e : E) | FlowBrowser (e : BrowserError).
Arguments FlowStop {E} s.
Arguments FlowUnsure {E} u.
Arguments FlowAgent {E} e.
Arguments FlowBrowser {E} e.

(** ** Site failures *)
Inductive FailureCause := Http (status : Z) | NavigationFailed (error : text) | Reported.
#[export] Instance FailureCause_eq_dec : EqDecision FailureCause.
Proof. solve_decision. Defined.

Record SiteFailure := mkSiteFailure { sf_url : text; cause : FailureCause; since : nat }.
Definition http_failure (url : text) (status : Z) (since : nat) : SiteFailure :=
  mkSiteFailure url (Http status) since.

Definition failure_message (f : SiteFailure) : text :=
  match cause f with
  | Http status =>
      if status =? 403 then
        lit "HTTP 403 at " ++ sf_url f
          ++ lit ": the site refused this browser session, which may be an access or bot check or a sign-in it requires."
      else
        lit "HTTP " ++ show_Z status ++ lit " at " ++ sf_url f
          ++ lit " in this browser session; the cause is unknown."
  | NavigationFailed error =>
      lit "opening " ++ sf_url f ++ lit " failed in this browser session: " ++ error ++ lit "."
  | Reported =>
      lit "the page at " ++ sf_url f ++ lit " reported that the site failed to deliver what was asked."
  end.

Definition failure_stop (f : SiteFailure) : Stop :=
  let status :=
    match cause f with
    | Http status =>
        if status =? 401 then NeedsLogin
        else if status =? 403 then Blocked
        else if one_of [408; 419; 429] status || (500 <=? status) then Unavailable
        else Stuck
    | NavigationFailed _ | Reported => Unavailable
    end in
  new_stop status (lit "Could not complete the task after " ++ failure_message f).

Definition transient (f : SiteFailure) : bool := bool_decide (st_status (failure_stop f) = Unavailable).

(** ** What was written into a document *)
Record Written := mkWritten { w_fields : gset text; w_values : gset text }.
Definition nothing_written : Written := mkWritten ∅ ∅.

Section Written.
Context `{ValueText}.

Definition field_key (c : Control) : text :=
  value_text (Array [Str (c_role c); Str (c_label c); opt_str (c_context c); opt_str (c_input_name c)]).
Definition write_key (c : Control) (v : text) : text := field_key c ++ [0] ++ v.

Definition record_write (w : Written) (c : Control) (v : text) : Written :=
  mkWritten ({[field_key c]} ∪ w_fields w) ({[write_key c v]} ∪ w_values w).
Definition wrote (w : Written) (c : Control) : bool := bool_decide (field_key c ∈ w_fields w).
Definition holds (w : Written) (c : Control) (v : text) : bool := bool_decide (write_key c v ∈ w_values w).
End Written.

(** ** The run's state *)
(** The action a stall is about: its operation, and the control it acted on by label ([recovery.rs]). *)
Definition Withheld := option (Operation * option text).
Record Idle := mkIdle { i_action : Withheld; i_outcome : StepOutcome }.

Inductive OutputIntent := IntentUnknown | IntentText | IntentImage | IntentTextAndImage | IntentCarriedOut.
#[export] Instance OutputIntent_eq_dec : EqDecision OutputIntent.
Proof. solve_decision. Defined.

Definition DocumentKey : Type := text * text.

Section State.
Context `{TR : TableReader}.

Record Reading := mkReading {
  notes : Notes;
  compose : bool;
  read_whole : list Capture;
  read_documents : gmap DocumentKey bool;
  changed_page : option DocumentKey;
  read_pages : gset text;
  read_urls : gset text;
  fetched : gset text;
  followed : option text;
  arrived_by : option (DocumentKey * text);
  evidence_reads : nat;
  unanswered_images : gset text;
}.

Record Pager := mkPager {
  every_page : bool;
  pager_pages : list text;
  pager_start : option text;
  pager_followed : gset text;
}.

Record Stall := mkStall {
  hint : option text;
  unchanged : Z;
  recoveries : Z;
  reached : gmap text nat;
  landing : option Withheld;
  idle : list Idle;
}.

Record Site := mkSite {
  site_failure : option SiteFailure;
  http_seen : gset (text * text * Z);
  challenge_reloads : gset text;
  page_failed : bool;
  committing : bool;
  login_readings : gmap DocumentKey f64;
  blank_opening_checked : bool;
  blank_waited : gset (text * text);
  hung_page_reopened : bool;
}.

(** A step as the run reports it: the facts a read added, and the controls Jev was offered. *)
Record StepFact := mkStepFact {
  sf_text : text; sf_quote : option text; sf_address : option text; sf_reader : FactReader; sf_deep_link : option text;
}.
Record StepChoice := mkStepChoice {
  sh_id : text; sh_role : text; sh_label : text; sh_context : option text; sh_operations : list Operation; sh_chosen : bool;
}.
Record StepResult := mkStepResult {
  sr_index : nat; sr_operation : Operation; sr_decided_by : Decider; sr_outcome : StepOutcome; sr_url : text;
  sr_target : option text; sr_confidence : option f64; sr_note : option text; sr_facts : list StepFact;
  sr_page_changed : option bool; sr_duration_ms : Z; sr_choices : list StepChoice;
}.

(** What was asked of the page, in order: a run's trace of it. *)
Inductive PageCall :=
| Observed | Glanced | Pictured | Captured | Waited | Watched | Checked | AskedAddress
| Opened (url : text) | Acted (a : Action) (on : Observation) | ClickedAt (x y : f64).

Record RunState := mkRunState {
  task : text;
  given_task : text;
  background : option text;
  inputs : list (text * text);
  irreversible_actions : bool;
  reading : Reading;
  pager : Pager;
  stall : Stall;
  site : Site;
  steps : list StepResult;
  choices : list StepChoice;
  history : list HistoryEntry;
  written : gmap text Written;
  picked : option (text * Decision);
  last_page : option DocumentKey;
  navigation_from : option (DocumentKey * Observation);
  acted_from : option Observation;
  downloads_forbidden : option bool;
  extraction_pending : bool;
  to_carry_out : bool;
  output_intent : OutputIntent;
  appearance : bool;
  started_url : option text;
  caller_start : option text;
  start_landing_url : option text;
  first_url : option text;
  redecided : bool;
  missing : gset (text * text * option text);
  attachments : list Attachment;
  replay : option Replay;
  recipe_log : list RecipeStep;
  text_source : option RecipeText;
  redactor : Redactor;
  raw_page : option Observation;
  counted_steps : Z;
  tab_handed_over : bool;
  secret_on_screen : bool;
  frames_withheld : bool;
  observed_page : option Observation;
  composition_feedback : option text;
  composition_partial : option (ComposedAnswer * list (Fact * bool));
  page_calls : list PageCall;
}.
Definition step_count (s : RunState) : nat := length (steps s).

Definition new_reading : Reading := mkReading empty_notes false [] ∅ None ∅ ∅ ∅ None None 0 ∅.
Definition new_pager : Pager := mkPager false [] None ∅.
Definition new_stall : Stall := mkStall None 0 0 ∅ None [].
Definition new_site : Site := mkSite None ∅ ∅ false false ∅ false ∅ false.
End State.

Definition read_key (o : Observation) : DocumentKey := (document_key o, o_url o).

(** ** The task beside its inputs *)
Section Inputs.
Context `{Unicode}.

Definition opens_on_word (t : text) : bool := match t with c :: _ => is_word c | [] => false end.
Definition ends_on_word (t : text) : bool := match last t with Some c => is_word c | None => false end.

(** [max_by_key(|(name, _)| name.len())]: the last of the longest, by its UTF-8 length. *)
Definition utf8_len (t : text) : Z :=
  fold_right (fun c n => (if c <? 0x80 then 1 else if c <? 0x800 then 2 else if c <? 0x10000 then 3 else 4) + n) 0 t.
Definition longest_name (candidates : list (text * text)) : option (text * text) :=
  fold_left (fun best named =>
    match best with
    | Some b => if utf8_len named.1 <? utf8_len b.1 then best else Some named
    | None => Some named
    end) candidates None.

Definition named_input (inputs : list (text * text)) (before after : text) : option (text * text) :=
  if ends_on_word before then None
  else
    longest_name
      (base.filter (fun named => starts_with after named.1 && negb (opens_on_word (drop (length named.1) after)) = true)
         inputs).

(** [before] is what the task says up to here, [t] the rest of it. *)
Fixpoint show_inputs (inputs : list (text * text)) (fuel : nat) (before t : text) : text :=
  match fuel with
  | O => t
  | S fuel =>
      match find_sub (lit "input ") t with
      | None => t
      | Some found =>
          let name_at := (found + 6)%nat in
          match named_input inputs (before ++ take found t) (drop name_at t) with
          | Some (name, v) =>
              let end_ := (name_at + length name)%nat in
              take end_ t ++ lit " (" ++ v ++ lit ")" ++ show_inputs inputs fuel (before ++ take end_ t) (drop end_ t)
          | None => take name_at t ++ show_inputs inputs fuel (before ++ take name_at t) (drop name_at t)
          end
      end
  end.
Definition with_inputs (task : text) (inputs : list (text * text)) : text :=
  show_inputs inputs (S (length task)) [] task.
End Inputs.

(** ** What a read leaves *)
Section Reading.
Context `{Unicode} `{UnicodeStr} `{FloatFormat} `{Sha256} `{TR : TableReader}.

Definition reload_target (s : RunState) (url : text) : option text :=
  match site_failure (site s) with
  | Some f => if teqb (sf_url f) url && transient f then Some (sf_url f) else None
  | None => None
  end.

Definition read_note (r : Reading) : text :=
  if Notes.answered (notes r) then lit "Read this content. The notes hold evidence that answers the task."
  else if compose r && (negb (is_empty (evidence_by_id (notes r))) || negb (is_empty (read_whole r))) then
    lit "Read this content. The notes hold source material for an answer that still needs composing."
  else lit "Read this content. The notes hold nothing that answers the task.".

Definition composition_sources (n : Notes) : list (Fact * bool) :=
  map (fun kf => (kf.2, superseded n (fact_id kf.2))) (facts n).

Definition record_read (r : Reading) (c : Capture) (read : list Fact) (compose : bool) : Reading :=
  let n := fold_left (fun n f => snd (add n f)) read (remember_capture (notes r) c) in
  let page := address (cap_url c) in
  let kept := base.filter (fun w => address (cap_url w) <> page) (read_whole r) in
  let added := negb (is_empty read) in
  r <| notes := if added then supersede n (cap_url c) (sha256 c) (cap_text c) else n |>
    <| read_whole := if negb compose && added then kept ++ [c] else kept |>.

Definition checked_composition (s : RunState) (n : Notes) : option ComposedAnswer :=
  match composition_partial s with
  | Some (partial, sources) =>
      if negb (is_empty (ca_claims partial)) && bool_decide (sources = composition_sources n) then Some partial else None
  | None => None
  end.
Definition notes_to_compose (r : Reading) : Notes :=
  fold_left (fun n f => snd (add n f)) (concat (map whole_page_facts (read_whole r))) (notes r).

(** [if let Some(read) = map.get_mut(&page) { *read = true }]. *)
Definition mark_changed (documents : gmap DocumentKey bool) (page : DocumentKey) : gmap DocumentKey bool :=
  match documents !! page with Some _ => <[page := true]> documents | None => documents end.

Definition settle_change (r : Reading) (landed : Observation) : Reading :=
  match changed_page r with
  | None => r
  | Some page =>
      r <| changed_page := None |>
        <| read_documents ::= fun d => if bool_decide (page = read_key landed) then mark_changed d page else d |>
  end.

Definition mark_read (r : Reading) (o : Observation) : Reading :=
  let page := read_key o in
  let urls :=
    match arrived_by r with
    | Some (landed, href) => if bool_decide (landed = page) then {[href]} ∪ read_urls r else read_urls r
    | None => read_urls r
    end in
  r <| read_documents ::= <[page := false]> |>
    <| read_pages ::= fun p => {[page_key o]} ∪ p |>
    <| read_urls := {[o_url o]} ∪ urls |>.

(** [page_read] ([mod.rs]): read, and unchanged since. *)
Definition page_read (r : Reading) (o : Observation) : bool :=
  negb (is_empty (document_key o)) && bool_decide (read_documents r !! read_key o = Some false).
End Reading.

(** ** The list a whole-list task walks *)
Section Pages.
Context `{UrlParser} `{TR : TableReader}.

(** [url::Origin] equality: an opaque origin equals no other, itself included. *)
Definition same_origin (a b : Url) : bool :=
  teqb (ascii_origin a) (ascii_origin b) && negb (teqb (ascii_origin a) (lit "null")).

Definition push_new (pages : list text) (page : text) : list text :=
  if bool_decide (page ∈ pages) then pages else pages ++ [page].

Definition named_pages (here : Url) (o : Observation) : list text :=
  omap (fun c =>
    if pager_link c then
      match c_href c with
      | Some href =>
          match join_url here href with
          | Some page => if same_origin page here then Some (Origins.as_str page) else None
          | None => None
          end
      | None => None
      end
    else None) (controls o).

(** The address asked for, when the page in view is where it landed. *)
Definition requested (r : Reading) (o : Observation) : option text :=
  match arrived_by r with
  | Some (landed, href) => if bool_decide (landed = read_key o) then Some href else None
  | None => None
  end.

Definition in_list (p : Pager) (page : text) : bool :=
  bool_decide (pager_start p = Some page) || bool_decide (page ∈ pager_pages p).

Definition note_pager_pages (p : Pager) (r : Reading) (o : Observation) : Pager :=
  match parse_url (o_url o) with
  | None => p
  | Some here =>
      let named := named_pages here o in
      let asked := requested r o in
      let continues := in_list p (Origins.as_str here) || match asked with Some href => in_list p href | None => false end in
      let p :=
        if negb (is_empty named) && negb continues then
          p <| pager_pages := [] |> <| pager_start := Some (Origins.as_str here) |>
        else if continues && bool_decide (is_Some asked) then p <| pager_pages ::= fun l => push_new l (Origins.as_str here) |>
        else p in
      p <| pager_pages ::= fun l => fold_left push_new named l |>
  end.

Definition list_addresses (p : Pager) : list text :=
  map address (match pager_start p with Some s => [s] | None => [] end ++ pager_pages p).

Definition list_noted (p : Pager) (n : Notes) : bool :=
  existsb (fun kf => match evidence kf.2 with
                     | Some e => bool_decide (address (e_url e) ∈ list_addresses p)
                     | None => false
                     end) (facts n).

Definition unread_list_pages (p : Pager) (r : Reading) : list text :=
  base.filter (fun page => list_noted p (notes r) && bool_decide (page ∉ read_urls r) = true) (pager_pages p).

Definition unread_pager_page (p : Pager) (r : Reading) : option text :=
  head (base.filter (fun page => page ∉ pager_followed p) (unread_list_pages p r)).

(** [open_unread_page] ([finishing.rs]) remembers the page before it navigates there. *)
Definition follow_pager_page (p : Pager) (next : text) : Pager := p <| pager_followed ::= fun f => {[next]} ∪ f |>.

Definition leads_to (o : Observation) (c : Control) : option Url :=
  match c_href c, parse_url (o_url o) with Some href, Some here => join_url here href | _, _ => None end.

Definition mark_read_links (r : Reading) (o : Observation) : Observation :=
  o <| controls ::= map (fun c =>
         match leads_to o c with
         | Some url => if bool_decide (Origins.as_str url ∈ read_urls r) then c <| c_already_read := Some true |> else c
         | None => c
         end) |>.
End Pages.

(** ** A run, and one carried on in a browser *)
Section Runs.
Context `{Unicode} `{UnicodeStr} `{FloatFormat} `{Sha256} `{TR : TableReader}.

Definition new_run (given : text) (inputs : list (text * text)) (files : list Attachment) (irreversible : bool)
  (redactor : Redactor) : RunState :=
  mkRunState (with_inputs given inputs) given None inputs irreversible new_reading new_pager new_stall new_site
    [] [] [] ∅ None None None None None false false IntentUnknown false None None None None false ∅ files None [] None redactor None
    0 false false false None None None [].

Definition carried_on (s : RunState) : RunState :=
  s <| reading ::= fun r => r <| fetched := read_urls r |> <| followed := None |> <| changed_page := None |> |>
    <| stall ::= fun t => t <| landing := None |> <| idle := [] |> <| unchanged := 0 |> |>
    <| site -> committing := false |>
    <| picked := None |> <| acted_from := None |> <| redecided := false |> <| last_page := None |>
    <| navigation_from := None |>.
End Runs.

(** ** Before a step ([mod.rs]) *)
Section Before.
Context `{Unicode} `{UnicodeStr} `{FloatFormat} `{Sha256} `{TR : TableReader}.

(** [decision.shows_answer.is_some_and(|probability| probability > EVEN_ODDS)]. *)
Definition likely (p : option f64) : bool := match p with Some p => f64_gt p EVEN_ODDS | None => false end.

Definition reads_before_leaving (s : RunState) (o : Observation) (d : Decision) : option bool :=
  let unread := negb (page_read (reading s) o) in
  let first := bool_decide (first_url s = Some (o_url o)) in
  let shows := likely (d_shows_answer d) || (compose (reading s) && unread) in
  if negb (bool_decide (d_operation d = Read)) && (shows || (first && unread)) then Some shows else None.

Definition option_list {A} (o : option A) : list A := match o with Some a => [a] | None => [] end.

Definition failure_fact (s : RunState) (o : Observation) : list text :=
  match site_failure (site s) with
  | Some f =>
      if transient f then
        [lit "The site failed: " ++ failure_message f ++ lit " It has stood for "
          ++ show_Z (Z.of_nat (step_count s - since f))
          ++ lit " steps. A failure is not the task's answer, and neither is an empty result shown beside it."
          ++ (if teqb (sf_url f) (o_url o) then
                lit " This page's own address is offered to navigate to, which reloads it; a retry control the page offers, or another route, may also get past the failure."
              else [])]
      else []
  | None => []
  end.

Definition page_facts (s : RunState) (o : Observation) : list text :=
  (match response_status o with
   | Some status => if 400 <=? status then [lit "This page answered HTTP " ++ show_Z status ++ lit "."] else []
   | None => []
   end)
  ++ (if page_read (reading s) o
      then [lit "This page was read and has not changed since: the notes hold what a read takes from it."] else [])
  ++ (if is_empty (controls o)
      then [lit "This page offers no links or controls: nothing on it leads anywhere else."] else [])
  ++ (if negb (is_empty (document_key o)) && bool_decide (read_documents (reading s) !! read_key o = Some true)
      then [lit "This page changed after it was last read, so the notes taken from it predate the change."] else [])
  ++ option_list (unsent_fact (history s) o)
  ++ (if to_carry_out s then option_list (empty_fields_fact (elements (missing s)) o) else [])
  ++ (if compose (reading s) then option_list (page_change_fact (history s) o) else [])
  ++ failure_fact s o.
End Before.

(** * Properties *)
(** ** A task and its inputs *)
Section InputLaws.
Context `{Unicode} (inputs : list (text * text)).

(** An input the text after [before] names: the whole of a word there, on a word of its own. *)
Definition names_input (before after : text) (named : text * text) : Prop :=
  named ∈ inputs /\ ends_on_word before = false /\ (exists rest, after = named.1 ++ rest /\ opens_on_word rest = false).

(** [shown] is [t], what is left of a task after [before], with each input it names told beside its name. *)
Inductive beside : text -> text -> text -> Prop :=
| beside_end before t : contains_sub t (lit "input ") = false -> beside before t t
| beside_skip before a t shown :
    contains_sub a (lit "input ") = false -> (forall named, ~ names_input (before ++ a) t named) ->
    beside (before ++ a ++ lit "input ") t shown ->
    beside before (a ++ lit "input " ++ t) (a ++ lit "input " ++ shown)
| beside_value before a name v t shown :
    contains_sub a (lit "input ") = false -> names_input (before ++ a) (name ++ t) (name, v) ->
    (forall named, names_input (before ++ a) (name ++ t) named -> utf8_len named.1 <= utf8_len name) ->
    beside (before ++ a ++ lit "input " ++ name) t shown ->
    beside before (a ++ lit "input " ++ name ++ t) (a ++ lit "input " ++ name ++ lit " (" ++ v ++ lit ")" ++ shown).

Definition longer (best : option (text * text)) (named : text * text) : option (text * text) :=
  match best with
  | Some b => if utf8_len named.1 <? utf8_len b.1 then best else Some named
  | None => Some named
  end.

Lemma longest_from candidates : forall best,
  match fold_left longer candidates best with
  | Some b => (best = Some b \/ b ∈ candidates) /\
              Forall (fun c => utf8_len c.1 <= utf8_len b.1) candidates /\
              (forall c, best = Some c -> utf8_len c.1 <= utf8_len b.1)
  | None => best = None /\ candidates = []
  end.
Proof.
  induction candidates as [|c cs IH]; intros best; cbn [fold_left].
  - destruct best as [b|]; [|done]. split_and!; [by left|constructor|]. intros c [= ->]. lia.
  - specialize (IH (longer best c)). destruct (fold_left longer cs (longer best c)) as [b|].
    + destruct IH as (Hin & Hall & Hb). destruct best as [d|]; cbn [longer] in *.
      * destruct (Z.ltb_spec (utf8_len c.1) (utf8_len d.1)).
        -- pose proof (Hb d eq_refl). split_and!; [set_solver|constructor; [lia|done]|by intros ? [= <-]].
        -- pose proof (Hb c eq_refl). split_and!; [set_solver|constructor; [lia|done]|intros ? [= <-]; lia].
      * pose proof (Hb c eq_refl). split_and!; [set_solver|by constructor|done].
    + destruct IH as [IH _]. destruct best as [d|]; cbn [longer] in IH; [by destruct (_ <? _)|done].
Qed.

Lemma named_input_spec before after :
  match named_input inputs before after with
  | Some named => names_input before after named /\
                  (forall other, names_input before after other -> utf8_len other.1 <= utf8_len named.1)
  | None => forall named, ~ names_input before after named
  end.
Proof.
  unfold named_input. destruct (ends_on_word before) eqn:Eb; [intros named (_ & ? & _); congruence|].
  set (candidates := base.filter _ inputs).
  assert (Hc : forall named, named ∈ candidates <-> names_input before after named).
  { intros named. unfold candidates, names_input. rewrite list_elem_of_filter, andb_true_iff, negb_true_iff, starts_with_spec.
    split.
    - intros [[[rest E] Ho] Hin]. split; [done|]. split; [done|]. exists rest. split; [done|].
      by rewrite E, drop_app_length in Ho.
    - intros (Hin & _ & rest & E & Ho). split; [|done]. split; [by exists rest|]. by rewrite E, drop_app_length. }
  pose proof (longest_from candidates None) as Hl. unfold longest_name. fold longer.
  destruct (fold_left longer candidates None) as [b|].
  - destruct Hl as ([?|Hin] & Hall & _); [done|]. split; [by apply Hc|].
    intros other Ho. rewrite Forall_forall in Hall. by apply Hall, Hc.
  - destruct Hl as [_ Hl]. intros named Hn. apply Hc in Hn. rewrite Hl in Hn. by apply not_elem_of_nil in Hn.
Qed.

Lemma show_inputs_spec fuel : forall before t, (length t < fuel)%nat -> beside before t (show_inputs inputs fuel before t).
Proof.
  induction fuel as [|fuel IH]; intros before t Hf; [lia|]. cbn [show_inputs].
  destruct (find_sub (lit "input ") t) as [found|] eqn:Ef.
  2: { apply beside_end. unfold contains_sub. by rewrite Ef. }
  pose proof (find_sub_some _ _ _ Ef) as Hs. destruct Hs as [Hs Hlen].
  assert (Et : t = take found t ++ lit "input " ++ drop (found + 6) t).
  { apply starts_with_spec in Hs as [rest Hs]. etrans; [symmetry; apply (take_drop found)|]. f_equal.
    rewrite <- drop_drop, Hs. done. }
  assert (Hfirst : contains_sub (take found t) (lit "input ") = false).
  { apply not_true_iff_false. intros Hc. apply contains_sub_spec in Hc as (x & y & Hx).
    assert (Hl : (length x < found)%nat).
    { apply (f_equal length) in Hx. rewrite !length_app, length_take in Hx. change (length (lit "input ")) with 6%nat in Hx. lia. }
    assert (starts_with (drop (length x) t) (lit "input ") = true); [|by rewrite (find_sub_first _ _ _ _ Ef Hl) in *].
    rewrite <- (take_drop found t), Hx, <- !app_assoc, drop_app_length. apply starts_with_app. }
  set (a := take found t) in *. set (after := drop (found + 6) t) in *.
  assert (Htake : forall k, take (found + 6 + k) t = a ++ lit "input " ++ take k after).
  { intros k. assert (length a = found) as Ha by (unfold a; rewrite length_take; lia). rewrite Et at 1.
    rewrite take_app, Ha. rewrite (take_ge a) by lia. f_equal. replace (found + 6 + k - found)%nat with (6 + k)%nat by lia.
    done. }
  pose proof (named_input_spec (before ++ a) after) as Hn.
  destruct (named_input inputs (before ++ a) after) as [[name v]|].
  - destruct Hn as [Hn Hmax]. destruct Hn as (Hin & Hb & rest & Ea & Ho).
    assert (Ed : drop (found + 6 + length name) t = rest).
    { rewrite <- drop_drop. fold after. cbn [fst] in Ea. rewrite Ea. by rewrite drop_app_length. }
    rewrite Ed, Htake. cbn [fst] in Ea. rewrite Ea, take_app_length.
    rewrite Et at 1. rewrite Ea, <- !app_assoc.
    apply beside_value; [done|by split; [|split; [|exists rest]]|by rewrite <- Ea|].
    apply IH. apply (f_equal length) in Et. rewrite Ea, !length_app in Et. change (length (lit "input ")) with 6%nat in Et. lia.
  - replace (found + 6)%nat with (found + 6 + 0)%nat at 1 2 by lia. rewrite Htake, take_0, app_nil_r, <- !app_assoc.
    rewrite Et at 1. apply beside_skip; [done|done|]. apply IH.
    apply (f_equal length) in Et. rewrite !length_app in Et. change (length (lit "input ")) with 6%nat in Et. lia.
Qed.
End InputLaws.

(** ** The pages of a list *)
Section PagerLaws.
Context `{UrlParser} `{TR : TableReader}.

(** What happens to the list a run walks: a page is observed, or the run opens the next one it has not read. *)
Inductive pager_event := Seen (r : Reading) (o : Observation) | OpenNext (r : Reading).

Definition pager_run (state : Pager * list text) (e : pager_event) : Pager * list text :=
  let '(p, opened) := state in
  match e with
  | Seen r o => (note_pager_pages p r o, opened)
  | OpenNext r =>
      match unread_pager_page p r with
      | Some next => (follow_pager_page p next, opened ++ [next])
      | None => (p, opened)
      end
  end.

(** A page of the list by what an observed page says: itself, or the destination on its own site of a control of it
    that leads to a next page. *)
Definition page_of (o : Observation) (page : text) : Prop :=
  exists here, parse_url (o_url o) = Some here /\
    (page = Origins.as_str here \/
     exists c href u, c ∈ controls o /\ pager_link c = true /\ c_href c = Some href /\ join_url here href = Some u /\
       same_origin u here = true /\ page = Origins.as_str u).

Lemma push_new_elem pages page x : x ∈ push_new pages page <-> x ∈ pages \/ x = page.
Proof. unfold push_new. case_bool_decide; [set_solver|]. rewrite elem_of_app, list_elem_of_singleton. done. Qed.

Lemma push_new_nodup pages page : NoDup pages -> NoDup (push_new pages page).
Proof.
  unfold push_new. case_bool_decide; [done|]. intros. apply NoDup_app. split_and!; [done| |apply NoDup_singleton]. set_solver.
Qed.

Lemma push_all_elem named : forall pages x, x ∈ fold_left push_new named pages <-> x ∈ pages \/ x ∈ named.
Proof.
  induction named as [|n named IH]; intros pages x; cbn [fold_left]; [set_solver|]. rewrite IH, push_new_elem. set_solver.
Qed.

Lemma push_all_nodup named : forall pages, NoDup pages -> NoDup (fold_left push_new named pages).
Proof. induction named; intros pages Hp; cbn; [done|]. auto using push_new_nodup. Qed.

Lemma named_pages_elem here o page : page ∈ named_pages here o ->
  exists c href u, c ∈ controls o /\ pager_link c = true /\ c_href c = Some href /\ join_url here href = Some u /\
    same_origin u here = true /\ page = Origins.as_str u.
Proof.
  unfold named_pages. rewrite list_elem_of_omap. intros (c & Hc & E).
  destruct (pager_link c) eqn:El; [|done]. destruct (c_href c) as [href|] eqn:Eh; [|done].
  destruct (join_url here href) as [u|] eqn:Ej; [|done]. destruct (same_origin u here) eqn:Eo; [|done].
  injection E as <-. by exists c, href, u.
Qed.

Lemma note_pager_pages_spec p r o :
  pager_followed (note_pager_pages p r o) = pager_followed p /\
  (NoDup (pager_pages p) -> NoDup (pager_pages (note_pager_pages p r o))) /\
  (forall page, page ∈ pager_pages (note_pager_pages p r o) -> page ∈ pager_pages p \/ page_of o page).
Proof.
  unfold note_pager_pages. destruct (parse_url (o_url o)) as [here|] eqn:Eh; [|by auto].
  assert (Hnamed : forall page, page ∈ named_pages here o -> page_of o page).
  { intros page Hp. apply named_pages_elem in Hp. exists here. auto. }
  assert (Hhere : page_of o (Origins.as_str here)) by (exists here; auto).
  destruct (negb _ && negb _); [|destruct (_ && bool_decide _)]; cbn; split_and!; try done.
  - intros _. apply push_all_nodup, NoDup_nil_2.
  - intros page Hp. apply push_all_elem in Hp as [Hp|Hp]; [by apply not_elem_of_nil in Hp|auto].
  - intros Hn. by apply push_all_nodup, push_new_nodup.
  - intros page Hp. apply push_all_elem in Hp as [Hp|Hp]; [|auto]. apply push_new_elem in Hp as [Hp| ->]; auto.
  - intros Hn. by apply push_all_nodup.
  - intros page Hp. apply push_all_elem in Hp as [Hp|Hp]; auto.
Qed.

Lemma unread_pager_page_spec p r next : unread_pager_page p r = Some next ->
  next ∈ pager_pages p /\ next ∉ pager_followed p /\ next ∉ read_urls r /\ list_noted p (notes r) = true.
Proof.
  unfold unread_pager_page, unread_list_pages. intros Hh. apply head_Some_elem_of in Hh.
  rewrite !list_elem_of_filter, andb_true_iff, bool_decide_eq_true in Hh. tauto.
Qed.

Lemma pager_run_inv evs : forall p opened,
  NoDup (pager_pages p) -> NoDup opened -> (forall page, page ∈ opened <-> page ∈ pager_followed p) ->
  let '(p', opened') := fold_left pager_run evs (p, opened) in
  NoDup (pager_pages p') /\ NoDup opened' /\ (forall page, page ∈ opened' <-> page ∈ pager_followed p') /\
  (forall page, page ∈ opened' ++ pager_pages p' ->
     page ∈ opened ++ pager_pages p \/ exists r o, Seen r o ∈ evs /\ page_of o page).
Proof.
  induction evs as [|e evs IH]; intros p opened Hp Ho Hf; cbn [fold_left]; [auto|].
  destruct e as [r o|r]; cbn [pager_run].
  - destruct (note_pager_pages_spec p r o) as (E & Hn & Hin).
    specialize (IH (note_pager_pages p r o) opened (Hn Hp) Ho).
    destruct (fold_left _ _ _) as [p' opened']. rewrite E in IH. destruct (IH Hf) as (H1 & H2 & H3 & H4).
    split_and!; try done. intros page Hpage. apply H4 in Hpage as [Hpage|(r' & o' & Hs & Hq)].
    + apply elem_of_app in Hpage as [Hpage|Hpage]; [left; set_solver|]. apply Hin in Hpage as [?|?]; [left; set_solver|].
      right. exists r, o. set_solver.
    + right. exists r', o'. set_solver.
  - assert (Hskip : forall page, (exists r' o, Seen r' o ∈ evs /\ page_of o page) ->
                      exists r' o, Seen r' o ∈ OpenNext r :: evs /\ page_of o page) by (intros ? (r' & o & ? & ?); exists r', o; set_solver).
    destruct (unread_pager_page p r) as [next|] eqn:En.
    + apply unread_pager_page_spec in En as (Hin & Hnf & _).
      specialize (IH (follow_pager_page p next) (opened ++ [next]) Hp).
      destruct (fold_left _ _ _) as [p' opened'].
      destruct IH as (H1 & H2 & H3 & H4).
      * apply NoDup_app. split_and!; [done|set_solver|apply NoDup_singleton].
      * intros page. cbn. rewrite elem_of_app, list_elem_of_singleton, elem_of_union, elem_of_singleton, Hf. tauto.
      * split_and!; try done. intros page Hpage. apply H4 in Hpage as [Hpage|?]; [left|auto]. cbn in Hpage. set_solver.
    + specialize (IH p opened Hp Ho Hf). destruct (fold_left _ _ _) as [p' opened'].
      destruct IH as (H1 & H2 & H3 & H4). split_and!; try done. intros page Hpage. apply H4 in Hpage as [?|?]; auto.
Qed.
End PagerLaws.

(** The text Jev is shown of a task is the task with " (value)" after each input it names and nothing else: a name
    counts where it stands whole after "input " on a word of its own, the longest name wins, and no value is read as
    naming another input. *)
Theorem with_inputs_exact `{Unicode} task inputs : beside inputs [] task (with_inputs task inputs).
Proof. apply show_inputs_spec. lia. Qed.

(** However a run walks a list it must read to its end, it opens each next page at most once, so the walk ends;
    every page it opened or means to open is one an observed page named, on that page's own site, and is listed once. *)
Theorem pager_opens_each_page_once `{UrlParser} `{TR : TableReader} (evs : list pager_event) :
  let '(p, opened) := fold_left pager_run evs (new_pager, []) in
  NoDup opened /\ NoDup (pager_pages p) /\
  forall page, page ∈ opened ++ pager_pages p -> exists r o, Seen r o ∈ evs /\ page_of o page.
Proof.
  pose proof (pager_run_inv evs new_pager []) as Hinv. destruct (fold_left _ _ _) as [p opened].
  destruct Hinv as (Hp & Ho & _ & Hin); [apply NoDup_nil_2|apply NoDup_nil_2|set_solver|].
  split_and!; try done. intros page Hpage. apply Hin in Hpage as [Hpage|]; [|done]. by apply not_elem_of_nil in Hpage.
Qed.

Section ReadLaws.
Context `{Unicode} `{UnicodeStr} `{FloatFormat} `{Sha256} `{TR : TableReader}.
Definition whole_addresses (r : Reading) : list text := map (fun w => address (cap_url w)) (read_whole r).

(** A read leaves at most one whole page per address: an earlier view of the address just read is dropped from
    what the composer is given, this one is kept exactly when facts were picked from it without asking for a written
    answer, and whole pages of other addresses stay as they were, in order. *)
Theorem one_whole_page_per_address r c read compose :
  NoDup (whole_addresses r) ->
  let r' := record_read r c read compose in
  NoDup (whole_addresses r') /\
  read_whole r' =
    base.filter (fun w => address (cap_url w) <> address (cap_url c)) (read_whole r)
    ++ (if negb compose && negb (is_empty read) then [c] else []).
Proof.
  intros Hn. cbn zeta.
  assert (E : read_whole (record_read r c read compose) =
    base.filter (fun w => address (cap_url w) <> address (cap_url c)) (read_whole r)
    ++ (if negb compose && negb (is_empty read) then [c] else [])).
  { unfold record_read. cbn. destruct (negb compose && negb (is_empty read)); by rewrite ?app_nil_r. }
  split; [|done]. unfold whole_addresses. rewrite E, map_app.
  assert (Hk : forall pages, NoDup (map (fun w => address (cap_url w)) pages) ->
                 NoDup (map (fun w => address (cap_url w)) (base.filter (fun w => address (cap_url w) <> address (cap_url c)) pages))).
  { intros pages Hp. eapply sublist_NoDup; [exact Hp|]. apply fmap_sublist, sublist_filter. }
  apply NoDup_app. split_and!; [by apply Hk| |destruct (negb compose && _); [apply NoDup_singleton|apply NoDup_nil_2]].
  intros a Ha Hc. apply list_elem_of_In, in_map_iff in Ha as (w & <- & Hw).
  apply list_elem_of_In, list_elem_of_filter in Hw as [Hne _].
  destruct (negb compose && _); [apply list_elem_of_singleton in Hc|by apply not_elem_of_nil in Hc]. done.
Qed.
End ReadLaws.

(** ** Cases *)
#[local] Existing Instances ascii_unicode ascii_unicode_str exact_format plain_digest no_tables plain_parser.

Lemma with_inputs_test :
  with_inputs (lit "Search for input term, not input terms or reinput term") [(lit "term", lit "asyncio")]
    = lit "Search for input term (asyncio), not input terms or reinput term" /\
  with_inputs (lit "Use input a") [(lit "a", lit "see input b"); (lit "b", lit "two")] = lit "Use input a (see input b)".
Proof. vm_compute. done. Qed.

(** A view of the cart read whole, and the page read again under a fragment of its address. *)
Definition cart_view (url sha : string) : Capture :=
  mkCapture (lit url) [] (new_datetime 2026 9 27 0 0 0) (lit sha) (lit "Total: 14.00") [] 0.
Definition cart_reading : Reading :=
  record_read new_reading (cart_view "https://shop.test/cart" "a")
    [fact_read (lit "12.29") (sample_span "a" 0 5 "12.29") JevChoice] false.

Theorem one_whole_page_per_address_witness :
  let again := cart_view "https://shop.test/cart#top" "b" in
  let f := fact_read (lit "14.00") (sample_span "b" 0 5 "14.00") JevChoice in
  map cap_url (read_whole cart_reading) = [lit "https://shop.test/cart"] /\
  map cap_url (read_whole (record_read cart_reading again [f] false)) = [lit "https://shop.test/cart#top"].
Proof.
  cbv zeta. split; [vm_compute; reflexivity|].
  rewrite (proj2 (one_whole_page_per_address cart_reading (cart_view "https://shop.test/cart#top" "b")
             [fact_read (lit "14.00") (sample_span "b" 0 5 "14.00") JevChoice] false
             ltac:(apply (bool_decide_unpack _); vm_compute; exact I))).
  vm_compute. reflexivity.
Defined.
