(* ===== verification/Seeing.v ===== *)
(** What a run sees of its page: the observing half of [crates/fastbrowse-agent/src/agent/driving.rs]
    ([observe], [capture], [frame], [screenshots], [viewport], [outwait]), over the seam of
    [crates/fastbrowse-core/src/page.rs].

    A fallible, state-changing method of the agent is a [Step]: it returns its result with the state
    it leaves.  [PageSeam] is the page behind the [Page] trait: each call is a function of the run's
    state, whose trace of calls ([page_calls]) grows with every one, so no two calls of a run need
    answer alike.  Everything a model is shown of a page is [mask_observation] or [mask_capture] of
    it, and a picture is taken only where [reveals_page] finds no secret. *)

From stdpp Require Import gmap.
From coqutil Require Import Datatypes.RecordSetters.
From S2P Require Import Prelude Float64 PyText Json Dump DateTime Models Page Origins Secrets Redactor Effects Notes Decision Helpers Recipe Pyre Spans RunState.

Import TriangleBracketNotations.

(** ** Steps *)
Section Steps.
Context `{TR : TableReader} (E : Type).
Definition Step (A : Type) : Type := RunState -> result A (Flow E) * RunState.
End Steps.
Arguments Step {TR} E A.

Definition ret `{TR : TableReader} {E A} (a : A) : Step E A := fun s => (Ok a, s).
Definition modify `{TR : TableReader} {E} (f : RunState -> RunState) : Step E unit := fun s => (Ok tt, f s).
Definition bind `{TR : TableReader} {E A B} (m : Step E A) (k : A -> Step E B) : Step E B :=
  fun s => match m s with (Ok a, s) => k a s | (Err e, s) => (Err e, s) end.
Definition fails `{TR : TableReader} {E A} (f : Flow E) : Step E A := fun s => (Err f, s).
Definition lift `{TR : TableReader} {E A} (f : RunState -> result A (Flow E)) : Step E A := fun s => (f s, s).
Definition get `{TR : TableReader} {E A} (f : RunState -> A) : Step E A := fun s => (Ok (f s), s).

Declare Scope step_scope.
Delimit Scope step_scope with step.
Notation "'let!' x := m 'in' k" := (bind m (fun x => k))
  (at level 10, x name, m at level 100, k at level 200, right associativity) : step_scope.
Notation "m ;; k" := (bind m (fun _ => k)) (at level 100, k at level 200, right associativity) : step_scope.
Open Scope step_scope.

Lemma bind_ok_inv `{TR : TableReader} {E A B} (m : Step E A) (k : A -> Step E B) s b s' :
  bind m k s = (Ok b, s') -> exists a s1, m s = (Ok a, s1) /\ k a s1 = (Ok b, s').
Proof. unfold bind. destruct (m s) as [[a|f] s1]; [eauto|done]. Qed.

(** ** The page *)
Record PageSeam `{TR : TableReader} := mkPage {
  p_observe : RunState -> result Observation BrowserError;
  p_glance : RunState -> result Observation BrowserError;
  p_screenshot : RunState -> result (list Z) BrowserError;
  p_capture : RunState -> result Capture BrowserError;
  p_act : RunState -> Action -> Observation -> result ActResult BrowserError;
  p_redrawn : RunState -> Observation -> f64 -> option text -> result bool BrowserError;
  p_document_changed : RunState -> Observation -> result bool BrowserError;
  p_click_viewport : RunState -> f64 -> f64 -> result ActResult BrowserError;
  p_navigate : RunState -> text -> result unit BrowserError;
  p_active_url : RunState -> result (option text) BrowserError;
  p_wait_for_lifecycle : RunState -> Z -> bool;
  p_clock : RunState -> Z;
}.

(** ** Masking *)
(** [model_dump_json] of an observation. *)
Definition opt_serial {A} (f : A -> Serial) (o : option A) : Serial := match o with Some a => SSome (f a) | None => SNone end.
Arguments opt_serial : simpl never.
Definition field (name : string) (v : Serial) : text * Serial := (lit name, v).
Definition some_serial {A} (name : string) (f : A -> Serial) (o : option A) : list (text * Serial) :=
  match o with Some a => [field name (SSome (f a))] | None => [] end.

Definition operations_serial (os : list Operation) : Serial :=
  SSeq None (map SStr (sort_texts (map Operation_as_str os))).

Definition control_serial (c : Control) : Serial :=
  SStruct None
    ([field "id" (SStr (c_id c)); field "frame_id" (opt_serial SStr (c_frame_id c));
      field "frame_origin" (opt_serial SStr (c_frame_origin c)); field "form_id" (opt_serial SStr (c_form_id c));
      field "role" (SStr (c_role c)); field "label" (SStr (c_label c)); field "context" (opt_serial SStr (c_context c));
      field "operations" (operations_serial (c_operations c)); field "value" (opt_serial SStr (c_value c))]
     ++ some_serial "focused" SBool (c_focused c)
     ++ [field "href" (opt_serial SStr (c_href c)); field "options" (SSeq None (map SStr (c_options c)));
         field "input_type" (opt_serial SStr (c_input_type c)); field "input_name" (opt_serial SStr (c_input_name c))]
     ++ some_serial "max_length" SInt (c_max_length c)
     ++ [field "autocomplete" (opt_serial SStr (c_autocomplete c));
         field "submit_semantics" (opt_serial SStr (c_submit_semantics c)); field "checked" (opt_serial SBool (c_checked c));
         field "selected" (opt_serial SBool (c_selected c)); field "expanded" (opt_serial SBool (c_expanded c));
         field "sensitive" (SBool (c_sensitive c)); field "offscreen" (SBool (c_offscreen c));
         field "required" (opt_serial SBool (c_required c)); field "invalid" (opt_serial SBool (c_invalid c))]
     ++ some_serial "validation_message" SStr (c_validation_message c)
     ++ [field "next_page" (opt_serial SBool (c_next_page c)); field "download" (opt_serial SBool (c_download c))]
     ++ some_serial "already_read" SBool (c_already_read c)).

Definition media_serial (m : Media) : Serial :=
  SStruct None [field "kind" (SStr (media_kind m)); field "label" (opt_serial SStr (media_label m));
    field "heading" (opt_serial SStr (media_heading m)); field "paused" (SBool (media_paused m));
    field "ended" (SBool (media_ended m)); field "muted" (SBool (media_muted m));
    field "elapsed_seconds" (SFloat (elapsed_seconds m)); field "duration_seconds" (opt_serial SFloat (duration_seconds m))].
Definition tab_serial (t : Tab) : Serial :=
  SStruct None [field "id" (SStr (tab_id t)); field "url" (SStr (tab_url t)); field "title" (SStr (tab_title t));
    field "active" (SBool (tab_active t)); field "opener_id" (opt_serial SStr (tab_opener_id t))].
Definition dialog_serial (d : PageDialog) : Serial :=
  SStruct None [field "kind" (SStr (dialog_kind d)); field "message" (SStr (dialog_message d));
    field "default_prompt" (opt_serial SStr (dialog_default_prompt d))].

Definition observation_serial (o : Observation) : Serial :=
  SStruct None
    [field "url" (SStr (o_url o)); field "title" (SStr (o_title o)); field "page_key" (SStr (page_key o));
     field "captured_at" (SStr (isoformat (captured_at o))); field "response_status" (opt_serial SInt (response_status o));
     field "document_key" (SStr (document_key o)); field "controls" (SSeq None (map control_serial (controls o)));
     field "viewport_text" (SStr (viewport_text o)); field "offscreen_text" (SStr (offscreen_text o));
     field "visual_content" (SBool (visual_content o)); field "media" (SSeq None (map media_serial (media o)));
     field "tabs" (SSeq None (map tab_serial (tabs o))); field "dialog" (opt_serial dialog_serial (dialog o));
     field "inaccessible_frames" (SInt (inaccessible_frames o)); field "can_go_back" (SBool (can_go_back o));
     field "history_entry" (opt_serial SStr (history_entry o))].

Definition observation_json `{FloatFormat} (o : Observation) : text := default [] (Dump_dump_json (observation_serial o)).

(** What a model is shown of an observation ([observe]) and of a capture ([capture]). *)
Definition mask_control (mask : text -> text) (c : Control) : Control :=
  c <| c_label ::= mask |> <| c_context ::= fmap mask |> <| c_value ::= fmap mask |> <| c_input_name ::= fmap mask |>
    <| c_autocomplete ::= fmap mask |> <| c_href ::= fmap mask |> <| c_frame_origin ::= fmap mask |>
    <| c_submit_semantics ::= fmap mask |> <| c_options ::= map mask |>.
Definition mask_tab (mask : text -> text) (t : Tab) : Tab := t <| tab_url ::= mask |> <| tab_title ::= mask |>.
Definition mask_dialog (mask : text -> text) (d : PageDialog) : PageDialog :=
  d <| dialog_message ::= mask |> <| dialog_default_prompt ::= fmap mask |>.
Definition mask_observation (mask : text -> text) (o : Observation) : Observation :=
  o <| o_url ::= mask |> <| o_title ::= mask |> <| viewport_text ::= mask |> <| offscreen_text ::= mask |>
    <| controls ::= map (mask_control mask) |> <| tabs ::= map (mask_tab mask) |> <| dialog ::= fmap (mask_dialog mask) |>.

Definition mask_source (mask : text -> text) (c : SourceControl) : SourceControl :=
  mkSourceControl (mask (source_role c)) (mask (source_label c)) (mask <$> source_context c).
Definition mask_block (mask : text -> text) (b : Block) : Block :=
  b <| heading_path ::= map mask |> <| control_context ::= fmap (mask_source mask) |> <| b_href ::= fmap mask |>
    <| source_url ::= fmap mask |>.
Definition mask_capture `{Sha256} (mask : text -> text) (c : Capture) : Capture :=
  let t := mask (cap_text c) in
  c <| cap_text := t |> <| cap_url ::= mask |> <| cap_title ::= mask |> <| sha256 := sha256_hex t |>
    <| blocks ::= map (mask_block mask) |>.

(** ** Looking at the page *)
Definition INTERSTITIAL_MILLISECONDS : Z := 12000.

Section Seeing.
Context `{Unicode} `{UnicodeStr} `{FloatFormat} `{Sha256} `{PercentEncoding} `{UrlParser} `{TR : TableReader}.
Context {E : Type} (page : PageSeam).

(** A call of the page, which joins the trace. *)
Definition call {A} (did : PageCall) (f : RunState -> result A BrowserError) : Step E (result A BrowserError) := fun s =>
  (Ok (f s), s <| page_calls ::= fun l => l ++ [did] |>).
Definition call_or_stop {A} (did : PageCall) (f : RunState -> result A BrowserError) : Step E A :=
  let! r := call did f in match r with Ok a => ret a | Err e => fails (FlowBrowser e) end.

(** [reveals]: whether a known secret may show on the page, which holds its frames back. *)
Definition reveals_page (r : Redactor) (o : Observation) : bool :=
  bool_decide (is_Some (dialog o)) || reveals r (observation_json o).
Definition reveals_now (o : Observation) : Step E bool :=
  modify (fun s => s <| frames_withheld := reveals_page (redactor s) o |>) ;;
  get (fun s => reveals_page (redactor s) o).

Definition observe : Step E Observation :=
  let! o := call_or_stop Observed (p_observe page) in
  let! revealed := reveals_now o in
  modify (fun s => s <| raw_page := Some o |> <| observed_page := Some (mask_observation (mask (redactor s)) o) |> <| secret_on_screen := revealed |>) ;;
  get (fun s => mask_observation (mask (redactor s)) o).

Definition capture : Step E Capture :=
  let! c := call_or_stop Captured (p_capture page) in get (fun s => mask_capture (mask (redactor s)) c).

(** The page's own reading, where it has one. *)
Definition raw_or (o : Observation) : Step E Observation := get (fun s => default o (raw_page s)).

(** A picture, of a page that cannot be pictured none. *)
Definition picture : Step E (option (list Z)) :=
  let! image := call Pictured (p_screenshot page) in
  match image with
  | Ok image => ret (Some image)
  | Err (ScreenshotsUnavailable _) => ret None
  | Err e => fails (FlowBrowser e)
  end.

(** [frame], and the part of [screenshots] after its first check. *)
Definition frame : Step E (option (list Z)) :=
  let! now := call_or_stop Glanced (p_glance page) in
  let! revealed := reveals_now now in
  if revealed then ret None else picture.

Definition screenshots : Step E (list (list Z)) := fun s =>
  if secret_on_screen s then (Ok [], s) else (let! shown := frame in ret (option_list shown)) s.

Definition viewport (takes_images : bool) : Step E (option (list Z)) :=
  if negb takes_images then ret None
  else let! shown := screenshots in ret (find jev_takes_png shown).
Definition drawn_viewport (takes_images : bool) (o : Observation) : Step E (option (list Z)) :=
  if negb (visual_content o) then ret None else viewport takes_images.

(** ** Waiting for a page to move on *)
(** [fuel] bounds the lifecycle events waited for; the clock counts milliseconds. *)
Fixpoint outwait_loop (fuel : nat) (deadline : Z) (stuck : Observation) : Step E bool :=
  match fuel with
  | O => ret false
  | S fuel =>
      fun s =>
        let remaining := deadline - p_clock page s in
        if remaining <=? 0 then (Ok false, s)
        else
          (let! moved := call Waited (fun s => Ok (p_wait_for_lifecycle page s remaining)) in
           let! now := observe in
           if negb (teqb (page_key now) (page_key stuck)) then ret true
           else match moved with Ok true => outwait_loop fuel deadline stuck | _ => ret false end) s
  end.
Definition outwait (stuck : Observation) : Step E bool := fun s =>
  outwait_loop (S (Z.to_nat INTERSTITIAL_MILLISECONDS)) (p_clock page s + INTERSTITIAL_MILLISECONDS) stuck s.

Definition navigate_to (url : text) : Step E unit := call_or_stop (Opened url) (fun s => p_navigate page s url).
End Seeing.

(** ** A control as the step's state lists it ([policy.rs]) *)
Section Elements.
Definition sorted_operations (c : Control) : value := Array (map Str (sort_texts (map Operation_as_str (c_operations c)))).
Definition add (name : string) (v : option value) (m : list (text * value)) : list (text * value) :=
  match v with Some v => im_insert (lit name) v m | None => m end.
Definition if_true (b : bool) : option value := if b then Some (Bool true) else None.

Definition relevance_element (c : Control) : list (text * value) :=
  add "offscreen" (if_true (c_offscreen c)) (add "already_read" (if_true (bool_decide (c_already_read c = Some true)))
    (add "next_page" (if_true (pager_link c)) (add "href" (Str <$> c_href c) (add "context" (Str <$> c_context c)
      [(lit "label", Str (c_label c)); (lit "role", Str (c_role c)); (lit "operations", sorted_operations c)])))).

Definition element (c : Control) : list (text * value) :=
  let m := [(lit "id", Str (c_id c)); (lit "label", Str (c_label c)); (lit "role", Str (c_role c));
            (lit "operations", sorted_operations c)] in
  let m := fold_left (fun m kv => add kv.1 kv.2 m)
    [("context"%string, Str <$> c_context c); ("value"%string, Str <$> c_value c); ("focused"%string, Bool <$> c_focused c);
     ("href"%string, Str <$> c_href c); ("next_page"%string, if_true (pager_link c));
     ("already_read"%string, if_true (bool_decide (c_already_read c = Some true))); ("checked"%string, Bool <$> c_checked c);
     ("selected"%string, Bool <$> c_selected c); ("expanded"%string, Bool <$> c_expanded c);
     ("input_type"%string, Str <$> c_input_type c); ("input_name"%string, Str <$> c_input_name c);
     ("autocomplete"%string, Str <$> c_autocomplete c); ("validation_message"%string, Str <$> c_validation_message c)] m in
  let m := add "options" (if is_empty (c_options c) then None else Some (Array (map Str (c_options c)))) m in
  let m := add "offscreen" (if_true (c_offscreen c)) m in
  let m := add "required" (if_true (bool_decide (c_required c = Some true))) m in
  add "invalid" (if_true (bool_decide (c_invalid c = Some true))) m.
End Elements.

(** * Properties *)
(** ** What a step asks of the page *)
(** The calls that act on the page, what the run knows of a page that hung, and its authorization: what looking, asking and
    judging leave alone. *)
Definition acts_on (c : PageCall) : bool := match c with Acted _ _ | ClickedAt _ _ | Opened _ => true | _ => false end.

Section Quiet.
Context `{TR : TableReader} {E : Type}.

Definition page_acts (s : RunState) : list PageCall := base.filter (fun c => acts_on c = true) (page_calls s).
Definition kept (s : RunState) : list PageCall * bool * bool := (page_acts s, hung_page_reopened (site s), irreversible_actions s).

Definition quiet {A} (m : Step E A) : Prop := forall s v, kept s = v -> kept (m s).2 = v.

Lemma quiet_run {A} (m : Step E A) s v : quiet m -> kept s = v -> kept (m s).2 = v.
Proof. intros Hm. apply Hm. Qed.
Lemma quiet_bind {A B} (m : Step E A) (k : A -> Step E B) s v :
  kept (m s).2 = v -> (forall a s', kept s' = v -> kept (k a s').2 = v) -> kept (bind m k s).2 = v.
Proof. unfold bind. intros Hm Hk. destruct (m s) as [[a|e] s']; [by apply Hk|done]. Qed.
Lemma quiet_call {A} did (f : RunState -> result A BrowserError) : acts_on did = false -> quiet (call did f).
Proof.
  intros Hd s v <-. unfold kept, page_acts, call. cbn. rewrite filter_app, (filter_cons_False _ did []) by (by rewrite Hd).
  by rewrite filter_nil, app_nil_r.
Qed.
End Quiet.
Arguments kept {TR} s : simpl never.

(** Follows the steps of a function, and leaves the ones no lemma settles. *)
Create HintDb quiet.
Ltac quiet_leaf :=
  match goal with
  | |- kept ?s = ?v => first [ assumption | match goal with H : kept ?s' = v |- _ => exact H end ]
  end.
Ltac quiet_one :=
  match goal with
  | |- kept (bind _ _ _).2 = _ => apply quiet_bind; [| intros ? ? ?]
  | |- kept (_, _).2 = _ => cbn [snd]
  | |- kept (ret _ _).2 = _ => unfold ret; cbn [snd]
  | |- kept (fails _ _).2 = _ => unfold fails; cbn [snd]
  | |- kept (get _ _).2 = _ => unfold get; cbn [snd]
  | |- kept (lift _ _).2 = _ => unfold lift; cbn [snd]
  | |- kept (modify _ _).2 = _ => unfold modify; cbn [snd]
  | |- kept (match ?x with _ => _ end).2 = _ => destruct x
  | |- kept (match ?x with _ => _ end _).2 = _ => destruct x
  | |- kept (let _ := _ in _).2 = _ => cbv zeta
  | |- kept _ = _ => quiet_leaf
  | |- kept (_ _).2 = _ => apply quiet_run; [solve [auto with quiet]|]
  | |- kept ((fun _ => _) _).2 = _ => cbv beta
  | |- kept (match ?x with _ => _ end) = _ => destruct x
  end.
Ltac quiet_all := intros ? ? ?; repeat quiet_one.

Section Looking.
Context `{Unicode} `{UnicodeStr} `{FloatFormat} `{Sha256} `{PercentEncoding} `{UrlParser} `{TR : TableReader}.
Context {E : Type} (page : PageSeam).

Lemma call_or_stop_quiet {A} did (f : RunState -> result A BrowserError) : acts_on did = false ->
  quiet (E := E) (call_or_stop did f).
Proof. intros Hd. unfold call_or_stop. pose proof (quiet_call (E := E) did f Hd). quiet_all. Qed.
#[local] Hint Resolve quiet_call call_or_stop_quiet : quiet.
#[local] Hint Extern 0 (acts_on _ = false) => reflexivity : quiet.

Lemma reveals_now_quiet o : quiet (E := E) (reveals_now o).
Proof. unfold reveals_now. quiet_all. Qed.
#[local] Hint Resolve reveals_now_quiet : quiet.
Lemma observe_quiet : quiet (E := E) (observe page).
Proof. unfold observe. quiet_all. Qed.
Lemma capture_quiet : quiet (E := E) (capture page).
Proof. unfold capture. quiet_all. Qed.
Lemma raw_or_quiet o : quiet (E := E) (raw_or o).
Proof. unfold raw_or. quiet_all. Qed.
Lemma picture_quiet : quiet (E := E) (picture page).
Proof. unfold picture. quiet_all. Qed.
#[local] Hint Resolve picture_quiet observe_quiet : quiet.
Lemma frame_quiet : quiet (E := E) (frame page).
Proof. unfold frame. quiet_all. Qed.
#[local] Hint Resolve frame_quiet : quiet.
Lemma screenshots_quiet : quiet (E := E) (screenshots page).
Proof. unfold screenshots. quiet_all. Qed.
#[local] Hint Resolve screenshots_quiet : quiet.
Lemma viewport_quiet takes_images : quiet (E := E) (viewport page takes_images).
Proof. unfold viewport. quiet_all. Qed.
Lemma outwait_loop_quiet fuel deadline stuck : quiet (E := E) (outwait_loop page fuel deadline stuck).
Proof. induction fuel as [|fuel IH]; cbn [outwait_loop]; quiet_all. Qed.
Lemma outwait_quiet stuck : quiet (E := E) (outwait page stuck).
Proof. unfold outwait. pose proof outwait_loop_quiet. quiet_all. Qed.
End Looking.
#[export] Hint Resolve quiet_call call_or_stop_quiet reveals_now_quiet observe_quiet capture_quiet raw_or_quiet picture_quiet
  frame_quiet screenshots_quiet viewport_quiet outwait_quiet : quiet.
#[export] Hint Extern 0 (acts_on _ = false) => reflexivity : quiet.

(** ** What a model is shown *)
(** The texts of an observation that are masked, in a fixed order. *)
Definition control_texts (c : Control) : list text :=
  c_label c :: option_list (c_context c) ++ option_list (c_value c) ++ option_list (c_input_name c)
    ++ option_list (c_autocomplete c) ++ option_list (c_href c) ++ option_list (c_frame_origin c)
    ++ option_list (c_submit_semantics c) ++ c_options c.
Definition tab_texts (t : Tab) : list text := [tab_url t; tab_title t].
Definition dialog_texts (d : PageDialog) : list text := dialog_message d :: option_list (dialog_default_prompt d).
Definition masked_texts (o : Observation) : list text :=
  [o_url o; o_title o; viewport_text o; offscreen_text o] ++ concat (map control_texts (controls o))
    ++ concat (map tab_texts (tabs o)) ++ concat (map dialog_texts (option_list (dialog o))).

Lemma option_list_fmap {A B} (f : A -> B) o : option_list (f <$> o) = map f (option_list o).
Proof. by destruct o. Qed.
Lemma concat_map_masked {A} (g : A -> A) (texts : A -> list text) mask l :
  (forall a, texts (g a) = map mask (texts a)) -> concat (map texts (map g l)) = map mask (concat (map texts l)).
Proof. intros Hg. rewrite concat_map, !map_map. f_equal. apply map_ext, Hg. Qed.

Lemma masked_texts_masked mask o : masked_texts (mask_observation mask o) = map mask (masked_texts o).
Proof.
  unfold masked_texts. rewrite !map_app. cbn [map].
  rewrite <- (concat_map_masked (mask_control mask)), <- (concat_map_masked (mask_tab mask)),
    <- (concat_map_masked (mask_dialog mask)); try done.
  - by rewrite <- (option_list_fmap (mask_dialog mask)).
  - intros d. unfold dialog_texts. cbn [map]. by rewrite <- option_list_fmap.
  - intros c. unfold control_texts. cbn [map]. by rewrite !map_app, <- !option_list_fmap.
Qed.

Lemma erased_masked (mask : text -> text) (x : option text) :
  (fun _ => []) <$> (mask <$> x) = (fun _ => ([] : text)) <$> x.
Proof. by destruct x. Qed.

(** ** What a picture may show *)
(** The texts of a page that its dump states, which are all the masked ones. *)
Lemma strings_always_dump l : forallb always_dumps (map SStr l) = true.
Proof. by induction l. Qed.
Lemma opt_always_dumps {A} (f : A -> Serial) o : (forall a, always_dumps (f a) = true) -> always_dumps (opt_serial f o) = true.
Proof. destruct o; unfold opt_serial; cbn; auto. Qed.
Lemma items_always_dump {A} (f : A -> Serial) l : (forall a, always_dumps (f a) = true) -> forallb always_dumps (map f l) = true.
Proof. intros Hf. induction l as [|a l IH]; cbn; [done|]. by rewrite Hf. Qed.

Lemma control_always_dumps c : always_dumps (control_serial c) = true.
Proof.
  unfold control_serial, some_serial. cbn [always_dumps]. rewrite !forallb_app. cbn [forallb field snd always_dumps operations_serial].
  rewrite !strings_always_dump, !opt_always_dumps by done.
  by destruct (c_focused c), (c_max_length c), (c_validation_message c), (c_already_read c).
Qed.
Lemma observation_always_dumps o : always_dumps (observation_serial o) = true.
Proof.
  unfold observation_serial. cbn [always_dumps forallb field snd].
  rewrite !opt_always_dumps, !items_always_dump; try done.
  - intros t. unfold tab_serial. cbn [always_dumps forallb field snd]. by rewrite !opt_always_dumps.
  - intros m. unfold media_serial. cbn [always_dumps forallb field snd]. by rewrite !opt_always_dumps.
  - apply control_always_dumps.
  - intros d. unfold dialog_serial. cbn [always_dumps forallb field snd]. by rewrite !opt_always_dumps.
Qed.

(** The names a struct's fields are written under, distinct. *)
Ltac fields_distinct := apply (bool_decide_unpack (NoDup _)); vm_compute; exact I.
Lemma control_fields_distinct c : NoDup (map fst match control_serial c with SStruct _ fields => fields | _ => [] end).
Proof.
  unfold control_serial, some_serial, field.
  destruct (c_focused c), (c_max_length c), (c_validation_message c), (c_already_read c); cbn [map app fst]; fields_distinct.
Qed.

Ltac find_field :=
  first [ apply list_elem_of_here
        | apply list_elem_of_further; find_field
        | apply elem_of_app; left; find_field
        | apply elem_of_app; right; find_field ].
Ltac in_fields :=
  unfold control_serial, observation_serial, tab_serial, dialog_serial, field; cbn iota; find_field.

Lemma speaks_opt t o : t ∈ option_list o -> speaks t (opt_serial SStr o).
Proof. destruct o; [|set_solver]. intros ->%list_elem_of_singleton. repeat constructor. Qed.
Lemma speaks_all {A} (f : A -> Serial) t a l : a ∈ l -> speaks t (f a) -> speaks t (SSeq None (map f l)).
Proof. intros Ha. apply speaks_item, list_elem_of_fmap. by exists a. Qed.
#[local] Hint Resolve speaks_opt speaks_here : fb.

Definition speaks_in (t : text) (name : string) (m : Serial) (struct : Serial) : Prop :=
  (lit name, m) ∈ match struct with SStruct _ fields => fields | _ => [] end -> speaks t m -> speaks t struct.

Lemma control_speaks t c : t ∈ control_texts c -> speaks t (control_serial c).
Proof.
  pose proof (control_fields_distinct c) as Hn.
  assert (Hf : forall name m, speaks_in t name m (control_serial c)) by (intros k m Hin Hm; by apply (speaks_field t _ (lit k) m)).
  unfold control_texts. rewrite elem_of_cons, !elem_of_app.
  intros [->|[Ht|[Ht|[Ht|[Ht|[Ht|[Ht|[Ht|Ht]]]]]]]].
  - apply (Hf "label"%string (SStr (c_label c))); [in_fields|constructor].
  - apply (Hf "context"%string (opt_serial SStr (c_context c))); [in_fields|auto with fb].
  - apply (Hf "value"%string (opt_serial SStr (c_value c))); [in_fields|auto with fb].
  - apply (Hf "input_name"%string (opt_serial SStr (c_input_name c))); [in_fields|auto with fb].
  - apply (Hf "autocomplete"%string (opt_serial SStr (c_autocomplete c))); [in_fields|auto with fb].
  - apply (Hf "href"%string (opt_serial SStr (c_href c))); [in_fields|auto with fb].
  - apply (Hf "frame_origin"%string (opt_serial SStr (c_frame_origin c))); [in_fields|auto with fb].
  - apply (Hf "submit_semantics"%string (opt_serial SStr (c_submit_semantics c))); [in_fields|auto with fb].
  - apply (Hf "options"%string (SSeq None (map SStr (c_options c)))); [in_fields|apply (speaks_all SStr t t); [done|constructor]].
Qed.

Lemma observation_speaks t o : t ∈ masked_texts o -> speaks t (observation_serial o).
Proof.
  assert (Hn : NoDup (map fst match observation_serial o with SStruct _ fields => fields | _ => [] end)).
  { unfold observation_serial, field. cbn [map fst]. fields_distinct. }
  assert (Hf : forall name m, speaks_in t name m (observation_serial o)) by (intros k m Hin Hm; by apply (speaks_field t _ (lit k) m)).
  unfold masked_texts. rewrite !elem_of_app, !elem_of_cons, elem_of_nil, !list_elem_of_In, !in_concat.
  intros [[->|[->|[->|[->|[]]]]]|[(l & Hl & Ht)|[(l & Hl & Ht)|(l & Hl & Ht)]]].
  1: apply (Hf "url"%string (SStr (o_url o))); [in_fields|constructor].
  1: apply (Hf "title"%string (SStr (o_title o))); [in_fields|constructor].
  1: apply (Hf "viewport_text"%string (SStr (viewport_text o))); [in_fields|constructor].
  1: apply (Hf "offscreen_text"%string (SStr (offscreen_text o))); [in_fields|constructor].
  all: apply in_map_iff in Hl as (x & <- & Hx); apply list_elem_of_In in Hx, Ht.
  - apply (Hf "controls"%string (SSeq None (map control_serial (controls o)))); [in_fields|].
    by apply (speaks_all _ _ x); [|apply control_speaks].
  - apply (Hf "tabs"%string (SSeq None (map tab_serial (tabs o)))); [in_fields|].
    apply (speaks_all _ _ x); [done|]. unfold tab_texts in Ht. rewrite !elem_of_cons, elem_of_nil in Ht.
    destruct Ht as [->|[->|[]]].
    + apply (speaks_field _ _ (lit "url") (SStr (tab_url x))); [fields_distinct|in_fields|constructor].
    + apply (speaks_field _ _ (lit "title") (SStr (tab_title x))); [fields_distinct|in_fields|constructor].
  - apply (Hf "dialog"%string (opt_serial dialog_serial (dialog o))); [in_fields|].
    destruct (dialog o) as [d|]; [|set_solver]. apply list_elem_of_singleton in Hx as ->. constructor.
    unfold dialog_texts in Ht. rewrite elem_of_cons in Ht. destruct Ht as [->|Ht].
    + apply (speaks_field _ _ (lit "message") (SStr (dialog_message d))); [fields_distinct|in_fields|constructor].
    + apply (speaks_field _ _ (lit "default_prompt") (opt_serial SStr (dialog_default_prompt d))); [fields_distinct|in_fields|auto with fb].
Qed.

(** Every string a dump states. *)
Fixpoint strings (m : Serial) : list text :=
  match m with
  | SStr t => [t]
  | SSome v => strings v
  | SSeq None items => concat (map strings items)
  | SStruct None fields => concat (map (fun kv => strings kv.2) fields)
  | _ => []
  end.
Lemma strings_item (m : Serial) t items : m ∈ items -> t ∈ strings m -> t ∈ concat (map strings items).
Proof. intros Hm Ht. apply list_elem_of_In, in_concat. exists (strings m). split; [apply in_map_iff; exists m; split; [done|]|]; by apply list_elem_of_In. Qed.
Lemma speaks_strings t m : speaks t m -> t ∈ strings m.
Proof.
  induction 1 as [|m _ IH|items m Hin _ IH|fields k m _ Hin _ IH]; cbn [strings]; [by left|done|by eapply strings_item|].
  apply list_elem_of_In, in_concat. exists (strings m). split; [|by apply list_elem_of_In].
  apply in_map_iff. exists (k, m). split; [done|by apply list_elem_of_In].
Qed.

(** What is left of a page's own texts as the page wrote it: a field's validation message, a player's label and heading. *)
Definition unmasked_texts (o : Observation) : list text :=
  concat (map (fun c => option_list (c_validation_message c)) (controls o))
    ++ concat (map (fun m => option_list (media_label m) ++ option_list (media_heading m)) (media o)).
(** The names a page's parts go by: keys and ids, roles, types and kinds, operations, and when it was read. *)
Definition control_names (c : Control) : list text :=
  [c_id c; c_role c] ++ option_list (c_frame_id c) ++ option_list (c_form_id c) ++ option_list (c_input_type c)
    ++ sort_texts (map Operation_as_str (c_operations c)).
Definition tab_names (t : Tab) : list text := tab_id t :: option_list (tab_opener_id t).
Definition page_names (o : Observation) : list text :=
  [page_key o; document_key o; isoformat (captured_at o)] ++ option_list (history_entry o) ++ concat (map control_names (controls o))
    ++ map media_kind (media o) ++ concat (map tab_names (tabs o)) ++ map dialog_kind (option_list (dialog o)).

Lemma strings_opt {A} (f : A -> Serial) o : strings (opt_serial f o) = concat (map (fun a => strings (f a)) (option_list o)).
Proof. destruct o; cbn; [by rewrite app_nil_r|done]. Qed.
Lemma strings_some {A} name (f : A -> Serial) o :
  concat (map (fun kv => strings kv.2) (some_serial name f o)) = concat (map (fun a => strings (f a)) (option_list o)).
Proof. by destruct o. Qed.
Lemma concat_ones (l : list text) : concat (map (fun t => [t]) l) = l.
Proof. induction l as [|t l IH]; cbn; [done|by rewrite IH]. Qed.
Lemma concat_none {A} (l : list A) : concat (map (fun _ => ([] : list text)) l) = [].
Proof. by induction l. Qed.
Lemma strings_list (l : list text) : concat (map strings (map SStr l)) = l.
Proof. rewrite map_map. apply concat_ones. Qed.
Lemma strings_each {A} (f : A -> Serial) t l : t ∈ concat (map strings (map f l)) <-> exists a, a ∈ l /\ t ∈ strings (f a).
Proof.
  rewrite map_map, list_elem_of_In, in_concat. split.
  - intros (x & (a & <- & Ha)%in_map_iff & Ht). exists a. by rewrite !list_elem_of_In.
  - intros (a & Ha%list_elem_of_In & Ht%list_elem_of_In). exists (strings (f a)). split; [apply in_map_iff; by exists a|done].
Qed.
Lemma texts_each {A} (f : A -> list text) t l : t ∈ concat (map f l) <-> exists a, a ∈ l /\ t ∈ f a.
Proof.
  rewrite list_elem_of_In, in_concat. split.
  - intros (x & (a & <- & Ha)%in_map_iff & Ht). exists a. by rewrite !list_elem_of_In.
  - intros (a & Ha%list_elem_of_In & Ht%list_elem_of_In). exists (f a). split; [apply in_map_iff; by exists a|done].
Qed.
Ltac lists_strings :=
  repeat progress (cbn [strings map concat app fst snd field];
    rewrite ?map_app, ?concat_app, ?strings_opt, ?strings_some, ?concat_ones, ?concat_none, ?strings_list, ?app_nil_r).

Ltac in_either := repeat first [rewrite elem_of_cons|rewrite elem_of_app]; tauto.

Lemma control_strings t c : t ∈ strings (control_serial c) -> t ∈ control_texts c \/ t ∈ option_list (c_validation_message c) \/ t ∈ control_names c.
Proof.
  unfold control_serial, operations_serial, control_texts, control_names. lists_strings. in_either.
Qed.
Lemma media_strings t m : t ∈ strings (media_serial m) -> t = media_kind m \/ t ∈ option_list (media_label m) ++ option_list (media_heading m).
Proof. unfold media_serial. lists_strings. in_either. Qed.
Lemma tab_strings t tb : t ∈ strings (tab_serial tb) -> t ∈ tab_texts tb \/ t ∈ tab_names tb.
Proof. unfold tab_serial, tab_texts, tab_names. lists_strings. in_either. Qed.
Lemma dialog_strings t d : t ∈ strings (dialog_serial d) -> t ∈ dialog_texts d \/ t = dialog_kind d.
Proof. unfold dialog_serial, dialog_texts. lists_strings. in_either. Qed.
Lemma observation_strings t o : t ∈ strings (observation_serial o) -> t ∈ masked_texts o \/ t ∈ unmasked_texts o \/ t ∈ page_names o.
Proof.
  unfold observation_serial, masked_texts, unmasked_texts, page_names. lists_strings.
  repeat first [rewrite elem_of_cons|rewrite elem_of_app]. rewrite ?strings_each, ?texts_each.
  assert (Hc : (exists a, a ∈ controls o /\ t ∈ strings (control_serial a)) -> (exists a, a ∈ controls o /\ t ∈ control_texts a) \/
    (exists a, a ∈ controls o /\ t ∈ option_list (c_validation_message a)) \/ (exists a, a ∈ controls o /\ t ∈ control_names a))
    by (intros (a & Ha & [?|[?|?]]%control_strings); eauto).
  assert (Hm : (exists a, a ∈ media o /\ t ∈ strings (media_serial a)) ->
    t ∈ map media_kind (media o) \/ (exists a, a ∈ media o /\ t ∈ option_list (media_label a) ++ option_list (media_heading a)))
    by (intros (a & Ha & [->|?]%media_strings); [left; apply list_elem_of_fmap|right]; eauto).
  assert (Ht : (exists a, a ∈ tabs o /\ t ∈ strings (tab_serial a)) ->
    (exists a, a ∈ tabs o /\ t ∈ tab_texts a) \/ (exists a, a ∈ tabs o /\ t ∈ tab_names a))
    by (intros (a & Ha & [?|?]%tab_strings); eauto).
  assert (Hd : (exists a, a ∈ option_list (dialog o) /\ t ∈ strings (dialog_serial a)) ->
    (exists a, a ∈ option_list (dialog o) /\ t ∈ dialog_texts a) \/ t ∈ map dialog_kind (option_list (dialog o)))
    by (intros (a & Ha & [?| ->]%dialog_strings); [left|right; apply list_elem_of_fmap]; eauto).
  tauto.
Qed.

Section Shown.
Context `{PercentEncoding} `{UnicodeStr} `{UrlParser}.

(** C21: Of everything an observation's dump states once it is masked, each string is a string of the page's dump with the known
    secrets hidden - as long, of its characters or bullets, and showing a registered form only where the redactor leaves one, in a
    host it was typed on or in a marker - or one of the names the page's parts go by (ids, keys, roles, types and kinds), or one of the
    three texts that masking does not reach, as the page wrote them: a field's validation message, a player's label and its heading,
    which is less than what the comment on observe promises.  And nothing else of the observation is changed by masking. *)
Theorem observation_hides_secrets r o : forms_held r ->
  (forall t, speaks t (observation_serial (mask_observation (mask r) o)) ->
     (exists t0, speaks t0 (observation_serial o) /\ hides r t0 t) \/ t ∈ page_names o \/ t ∈ unmasked_texts o) /\
  mask_observation (fun _ => []) (mask_observation (mask r) o) = mask_observation (fun _ => []) o.
Proof.
  intros Hf. split.
  - intros t Ht. apply speaks_strings, observation_strings in Ht as [Ht|Ht].
    + rewrite masked_texts_masked in Ht. apply list_elem_of_fmap in Ht as (t0 & -> & Ht). left. exists t0.
      split; [by apply observation_speaks|by apply mask_spec].
    + right. replace (unmasked_texts o) with (unmasked_texts (mask_observation (mask r) o)) by (unfold unmasked_texts; cbn; by rewrite map_map).
      replace (page_names o) with (page_names (mask_observation (mask r) o)); [tauto|]. unfold page_names. destruct o as [? ? ? ? ? ? ? ? ? ? ? ? d]. cbn. rewrite !map_map. by destruct d.
  - unfold mask_observation. destruct o. cbn. f_equal.
    + rewrite map_map. apply map_ext. intros []. unfold mask_control. cbn. rewrite map_map.
      f_equal; apply erased_masked.
    + rewrite map_map. by apply map_ext.
    + by destruct dialog as [[k m [prompt|]]|].
Qed.
End Shown.

(** A text standing in another stands there escaped. *)
Lemma json_escaped_chars v ascii : json_escaped v ascii = concat (map (write_char ascii) v).
Proof.
  unfold json_escaped, write_string. generalize (concat (map (write_char ascii) v)). intros x.
  change (drop 1 ([dquote] ++ x ++ [dquote])) with (x ++ [dquote]). rewrite !length_app. cbn [length].
  replace (1 + (length x + 1) - 2)%nat with (length x) by lia. apply take_app_length.
Qed.
Lemma escaped_infix v t : infix v t -> infix (json_escaped v false) (write_string t false).
Proof.
  intros (p & q & ->). rewrite json_escaped_chars. unfold write_string. rewrite !map_app, !concat_app. auto with fb.
Qed.

(** A redactor that knows a value knows its JSON form. *)
Lemma register_knows `{PercentEncoding} `{UrlParser} r name v origin : v <> [] ->
  json_escaped v false ∈ im_keys (values (register r name v origin)).
Proof.
  intros Hv. assert (Hne : json_escaped v false <> []).
  { rewrite json_escaped_chars. destruct v as [|c v]; [done|]. cbn [map concat].
    assert (write_char false c <> []) as Hc by (unfold write_char, unicode_escape, encode_utf16; by repeat case_match).
    by destruct (write_char false c). }
  assert (Hstep : forall fs r', json_escaped v false ∈ fs \/ json_escaped v false ∈ im_keys (values r') ->
            json_escaped v false ∈ im_keys (values (fold_left (register_form name origin) fs r'))).
  { induction fs as [|f fs IH]; intros r' Hin; cbn [fold_left]; [destruct Hin; [set_solver|done]|].
    apply IH. unfold register_form. rewrite elem_of_cons in Hin. destruct f as [|c f]; cbn [is_empty values].
    - destruct Hin as [[Hin|Hin]|Hin]; [done|by left|by right].
    - rewrite im_keys_insert. naive_solver. }
  apply Hstep. left. unfold forms. set_solver.
Qed.

Section Pictures.
Context `{Unicode} `{UnicodeStr} `{FloatFormat} `{Sha256} `{PercentEncoding} `{UrlParser} `{TR : TableReader}.
Context {E : Type} (page : PageSeam).

Lemma frame_inv s png s' : frame (E := E) page s = (Ok (Some png), s') ->
  exists now s1, p_glance page s = Ok now /\ reveals_page (redactor s) now = false /\ redactor s1 = redactor s /\
    frames_withheld s1 = false /\ p_screenshot page s1 = Ok png.
Proof.
  unfold frame, call_or_stop, reveals_now. intros Hs.
  apply bind_ok_inv in Hs as (now & s1 & Ha & Hs). apply bind_ok_inv in Ha as (g & s0 & Hg & Ha).
  injection Hg as <- <-. destruct (p_glance page s) as [o|] eqn:Eg; [|done]. injection Ha as -> <-.
  apply bind_ok_inv in Hs as (revealed & s2 & Hr & Hs). apply bind_ok_inv in Hr as (? & s3 & Hm & Hr).
  injection Hm as _ <-. injection Hr as <- <-. destruct (reveals_page _ now) eqn:Er in Hs; [done|].
  unfold picture in Hs. apply bind_ok_inv in Hs as (image & s4 & Hi & Hs). injection Hi as <- _.
  destruct (p_screenshot page _) as [image|[]] eqn:Ep; try done. injection Hs as -> _.
  match type of Ep with p_screenshot _ ?x = _ => exists now, x end. split_and!; [done|exact Er|done..|exact Ep].
Qed.

(** C14: No picture is taken of a page on which a known secret may show: the run's last reading of the page showed none, and in
    the reading taken for the picture no dialog hides the page and every registered form in its dump is one the redactor
    leaves alone, in a host it was typed on or in a marker - where every value it knows that stands in a text of the page
    stands in that dump too, in the form it is written there. *)
Theorem pictures_show_no_secret s png rest s' : forms_held (redactor s) ->
  screenshots (E := E) page s = (Ok (png :: rest), s') ->
  secret_on_screen s = false /\ rest = [] /\
  exists now s1, p_glance page s = Ok now /\ p_screenshot page s1 = Ok png /\ frames_withheld s1 = false /\ dialog now = None /\
    (forall form i, form ∈ im_keys (values (redactor s)) -> starts_with (drop i (observation_json now)) form = true ->
       left_alone (redactor s) (observation_json now) form i) /\
    (forall v t, t ∈ masked_texts now -> infix v t ->
       exists i, starts_with (drop i (observation_json now)) (json_escaped v false) = true).
Proof.
  intros Hf. unfold screenshots. destruct (secret_on_screen s); [done|]. intros Hs.
  apply bind_ok_inv in Hs as (shown & s2 & Ha & Hs). injection Hs as Hs <-. destruct shown as [png'|]; [|done].
  injection Hs as -> <-. apply frame_inv in Ha as (now & s1 & Hg & Hr & _ & Hw & Hp).
  split; [done|]. split; [done|]. exists now, s1. unfold reveals_page in Hr. apply orb_false_elim in Hr as [Hd Hr].
  split_and!; try done.
  - destruct (dialog now); [by rewrite bool_decide_eq_true_2 in Hd|done].
  - intros form i Hin Hi. apply im_get_some_keys in Hin as [name Hn]. apply im_get_elem in Hn.
    destruct (reveals_exact (redactor s) (observation_json now) Hf) as [[_ Hback] _].
    destruct (decide (left_alone (redactor s) (observation_json now) form i)) as [|Hl]; [done|].
    exfalso. rewrite Hback in Hr; [done|by exists form, name, i].
  - intros v t Ht Hv. apply infix_found.
    destruct (speaks_dumped t (observation_serial now)) as (j & Hj & Hi);
      [by apply observation_speaks|apply observation_always_dumps|].
    unfold observation_json. rewrite Hj. eapply infix_trans; [by apply escaped_infix|done].
Qed.
End Pictures.

(** ** What masking leaves *)
(** A field's validation message is shown as the browser wrote it. *)
Lemma added_elsewhere (name name' : string) v m : lit name <> lit name' -> im_get (lit name) (add name' v m) = im_get (lit name) m.
Proof. intros Hn. unfold add. destruct v; [by apply im_get_insert_ne|done]. Qed.
Lemma added_here (name : string) v m : im_get (lit name) m = None -> im_get (lit name) (add name v m) = v.
Proof. intros Hn. unfold add. destruct v; [apply im_get_insert_eq|done]. Qed.

Lemma validation_message_listed mask c :
  im_get (lit "validation_message") (element (mask_control mask c)) = Str <$> c_validation_message c.
Proof.
  unfold element. cbn [fold_left fst snd]. rewrite !(added_elsewhere "validation_message" "invalid"),
    !(added_elsewhere "validation_message" "required"), !(added_elsewhere "validation_message" "offscreen"),
    !(added_elsewhere "validation_message" "options") by done.
  apply added_here. rewrite !added_elsewhere by done. reflexivity.
Qed.

(** *** A page *)
#[local] Existing Instances ascii_unicode ascii_unicode_str exact_format plain_digest no_tables plain_parser ascii_encoding.

(** A field a stored account name was typed in, which its browser refuses in words that quote it. *)
Definition account_redactor : Redactor := register new_redactor (lit "account") (lit "hunter2") (Some (lit "https://shop.test/")).
Definition email_message : text := lit "Please include an '@' in the email address. 'hunter2' is missing an '@'.".
Definition refused_field : Control :=
  (new_control (lit "1") (lit "textbox") (lit "Email of hunter2") [Fill])
    <| c_value := Some (lit "hunter2") |> <| c_invalid := Some true |> <| c_validation_message := Some email_message |>.
Definition sign_in_page (c : Control) : Observation := (sample "page" "") <| controls := [c] |>.

(** What [observe] promises - every observation models see has resolved secret values blanked, wherever the page echoes
    them - it does not keep for a field's validation message: of the page above the label and the value are masked, and
    the browser's words reach the step's state with the secret in them. *)
Theorem validation_message_shows_a_secret :
  let masked := mask_control (mask account_redactor) refused_field in
  im_get (lit "label") (element masked) = Some (Str (lit "Email of " ++ replicate 7 bullet)) /\
  im_get (lit "value") (element masked) = Some (Str (replicate 7 bullet)) /\
  im_get (lit "validation_message") (element masked) = Some (Str email_message) /\
  reveals account_redactor email_message = true.
Proof. split_and!; [by vm_compute|by vm_compute|by rewrite validation_message_listed|by vm_compute]. Qed.

Lemma account_forms_held : forms_held account_redactor.
Proof. apply register_forms_held. constructor. Qed.

Theorem observation_hides_secrets_witness :
  let o := sign_in_page refused_field in
  let shown := mask_observation (mask account_redactor) o in
  map c_label (controls shown) = [lit "Email of " ++ replicate 7 bullet] /\ unmasked_texts o = [email_message; lit "Tour"] /\
  forall t, speaks t (observation_serial shown) ->
    (exists t0, speaks t0 (observation_serial o) /\ hides account_redactor t0 t) \/ t ∈ page_names o \/ t ∈ unmasked_texts o.
Proof.
  split; [vm_compute; reflexivity|]. split; [vm_compute; reflexivity|].
  apply (proj1 (observation_hides_secrets account_redactor (sign_in_page refused_field) account_forms_held)).
Defined.

(** A page that is pictured: the name a login page shows elsewhere is not on it. *)
Definition still_page (o : Observation) : PageSeam :=
  mkPage _ (fun _ => Ok o) (fun _ => Ok o) (fun _ => Ok [0x89; 80; 78; 71]) (fun _ => Err (BrowserFailed []))
    (fun _ _ _ => Ok (mkActResult Executed false None false)) (fun _ _ _ _ => Ok false) (fun _ _ => Ok false)
    (fun _ _ _ => Ok (mkActResult Executed false None false)) (fun _ _ => Ok tt) (fun _ => Ok None) (fun _ _ => false)
    (fun s => Z.of_nat (length (page_calls s))).
Definition account_run : RunState := new_run (lit "Sign in") [] [] false account_redactor.

Theorem pictures_show_no_secret_witness :
  (fst (screenshots (E := unit) (still_page (sample "page" "")) account_run) = Ok [[0x89; 80; 78; 71]]) /\
  (fst (screenshots (E := unit) (still_page (sign_in_page refused_field)) account_run) = Ok []) /\
  exists now s1, p_glance (still_page (sample "page" "")) account_run = Ok now /\
    p_screenshot (still_page (sample "page" "")) s1 = Ok [0x89; 80; 78; 71] /\ dialog now = None.
Proof.
  split; [by vm_compute|]. split; [by vm_compute|].
  destruct (screenshots (E := unit) (still_page (sample "page" "")) account_run) as [r s'] eqn:Es.
  assert (Hr : r = Ok [[0x89; 80; 78; 71]]) by (change r with (fst (r, s')); rewrite <- Es; by vm_compute).
  subst r. destruct (pictures_show_no_secret (still_page (sample "page" "")) account_run _ [] s' account_forms_held Es)
    as (_ & _ & now & s1 & Hg & Hp & _ & Hd & _).
  exists now, s1. split; [exact Hg|]. split; [exact Hp|exact Hd].
Defined.
