(* ===== verification/Recovery.v ===== *)
(** The stall rule and recovery: [crates/fastbrowse-agent/src/agent/recovery.rs], and what
    [driving.rs] judges between steps (the effect of the last action, the page state it landed on,
    the site's failures, a repeated edit, a redrawn target).

    Every method is a [Step] (Seeing.v).  What one asks of Jev and the LLM is the record [Outside]: a
    Jev request there stands for the reservation, the call and the recording of its cost
    (Ledger.v, DecisionClients.v), so a refused reservation is its error; what it asks of the page
    is the [PageSeam]. *)

From stdpp Require Import gmap.
From coqutil Require Import Datatypes.RecordSetters.
From S2P Require Import Prelude Float64 PyText Json DateTime Lax Models Config Page Origins Secrets Redactor Effects Notes Decision Helpers Recipe Pyre Spans RunState Seeing.

Import TriangleBracketNotations.

Open Scope step_scope.

(** ** The context a decision is made in ([policy.rs]) *)
Record StepContext := mkStepContext {
  sc_task : text;
  subgoal : option text;
  sc_notes : text;
  answered_in_notes : bool;
  sc_history : list HistoryEntry;
  check_login : bool;
  check_answer : bool;
  check_bot : bool;
  has_attachments : bool;
  sc_secrets : list text;
  sc_start_url : option text;
  sc_start_landing_url : option text;
  sc_background : option text;
  problem : option text;
  withheld_operations : list Operation;
  withheld_targets : list (Operation * text);
  no_value_fields : list text;
  sc_page_facts : list text;
  reload : option text;
  omitted_actions : nat;
  screenshot : option (list Z);
  sc_ahead : list (Operation * text * text * Question);
}.
Definition new_context (task : text) : StepContext :=
  mkStepContext task None [] false [] false false false false [] None None None None [] [] [] [] None 0 None [].

(** ** Leaving out what moved nothing *)
Definition DONE : Withheld := Some (Done, None).
Definition DRAWN_UNREAD : text :=
  lit "This page draws what it shows as a canvas, picture or video that its text and controls do not carry, and its screenshot was not read as answering the task.".

Definition performed (action : Withheld) : Idle := mkIdle action Executed.

Definition MOVED_NOTHING : text :=
  lit "did not move the task on from this page, so it is not offered this time.".
Definition COVERED : text :=
  lit "was not performed: something covers its target, so it is not offered until an action changes the page.".
Definition STALE : text := lit "was not performed by the browser, so it is not offered this time.".
Definition why (i : Idle) : text :=
  match i_outcome i with Covered => COVERED | Stale => STALE | _ => MOVED_NOTHING end.

Definition leave_operation (o : Operation) (c : Control) : Control :=
  c <| c_operations ::= base.filter (fun p => p <> o) |>.

(** The controls called [label], with the operation left out of each, and those with nothing left dropped. *)
Definition leave_label (o : Operation) (label : text) (cs : list Control) : list Control :=
  base.filter (fun c => c_operations c <> [])
    (map (fun c => if teqb (describe c) label then leave_operation o c else c) cs).

(** The fields of that label a blur would leave. *)
Definition left_fields (o : Operation) (label : text) (cs : list Control) : list (Operation * text) :=
  if bool_decide (o = Blur) then
    map (fun c => (o, c_id c)) (base.filter (fun c => teqb (describe c) label && leavable c = true) cs)
  else [].

Definition offers (o : Operation) (label : text) (cs : list Control) : bool :=
  existsb (fun c => teqb (describe c) label && bool_decide (o ∈ c_operations c)) cs.

(** [reason] with the withheld action named after it. *)
Definition told_problem (reason : text) (o : Operation) (label : option text) (w : Idle) : text :=
  let what :=
    match label with
    | Some label => Operation_as_str o ++ lit " " ++ repr label
    | None => Operation_as_str o
    end in
  reason ++ (if is_empty reason then [] else [10]) ++ what ++ lit " " ++ why w.

Definition said (reason : text) : option text := if is_empty reason then None else Some reason.

Definition withhold (offered : Observation) (ctx : StepContext) (reason : text) (w : Idle) : Observation * StepContext :=
  match i_action w with
  | None => (offered, ctx <| problem := said reason |>)
  | Some (o, Some label) =>
      let fields := left_fields o label (controls offered) in
      let left_out := negb (is_empty fields) || offers o label (controls offered) in
      (offered <| controls ::= leave_label o label |>,
       ctx <| withheld_targets ::= fun t => t ++ fields |>
           <| problem := said (if left_out then told_problem reason o (Some label) w else reason) |>)
  | Some (o, None) =>
      (offered,
       ctx <| withheld_operations ::= fun l => l ++ [o] |>
           <| problem := said (told_problem reason o None w) |>)
  end.

Definition withhold_all (idles : list Idle) (offered : Observation) (ctx : StepContext) : Observation * StepContext :=
  fold_left (fun oc w => withhold oc.1 (oc.2 <| problem := None |>) (default [] (problem oc.2)) w) idles (offered, ctx).

Definition is_missing (missing : gset (text * text * option text)) (url : text) (c : Control) : bool :=
  bool_decide ((url, c_label c, c_context c) ∈ missing).

Definition leave_out_idle `{TR : TableReader} (s : RunState) (offered : Observation) (ctx : StepContext)
  : Observation * StepContext :=
  let '(offered, ctx) := withhold_all (idle (stall s)) offered ctx in
  (offered <| controls ::= base.filter (fun c => is_missing (missing s) (o_url offered) c = false) |>, ctx).

(** The labels of the fields standing here that the task gave no value for, in page order. *)
Definition unfilled (o : Observation) (missing : gset (text * text * option text)) : list text :=
  unique (map c_label (base.filter (fun c => bool_decide (Fill ∈ c_operations c) && is_missing missing (o_url o) c = true)
                         (controls o))).

Definition uncover (idles : list Idle) : list Idle := base.filter (fun i => i_outcome i <> Covered) idles.

(** [decision]'s action, withheld from the ask that follows it. *)
Definition withheld (d : Decision) : Withheld := Some (d_operation d, decision_label d).

(** ** Recovering *)
(** What the run asks of the outside, each with how it can fail: the reservation of a Jev request on
    the ledger, the answers to its questions with the recording of its cost, the context of a step and the decision made in
    it, what the LLM reads on a screenshot; and whether Jev's route takes images. *)
Record Outside `{TR : TableReader} (E : Type) := mkOutside {
  o_reserve : RunState -> result unit (Flow E);
  o_answer : RunState -> value -> list (text * Question) -> result (list (text * Answer)) (Flow E);
  o_context : RunState -> Observation -> result StepContext (Flow E);
  o_decide : RunState -> Observation -> StepContext -> result Decision (Flow E);
  o_read_image : RunState -> list Z -> result (option text) (Flow E);
  o_images : bool;
}.
Arguments o_reserve {TR E} _ _.
Arguments o_answer {TR E} _ _ _ _.
Arguments o_context {TR E} _ _ _.
Arguments o_decide {TR E} _ _ _ _.
Arguments o_read_image {TR E} _ _ _.
Arguments o_images {TR E} _.

(** A Jev request: reserved, then asked. *)
Definition o_evaluate `{TR : TableReader} {E} (outside : Outside E) (s : RunState) (state : value)
  (questions : list (text * Question)) : result (list (text * Answer)) (Flow E) :=
  let? _ := o_reserve outside s in o_answer outside s state questions.

Section Recover.
Context `{Unicode} `{UnicodeStr} `{FloatFormat} `{F64Display} `{Sha256} `{PercentEncoding} `{UrlParser} `{TR : TableReader}.
Context {E : Type} (outside : Outside E) (page : PageSeam) (config : Config).

Definition downloads_forbidden : Step E bool := fun s =>
  match RunState.downloads_forbidden s with
  | Some forbidden => (Ok forbidden, s)
  | None =>
      match o_evaluate outside s (Object [(lit "task", Str (task s))]) [(lit "downloads", QNoul (downloads_question (task s)))] with
      | Err f => (Err f, s)
      | Ok answers =>
          match im_get (lit "downloads") answers with
          | Some (ANoul p) =>
              let forbidden := f64_gt p (irreversible_above (thresholds config)) in
              (Ok forbidden, s <| RunState.downloads_forbidden := Some forbidden |>)
          | _ => (Ok true, s)
          end
      end
  end.

(** What the screenshot of a drawn page shows, added to the notes when nothing read answers the task. *)
Definition read_image (o : Observation) (png : list Z) : Step E unit := fun s =>
  let image := screenshot_reference png in
  let read := existsb (fun kf => match evidence kf.2 with Some e => teqb (e_source_id e) image | None => false end)
                (facts (notes (reading s))) in
  if read || bool_decide (image ∈ unanswered_images (reading s)) then (Ok tt, s)
  else
    match o_read_image outside s png with
    | Err f => (Err f, s)
    | Ok shown =>
        match shown with
        | Some t =>
            if negb (is_empty (trim_matches is_whitespace t))
               && (appearance s || negb (repeats_page_text (notes (reading s)) t (o_url o)))
            then
              (Ok tt, s <| reading ::= fun r =>
                 r <| notes := snd (add_image_read (notes r) (mask (redactor s) t) (o_url o) (captured_at o) png) |>
                   <| compose := true |> |>)
            else (Ok tt, s <| reading -> unanswered_images ::= fun i => {[image]} ∪ i |>)
        | None => (Ok tt, s <| reading -> unanswered_images ::= fun i => {[image]} ∪ i |>)
        end
    end.
Definition read_drawn_page (o : Observation) : Step E unit := fun s =>
  if page_failed (site s) then (Ok tt, s)
  else if negb (visual_content o && negb (Notes.answered (notes (reading s)))) && negb (appearance s) then (Ok tt, s)
  else (let! shown := screenshots page in match shown with [] => ret tt | png :: _ => read_image o png end) s.

(** Jev asked again on this page, its pick taken as the next decision there. *)
Definition ask_jev_again (o : Observation) (reason : text) (w : Idle) : Step E unit := fun s =>
  match o_context outside s o with
  | Err f => (Err f, s)
  | Ok ctx =>
      let '(offered, ctx) := leave_out_idle s o (ctx <| problem := Some reason |>) in
      let offered := mark_read_links (reading s) offered in
      let '(offered, ctx) := withhold offered (ctx <| problem := None |>) (default [] (problem ctx)) w in
      (let! shown := viewport page (o_images outside) in
       let! d := lift (fun s => o_decide outside s offered (ctx <| screenshot := shown |>)) in
       modify (fun s => s <| picked := Some (state_key o, d) |>)) s
  end.

(** The failure a run that is out of recoveries ends as: the one standing on this page, or the site's whatever the page,
    unless the run would end needing input. *)
Definition failure_here (s : RunState) (o : Observation) (gives_up_as : Status) : option SiteFailure :=
  match site_failure (site s) with
  | Some f => if teqb (sf_url f) (o_url o) || negb (bool_decide (gives_up_as = NeedsInput)) then Some f else None
  | None => None
  end.

Definition needing (labels : list text) (reason : text) : text :=
  match labels with
  | [] => reason
  | [only] => repr only ++ lit " needs a value the task does not give: " ++ reason
  | many => join (lit ", ") (map repr many) ++ lit " need a value the task does not give: " ++ reason
  end.

Definition stop_for_good (o : Observation) (reason : text) (gives_up_as : Status) : Step E unit := fun s =>
  match failure_here s o gives_up_as with
  | Some f => (Err (FlowStop (failure_stop f)), s)
  | None =>
      let labels := unfilled o (missing s) in
      let status := if is_empty labels then gives_up_as else NeedsInput in
      (let! _ := if bool_decide (status = Stuck) then read_drawn_page o else ret tt in
       fun s =>
         let reason :=
           if bool_decide (status = Stuck) && visual_content o && negb (Notes.answered (notes (reading s)))
           then reason ++ lit " " ++ DRAWN_UNREAD else reason in
         (Err (FlowStop (new_stop status (needing labels reason))), s)) s
  end.

Definition spend_recovery (s : RunState) : RunState :=
  s <| stall -> recoveries ::= fun r => wrap64 (r + 1) |> <| stall -> unchanged := 0 |>.

Definition recover (o : Observation) (reason : text) (gives_up_as : Status) (w : Idle) : Step E unit := fun s =>
  let reason := redact (redactor s) reason in
  (  modify spend_recovery ;;
  (if existsb starts_download (controls o) then (downloads_forbidden ;; ret tt) else ret tt) ;;
  fun s =>
    if max_recoveries (Config.stall config) <? recoveries (stall s) then stop_for_good o reason gives_up_as s
    else ask_jev_again o reason w s) s.

(** ** The stall rule *)
Definition no_progress (unchanged : Z) : text := lit "no_progress (" ++ show_Z unchanged ++ lit ")".

Definition moved_on (t : Stall) : Stall := t <| unchanged := 0 |> <| hint := None |> <| idle := [] |>.

Definition count_progress (progressed : bool) (o : Observation) (stalled : Idle) (gives_up_as : Status) : Step E unit :=
  if progressed then modify (fun s => s <| stall ::= moved_on |>)
  else
    modify (fun s => s <| stall ::= fun t => t <| unchanged ::= fun n => wrap64 (n + 1) |> <| idle ::= fun l => l ++ [stalled] |> |>) ;;
    fun s =>
      let n := unchanged (stall s) in
      if unchanged_actions (Config.stall config) <=? n then recover o (no_progress n) gives_up_as stalled s else (Ok tt, s).

(** A failure stands while the run is on its address, unless a page that loads there shows it cleared. *)
Definition failure_cleared (o : Observation) (f : SiteFailure) : bool :=
  (negb (teqb (o_url o) (sf_url f))
   || (negb (bool_decide (cause f = Reported))
       && match response_status o with Some status => (200 <=? status) && (status <? 400) | None => false end))
  && match response_status o with Some status => status <? 400 | None => true end.

Definition clear_failure (o : Observation) (t : Site) : Site :=
  match site_failure t with
  | Some f => if failure_cleared o f then t <| site_failure := None |> else t
  | None => t
  end.

Definition settle (o : Observation) : Step E unit := fun s =>
  let reads := evidence_reads (reading s) in
  let last := reached (stall s) !! state_key o in
  let s := s <| stall -> reached ::= <[state_key o := reads]> |> in
  let s := match last with
           | None => s <| site ::= clear_failure o |> <| stall -> recoveries := 0 |>
           | Some _ => s
           end in
  match landing (stall s) with
  | None => (Ok tt, s)
  | Some stalled =>
      let progressed := match last with None => true | Some seen_at => (seen_at <? reads)%nat end in
      count_progress progressed o (performed stalled) Stuck (s <| stall -> landing := None |>)
  end.
End Recover.

(** ** What the last action did *)
Section Effect.
Context `{Unicode} `{UnicodeStr} `{FloatFormat} `{F64Display} `{Sha256} `{TR : TableReader}.

(** The page's status, kept as the site's failure or clearing it. *)
Definition note_status (o : Observation) (steps : nat) (t : Site) : Site :=
  match response_status o with
  | None => t
  | Some status =>
      let here := match site_failure t with Some f => teqb (sf_url f) (o_url o) | None => false end in
      if 400 <=? status then
        let since := match site_failure t with Some f => if here then since f else steps | None => steps end in
        t <| site_failure := Some (http_failure (o_url o) status since) |>
      else if (200 <=? status) && here
              && match site_failure t with Some f => negb (bool_decide (cause f = Reported)) | None => false end
      then t <| site_failure := None |>
      else t
  end.

#[export] Instance Withheld_eq_dec : EqDecision Withheld.
Proof. solve_decision. Defined.

Definition other_action (action : Withheld) (idles : list Idle) : list Idle :=
  base.filter (fun i => i_action i <> action) idles.

Definition step_effect (before o : Observation) (last : HistoryEntry) : Effect :=
  if bool_decide (h_operation last = Some SwitchTab)
  then mkEffect (lit "showed the tab at " ++ o_url o) false false false
  else effect before o None.

(** The idle actions offered again, now that the page is seen to have changed. *)
Definition offered_again (last : HistoryEntry) (done : Effect) (idles : list Idle) : list Idle :=
  let acted := (fun o => (o, h_target last)) <$> h_operation last in
  let idles := if changed done && bool_decide (h_outcome last = Executed) then uncover idles else idles in
  let idles := if changed done && bool_decide (h_outcome last = Stale) then other_action acted idles else idles in
  if changed done && bool_decide (h_operation last = Some Click) && negb (bool_decide (h_outcome last = Covered))
  then other_action (Some (Click, h_target last)) idles else idles.

(** Where the last action led: the page it landed on, and the link it followed there. *)
Definition note_landing (before o : Observation) (s : RunState) : RunState :=
  let moved := negb (bool_decide (read_key o = read_key before)) in
  let s :=
    if moved && match last (history s) with
                | Some e => negb (bool_decide (h_operation e = Some SwitchTab))
                | None => false
                end
    then s <| navigation_from := Some (read_key o, before) |> else s in
  match followed (reading s) with
  | Some href =>
      let s := s <| reading -> followed := None |> in
      if moved then s <| reading -> arrived_by := Some (read_key o, href) |> else s
  | None => s
  end.

Definition note_effect (o : Observation) (s : RunState) : RunState :=
  let s := s <| site ::= note_status o (step_count s) |> in
  match acted_from s with
  | None => s
  | Some before =>
      let s := s <| acted_from := None |> <| reading ::= fun r => settle_change r o |> in
      let s := note_landing before o s in
      match last (history s) with
      | None => s
      | Some e =>
          let done := step_effect before o e in
          let s := s <| stall -> idle ::= offered_again e done |> in
          let s :=
            if changed done && bool_decide (h_operation e = Some Click)
            then s <| reading -> read_documents ::= fun d => mark_changed d (read_key o) |> else s in
          let e := e <| h_added := added done |>
                     <| h_effect := Some (match h_effect e with
                                          | Some detail => detail ++ lit "; " ++ summary done
                                          | None => summary done
                                          end) |> in
          s <| history ::= fun h => removelast h ++ [e] |>
      end
  end.

(** [judge_site]: Jev's word on whether the page reports that the site failed. *)
Definition judge_site (o : Observation) (d : Decision) (steps : nat) (t : Site) : Site :=
  match d_site_failure d with
  | None => t
  | Some p =>
      let here := match site_failure t with Some f => if teqb (sf_url f) (o_url o) then Some f else None | None => None end in
      let reported := match here with Some f => bool_decide (cause f = Reported) | None => false end in
      if f64_ge p (dec 5 1) then
        if bool_decide (here = None) || reported then
          t <| site_failure := Some (mkSiteFailure (o_url o) Reported (match here with Some f => since f | None => steps end)) |>
        else t
      else if reported then t <| site_failure := None |> else t
  end.
End Effect.

(** ** Edits *)
Section Edits.
Context `{ValueText}.

Definition held_value (a : Action) : option text :=
  match a_text a with
  | Some t => Some (if secret a then replicate (length t) bullet else t)
  | None => None
  end.

Definition edit_progress (d : Decision) (a : Action) (w : Written) : option bool :=
  if negb (bool_decide (d_operation d = Fill)) && negb (bool_decide (d_operation d = Select)) then None
  else
    match d_target d, held_value a with
    | Some target, Some held =>
        if bool_decide (c_value target = Some held) then Some false
        else if has_value target && holds w target held then Some false
        else if wrote w target then None else Some true
    | _, _ => None
    end.

(** What an executed action leaves recorded, whatever it was judged. *)
Definition remember_edit (d : Decision) (a : Action) (w : Written) : Written :=
  match d_target d, held_value a with
  | Some target, Some held => record_write w target held
  | _, _ => w
  end.
End Edits.

(** ** A page that hung, or redrew under its target *)
Definition may_reopen `{TR : TableReader} (s : RunState) (d : Decision) (a : Action) : bool :=
  if hung_page_reopened (site s) then false
  else if negb (irreversible_actions s) then true
  else
    negb (bool_decide (d_operation d = Dialog) && bool_decide (accept_dialog a = Some true))
    && negb (bool_decide (d_operation d = Navigate)) && negb (may_be_irreversible (d_operation d)).

#[export] Instance Control_eq_dec : EqDecision Control.
Proof. solve_decision. Defined.

(** Whether [c] is [target] but for its element, whether it is on screen and whether it has the focus. *)
Definition is_twin (target c : Control) : bool :=
  bool_decide (c <| c_id := c_id target |> <| c_offscreen := c_offscreen target |> <| c_focused := c_focused target |> = target).

(** The action [act_on_twin] takes instead, once [fresh] is observed. *)
Definition retargeted (a : Action) (observed fresh : Observation) (target : Control) : option Action :=
  if bool_decide (operation a = Drag) || bool_decide (operation a = Blur) then None
  else if is_empty (document_key observed)
          || match c_retarget_key target with Some k => is_empty k | None => true end
          || negb (teqb (document_key fresh) (document_key observed))
          || negb (teqb (o_url fresh) (o_url observed))
          || negb (teqb (o_title fresh) (o_title observed))
  then None
  else
    match base.filter (fun c => is_twin target c = true) (controls fresh) with
    | [twin] => Some (a <| target_id := Some (c_id twin) |>)
    | _ => None
    end.

(** ** Pages that are blank, or a bot check *)
Section Waiting.
Context `{Unicode} `{UnicodeStr} `{FloatFormat} `{Sha256} `{PercentEncoding} `{UrlParser} `{TR : TableReader}.
Context {E : Type} (page : PageSeam).

(** Whether a blank document may be loaded once more: one the run opened and has not acted on. *)
Definition reloadable (s : RunState) (o : Observation) : bool :=
  bool_decide (is_Some (started_url s))
  && existsb (teqb (scheme_of (o_url o))) [lit "http"; lit "https"]
  && match response_status o with Some status => status <? 400 | None => true end.

Definition reload_blank (o : Observation) : Step E bool := fun s =>
  if blank_opening_checked (site s) || existsb (fun e => bool_decide (is_Some (h_operation e))) (history s)
  then (Ok false, s)
  else
    (modify (fun s => s <| site -> blank_opening_checked := true |>) ;;
     if reloadable s o then navigate_to page (o_url o) ;; ret true else ret false) s.

Definition settle_blank (o : Observation) : Step E bool := fun s =>
  if drew_something o then (Ok false, s <| site -> blank_waited := ∅ |>)
  else
    let document := if is_empty (document_key o) then page_key o else document_key o in
    if bool_decide ((o_url o, document) ∈ blank_waited (site s)) then (Ok false, s)
    else
      (modify (fun s => s <| site -> blank_waited ::= fun w => {[(o_url o, document)]} ∪ w |>) ;;
       let! moved := outwait page o in
       if moved then ret true else reload_blank o) s.

Definition reload_challenge (challenge : Observation) : Step E bool := fun s =>
  if bool_decide (o_url challenge ∈ challenge_reloads (site s)) then (Ok false, s)
  else
    (modify (fun s => s <| site -> challenge_reloads ::= fun r => {[o_url challenge]} ∪ r |>) ;;
     let! opened := call (Opened (o_url challenge)) (fun s => p_navigate page s (o_url challenge)) in
     match opened with
     | Err e => if needs_browser e then fails (FlowBrowser e) else ret false
     | Ok _ =>
         let! moved := outwait page challenge in
         if moved then ret true
         else let! now := observe page in ret (negb (teqb (page_key now) (page_key challenge)))
     end) s.
End Waiting.

(** * Properties *)
(** ** Recovering acts on nothing *)
Section Quiet.
Context `{Unicode} `{UnicodeStr} `{FloatFormat} `{F64Display} `{Sha256} `{PercentEncoding} `{UrlParser} `{TR : TableReader}.
Context {E : Type} (outside : Outside E) (page : PageSeam) (config : Config).

Lemma downloads_forbidden_quiet : quiet (downloads_forbidden outside config).
Proof. unfold downloads_forbidden. quiet_all. Qed.
Lemma read_image_quiet o png : quiet (read_image outside o png).
Proof. unfold read_image. quiet_all. Qed.
#[local] Hint Resolve downloads_forbidden_quiet read_image_quiet : quiet.
Lemma read_drawn_page_quiet o : quiet (read_drawn_page outside page o).
Proof. unfold read_drawn_page. quiet_all. Qed.
Lemma ask_jev_again_quiet o reason w : quiet (ask_jev_again outside page o reason w).
Proof. unfold ask_jev_again. quiet_all. Qed.
#[local] Hint Resolve read_drawn_page_quiet ask_jev_again_quiet : quiet.
Lemma stop_for_good_quiet o reason g : quiet (stop_for_good outside page o reason g).
Proof. unfold stop_for_good. quiet_all. Qed.
#[local] Hint Resolve stop_for_good_quiet : quiet.
Lemma recover_quiet o reason g w : quiet (recover outside page config o reason g w).
Proof. unfold recover. quiet_all. Qed.
#[local] Hint Resolve recover_quiet : quiet.
Lemma count_progress_quiet progressed o stalled g : quiet (count_progress outside page config progressed o stalled g).
Proof. unfold count_progress. quiet_all. Qed.
End Quiet.
#[export] Hint Resolve downloads_forbidden_quiet count_progress_quiet recover_quiet : quiet.

(** ** The stall rule ends a run *)
Section StallRule.
Context `{Unicode} `{UnicodeStr} `{FloatFormat} `{F64Display} `{Sha256} `{PercentEncoding} `{UrlParser} `{TR : TableReader}.
Context {E : Type} (outside : Outside E) (page : PageSeam) (config : Config).

Definition allowed : Z := unchanged_actions (Config.stall config).
Definition recoveries_allowed : Z := max_recoveries (Config.stall config).

(** The steps of the budget a run has used since it last moved on. *)
Definition spent (s : RunState) : Z := recoveries (stall s) * allowed + unchanged (stall s).
Definition in_budget (s : RunState) : Prop :=
  0 <= unchanged (stall s) < allowed /\ 0 <= recoveries (stall s) <= recoveries_allowed.
Definition sound_rules : Prop := 1 <= allowed <= i64_max /\ 0 <= recoveries_allowed < i64_max.

(** What the stall rule reads of a state, and no question to the outside changes. *)
Definition same_progress (s s' : RunState) : Prop :=
  stall s' = stall s /\ evidence_reads (reading s') = evidence_reads (reading s).

(** The page's state was on screen before, and nothing has been read since. *)
Definition circling (s : RunState) (o : Observation) : Prop :=
  exists seen, reached (stall s) !! state_key o = Some seen /\ (evidence_reads (reading s) <= seen)%nat.

(** A step that moved nothing: judged so at once, or by the state its page change landed on. *)
Inductive turn := Judged (o : Observation) (stalled : Idle) (gives_up_as : Status) | Landed (o : Observation) (action : Withheld).

Definition take_turn (t : turn) : Step E unit :=
  match t with
  | Judged o stalled gives_up_as => count_progress outside page config false o stalled gives_up_as
  | Landed o action => modify (fun s => s <| stall -> landing := Some action |>) ;; settle outside page config o
  end.
Fixpoint take_turns (ts : list turn) : Step E unit :=
  match ts with [] => ret tt | t :: ts => take_turn t ;; take_turns ts end.

Definition idle_turn (s : RunState) (t : turn) : Prop :=
  match t with Judged _ _ _ => True | Landed o _ => circling s o end.

(** Nothing asked of the outside fails. *)
Definition page_pictured : Prop :=
  (forall s, is_ok (p_glance page s) = true) /\
  (forall s, match p_screenshot page s with Ok _ | Err (ScreenshotsUnavailable _) => True | Err _ => False end).
Definition outside_answers : Prop :=
  page_pictured /\
  (forall s shown questions, is_ok (o_evaluate outside s shown questions) = true) /\
  (forall s o, is_ok (o_context outside s o) = true) /\
  (forall s o ctx, is_ok (o_decide outside s o ctx) = true).

Lemma downloads_forbidden_spec s :
  let '(r, s') := downloads_forbidden outside config s in
  same_progress s s' /\ (outside_answers -> is_ok r = true).
Proof.
  unfold downloads_forbidden. destruct (RunState.downloads_forbidden s); [done|].
  destruct (o_evaluate outside s _ _) as [answers|f] eqn:Ea.
  - destruct (im_get _ answers) as [[]|]; done.
  - split; [done|]. intros (_ & Hq & _ & _). specialize (Hq s (Object [(lit "task", Str (task s))]) [(lit "downloads", QNoul (downloads_question (task s)))]).
    by rewrite Ea in Hq.
Qed.

(** Looking at the page leaves what the stall rule reads. *)
Lemma viewport_spec takes_images s :
  let '(r, s') := viewport page takes_images s in
  same_progress s s' /\ (page_pictured -> is_ok (E := Flow E) r = true).
Proof.
  unfold viewport, screenshots, frame, call_or_stop, reveals_now, picture, call, bind, fails, modify, get, ret.
  destruct takes_images; cbn [negb]; [|done]. destruct (secret_on_screen s); [done|].
  destruct (p_glance page s) as [now|e] eqn:Eg; [|split; [done|intros [Hg _]; specialize (Hg s); by rewrite Eg in Hg]].
  destruct (reveals_page _ now); [done|].
  destruct (p_screenshot page _) as [png|e] eqn:Ep; [done|].
  destruct e; (split; [done|intros [_ Hp]; match type of Ep with p_screenshot _ ?x = _ => specialize (Hp x) end; by rewrite Ep in Hp]).
Qed.

Lemma ask_jev_again_spec o reason w s :
  let '(r, s') := ask_jev_again outside page o reason w s in
  same_progress s s' /\ (outside_answers -> is_ok r = true).
Proof.
  unfold ask_jev_again. destruct (o_context outside s o) as [ctx|f] eqn:Ec.
  2: { split; [done|]. intros (_ & _ & Hc & _). specialize (Hc s o). by rewrite Ec in Hc. }
  destruct (leave_out_idle _ _ _) as [offered ctx']. destruct (withhold _ _ _ _) as [offered' ctx''].
  pose proof (viewport_spec (o_images outside) s) as Hv. unfold bind, lift, modify.
  destruct (viewport page (o_images outside) s) as [[shown|f] s1]; destruct Hv as [[Hst Hr] Hok].
  2: { split; [done|]. intros (Hp & _). by specialize (Hok Hp). }
  destruct (o_decide outside s1 offered' _) as [d|f] eqn:Ed; [done|].
  split; [done|]. intros (_ & _ & _ & Hd). specialize (Hd s1 offered' (ctx'' <| screenshot := shown |>)). by rewrite Ed in Hd.
Qed.

Lemma stop_for_good_ends o reason g s : is_ok (fst (stop_for_good outside page o reason g s)) = false.
Proof.
  unfold stop_for_good. destruct (failure_here s o g); [done|]. unfold bind.
  destruct (bool_decide _); [destruct (read_drawn_page _ _ _ _) as [[]]; done|done].
Qed.

Lemma recover_spec o reason g w s :
  recoveries (stall s) + 1 <= i64_max -> 0 <= recoveries (stall s) ->
  let '(r, s') := recover outside page config o reason g w s in
  (recoveries_allowed <= recoveries (stall s) -> is_ok r = false) /\
  (recoveries (stall s) < recoveries_allowed ->
     (outside_answers -> is_ok r = true) /\
     stall s' = (stall s) <| recoveries := recoveries (stall s) + 1 |> <| unchanged := 0 |> /\
     evidence_reads (reading s') = evidence_reads (reading s)).
Proof.
  intros Hmax Hmin. unfold recover, bind, modify.
  set (s1 := spend_recovery s).
  assert (E1 : stall s1 = (stall s) <| recoveries := recoveries (stall s) + 1 |> <| unchanged := 0 |>).
  { rewrite <- (wrap64_id (recoveries (stall s) + 1)) by (unfold i64_min, i64_max in *; lia). done. }
  set (ask := (if existsb _ _ then _ else _) : Step E unit).
  assert (Ha : let '(r, s2) := ask s1 in same_progress s1 s2 /\ (outside_answers -> is_ok r = true)).
  { unfold ask. destruct (existsb _ _); [|done]. unfold bind. pose proof (downloads_forbidden_spec s1) as Hd.
    destruct (downloads_forbidden _ _ s1) as [[b|f] s2]; done. }
  destruct (ask s1) as [[[]|f] s2]; destruct Ha as [[Es Er] Hok].
  - rewrite Es, E1. change (recoveries (_ <| unchanged := 0 |>)) with (recoveries (stall s) + 1).
    fold recoveries_allowed. destruct (Z.ltb_spec recoveries_allowed (recoveries (stall s) + 1)).
    + pose proof (stop_for_good_ends o (redact (redactor s) reason) g s2) as Hg.
      destruct (stop_for_good _ _ _ _ _ s2). split; [done|lia].
    + pose proof (ask_jev_again_spec o (redact (redactor s) reason) w s2) as Hj.
      destruct (ask_jev_again _ _ _ _ _ s2) as [r s3]. destruct Hj as [[Es3 Er3] Hj].
      split; [lia|]. intros _. split; [done|]. split; [by rewrite Es3, Es, E1|by rewrite Er3, Er].
  - split; [done|]. intros _. split; [intros Ho; by specialize (Hok Ho)|]. split; [by rewrite Es, E1|by rewrite Er].
Qed.

Lemma idle_step o w g s : sound_rules -> in_budget s ->
  let '(r, s') := count_progress outside page config false o w g s in
  (spent s + 1 = (recoveries_allowed + 1) * allowed -> is_ok r = false) /\
  (spent s + 1 < (recoveries_allowed + 1) * allowed ->
     (outside_answers -> is_ok r = true) /\ in_budget s' /\ spent s' = spent s + 1 /\
     reached (stall s') = reached (stall s) /\ evidence_reads (reading s') = evidence_reads (reading s)).
Proof.
  intros [Hu Hr] [Hsu Hsr]. unfold count_progress, bind, modify.
  set (s1 := s <| stall ::= _ |>).
  assert (Eu : unchanged (stall s1) = unchanged (stall s) + 1).
  { rewrite <- (wrap64_id (unchanged (stall s) + 1)) by (unfold i64_min, i64_max in *; lia). done. }
  assert (Es : recoveries (stall s1) = recoveries (stall s) /\ reached (stall s1) = reached (stall s) /\
               evidence_reads (reading s1) = evidence_reads (reading s)) by done.
  destruct Es as (Er & Ere & Eev). rewrite Eu. fold allowed. unfold spent, in_budget in *.
  destruct (Z.leb_spec allowed (unchanged (stall s) + 1)).
  - pose proof (recover_spec o (no_progress (unchanged (stall s) + 1)) g w s1) as Hrec. rewrite Er in Hrec.
    specialize (Hrec ltac:(lia) ltac:(lia)).
    destruct (recover _ _ _ _ _ _ _ s1) as [r s']. destruct Hrec as [Hend Hgo]. split.
    + intros. apply Hend. nia.
    + intros. destruct Hgo as (Hok & Est & Eev'); [nia|].
      assert (unchanged (stall s') = 0) as -> by (by rewrite Est).
      assert (recoveries (stall s') = recoveries (stall s) + 1) as -> by (by rewrite Est).
      assert (reached (stall s') = reached (stall s)) as -> by (by rewrite Est, <- Ere).
      rewrite Eev', Eev. split_and!; try done; nia.
  - split; [nia|]. intros _. rewrite Eu, Er, Ere, Eev. split_and!; try done; nia.
Qed.

Lemma circling_stays s s' o : reached (stall s') = reached (stall s) ->
  evidence_reads (reading s') = evidence_reads (reading s) -> circling s o -> circling s' o.
Proof. intros Hr He (seen & Hs & Hl). exists seen. by rewrite Hr, He. Qed.

(** The state a page change lands on is judged the same way: seen before, with nothing read since, it is no progress. *)
Lemma idle_turn_step t s : sound_rules -> in_budget s -> idle_turn s t ->
  let '(r, s') := take_turn t s in
  (spent s + 1 = (recoveries_allowed + 1) * allowed -> is_ok r = false) /\
  (spent s + 1 < (recoveries_allowed + 1) * allowed ->
     (outside_answers -> is_ok r = true) /\ in_budget s' /\ spent s' = spent s + 1 /\
     (forall o, circling s o -> circling s' o)).
Proof.
  intros Hsound Hb Ht. destruct t as [o w g|o action]; cbn [take_turn idle_turn] in *.
  - pose proof (idle_step o w g s Hsound Hb) as Hi. destruct (count_progress _ _ _ _ _ _ _ s) as [r s'].
    destruct Hi as [Hend Hgo]. split; [done|]. intros Hlt. destruct (Hgo Hlt) as (Ho & Hb' & Hsp & Hr & He).
    split_and!; try done. intros o' Hc. by apply (circling_stays s).
  - destruct Ht as (seen & Hseen & Hle). unfold bind, modify, settle.
    set (s0 := s <| stall -> landing := Some action |>).
    change (reached (stall s0)) with (reached (stall s)). rewrite Hseen.
    change (evidence_reads (reading s0)) with (evidence_reads (reading s)).
    replace (seen <? evidence_reads (reading s))%nat with false by (symmetry; apply Nat.ltb_ge; lia).
    set (s1 := s0 <| stall -> reached ::= _ |>). change (landing (stall s1)) with (Some action). cbn iota.
    set (s2 := s1 <| stall -> landing := None |>).
    assert (Hb2 : in_budget s2) by exact Hb.
    assert (Hc2 : forall o', circling s o' -> circling s2 o').
    { intros o' (seen' & Hs' & Hl'). unfold circling.
      assert (reached (stall s2) = <[state_key o := evidence_reads (reading s)]> (reached (stall s))) as -> by done.
      change (evidence_reads (reading s2)) with (evidence_reads (reading s)).
      destruct (decide (state_key o = state_key o')) as [E1|].
      - exists (evidence_reads (reading s)). split; [rewrite E1; apply lookup_insert_eq|lia].
      - exists seen'. split; [by rewrite lookup_insert_ne|done]. }
    pose proof (idle_step o (performed action) Stuck s2 Hsound Hb2) as Hi.
    destruct (count_progress _ _ _ _ _ _ _ s2) as [r s']. destruct Hi as [Hend Hgo].
    change (spent s2) with (spent s) in *. split; [done|]. intros Hlt.
    destruct (Hgo Hlt) as (Ho & Hb' & Hsp & Hr & He). split_and!; try done.
    intros o' Hc. apply (circling_stays s2); auto.
Qed.

Lemma take_turns_spec ts : forall s, sound_rules -> in_budget s -> Forall (idle_turn s) ts ->
  ((recoveries_allowed + 1) * allowed - spent s <= Z.of_nat (length ts) -> is_ok (fst (take_turns ts s)) = false) /\
  (outside_answers -> Z.of_nat (length ts) < (recoveries_allowed + 1) * allowed - spent s ->
     is_ok (fst (take_turns ts s)) = true).
Proof.
  induction ts as [|t ts IH]; intros s Hsound Hb Ht.
  - cbn. split; [|done]. intros Hle. exfalso. destruct Hb as [Hu Hr], Hsound as [Ha Hra]. unfold spent in Hle. nia.
  - apply Forall_cons in Ht as [Ht Hts]. cbn [take_turns length]. unfold bind.
    pose proof (idle_turn_step t s Hsound Hb Ht) as Hstep. destruct (take_turn t s) as [r s'].
    destruct Hstep as [Hend Hgo].
    assert (Hcase : spent s + 1 = (recoveries_allowed + 1) * allowed \/ spent s + 1 < (recoveries_allowed + 1) * allowed).
    { destruct Hb as [Hu Hr], Hsound as [Ha Hra]. unfold spent. nia. }
    destruct Hcase as [He|Hlt].
    + specialize (Hend He). destruct r as [[]|f]; [done|]. split; [done|]. intros _ Hl. lia.
    + destruct (Hgo Hlt) as (Hok & Hb' & Hsp & Hc).
      destruct r as [[]|f]; [|split; [done|intros Ho; by specialize (Hok Ho)]].
      destruct (IH s' Hsound Hb') as [IH1 IH2].
      { eapply Forall_impl; [exact Hts|]. intros []; cbn; auto. }
      split; intros; [apply IH1|apply IH2]; (done || lia).
Qed.
End StallRule.

(** ** What an ask leaves out *)
Section LeftOut.
Definition names_action (idles : list Idle) (o : Operation) (label : option text) : Prop :=
  exists i, i ∈ idles /\ i_action i = Some (o, label).
#[export] Instance names_action_dec idles o label : base.Decision (names_action idles o label).
Proof.
  refine (cast_if (decide (Exists (fun i => i_action i = Some (o, label)) idles))); rewrite Exists_exists in *; done.
Defined.

(** A control without the operations an idle action used on its label. *)
Definition trimmed (idles : list Idle) (c : Control) : Control :=
  c <| c_operations ::= base.filter (fun o => ~ names_action idles o (Some (describe c))) |>.

Lemma trimmed_describe idles c : describe (trimmed idles c) = describe c.
Proof. by destruct c. Qed.

Lemma trimmed_operations idles c o :
  o ∈ c_operations (trimmed idles c) <-> o ∈ c_operations c /\ ~ names_action idles o (Some (describe c)).
Proof. destruct c. cbn. rewrite list_elem_of_filter. tauto. Qed.

Lemma same_operations c (P : Operation -> Prop) `{forall o, base.Decision (P o)} :
  (forall o, o ∈ c_operations c -> P o) -> c <| c_operations ::= base.filter P |> = c.
Proof.
  intros Hp. destruct c; cbn in *. f_equal. revert Hp. generalize c_operations. intros l Hp.
  induction l as [|o l IH]; [done|]. rewrite filter_cons_True by (apply Hp; set_solver). f_equal. apply IH. set_solver.
Qed.

Lemma trimmed_none idles c : (forall o, ~ names_action idles o (Some (describe c))) -> trimmed idles c = c.
Proof. intros Hn. apply same_operations. auto. Qed.

Lemma trimmed_cons i idles c : trimmed (i :: idles) c = trimmed idles (trimmed [i] c).
Proof.
  destruct c; cbn. f_equal. rewrite list_filter_filter. apply list_filter_ext. intros o _.
  unfold names_action, describe. cbn. split.
  - intros Hn. split; intros (j & Hj & E); apply Hn; exists j; set_solver.
  - intros [H1 H2] (j & Hj & E). apply elem_of_cons in Hj as [-> |Hj]; [apply H2|apply H1]; eexists; (split; [|done]); set_solver.
Qed.

Lemma leave_label_elem o label cs c' : c' ∈ leave_label o label cs <->
  exists c, c ∈ cs /\ c' = (if teqb (describe c) label then leave_operation o c else c) /\ c_operations c' <> [].
Proof.
  unfold leave_label. rewrite list_elem_of_filter. split.
  - intros [Hne Hin]. apply list_elem_of_In, in_map_iff in Hin as (c & E & Hc). exists c.
    rewrite list_elem_of_In. auto.
  - intros (c & Hc & -> & Hne). split; [done|]. apply list_elem_of_In, in_map_iff. exists c. by rewrite <- list_elem_of_In.
Qed.

Lemma trimmed_label o label w c : i_action w = Some (o, Some label) ->
  (if teqb (describe c) label then leave_operation o c else c) = trimmed [w] c.
Proof.
  intros Hw. assert (Hn : forall p, names_action [w] p (Some (describe c)) <-> p = o /\ describe c = label).
  { intros p. split.
    - intros (i & Hi & E). apply list_elem_of_singleton in Hi as ->. rewrite Hw in E. by simplify_eq.
    - intros [-> ->]. exists w. split; [set_solver|done]. }
  destruct (teqb (describe c) label) eqn:E.
  - apply teqb_spec in E. unfold leave_operation, trimmed. destruct c; cbn in *. f_equal.
    apply list_filter_ext. intros p _. unfold describe in *. cbn in *. rewrite Hn. tauto.
  - symmetry. apply trimmed_none. intros p Hp. apply Hn in Hp as [_ Hp]. rewrite Hp, teqb_refl in E. done.
Qed.

Lemma withhold_controls o ctx reason w :
  let '(o', ctx') := withhold o ctx reason w in
  o_url o' = o_url o /\
  (forall c', c' ∈ controls o' -> exists c, c ∈ controls o /\ c' = trimmed [w] c) /\
  (forall c, c ∈ controls o -> c_operations (trimmed [w] c) <> [] -> trimmed [w] c ∈ controls o') /\
  withheld_operations ctx' = withheld_operations ctx ++ match i_action w with Some (o, None) => [o] | _ => [] end.
Proof.
  unfold withhold. destruct (i_action w) as [[p [label|]]|] eqn:Ew.
  - assert (Ec : controls (o <| controls ::= leave_label p label |>) = leave_label p label (controls o)) by done.
    split; [done|]. rewrite Ec. split_and!.
    + intros c' Hc. apply leave_label_elem in Hc as (c & Hc & -> & _). exists c. split; [done|]. by apply trimmed_label.
    + intros c Hc Hne. apply leave_label_elem. exists c. rewrite (trimmed_label p label w c Ew). auto.
    + cbn. by rewrite app_nil_r.
  - assert (Hn : forall c, trimmed [w] c = c).
    { intros c. apply trimmed_none. intros q (i & Hi & E). apply list_elem_of_singleton in Hi as ->. congruence. }
    split; [done|]. split_and!; [intros c' Hc; exists c'; by rewrite Hn|intros c Hc _; by rewrite Hn|done].
  - assert (Hn : forall c, trimmed [w] c = c).
    { intros c. apply trimmed_none. intros q (i & Hi & E). apply list_elem_of_singleton in Hi as ->. congruence. }
    split; [done|]. split_and!; [intros c' Hc; exists c'; by rewrite Hn|intros c Hc _; by rewrite Hn|cbn; by rewrite app_nil_r].
Qed.

Definition page_actions (idles : list Idle) : list Operation :=
  omap (fun i => match i_action i with Some (o, None) => Some o | _ => None end) idles.

Lemma withhold_all_controls idles : forall o ctx,
  let '(o', ctx') := withhold_all idles o ctx in
  o_url o' = o_url o /\
  (forall c', c' ∈ controls o' -> exists c, c ∈ controls o /\ c' = trimmed idles c) /\
  (forall c, c ∈ controls o -> c_operations (trimmed idles c) <> [] -> trimmed idles c ∈ controls o') /\
  withheld_operations ctx' = withheld_operations ctx ++ page_actions idles.
Proof.
  induction idles as [|w idles IH]; intros o ctx; unfold withhold_all; cbn [fold_left].
  - assert (Hn : forall c, trimmed [] c = c).
    { intros c. apply trimmed_none. intros q (i & Hi & _). by apply not_elem_of_nil in Hi. }
    split; [done|]. split_and!; [intros c' Hc; exists c'; by rewrite Hn|intros c Hc _; by rewrite Hn|cbn; by rewrite app_nil_r].
  - cbn [fst snd]. pose proof (withhold_controls o (ctx <| problem := None |>) (default [] (problem ctx)) w) as Hw.
    destruct (withhold o _ _ w) as [o1 ctx1]. specialize (IH o1 ctx1). fold (withhold_all idles o1 ctx1).
    destruct (withhold_all idles o1 ctx1) as [o2 ctx2].
    destruct Hw as (Hu & Hs & Hc & Ho), IH as (IHu & IHs & IHc & IHo). split_and!.
    + congruence.
    + intros c' Hc'. apply IHs in Hc' as (c1 & Hc1 & ->). apply Hs in Hc1 as (c & Hin & ->).
      exists c. by rewrite (trimmed_cons w idles c).
    + intros c Hin Hne. rewrite (trimmed_cons w idles c) in Hne |- *. apply IHc; [|done]. apply Hc; [done|].
      intros E. apply Hne. unfold trimmed at 1. destruct (trimmed [w] c). cbn in *. by rewrite E.
    + rewrite IHo, Ho. cbn [page_actions omap list_omap]. rewrite <- app_assoc. f_equal.
      by destruct (i_action w) as [[? []]|].
Qed.
Lemma trimmed_leavable idles c : leavable (trimmed idles c) = true -> leavable c = true.
Proof.
  unfold leavable. rewrite !andb_true_iff, !bool_decide_eq_true. intros [Hf Ho]. split; [by destruct c|].
  by apply trimmed_operations in Ho as [Ho _].
Qed.

Lemma withhold_all_targets idles : forall o ctx,
  let '(o', ctx') := withhold_all idles o ctx in
  withheld_targets ctx ⊆ withheld_targets ctx' /\
  (forall c, c ∈ controls o' -> names_action idles Blur (Some (describe c)) -> leavable c = true ->
     (Blur, c_id c) ∈ withheld_targets ctx').
Proof.
  induction idles as [|w idles IH]; intros o ctx; unfold withhold_all; cbn [fold_left].
  - split; [done|]. intros c _ (i & Hi & _). by apply not_elem_of_nil in Hi.
  - cbn [fst snd]. set (ctx0 := ctx <| problem := None |>).
    assert (Hw : let '(o1, ctx1) := withhold o ctx0 (default [] (problem ctx)) w in
              withheld_targets ctx1 = withheld_targets ctx ++
                match i_action w with Some (p, Some label) => left_fields p label (controls o) | _ => [] end).
    { unfold withhold. destruct (i_action w) as [[p [label|]]|]; cbn; by rewrite ?app_nil_r. }
    pose proof (withhold_controls o ctx0 (default [] (problem ctx)) w) as Hwc.
    destruct (withhold o ctx0 _ w) as [o1 ctx1]. specialize (IH o1 ctx1).
    pose proof (withhold_all_controls idles o1 ctx1) as Hall. fold (withhold_all idles o1 ctx1).
    destruct (withhold_all idles o1 ctx1) as [o2 ctx2].
    destruct Hwc as (_ & Hs1 & _), Hall as (_ & Hs2 & _), IH as [Hsub Hin]. split; [rewrite Hw in Hsub; set_solver|].
    intros c Hc (i & Hi & Ei) Hl. apply elem_of_cons in Hi as [->|Hi]; [|apply Hin; [done|by exists i|done]].
    apply Hsub. rewrite Hw, Ei. apply elem_of_app. right.
    apply Hs2 in Hc as (c1 & Hc1 & ->). apply Hs1 in Hc1 as (c0 & Hc0 & ->).
    unfold left_fields. rewrite bool_decide_eq_true_2 by done. apply list_elem_of_In, in_map_iff. exists c0.
    split; [by destruct c0|]. apply list_elem_of_In, list_elem_of_filter. split; [|done].
    rewrite !trimmed_describe, teqb_refl. apply trimmed_leavable, trimmed_leavable in Hl. by rewrite Hl.
Qed.
End LeftOut.

(** What recovery leaves out of an ask: no control is offered for an operation that moved nothing under its label
    (a blur of it is withheld by element), no page operation that moved nothing is offered again, no field the task
    gives no value for is offered, and nothing else is lost: every other control with an operation left is offered as
    it was but for the operations that moved nothing. *)
Theorem idle_actions_are_not_offered `{TR : TableReader} (s : RunState) o ctx :
  let '(o', ctx') := leave_out_idle s o ctx in
  (forall c', c' ∈ controls o' ->
     (exists c, c ∈ controls o /\ c' = trimmed (idle (stall s)) c) /\ is_missing (missing s) (o_url o) c' = false /\
     (forall op, names_action (idle (stall s)) op (Some (describe c')) ->
        op ∉ c_operations c' /\ (op = Blur -> leavable c' = true -> (Blur, c_id c') ∈ withheld_targets ctx'))) /\
  (forall op, names_action (idle (stall s)) op None -> op ∈ withheld_operations ctx') /\
  (forall c, c ∈ controls o -> c_operations (trimmed (idle (stall s)) c) <> [] ->
     is_missing (missing s) (o_url o) c = false -> trimmed (idle (stall s)) c ∈ controls o').
Proof.
  unfold leave_out_idle. pose proof (withhold_all_controls (idle (stall s)) o ctx) as Hc.
  pose proof (withhold_all_targets (idle (stall s)) o ctx) as Ht.
  destruct (withhold_all _ o ctx) as [o1 ctx1]. destruct Hc as (Hu & Hs & Hk & Ho), Ht as [_ Ht].
  set (o2 := o1 <| controls ::= _ |>).
  assert (E : forall c, c ∈ controls o2 <-> c ∈ controls o1 /\ is_missing (missing s) (o_url o) c = false).
  { intros c. unfold o2. cbn -[is_missing]. rewrite <- Hu, list_elem_of_filter. destruct o1; cbn. tauto. }
  split_and!.
  - intros c' Hc'. apply E in Hc' as [Hc' Hm]. destruct (Hs c' Hc') as (c & Hin & Ec).
    split; [by exists c|]. split; [done|]. intros op Hn. split.
    + rewrite Ec, trimmed_operations. intros [_ Hno]. apply Hno. by rewrite Ec, trimmed_describe in Hn.
    + intros -> Hl. by apply Ht.
  - intros op (i & Hi & Ea). rewrite Ho. apply elem_of_app. right. apply list_elem_of_omap. exists i. by rewrite Ea.
  - intros c Hin Hne Hm. apply E. split; [by apply Hk|]. by destruct c.
Qed.

(** C18: The one stall rule ends a run. From a state within its budget, steps in a row that move nothing - judged so at
    once, or landing on a page state seen since the last evidence - exhaust the budget of [unchanged_actions] steps for
    each of [max_recoveries] + 1 tries: by that many steps the run has stopped whatever the outside does, and before it
    the run goes on unless something it asks of the outside fails. *)
Theorem stall_rule_ends_the_run `{Unicode} `{UnicodeStr} `{FloatFormat} `{F64Display} `{Sha256} `{PercentEncoding} `{UrlParser}
    `{TR : TableReader} {E : Type} (outside : Outside E) (page : PageSeam) config s (ts : list turn) :
  sound_rules config -> in_budget config s -> Forall (idle_turn s) ts ->
  let budget := (recoveries_allowed config + 1) * allowed config - spent config s in
  (budget <= Z.of_nat (length ts) -> is_ok (fst (take_turns outside page config ts s)) = false) /\
  (outside_answers outside page -> Z.of_nat (length ts) < budget ->
     is_ok (fst (take_turns outside page config ts s)) = true).
Proof. apply take_turns_spec. Qed.

(** ** Edits *)
Section EditLaws.
Context `{ValueText}.

Fixpoint judge_edits (w : Written) (edits : list (Decision * Action)) : list (option bool) :=
  match edits with
  | [] => []
  | (d, a) :: edits => edit_progress d a w :: judge_edits (remember_edit d a w) edits
  end.

Definition edited (d : Decision) : option text := field_key <$> d_target d.

Lemma edit_progress_true d a w : edit_progress d a w = Some true ->
  exists target held, d_target d = Some target /\ held_value a = Some held /\ field_key target ∉ w_fields w /\
    c_value target <> Some held.
Proof.
  unfold edit_progress. destruct (_ && _); [done|]. destruct (d_target d) as [target|]; [|done].
  destruct (held_value a) as [held|]; [|done]. case_bool_decide as Hv; [done|].
  destruct (_ && _); [done|]. unfold wrote. case_bool_decide as Hw; [done|]. intros _. by exists target, held.
Qed.

Lemma judge_edits_written edits : forall w i d a, edits !! i = Some (d, a) -> judge_edits w edits !! i = Some (Some true) ->
  exists k, edited d = Some k /\ k ∉ w_fields w.
Proof.
  induction edits as [|[d0 a0] edits IH]; intros w i d a Hi Hj; [done|]. destruct i as [|i]; cbn in Hi, Hj.
  - injection Hi as -> ->. injection Hj as Hj. destruct (edit_progress_true _ _ _ Hj) as (target & held & Ht & _ & Hk & _).
    exists (field_key target). unfold edited. by rewrite Ht.
  - destruct (IH _ i d a Hi Hj) as (k & Hk & Hn). exists k. split; [done|]. unfold remember_edit in Hn.
    destruct (d_target d0), (held_value a0); [|done..]. cbn in Hn. set_solver.
Qed.

(** Writing into a field is progress by itself at most once per page address: of the edits carried out there, no
    two judged progress wrote the same field, however the values differ and however the page redraws it. *)
Theorem a_field_is_progress_once w edits i j d a d' a' :
  (i < j)%nat -> edits !! i = Some (d, a) -> edits !! j = Some (d', a') ->
  judge_edits w edits !! i = Some (Some true) -> judge_edits w edits !! j = Some (Some true) ->
  edited d <> edited d'.
Proof.
  revert w i j. induction edits as [|[d0 a0] edits IH]; intros w i j Hij Hi Hj Hpi Hpj; [done|].
  destruct i as [|i], j as [|j]; cbn in *; try lia.
  - injection Hi as -> ->. injection Hpi as Hp. destruct (edit_progress_true _ _ _ Hp) as (target & held & Ht & Hh & _ & _).
    destruct (judge_edits_written _ _ _ _ _ Hj Hpj) as (k & Hk & Hn). unfold edited in *. rewrite Hk, Ht. cbn.
    intros [= <-]. apply Hn. unfold remember_edit. rewrite Ht, Hh. cbn. set_solver.
  - apply (IH (remember_edit d0 a0 w) i j); (done || lia).
Qed.
End EditLaws.

(** ** A redrawn target *)
Lemma is_twin_spec target c : is_twin target c = true <->
  exists id offscreen focused, c = target <| c_id := id |> <| c_offscreen := offscreen |> <| c_focused := focused |>.
Proof.
  unfold is_twin. rewrite bool_decide_eq_true. split.
  - intros E. exists (c_id c), (c_offscreen c), (c_focused c). rewrite <- E. by destruct c.
  - intros (id & off & foc & ->). by destruct target.
Qed.

(** An action is taken on another element than the one authorized only where the page redrew that element: the
    same document, address and title, a target the page gives a guard, and exactly one control there that differs from
    it in nothing but its element id, whether it is on screen and whether it has the focus. A drag and a blur are never
    moved, and nothing else of the action changes. *)
Theorem only_a_redrawn_target_is_acted_on a observed fresh target a' :
  retargeted a observed fresh target = Some a' ->
  operation a <> Drag /\ operation a <> Blur /\ document_key observed <> [] /\
  document_key fresh = document_key observed /\ o_url fresh = o_url observed /\ o_title fresh = o_title observed /\
  exists twin, a' = a <| target_id := Some (c_id twin) |> /\ twin ∈ controls fresh /\ is_twin target twin = true /\
    forall c, c ∈ controls fresh -> is_twin target c = true -> c_id c = c_id twin.
Proof.
  unfold retargeted. destruct (_ || _) eqn:Eo; [done|]. apply orb_false_iff in Eo as [Ed Eb].
  apply bool_decide_eq_false in Ed, Eb.
  destruct (is_empty (document_key observed) || _ || _ || _ || _) eqn:Eg; [done|].
  rewrite !orb_false_iff, !negb_false_iff in Eg. destruct Eg as ((((Edoc & _) & Efd) & Efu) & Eft).
  apply teqb_spec in Efd, Efu, Eft.
  destruct (base.filter _ (controls fresh)) as [|twin [|]] eqn:Ef; [done| |done]. intros [= <-].
  assert (Hin : forall c, c ∈ controls fresh -> is_twin target c = true -> c = twin).
  { intros c Hc Ht. assert (c ∈ [twin]) as Hs; [|by apply list_elem_of_singleton in Hs]. rewrite <- Ef.
    by apply list_elem_of_filter. }
  assert (Hm : twin ∈ base.filter (fun c => is_twin target c = true) (controls fresh)) by (rewrite Ef; set_solver).
  apply list_elem_of_filter in Hm as [Ht Hc].
  split_and!; try done; [by intros E; rewrite E in Edoc|].
  exists twin. split_and!; try done. intros c Hc' Ht'. by rewrite (Hin c Hc' Ht').
Qed.

(** A read stands only while the page it took stays as it was: once the last action is seen to have changed the
    page in view (the page the step reported changed, or a click after which its text or controls differ), that page is
    no longer taken as read, so it is offered and told as worth reading again. *)
Theorem a_changed_page_is_unread `{Unicode} `{F64Display} `{TR : TableReader} s before o :
  acted_from s = Some before ->
  changed_page (reading s) = Some (read_key o) \/
  (exists e, last (history s) = Some e /\ h_operation e = Some Click /\ changed (effect before o None) = true) ->
  page_read (reading (note_effect o s)) o = false.
Proof.
  intros Ha Hch. unfold page_read. apply andb_false_iff. right. apply bool_decide_eq_false. unfold note_effect.
  set (s0 := s <| site ::= note_status o (step_count s) |>).
  change (acted_from s0) with (acted_from s). rewrite Ha.
  set (s1 := s0 <| acted_from := None |> <| reading ::= fun r => settle_change r o |>).
  assert (Hmark : forall d, mark_changed d (read_key o) !! read_key o <> Some false).
  { intros d. unfold mark_changed. destruct (d !! read_key o) eqn:E; [by rewrite lookup_insert_eq|by rewrite E]. }
  assert (Hland : forall t, read_documents (reading (note_landing before o t)) = read_documents (reading t) /\
                            history (note_landing before o t) = history t).
  { intros t. unfold note_landing. destruct (_ && _), (followed _); try done; destruct (negb _); done. }
  destruct (Hland s1) as [Hd Hh]. rewrite Hh. change (history s1) with (history s).
  assert (Hsettled : changed_page (reading s) = Some (read_key o) -> read_documents (reading s1) !! read_key o <> Some false).
  { intros Hc. assert (read_documents (reading s1) = mark_changed (read_documents (reading s)) (read_key o)) as ->; [|done].
    change (read_documents (settle_change (reading s) o) = mark_changed (read_documents (reading s)) (read_key o)).
    unfold settle_change. rewrite Hc. cbn. by rewrite bool_decide_eq_true_2. }
  destruct (last (history s)) as [e|] eqn:El.
  2: { rewrite Hd. destruct Hch as [Hc|(e & ? & _)]; [by apply Hsettled|done]. }
  set (done_ := step_effect before o e).
  destruct (changed done_ && bool_decide (h_operation e = Some Click)) eqn:Ec.
  - cbn -[mark_changed]. apply Hmark.
  - change (read_documents (reading (note_landing before o s1)) !! read_key o <> Some false). rewrite Hd.
    destruct Hch as [Hc|(e' & [= <-] & Hop & Hef)]; [by apply Hsettled|]. exfalso.
    unfold done_, step_effect in Ec. rewrite Hop in Ec. rewrite bool_decide_eq_false_2 in Ec by done.
    by rewrite Hef in Ec.
Qed.

(** ** Cases *)
#[local] Existing Instances ascii_unicode ascii_unicode_str exact_format plain_display plain_digest no_tables plain_parser.
#[local] Instance plain_percent : PercentEncoding := {| utf8_percent_encode _ t := t |}.
#[local] Instance plain_value_text : ValueText := {| value_text v := dumps v |}.

Definition sample_decision (o : Operation) (target : option Control) : Decision :=
  mkDecision o None target None (dec 9 1) None None None None None None false false [] [].
Definition sample_outside : Outside unit :=
  mkOutside _ _ (fun _ => Ok tt) (fun _ _ _ => Ok [(lit "downloads", ANoul f64_zero)]) (fun _ _ => Ok (new_context []))
    (fun _ _ _ => Ok (sample_decision Scroll None)) (fun _ _ => Ok None) false.
Definition sample_seam : PageSeam := still_page (sample "page" "").
Definition sample_run : RunState := new_run (lit "Find the opening hours") [] [] false (mkRedactor [] []).
Definition idle_click : turn := Judged (sample "page" "") (performed (Some (Click, Some (lit "More")))) Stuck.

(** Three idle steps ask Jev again, once; the sixth ends the run. *)
Theorem stall_rule_ends_the_run_witness :
  is_ok (fst (take_turns sample_outside sample_seam default_config (replicate 5 idle_click) sample_run)) = true /\
  is_ok (fst (take_turns sample_outside sample_seam default_config (replicate 6 idle_click) sample_run)) = false.
Proof.
  split.
  - apply (proj2 (stall_rule_ends_the_run sample_outside sample_seam default_config sample_run (replicate 5 idle_click)
                    ltac:(vm_compute; intuition congruence) ltac:(vm_compute; intuition congruence) ltac:(repeat constructor))).
    + split_and!; done.
    + vm_compute. reflexivity.
  - apply (proj1 (stall_rule_ends_the_run sample_outside sample_seam default_config sample_run (replicate 6 idle_click)
                    ltac:(vm_compute; intuition congruence) ltac:(vm_compute; intuition congruence) ltac:(repeat constructor))).
    vm_compute. discriminate.
Defined.

Definition email_field (v : text) : Control :=
  (new_control (lit "7") (lit "textbox") (lit "Email") [Fill; Enter]) <| c_value := Some v |> <| c_retarget_key := Some (lit "k") |>.
Definition fill_email (shown t : text) : Decision * Action :=
  (sample_decision Fill (Some (email_field shown)),
   (new_action Fill) <| a_text := Some t |> <| target_id := Some (lit "7") |>).
Definition email_edits : list (Decision * Action) :=
  [fill_email [] (lit "a@x.test"); fill_email (lit "a@x.test") (lit "b@x.test"); fill_email (lit "b@x.test") (lit "b@x.test")].

Lemma email_edits_judged : judge_edits nothing_written email_edits = [Some true; None; Some false].
Proof. vm_compute. reflexivity. Qed.

Definition other_field : Control := new_control (lit "8") (lit "textbox") (lit "Name") [Fill].
Theorem a_field_is_progress_once_witness :
  let name := (sample_decision Fill (Some other_field), (new_action Fill) <| a_text := Some (lit "Ann") |>) in
  judge_edits nothing_written [fill_email [] (lit "a@x.test"); name] = [Some true; Some true] /\
  edited (fill_email [] (lit "a@x.test")).1 <> edited name.1.
Proof.
  cbv zeta. split; [vm_compute; reflexivity|].
  apply (a_field_is_progress_once nothing_written
           [fill_email [] (lit "a@x.test"); (sample_decision Fill (Some other_field), (new_action Fill) <| a_text := Some (lit "Ann") |>)]
           0 1 _ (fill_email [] (lit "a@x.test")).2 _ ((new_action Fill) <| a_text := Some (lit "Ann") |>));
    (lia || vm_compute; reflexivity).
Defined.

(** The field drawn again under another element id, out of view. *)
Definition redrawn_email : Control := (email_field []) <| c_id := lit "19" |> <| c_offscreen := true |>.
Definition form_page (c : Control) : Observation := (sample "page" "") <| controls := [other_field; c] |> <| document_key := lit "d1" |>.

Theorem only_a_redrawn_target_is_acted_on_witness :
  let a := (fill_email [] (lit "a@x.test")).2 in
  exists a', retargeted a (form_page (email_field [])) (form_page redrawn_email) (email_field []) = Some a' /\
    target_id a' = Some (lit "19") /\ operation a' <> Drag.
Proof.
  cbv zeta. eexists. split; [vm_compute; reflexivity|]. split; [reflexivity|].
  exact (proj1 (only_a_redrawn_target_is_acted_on (fill_email [] (lit "a@x.test")).2 (form_page (email_field []))
           (form_page redrawn_email) (email_field []) _ ltac:(vm_compute; reflexivity))).
Defined.

(** A click on "More" that added a control to a page already read. *)
Definition before_more : Observation := form_page (email_field []).
Definition after_more : Observation := before_more <| controls ::= fun cs => cs ++ [redrawn_email] |>.
Definition after_click : RunState :=
  sample_run <| acted_from := Some before_more |>
    <| history := [new_entry (Some Click) (Some (lit "More")) Executed false] |>
    <| reading ::= fun r => mark_read r after_more |>.

Theorem a_changed_page_is_unread_witness :
  page_read (reading after_click) after_more = true /\ page_read (reading (note_effect after_more after_click)) after_more = false.
Proof.
  split; [vm_compute; reflexivity|].
  apply (a_changed_page_is_unread after_click before_more after_more); [reflexivity|].
  right. exists (new_entry (Some Click) (Some (lit "More")) Executed false). split_and!; vm_compute; reflexivity.
Defined.
