(* ===== verification/Acting.v ===== *)
(** Turning a decision into an action: [crates/fastbrowse-agent/src/agent/acting.rs], with
    [record_step] and [record_failure] of [driving.rs].

    Every handler is a [Step] (Recovery.v) that asks of the [Outside] what the source asks of Jev, and of
    [Hands] the rest of what acting reaches for: the decision model's profile, whether the page is
    only fetched, the caller's secrets, a value written by the LLM, and the event a recorded step
    raises, with its frame, where the caller listens.  What is written into the trace is left out. *)

From stdpp Require Import gmap.
From coqutil Require Import Datatypes.RecordSetters.
From S2P Require Import Prelude Float64 PyText Json DateTime Lax Models Config Page Origins Navigation Secrets Redactor Effects Notes PageState Decision Helpers Recipe Pyre Spans RunState Seeing Recovery.

Import TriangleBracketNotations.
Open Scope step_scope.

(** ** What acting asks besides Jev *)
Record Hands `{TR : TableReader} (E : Type) := mkHands {
  h_profile : DecisionProfile;
  h_over_http : bool;
  h_secrets : RunState -> option SecretResolver;
  h_write_value : RunState -> text -> list text -> text -> result (option text) (Flow E);
  h_events : bool;
  h_report : RunState -> StepResult -> option (list Z) -> result unit (Flow E);
  h_failed : text -> E;
  h_invalid : text -> E;
  h_page_state : StateError -> E;
}.
Arguments h_profile {TR E} _.
Arguments h_over_http {TR E} _.
Arguments h_secrets {TR E} _ _.
Arguments h_write_value {TR E} _ _ _ _ _.
Arguments h_events {TR E} _.
Arguments h_report {TR E} _ _ _ _.
Arguments h_failed {TR E} _ _.
Arguments h_invalid {TR E} _ _.
Arguments h_page_state {TR E} _ _.

(** Where a field's value comes from, and the words shown either side of one. *)
Definition IN_TASK : text := lit "task".
Definition IN_READ : text := lit "read".
Definition WRITTEN : text := lit "write".
Definition NO_VALUE : text := lit "none".
Definition WORD_CONTEXT : nat := 3.
Definition VALUE_SOURCE_PARTS : nat := 4.

Definition show_index (n : nat) : text := show_Z (Z.of_nat n).

(** One question about the page, with the options it offers. *)
Definition Asked : Type := text * text * list (text * value).

(** ** Questions *)
Section Questions.
Context `{Unicode}.

Definition word_shown (t : text) (w : Word) : text * value :=
  (show_index (w_index w),
   Str (repr (span_of t (w_start w, w_end w))
        ++ match w_piece w with
           | Some (n, parts) => lit " (piece " ++ show_index n ++ lit " of " ++ show_index parts ++ lit ")"
           | None => []
           end
        ++ lit " in: " ++ span_of t (word_before w WORD_CONTEXT, word_after w WORD_CONTEXT))).
Definition word_options (t : text) (shown : list Word) : list (text * value) := im_extend [] (map (word_shown t) shown).

(** What was already typed into a field, quoted. *)
Definition typed_into (history : list HistoryEntry) (target : Control) : list text :=
  omap (fun e => if bool_decide (h_operation e = Some Fill) && bool_decide (h_target e = Some (describe target))
                 then repr <$> h_text e else None) history.

Definition value_questions (history : list HistoryEntry) (target : Control) (t holder label : text) (group : list Word)
    (source_question : text) (sources : list (text * value)) : list Asked :=
  let sources := if is_empty group then base.filter (fun kv => kv.1 <> IN_TASK) sources else sources in
  let typed := typed_into history target in
  let tried :=
    if is_empty typed then []
    else lit " Already typed here: " ++ join (lit ", ") typed
           ++ lit ". Earlier typing does not prove the page rejected the value. Choose what the task requires; the page may have changed it." in
  let options := word_options t group in
  let span end_ :=
    lit "If " ++ holder ++ lit " states the value for " ++ label ++ lit ", which of its words " ++ end_
      ++ lit " the value? When it gives this field several values, the first comes first, unless the task says when to use another and that has happened. A search takes what is looked for, not the request around it."
      ++ tried in
  [(lit "source", source_question, sources)]
  ++ (if is_empty group then []
      else [(lit "first", span (lit "begins"), options); (lit "last", span (lit "ends"), options)]).

Definition page_question (task question : text) (criteria : list (text * value)) : Question :=
  QChoice (mkChoiceQuestion (UNTRUSTED ++ nl ++ nl ++ lit "# Task" ++ nl ++ task ++ nl ++ nl ++ question) criteria).

(** Jev's picks from the decision's own request, when it answered all of [asked] there. *)
Definition ahead_pick (d : Decision) (asked : Asked) : option (text * text) :=
  match im_get asked.1.1 (d_ahead d) with
  | Some (AChoice choice _ _) => if im_contains choice asked.2 then Some (asked.1.1, choice) else None
  | _ => None
  end.
Definition ahead_picks (d : Decision) (asked : list Asked) : option (list (text * text)) :=
  im_extend [] <$> mapM (ahead_pick d) asked.

(** How often this run has already done it. *)
Definition times_done (history : list HistoryEntry) (o : Operation) (target : Control) : nat :=
  length (base.filter (fun e => h_outcome e = Executed /\ h_operation e = Some o /\ h_target e = Some (describe target)) history).

Definition gate_questions (history : list HistoryEntry) (o : Operation) (target : Control) (destination : option Control)
    (controls : list Control) : option NoulQuestion * NoulQuestion * NoulQuestion :=
  let lasting := lasting_question o target destination controls in
  let irreversible :=
    if negb (changes_credentials controls target o) then Some (irreversible_question o target destination controls) else None in
  let done := times_done history o target in
  let times := if (done =? 1)%nat then lit "once" else show_index done ++ lit " times" in
  let action :=
    control_action o target destination controls
    ++ (if (0 <? done)%nat then lit "This run has already done this " ++ times ++ lit "." ++ nl else []) in
  (irreversible, requested_question action, lasting).
End Questions.

(** ** Recording a step *)
Section Acting.
Context `{Unicode} `{UnicodeStr} `{FloatFormat} `{F64Display} `{Sha256} `{PercentEncoding} `{UrlParser} `{TR : TableReader}.
Context {E : Type} (outside : Outside E) (page : PageSeam) (hands : Hands E) (config : Config).

Definition stops {A} (status : Status) (error : text) : Step E A := fails (FlowStop (new_stop status error)).
Definition failed {A} (m : text) : Step E A := fails (FlowAgent (h_failed hands m)).

(** The controls Jev was offered, as the step reports them. *)
Definition choices_of (r : Redactor) (d : Decision) : list StepChoice :=
  let chosen := map c_id (option_list (d_target d) ++ option_list (d_destination d)) in
  map (fun c => mkStepChoice (c_id c) (c_role c) (mask r (c_label c)) (mask r <$> c_context c) (c_operations c)
                  (bool_decide (c_id c ∈ chosen))) (d_offered d).

(** What leaves the run of a step, with the secrets known by now hidden. *)
Definition shown_step (s : RunState) (step : StepResult) : StepResult :=
  let r := redactor s in
  step <| sr_url ::= redact r |> <| sr_target ::= fmap (redact r) |> <| sr_note ::= fmap (redact r) |>
       <| sr_choices := map (fun c => c <| sh_label ::= mask r |> <| sh_context ::= fmap (mask r) |>) (choices s) |>.

(** What a recorded step leaves of the run: a stale one dispatched nothing and is not counted. *)
Definition push_step (step : StepResult) (s : RunState) : RunState :=
  let s := s <| choices := [] |> <| steps ::= fun l => l ++ [step] |> in
  if bool_decide (sr_outcome step = Stale) then s else s <| counted_steps ::= fun n => wrap64 (n + 1) |>.

Definition record_step (step : StepResult) (capture_frame : bool) (shown : option (list Z)) : Step E unit := fun s =>
  let step := shown_step s step in
  (modify (push_step step) ;;
   if negb (h_events hands) then ret tt
   else
     let! shown := if capture_frame && step_frames config then frame page else ret shown in
     lift (fun s => h_report hands s step shown)) s.

Definition record_failure (o : Observation) (op : Operation) (reason : text) (target : option text) (confidence : option f64)
    (page_changed : option bool) (decided_by : Decider) : Step E unit := fun s =>
  record_step (mkStepResult (step_count s) op decided_by Failed (o_url o) target confidence (Some reason) [] page_changed 0 [])
    true None s.

(** ** The gates *)
(** The failed step a refusal leaves, whose reason and target are redacted. *)
Definition refused (o : Observation) (d : Decision) (reason label : text) : Step E unit := fun s =>
  record_failure o (d_operation d) (redact (redactor s) reason) (Some (redact (redactor s) label))
    (Some (decision_confidence d)) (Some false) (if d_replayed d then DeciderRecipe else DeciderJev) s.

Definition unsure {A} (reason : text) : Step E A := fun s => (Err (FlowUnsure (new_unsure (redact (redactor s) reason))), s).

(** [gate_download]. *)
Definition gate_download (o : Observation) (d : Decision) (c : Control) : Step E unit :=
  if negb (starts_download c) then ret tt
  else
    let! forbidden := downloads_forbidden outside config in
    if negb forbidden then ret tt
    else
      let reason := Operation_as_str (d_operation d) ++ lit " " ++ repr (describe c)
                      ++ lit " downloads a file, and the task rules out downloading" in
      refused o d reason (describe c) ;; unsure reason.

Definition noul (answers : list (text * Answer)) (key : string) : option f64 :=
  match im_get (lit key) answers with Some (ANoul p) => Some p | _ => None end.

Definition gate_asks (authorized : bool) (irreversible : option NoulQuestion) (requested : NoulQuestion)
    (lasting : option NoulQuestion) : list (text * Question) :=
  match irreversible with Some q => [(lit "irreversible", QNoul q)] | None => [] end
  ++ (if authorized then
        [(lit "requested", QNoul requested)] ++ match lasting with Some q => [(lit "lasting", QNoul q)] | None => [] end
      else []).

Inductive Verdict := Proceeds (committing : bool) | ChangesUnasked | NeedsConfirming.

(** What the answers say of an action that may commit. *)
Definition gate_verdict (asked : list (text * Question)) (answers : list (text * Answer)) : Verdict :=
  let at_most p := match p with Some p => f64_le p (irreversible_above (thresholds config)) | None => false end in
  let reversible := at_most (noul answers "irreversible") in
  let wanted := match noul answers "requested" with
                | Some p => f64_gt p (requested_above (thresholds config)) | None => false end in
  let keeps := im_contains (lit "lasting") asked && negb (at_most (noul answers "lasting")) in
  if reversible && keeps && negb wanted then ChangesUnasked
  else if reversible || wanted then Proceeds (negb reversible) else NeedsConfirming.

Definition gate_page (s : RunState) (o : Observation) : value :=
  Object [(lit "task", Str (task s)); (lit "page", Object [(lit "origin", Str (secret_origin_of (o_url o)))])].

Definition unconfirmed (o : Observation) (d : Decision) (label : text) : Step E unit :=
  let reason := Operation_as_str (d_operation d) ++ lit " " ++ repr label ++ lit " needs confirmation" in
  refused o d reason label ;; stops NeedsConfirmation reason.

(** [gate_question]. *)
Definition gate_question (o : Observation) (d : Decision) (label : text) (irreversible : option NoulQuestion)
    (requested : NoulQuestion) (lasting : option NoulQuestion) : Step E unit := fun s =>
  let asked := gate_asks (irreversible_actions s) irreversible requested lasting in
  if is_empty asked then unconfirmed o d label s
  else
    (let! answers := lift (fun s => o_evaluate outside s (gate_page s o) asked) in
     match gate_verdict asked answers with
     | ChangesUnasked =>
         let reason := Operation_as_str (d_operation d) ++ lit " " ++ repr label
                         ++ lit " would change what the site keeps, and the task does not ask for it" in
         refused o d reason label ;; unsure reason
     | Proceeds committing =>
         modify (fun s => s <| site -> RunState.committing := committing |>
                            <| tab_handed_over ::= orb committing |>)
     | NeedsConfirming => unconfirmed o d label
     end) s.

(** [gate_irreversible]. *)
Definition gate_irreversible (o : Observation) (d : Decision) : Step E unit :=
  match d_target d with
  | None => ret tt
  | Some target =>
      if negb (may_be_irreversible (d_operation d)) then ret tt
      else
        gate_download o d target ;;
        let label := describe target ++ match d_destination d with Some c => lit " onto " ++ describe c | None => [] end in
        let! history := get RunState.history in
        let '(irreversible, requested, lasting) :=
          gate_questions history (d_operation d) target (d_destination d) (controls o) in
        gate_question o d label irreversible requested (Some lasting)
  end.

(** ** Asking Jev about the page *)
(** [model_dump_json] of a question. *)
Definition question_json (q : Question) : text :=
  match q with
  | QChoice q => dump_json (Object [(lit "type", Str (lit "choice")); (lit "instructions", Str (ch_instructions q));
                                    (lit "criteria", Object (ch_criteria q))])
  | _ => []
  end.

(** One question's answer, which must be a choice it offered. *)
Definition read_pick (answers : list (text * Answer)) (asked : Asked) : result (text * text) text :=
  match im_get asked.1.1 answers with
  | Some (AChoice choice _ _) =>
      if im_contains choice asked.2 then Ok (asked.1.1, choice)
      else Err (lit "Jev picked " ++ choice ++ lit ", which was not offered")
  | _ => Err (lit "expected a choice answer")
  end.

(** [for (key, options) in &offered]: the first wrong answer is the error. *)
Fixpoint read_picks (answers : list (text * Answer)) (offered : list Asked) (picks : list (text * text))
  : result (list (text * text)) text :=
  match offered with
  | [] => Ok picks
  | asked :: offered =>
      let? pick := read_pick answers asked in read_picks answers offered (im_insert pick.1 pick.2 picks)
  end.

(** What a question is asked beside: the page, or nothing for one about the task alone. *)
Definition asked_page (s : RunState) (o : option Observation) (context : option (list (text * value)))
    (questions : list (text * Question)) : result value (Flow E) :=
  match o with
  | None => Ok (Object [])
  | Some o =>
      let n := match context with Some _ => empty_notes | None => notes (reading s) end in
      match page_state o n (tokens config) (map (fun kq => question_json kq.2) questions) context with
      | Ok v => Ok v
      | Err e => Err (FlowAgent (h_page_state hands e))
      end
  end.

(** [ask_choices_in]: several choices in one request. *)
Definition ask_choices_in (o : option Observation) (asked : list Asked) (context : option (list (text * value)))
  : Step E (list (text * text)) := fun s =>
  let questions := im_extend [] (map (fun a => (a.1.1, page_question (task s) a.1.2 a.2)) asked) in
  (let! _ := lift (o_reserve outside) in
   let! page := lift (fun s => asked_page s o context questions) in
   let! answers := lift (fun s => o_answer outside s page questions) in
   match read_picks answers asked [] with Ok picks => ret picks | Err m => failed m end) s.

Definition ask_choices (o : option Observation) (asked : list Asked) : Step E (list (text * text)) := ask_choices_in o asked None.

(** [picks["pick"]]: [ask_choices_in] answers every key it was asked. *)
Definition picked_of (key : string) (picks : list (text * text)) : text := default [] (im_get (lit key) picks).
Definition ask_choice (o : Observation) (question : text) (criteria : list (text * value)) : Step E text :=
  let! picks := ask_choices (Some o) [(lit "pick", question, criteria)] in ret (picked_of "pick" picks).

(** [choose]: one of the options, asked only when there are several. *)
Definition choose (o : Observation) (question : text) (options : list text) : Step E text := fun s =>
  match options with
  | [only] => (Ok only, s)
  | [] => stops Stuck (lit "no options to answer: " ++ question) s
  | _ =>
      let keys := imap (fun i option => (show_index i, option)) (take (Z.to_nat (max_choice_options (h_profile hands))) options) in
      (let! picked := ask_choice o question (map (fun ko => (ko.1, Str (mask (redactor s) ko.2))) keys) in
       ret (default [] (im_get picked keys))) s
  end.

(** ** Targets and secrets *)
Definition raw_target (s : RunState) (target : Control) : Control :=
  match raw_page s with
  | Some raw => default target (find (fun c => teqb (c_id c) (c_id target)) (controls raw))
  | None => target
  end.
Definition target_origin (s : RunState) (target : Control) : text := default (lit "null") (c_frame_origin (raw_target s target)).

Definition secret_names (s : RunState) (origin : text) : list text :=
  match h_secrets hands s with
  | Some secrets => map secret_name (base.filter (fun sec => secret_allowed sec origin = true) (available secrets))
  | None => []
  end.

(** [secret]: the value of a stored secret for an origin, registered before it is typed. *)
Definition secret_value (name origin : text) (credential : bool) : Step E text := fun s =>
  match match h_secrets hands s with Some secrets => resolve_secret secrets name origin | None => None end with
  | Some v => (Ok v, s <| redactor ::= fun r => register r name v (Some origin) |>)
  | None =>
      if credential
      then stops NeedsLogin (lit "sign-in required at " ++ origin ++ lit ": secret " ++ name ++ lit " is not available there") s
      else stops NeedsInput (lit "secret " ++ name ++ lit " is not available for " ++ origin) s
  end.

(** [missing]: a field the task gives no value for, left from then on. *)
Definition no_value {A} (o : Observation) (target : Control) : Step E A :=
  modify (fun s => s <| RunState.missing ::= fun m => {[(o_url o, c_label target, c_context target)]} ∪ m |>) ;;
  fails (FlowUnsure (mkUnsure (lit "the task gives no value for " ++ repr (c_label target)
                                 ++ lit ": leave it unless the task cannot go on without it") NeedsInput)).

Definition sourced (source : RecipeText) : Step E unit := modify (fun s => s <| text_source := Some source |>).

(** ** The value of a field *)
Record Value := mkValue {
  v_task : text; v_read : text; v_label : text; v_group : list Word; v_source_question : text; v_sources : list (text * value);
}.

Definition max_chars (target : Control) : option nat := Z.to_nat <$> c_max_length target.

Definition value_of (s : RunState) (target : Control) : Value :=
  let secrets := secret_names s (target_origin s target) in
  let read := join [10] (map (fun kf => f_text kf.2) (base.filter (fun kf => Notes.answers kf.2 = true) (facts (notes (reading s))))) in
  let sources :=
    im_extend [] (map (fun kv => (lit "input:" ++ kv.1, Str (lit "The provided value named " ++ kv.1 ++ lit ": " ++ kv.2))) (inputs s)
      ++ map (fun name => (lit "secret:" ++ name, Str (lit "The stored secret named " ++ name ++ lit " (value hidden)"))) secrets
      ++ [(IN_TASK, Str (lit "The task states this field's value word for word, whole or as part of something longer."));
          (WRITTEN, Str (lit "The task asks for a value it does not state word for word, such as a search query for what it looks for, so it is written from the task."))]
      ++ (if is_empty read then []
          else [(IN_READ, Str (lit "The task does not state it, and what was read does: " ++ read))])
      ++ [(NO_VALUE, Str (lit "Nothing given states a value for this field."))]) in
  let label := repr (c_label target)
                 ++ match c_max_length target with
                    | Some limit => lit ", which holds at most " ++ show_Z limit ++ lit " characters,"
                    | None => []
                    end in
  mkValue (task s) read label (words_of (task s) (max_chars target))
    (lit "What should be typed into " ++ label
      ++ lit "? Stored secrets are this site's sign-in credentials, named by role, and are only for signing in to the account: when this field is a sign-in field, the username is also the account's email address or phone number. Any other field takes a value the task gives, and a search field takes what the task is looking for.")
    sources.

(** The follow-ups a fill of each field on the page would need, to ask beside the decision. *)
Definition ahead_of (s : RunState) (c : Control) : list (Operation * text * text * Question) :=
  if bool_decide (Fill ∈ c_operations c) && negb (is_password c) then
    let v := value_of s c in
    if Z.of_nat (length (v_group v)) <=? max_choice_options (h_profile hands) then
      map (fun a => (Fill, c_id c, a.1.1, page_question (task s) a.1.2 a.2))
        (value_questions (RunState.history s) c (v_task v) (lit "the task") (v_label v) (v_group v) (v_source_question v) (v_sources v))
    else []
  else [].
Definition ahead (s : RunState) (o : Observation) : list (Operation * text * text * Question) :=
  concat (map (ahead_of s) (controls o)).

(** The overlapping parts a long source is cut into. *)
Definition div_ceil (a b : nat) : nat := ((a + b - 1) / b)%nat.
Definition source_parts (max : nat) (group : list Word) : list (list Word) :=
  let count := length group in
  let step := div_ceil count (Nat.min (max - 1) VALUE_SOURCE_PARTS) in
  let width := Nat.min (2 * step) (count - 1) in
  map (fun n => let from := (n * step)%nat in take (Nat.min (from + width) count - from) (drop from group))
    (seq 0 (div_ceil count step)).
Definition part_shown (source : text) (part : list Word) : text :=
  match head part, last part with
  | Some first, Some last => span_of source (w_start first, w_end last)
  | _, _ => []
  end.

(** [narrowed]'s loop. A part picked is one that was offered; [fuel] bounds the halvings. *)
Fixpoint narrow (o : Observation) (source label : text) (max fuel : nat) (group : list Word) : Step E (list Word) :=
  if (length group <=? max)%nat then ret group
  else
    match fuel with
    | O => failed []
    | S fuel =>
        let parts := source_parts max group in
        let criteria := imap (fun n part => (show_index n, Str (part_shown source part))) parts
                          ++ [(NO_VALUE, Str (lit "None of these parts states the field's value."))] in
        let! picked := ask_choice o (lit "Which part of this source holds the value for " ++ label ++ lit ", if any does?") criteria in
        if teqb picked NO_VALUE then ret []
        else
          match parse_usize picked with
          | None => failed (lit "expected a source part index")
          | Some chosen => narrow o source label max fuel (default [] (parts !! Z.to_nat chosen))
          end
    end.

Definition narrowed (o : Observation) (source label : text) (group : list Word) : Step E (list Word) :=
  let max := max_choice_options (h_profile hands) in
  if max <? 3 then failed (lit "value selection needs a provider supporting at least three choices")
  else narrow o source label (Z.to_nat max) (length group) group.

(** ** The text a field gets *)
(** The text of the saved step being replayed, where this field may take it. *)
Definition replayed_source (s : RunState) (o : Observation) (d : Decision) (target : Control) : option RecipeText :=
  if d_replayed d then
    match replay s with Some r => text_for r target (is_missing (RunState.missing s) (o_url o) target) | None => None end
  else None.

(** Of several stored secrets, the one Jev picks. *)
Definition existing_password (o : Observation) (target : Control) (secrets : list text) (origin : text) : Step E text :=
  match secrets with
  | [] => stops NeedsLogin (repr (c_label target) ++ lit " wants a secret and none is stored")
  | [only] => sourced (Secret only) ;; secret_value only origin true
  | _ =>
      let! name := ask_choice o (lit "Which stored secret belongs in " ++ repr (c_label target) ++ lit "?")
                     (map (fun name => (name, Str (lit "The stored secret named " ++ name))) secrets) in
      sourced (Secret name) ;; secret_value name origin true
  end.

Definition NEW_PASSWORD : text := lit "new_password".

(** Whether the field sets a new password: as the form shows, or as Jev judges. *)
Definition is_replacement (o : Observation) (target : Control) : Step E bool :=
  match sets_new_password (controls o) target with
  | Some replacement => ret replacement
  | None =>
      let! role := ask_choice o
        (lit "Which password role does " ++ repr (c_label target)
          ++ lit " have for this task? Consider the task, field context and form controls. A sign-in page may mark its password field new-password to prevent autofill, so that marker alone does not establish a replacement. Choose unclear when the role cannot be established.")
        [(lit "current", Str (lit "The field takes the account's existing password for signing in or confirming identity."));
         (lit "replacement", Str (lit "The field sets a new account password or confirms that new password."));
         (lit "unclear", Str (lit "The task and form do not establish which password the field takes."))] in
      if teqb role (lit "replacement") then ret true
      else if teqb role (lit "current") then ret false
      else stops NeedsInput (repr (c_label target) ++ lit " does not establish whether it takes the current password or a replacement")
  end.

(** [sensitive_text]. *)
Definition sensitive_text (o : Observation) (target : Control) (secrets : list text) (origin : text) : Step E text :=
  let! replacement := is_replacement o target in
  if replacement then
    if negb (existsb (teqb NEW_PASSWORD) secrets) then
      stops NeedsInput (lit "A replacement password requires --secret new_password=ENV_VAR@https://host; set ENV_VAR to the new value instead of putting it in the task.")
    else sourced (Secret NEW_PASSWORD) ;; secret_value NEW_PASSWORD origin false
  else existing_password o target (base.filter (fun name => name <> NEW_PASSWORD) secrets) origin.

(** A value the LLM writes; one the task states as it was typed is the task's. *)
Definition written_value (o : Observation) (target : Control) (label : text) : Step E text := fun s =>
  (let! written := lift (fun s => h_write_value hands s label (typed_into (RunState.history s) target) (today o)) in
   match written with
   | Some v =>
       if is_empty (trim_matches is_whitespace v) then no_value o target
       else if contains_sub (task s) v then sourced (Literal v) ;; ret v
       else ret v
   | None => no_value o target
   end) s.

(** The word a pick names, and the ends of the value once a field's limit is kept to. *)
Definition picked_word (picks : list (text * text)) (group : list Word) (key : string) : option Word :=
  match im_get (lit key) picks with
  | Some p => match parse_usize p with
              | Some index => find (fun w => Z.of_nat (w_index w) =? index) group
              | None => None
              end
  | None => None
  end.
Definition ends_within (limit : option nat) (first last : option Word) : option (Word * Word) :=
  match first, last with
  | Some first, Some last =>
      match limit with
      | Some limit =>
          if (limit <? w_end last - w_start first)%nat || (w_index last <? w_index first)%nat then Some (first, first)
          else Some (first, last)
      | None => Some (first, last)
      end
  | _, _ => None
  end.

Definition exact_question (label holder ends : text) : text :=
  lit "Which exact text belongs in " ++ label ++ lit "? Each choice is the complete value that would be copied from "
    ++ holder ++ lit ", " ++ ends ++ lit ". Choose only the field's value, without surrounding task instructions.".

(** The end asked again knowing where the value begins, then its beginning knowing where it ends. *)
Definition last_again (o : Observation) (source label holder : text) (group : list Word) (first last : Word) : Step E Word :=
  if (w_index first =? w_index last)%nat then ret last
  else
    let! picked := ask_choice o (exact_question label holder (lit "beginning at the selected word"))
      (map (fun w => (show_index (w_index w), Str (span_of source (w_start first, w_end w))))
         (base.filter (fun w => w_index first <= w_index w)%nat group)) in
    ret (default first (find (fun w => (w_index first <=? w_index w)%nat && teqb (show_index (w_index w)) picked) group)).
Definition first_again (o : Observation) (source label holder : text) (group : list Word) (first last : Word) : Step E Word :=
  if (w_index last <=? w_index first)%nat then ret first
  else
    let! picks := ask_choices (Some o)
      [(lit "start", exact_question label holder (lit "ending where the value ends"),
        map (fun w => (show_index (w_index w), Str (span_of source (w_start w, w_end last))))
          (base.filter (fun w => w_index w <= w_index last)%nat group))] in
    ret (default first (find (fun w => (w_index w <=? w_index last)%nat
                                       && bool_decide (im_get (lit "start") picks = Some (show_index (w_index w)))) group)).

(** Words of [source] copied as they stand, between the ends Jev marks. *)
Definition copied_value (o : Observation) (target : Control) (source label : text) (from_read : bool) (group : list Word)
    (picks : list (text * text)) : Step E text :=
  match ends_within (max_chars target) (picked_word picks group "first") (picked_word picks group "last") with
  | None => no_value o target
  | Some (first, last) =>
      let holder := if from_read then lit "what was read" else lit "the task" in
      let! last := last_again o source label holder group first last in
      let! first := first_again o source label holder group first last in
      let v := take (w_end last - w_start first) (drop (w_start first) source) in
      (if from_read then ret tt else sourced (Literal v)) ;; ret v
  end.

(** What a saved source stands for in this run. *)
Definition saved_value (target : Control) (origin : text) (source : RecipeText) : Step E text := fun s =>
  match source with
  | Literal v => (sourced (Literal v) ;; ret v) s
  | Input name =>
      match im_get name (inputs s) with
      | Some v => (sourced (Input name) ;; ret v) s
      | None => stops NeedsInput (lit "the recipe needs input " ++ name) s
      end
  | Secret name =>
      (let! v := secret_value name origin (c_sensitive target || asks_for_credentials (raw_target s target)) in
       sourced (Secret name) ;; ret v) s
  | Live => (ret [] s)
  end.

(** The value from where Jev says it comes. *)
Definition value_from (o : Observation) (target : Control) (origin : text) (v : Value) (group : list Word)
    (picks : list (text * text)) : Step E text := fun s =>
  let source := default NO_VALUE (im_get (lit "source") picks) in
  if teqb source WRITTEN then written_value o target (v_label v) s
  else if teqb source IN_READ then
    (sourced Live ;;
     let! group := narrowed o (v_read v) (v_label v) (words_of (v_read v) (max_chars target)) in
     let asked := base.filter (fun a => a.1.1 <> lit "source")
                    (value_questions (RunState.history s) target (v_read v) (lit "what was read") (v_label v) group [] []) in
     if is_empty asked then no_value o target
     else
       let! more := ask_choices (Some o) asked in
       copied_value o target (v_read v) (v_label v) true group (im_extend picks more)) s
  else
    match strip_prefix source (lit "input:") with
    | Some input => (sourced (Input input) ;; ret (default [] (im_get input (inputs s)))) s
    | None =>
        match strip_prefix source (lit "secret:") with
        | Some name => (sourced (Secret name) ;; secret_value name origin (asks_for_credentials (raw_target s target))) s
        | None => if teqb source IN_TASK then copied_value o target (v_task v) (v_label v) false group picks s
                  else no_value o target s
        end
    end.

(** [text]. *)
Definition field_text (o : Observation) (d : Decision) (target : Control) : Step E text := fun s =>
  let origin := target_origin s target in
  (sourced Live ;;
   match replayed_source s o d target with
   | Some Live | None =>
       if is_password target then sensitive_text o target (secret_names s origin) origin
       else
         let v := value_of s target in
         let! group := narrowed o (v_task v) (v_label v) (v_group v) in
         let! history := get RunState.history in
         let asked := value_questions history target (v_task v) (lit "the task") (v_label v) group (v_source_question v) (v_sources v) in
         let! picks := match ahead_picks d asked with Some picks => ret picks | None => ask_choices (Some o) asked end in
         value_from o target origin v group picks
   | Some source => saved_value target origin source
   end) s.

(** A value typed as one input was given is that input's, unless the caller's own task states it or two inputs share it. *)
Definition given_input (s : RunState) (v : text) : option text :=
  match base.filter (fun kv => kv.2 = v) (inputs s) with [kv] => Some kv.1 | _ => None end.
Definition as_input (v : text) : Step E unit := modify (fun s =>
  match text_source s with
  | Some (Literal _ | Live) =>
      if contains_sub (given_task s) v then s
      else match given_input s v with Some name => s <| text_source := Some (Input name) |> | None => s end
  | _ => s
  end).

(** ** The action *)
Definition require (target : option Control) : Step E Control :=
  match target with
  | Some target => ret target
  | None => failed (lit "operation needs a target and Jev offered none")
  end.

Definition browser_needed {A} (reason : text) : Step E A := fails (FlowBrowser (NeedsBrowser reason)).

(** The addresses a navigation may open: the task's, this page again when its failure can clear, and a pager's. *)
Definition may_open (s : RunState) (o : Observation) (url : text) : bool :=
  bool_decide (url ∈ task_urls (task s) (caller_start s) true) || bool_decide (reload_target s (o_url o) = Some url)
  || bool_decide (url ∈ pager_followed (pager s)).

Definition navigate (o : Observation) (d : Decision) : Step E Action := fun s =>
  match d_url d with
  | Some url =>
      if negb (may_open s o url) then stops Stuck (lit "navigation address was not supplied by the caller") s
      else if reveals (redactor s) url then stops NeedsInput (lit "navigation address contains a resolved secret") s
      else
        (gate_download o d (caller_link url) ;;
         gate_question o d url (Some (navigation_question url)) (requested_question (lit "open the address " ++ url ++ lit "." ++ nl)) None ;;
         ret ((new_action Navigate) <| a_url := Some url |>)) s
  | None => stops Stuck (lit "navigation address was not supplied by the caller") s
  end.

Definition fill (o : Observation) (d : Decision) : Step E Action :=
  let! target := require (d_target d) in
  if h_over_http hands then browser_needed (repr (c_label target) ++ lit " can only be filled in a browser")
  else
    let! v := field_text o d target in
    as_input v ;;
    fun s => (Ok ((new_action Fill) <| target_id := Some (c_id target) |> <| secret := reveals (redactor s) v |>
                    <| a_text := Some v |> <| secret_origin := Some (target_origin s target) |>), s).

Definition select (o : Observation) (d : Decision) : Step E Action :=
  let! target := require (d_target d) in
  let! raw := get (fun s => raw_target s target) in
  if is_empty (c_options raw) then
    let reason := repr (c_label target) ++ lit " offers no options yet" in
    if h_over_http hands then browser_needed reason else fails (FlowUnsure (mkUnsure reason Stuck))
  else
    let! option := choose o (lit "Which option should " ++ repr (c_label target) ++ lit " be set to?") (c_options raw) in
    ret ((new_action Select) <| target_id := Some (c_id raw) |> <| a_text := Some option |>).

Definition total_bytes (files : list Attachment) : Z := fold_left (fun n f => wrap64 (n + Z.of_nat (length (content f)))) files 0.

Definition upload (o : Observation) (d : Decision) : Step E Action := fun s =>
  if is_empty (attachments s) then stops NeedsInput (lit "the page asks for a file and none was provided") s
  else
    (let! name := choose o (lit "Which file belongs in this input?") (map att_name (attachments s)) in
     let attached := base.filter (fun a => att_name a = name) (attachments s) in
     if max_upload_bytes config <? total_bytes attached then stops NeedsInput (name ++ lit " exceeds the upload size limit")
     else
       let! target := require (d_target d) in
       ret ((new_action Upload) <| target_id := Some (c_id target) |> <| files := attached |>)) s.

(** [accept_dialog]. *)
Definition accepts_dialog (o : Observation) : Step E bool :=
  match dialog o with
  | None => stops Stuck (lit "DIALOG chosen with no dialog open")
  | Some dialog =>
      let! picked := ask_choice o
        (lit "The page shows a " ++ dialog_kind dialog ++ lit " dialog saying " ++ repr (dialog_message dialog)
          ++ lit ", opened by the agent's last action. Accept it if it asks to go ahead with what the task wants done; dismiss it if it would do something the task did not ask for.")
        [(lit "accept", Str (lit "Accept / OK")); (lit "dismiss", Str (lit "Dismiss / Cancel"))] in
      ret (teqb picked (lit "accept"))
  end.

Definition answer_dialog (o : Observation) (d : Decision) : Step E Action := fun s =>
  (let! accept := accepts_dialog o in
   match dialog o, dialog_question (task s) (dialog o) with
   | Some dialog, Some irreversible =>
       if accept then
         gate_question o d (dialog_message dialog) (Some irreversible)
           (requested_question (lit "accept this " ++ dialog_kind dialog ++ lit " dialog: " ++ repr (dialog_message dialog) ++ lit "." ++ nl))
           None
       else ret tt
   | _, _ => ret tt
   end ;;
   ret ((new_action Dialog) <| accept_dialog := Some accept |>)) s.

(** [action]. *)
Definition action (o : Observation) (d : Decision) : Step E Action :=
  match d_operation d with
  | Navigate => navigate o d
  | Click | Enter =>
      gate_irreversible o d ;; ret ((new_action (d_operation d)) <| target_id := c_id <$> d_target d |>)
  | Drag =>
      match d_destination d with
      | None => stops NeedsInput (lit "the page offers no drop target for the drag")
      | Some destination =>
          gate_irreversible o d ;;
          let! target := require (d_target d) in
          ret ((new_action Drag) <| target_id := Some (c_id target) |> <| destination_id := Some (c_id destination) |>)
      end
  | Fill => fill o d
  | Select => select o d
  | Upload => upload o d
  | Dialog => answer_dialog o d
  | SwitchTab => ret ((new_action SwitchTab) <| a_tab_id := d_tab_id d |>)
  | Hover | Blur =>
      let! target := require (d_target d) in ret ((new_action (d_operation d)) <| target_id := Some (c_id target) |>)
  | Escape | Scroll | ScrollUp | Back | Wait => ret (new_action (d_operation d))
  | Read | Done =>
      fails (FlowAgent (h_invalid hands (Operation_as_str (d_operation d) ++ lit " is handled by the loop, not dispatched")))
  end.

(** ** What Jev is asked about the task and the end of a run *)
(** [output_intent]: kept once asked, with whether the task asks how a page looks and whether it covers a whole list. *)
Definition intent_of (pick : text) : OutputIntent :=
  if teqb pick (lit "text") then IntentText else if teqb pick (lit "image") then IntentImage
  else if teqb pick (lit "text_image") then IntentTextAndImage else IntentCarriedOut.
Definition intent_questions : list Asked :=
  [(lit "pick", lit "What output does the task want at its end?",
    [(lit "text", Str (lit "The task asks to be told text, such as a value, a name or a list, and does not ask for an image."));
     (lit "image", Str (lit "The task asks only for an image or screenshot as its report."));
     (lit "text_image", Str (lit "The task asks for both a textual answer and an image or screenshot."));
     (lit "carried_out", Str (lit "The task only asks for something to be carried out, with no report."))]);
   (lit "evidence", lit "Where can what the task asks about be seen?",
    [(lit "page_text", Str (lit "What the task asks about is something a page states in its text or controls."));
     (lit "appearance", Str (lit "The task asks how the page looks, such as its colours, styling, artwork or layout, which only the rendered page shows."))]);
   (lit "extent", lit "How much of a list does the task cover?",
    [(lit "shown", Str (lit "What the task asks about can be answered from the records one page shows, or concerns a single item."));
     (lit "every_page", Str (lit "The task covers everything a list holds across all of its pages, such as a count or total over a whole site or list."))])].
Definition ask_output_intent : Step E OutputIntent := fun s =>
  if negb (bool_decide (output_intent s = IntentUnknown)) then (Ok (output_intent s), s)
  else
    (let! picks := ask_choices None intent_questions in
     let intent := intent_of (picked_of "pick" picks) in
     modify (fun s => s <| appearance := teqb (picked_of "evidence" picks) (lit "appearance") |>
                        <| pager -> every_page := teqb (picked_of "extent" picks) (lit "every_page") |>
                        <| output_intent := intent |>) ;;
     ret intent) s.

Definition stops_to_confirm (o : Observation) : Step E bool :=
  let! picked := ask_choice o (lit "What does the task say about sending what was typed?")
    [(lit "confirm", Str (lit "The task says to stop before sending and ask for confirmation."));
     (lit "no", Str (lit "The task does not say that."))] in
  ret (teqb picked (lit "confirm")).

Definition outcome_text (o : StepOutcome) : text :=
  match o with Executed => lit "executed" | Covered => lit "covered" | Stale => lit "stale" | Failed => lit "failed" end.

(** [model_dump(exclude_none)] of a step of the history. *)
Definition history_dump (e : HistoryEntry) : value :=
  Object (some_field "operation" ((fun op => Str (Operation_as_str op)) <$> h_operation e)
    ++ some_field "target" (Str <$> h_target e)
    ++ [(lit "outcome", Str (outcome_text (h_outcome e))); (lit "page_changed", Bool (h_page_changed e))]
    ++ some_field "note" (Str <$> h_note e) ++ some_field "text" (Str <$> h_text e) ++ some_field "effect" (Str <$> h_effect e)
    ++ [(lit "read_progress", Bool (h_read_progress e))] ++ some_field "setting" (Bool <$> h_setting e)).

(** The whole page, not only what is in view. *)
Definition whole_page (o : Observation) : Observation :=
  o <| viewport_text := join [10] (base.filter (fun part => part <> []) [viewport_text o; offscreen_text o]) |>.

(** [actions_done]. *)
Definition done_context (s : RunState) (o : Observation) : list (text * value) :=
  let facts := option_list (unsent_fact (RunState.history s) o)
                 ++ (if to_carry_out s then option_list (empty_fields_fact (elements (RunState.missing s)) o) else []) in
  [(lit "recent_actions", Array (map history_dump (RunState.history s)))]
  ++ (if is_empty facts then [] else [(lit "page_facts", Array (map Str facts))]).
Definition actions_done (o : Observation) : Step E bool := fun s =>
  (let! picks := ask_choices_in (Some (whole_page o))
     [(lit "pick", lit "Judged from the recent actions and the current page, has every step the task asks to be carried out, other than finding, reading or reporting something, been carried out?",
       [(lit "done", Str (lit "Every such step has been carried out, or the task asks only to find, read or report something."));
        (lit "undone", Str (lit "A step the task asks for, other than finding, reading or reporting, has not been carried out yet."))])]
     (Some (done_context s o)) in
   ret (teqb (picked_of "pick" picks) (lit "done"))) s.

(** [meet_wall]: the stop at a sign-in wall, naming the credentials the page asks for. *)
Definition wall_label (c : Control) : text :=
  if negb (is_empty (c_label c)) then c_label c
  else match non_empty (c_input_name c) with Some name => name | None => lit "a password" end.
Definition meet_wall (s : RunState) (o raw : Observation) : Flow E :=
  let credential := map c_id (base.filter (fun c => asks_for_credentials c = true) (controls raw)) in
  let asked := map wall_label (base.filter (fun c => c_id c ∈ credential) (controls o)) in
  let evidence :=
    if negb (is_empty asked) then lit "the page asks for " ++ join (lit ", ") asked
    else if is_empty credential then (if is_empty (o_title o) then o_url o else o_title o) ++ lit " offers only sign-in"
    else lit "the page asks for a password" in
  FlowStop (new_stop NeedsLogin
    (redact (redactor s) (lit "sign-in required at " ++ secret_origin_of (o_url o) ++ lit ": " ++ evidence))).
End Acting.

(** * Properties *)
(** Takes apart a step that succeeded. *)
Ltac step_inv :=
  repeat match goal with
    | H : bind _ _ _ = (Ok _, _) |- _ =>
        let a := fresh "a" in let s := fresh "s" in let Ha := fresh "Ha" in
        apply bind_ok_inv in H as (a & s & Ha & H)
    | H : ret _ _ = (Ok _, _) |- _ => unfold ret in H; injection H as <- <-
    | H : stops _ _ _ = (Ok _, _) |- _ => discriminate H
    | H : fails _ _ = (Ok _, _) |- _ => discriminate H
    | H : modify _ _ = (Ok _, _) |- _ => unfold modify in H; injection H as <- <-
    | H : get _ _ = (Ok _, _) |- _ => unfold get in H; injection H as <- <-
    | H : lift _ _ = (Ok _, _) |- _ => unfold lift in H; injection H as H <-
    end.

(** ** Building an action acts on nothing *)
Section Quiet.
Context `{Unicode} `{UnicodeStr} `{FloatFormat} `{F64Display} `{Sha256} `{PercentEncoding} `{UrlParser} `{TR : TableReader}.
Context {E : Type} (outside : Outside E) (page : PageSeam) (hands : Hands E) (config : Config).

Lemma push_step_kept step s v : kept s = v -> kept (push_step step s) = v.
Proof. unfold push_step. by case_bool_decide. Qed.
Lemma record_step_quiet step capture_frame shown : quiet (record_step page hands config step capture_frame shown).
Proof.
  unfold record_step. intros s v Hs. apply quiet_bind; [by apply push_step_kept|]. intros ? ? ?. repeat quiet_one.
Qed.
#[local] Hint Resolve record_step_quiet : quiet.
Lemma record_failure_quiet o op reason target confidence changed decider :
  quiet (record_failure page hands config o op reason target confidence changed decider).
Proof. unfold record_failure. quiet_all. Qed.
#[local] Hint Resolve record_failure_quiet : quiet.
Lemma refused_quiet o d reason label : quiet (refused page hands config o d reason label).
Proof. unfold refused. quiet_all. Qed.
Lemma unsure_quiet {A} reason : quiet (unsure (E := E) (A := A) reason).
Proof. unfold unsure. quiet_all. Qed.
#[local] Hint Resolve refused_quiet unsure_quiet : quiet.
Lemma gate_download_quiet o d c : quiet (gate_download outside page hands config o d c).
Proof. unfold gate_download. quiet_all. Qed.
Lemma stops_quiet {A} status m : quiet (stops (E := E) (A := A) status m).
Proof. unfold stops. quiet_all. Qed.
Lemma failed_quiet {A} m : quiet (failed (A := A) hands m).
Proof. unfold failed. quiet_all. Qed.
#[local] Hint Resolve stops_quiet failed_quiet gate_download_quiet : quiet.
Lemma unconfirmed_quiet o d label : quiet (unconfirmed page hands config o d label).
Proof. unfold unconfirmed. quiet_all. Qed.
#[local] Hint Resolve unconfirmed_quiet : quiet.
Lemma gate_question_quiet o d label i r l : quiet (gate_question outside page hands config o d label i r l).
Proof. unfold gate_question. quiet_all. Qed.
#[local] Hint Resolve gate_question_quiet : quiet.
Lemma gate_irreversible_quiet o d : quiet (gate_irreversible outside page hands config o d).
Proof. unfold gate_irreversible. quiet_all. Qed.
Lemma ask_choices_in_quiet o asked context : quiet (ask_choices_in outside hands config o asked context).
Proof. unfold ask_choices_in. quiet_all. Qed.
#[local] Hint Resolve gate_irreversible_quiet ask_choices_in_quiet : quiet.
Lemma ask_choices_quiet o asked : quiet (ask_choices outside hands config o asked).
Proof. unfold ask_choices. quiet_all. Qed.
#[local] Hint Resolve ask_choices_quiet : quiet.
Lemma ask_choice_quiet o question criteria : quiet (ask_choice outside hands config o question criteria).
Proof. unfold ask_choice. quiet_all. Qed.
#[local] Hint Resolve ask_choice_quiet : quiet.
Lemma choose_quiet o question options : quiet (choose outside hands config o question options).
Proof. unfold choose. quiet_all. Qed.
Lemma secret_value_quiet name origin credential : quiet (secret_value hands name origin credential).
Proof. unfold secret_value. quiet_all. Qed.
Lemma no_value_quiet {A} o target : quiet (no_value (E := E) (A := A) o target).
Proof. unfold no_value. quiet_all. Qed.
Lemma sourced_quiet source : quiet (sourced (E := E) source).
Proof. unfold sourced. quiet_all. Qed.
Lemma narrow_quiet o source label max fuel : forall group, quiet (narrow outside hands config o source label max fuel group).
Proof. induction fuel as [|fuel IH]; intros group; cbn [narrow]; quiet_all. Qed.
#[local] Hint Resolve choose_quiet secret_value_quiet no_value_quiet sourced_quiet narrow_quiet : quiet.
Lemma narrowed_quiet o source label group : quiet (narrowed outside hands config o source label group).
Proof. unfold narrowed. quiet_all. Qed.
Lemma existing_password_quiet o target secrets origin : quiet (existing_password outside hands config o target secrets origin).
Proof. unfold existing_password. quiet_all. Qed.
Lemma is_replacement_quiet o target : quiet (is_replacement outside hands config o target).
Proof. unfold is_replacement. quiet_all. Qed.
#[local] Hint Resolve narrowed_quiet existing_password_quiet is_replacement_quiet : quiet.
Lemma sensitive_text_quiet o target secrets origin : quiet (sensitive_text outside hands config o target secrets origin).
Proof. unfold sensitive_text. quiet_all. Qed.
Lemma written_value_quiet o target label : quiet (written_value hands o target label).
Proof. unfold written_value. quiet_all. Qed.
Lemma last_again_quiet o source label holder group first last :
  quiet (last_again outside hands config o source label holder group first last).
Proof. unfold last_again. quiet_all. Qed.
Lemma first_again_quiet o source label holder group first last :
  quiet (first_again outside hands config o source label holder group first last).
Proof. unfold first_again. quiet_all. Qed.
#[local] Hint Resolve sensitive_text_quiet written_value_quiet last_again_quiet first_again_quiet : quiet.
Lemma copied_value_quiet o target source label from_read group picks :
  quiet (copied_value outside hands config o target source label from_read group picks).
Proof. unfold copied_value. quiet_all. Qed.
Lemma saved_value_quiet target origin source : quiet (saved_value hands target origin source).
Proof. unfold saved_value. quiet_all. Qed.
#[local] Hint Resolve copied_value_quiet saved_value_quiet : quiet.
Lemma value_from_quiet o target origin v group picks : quiet (value_from outside hands config o target origin v group picks).
Proof. unfold value_from. quiet_all. Qed.
#[local] Hint Resolve value_from_quiet : quiet.
Lemma field_text_quiet o d target : quiet (field_text outside hands config o d target).
Proof. unfold field_text. quiet_all. Qed.
Lemma as_input_quiet v : quiet (as_input (E := E) v).
Proof. unfold as_input. quiet_all. Qed.
Lemma require_quiet target : quiet (require hands target).
Proof. unfold require. quiet_all. Qed.
Lemma browser_needed_quiet {A} reason : quiet (browser_needed (E := E) (A := A) reason).
Proof. unfold browser_needed. quiet_all. Qed.
#[local] Hint Resolve field_text_quiet as_input_quiet require_quiet browser_needed_quiet : quiet.
Lemma navigate_quiet o d : quiet (navigate outside page hands config o d).
Proof. unfold navigate. quiet_all. Qed.
Lemma fill_quiet o d : quiet (fill outside hands config o d).
Proof. unfold fill. quiet_all. Qed.
Lemma select_quiet o d : quiet (select outside hands config o d).
Proof. unfold select. quiet_all. Qed.
Lemma upload_quiet o d : quiet (upload outside hands config o d).
Proof. unfold upload. quiet_all. Qed.
Lemma accepts_dialog_quiet o : quiet (accepts_dialog outside hands config o).
Proof. unfold accepts_dialog. quiet_all. Qed.
#[local] Hint Resolve navigate_quiet fill_quiet select_quiet upload_quiet accepts_dialog_quiet : quiet.
Lemma answer_dialog_quiet o d : quiet (answer_dialog outside page hands config o d).
Proof. unfold answer_dialog. quiet_all. Qed.
#[local] Hint Resolve answer_dialog_quiet : quiet.

(** Building an action acts on nothing: only [step] hands one to the page. *)
Lemma action_quiet o d : quiet (action outside page hands config o d).
Proof. unfold action. quiet_all. Qed.
End Quiet.
#[export] Hint Resolve record_step_quiet action_quiet require_quiet stops_quiet failed_quiet : quiet.

Section Permission.
Context `{Unicode} `{UnicodeStr} `{FloatFormat} `{F64Display} `{Sha256} `{PercentEncoding} `{UrlParser} `{TR : TableReader}.
Context {E : Type} (outside : Outside E) (page : PageSeam) (hands : Hands E) (config : Config).

(** What Jev is asked before an action that may commit: nothing for one that cannot. *)
Definition commit_gate (s : RunState) (o : Observation) (d : Decision) (a : Action)
  : option (option NoulQuestion * NoulQuestion * option NoulQuestion) :=
  match d_operation d with
  | Navigate =>
      (fun url => (Some (navigation_question url), requested_question (lit "open the address " ++ url ++ lit "." ++ nl), None)) <$> d_url d
  | Click | Enter | Drag =>
      (fun target => let '(irreversible, requested, lasting) :=
         gate_questions (RunState.history s) (d_operation d) target (d_destination d) (controls o) in
         (irreversible, requested, Some lasting)) <$> d_target d
  | Dialog =>
      if bool_decide (accept_dialog a = Some true) then
        match dialog o, dialog_question (task s) (dialog o) with
        | Some dialog, Some irreversible =>
            Some (Some irreversible, requested_question (lit "accept this " ++ dialog_kind dialog ++ lit " dialog: "
                                       ++ repr (dialog_message dialog) ++ lit "." ++ nl), None)
        | _, _ => None
        end
      else None
  | _ => None
  end.

(** Jev answers what it is asked and nothing else (DecisionClients.v). *)
Definition answers_asked : Prop :=
  forall s page questions answers, o_answer outside s page questions = Ok answers -> im_keys answers ⊆ im_keys questions.

Definition judged_at_most (answers : list (text * Answer)) (key : string) : Prop :=
  exists p, noul answers key = Some p /\ f64_le p (irreversible_above (thresholds config)) = true.
Definition judged_requested (answers : list (text * Answer)) : Prop :=
  exists p, noul answers "requested" = Some p /\ f64_gt p (requested_above (thresholds config)) = true.

(** What lets an action that may commit go ahead. *)
Definition permitted (authorized lasting : bool) (answers : list (text * Answer)) (committing : bool) : Prop :=
  (committing = false /\ judged_at_most answers "irreversible" /\
     (authorized = true -> lasting = true -> judged_at_most answers "lasting" \/ judged_requested answers)) \/
  (committing = true /\ ~ judged_at_most answers "irreversible" /\ authorized = true /\ judged_requested answers).

Lemma refused_fails o d reason label s u s' (f : Step E unit) : (forall s, is_ok (f s).1 = false) ->
  (refused page hands config o d reason label ;; f) s <> (Ok u, s').
Proof. intros Hf Hs. apply bind_ok_inv in Hs as (? & s1 & _ & Hs). specialize (Hf s1). by rewrite Hs in Hf. Qed.

Lemma noul_absent (answers : list (text * Answer)) (asked : list (text * Question)) (key : string) : im_keys answers ⊆ im_keys asked -> im_contains (lit key) asked = false ->
  noul answers key = None.
Proof.
  intros Hs Hc. unfold noul. destruct (im_get (lit key) answers) as [a|] eqn:E1; [|done]. exfalso.
  assert (lit key ∈ im_keys asked) as Hk by (apply Hs, im_get_some_keys; by rewrite E1).
  apply im_contains_spec in Hk. by rewrite Hk in Hc.
Qed.

Lemma at_most_spec answers (key : string) :
  match noul answers key with Some p => f64_le p (irreversible_above (thresholds config)) | None => false end = true
  <-> judged_at_most answers key.
Proof. unfold judged_at_most. destruct (noul answers key); split; [eauto|intros (? & [= ->] & ?); done|done|intros (? & ? & ?); done]. Qed.
Lemma wanted_spec answers :
  match noul answers "requested" with Some p => f64_gt p (requested_above (thresholds config)) | None => false end = true
  <-> judged_requested answers.
Proof. unfold judged_requested. destruct (noul answers "requested"); split; [eauto|intros (? & [= ->] & ?); done|done|intros (? & ? & ?); done]. Qed.

Lemma verdict_permits (authorized : bool) irreversible requested lasting answers committing :
  let asked := gate_asks authorized irreversible requested lasting in
  im_keys answers ⊆ im_keys asked -> gate_verdict config asked answers = Proceeds committing ->
  permitted authorized (bool_decide (is_Some lasting)) answers committing.
Proof.
  intros asked Hsub. unfold gate_verdict. cbv zeta.
  set (reversible := match noul answers "irreversible" with Some _ => _ | None => _ end).
  set (wanted := match noul answers "requested" with Some _ => _ | None => _ end).
  set (fleeting := match noul answers "lasting" with Some _ => _ | None => _ end).
  assert (Hr : reversible = true <-> judged_at_most answers "irreversible") by apply at_most_spec.
  assert (Hw : wanted = true <-> judged_requested answers) by apply wanted_spec.
  assert (Hl : fleeting = true <-> judged_at_most answers "lasting") by apply at_most_spec.
  assert (Hauth : wanted = true -> authorized = true).
  { destruct authorized; [done|]. intros Hy. apply Hw in Hy as (p & Hp & _). rewrite (noul_absent _ asked) in Hp; [done|done|].
    unfold asked, gate_asks. destruct irreversible; reflexivity. }
  destruct (reversible && (im_contains (lit "lasting") asked && negb fleeting) && negb wanted) eqn:Ec; [done|].
  destruct (reversible || wanted) eqn:Ep; [|done]. intros [= <-]. unfold permitted.
  destruct reversible; cbn [andb negb orb] in *.
  - left. split_and!; [done|by apply Hr|]. intros -> Hlast. apply bool_decide_eq_true in Hlast as [q ->].
    assert (im_contains (lit "lasting") asked = true) as Hin.
    { unfold asked, gate_asks. destruct irreversible; reflexivity. }
    rewrite Hin in Ec. destruct fleeting; [left; by apply Hl|]. destruct wanted; [right; by apply Hw|done].
  - right. split_and!; [done|by rewrite <- Hr|by apply Hauth|by apply Hw].
Qed.

Lemma unconfirmed_fails o d label s u s' : unconfirmed page hands config o d label s <> (Ok u, s').
Proof. apply refused_fails. done. Qed.

(** What a passed gate saw and left. *)
Definition passed (s : RunState) (o : Observation) (i : option NoulQuestion) (r : NoulQuestion) (l : option NoulQuestion)
    (s' : RunState) : Prop :=
  exists answers committing,
    o_evaluate outside s (gate_page s o) (gate_asks (irreversible_actions s) i r l) = Ok answers /\
    permitted (irreversible_actions s) (bool_decide (is_Some l)) answers committing /\
    RunState.committing (site s') = committing /\ (committing = true -> tab_handed_over s' = true) /\
    RunState.downloads_forbidden s' = RunState.downloads_forbidden s.

Lemma gate_question_passed o d label i r l s u s' : answers_asked ->
  gate_question outside page hands config o d label i r l s = (Ok u, s') -> passed s o i r l s'.
Proof.
  intros Hans. unfold gate_question. set (asked := gate_asks _ i r l).
  destruct (is_empty asked); [intros Hs; by apply unconfirmed_fails in Hs|]. intros Hs. step_inv.
  destruct (gate_verdict config asked a) as [committing| |] eqn:Ev.
  - step_inv. exists a, committing. split_and!; [done| |done|intros ->; done|done].
    apply (verdict_permits _ i r l); [|done]. unfold o_evaluate in Ha. destruct (o_reserve outside s); [|done]. by eapply Hans.
  - exfalso. eapply refused_fails; [|exact Hs]. done.
  - by apply unconfirmed_fails in Hs.
Qed.

Lemma gate_download_passed o d c s u s' : gate_download outside page hands config o d c s = (Ok u, s') ->
  (s' = s \/ exists b, s' = s <| RunState.downloads_forbidden := Some b |>) /\
  (starts_download c = true -> RunState.downloads_forbidden s' = Some false).
Proof.
  unfold gate_download. destruct (starts_download c); cbn [negb].
  2: { intros Hs. step_inv. split; [by left|done]. }
  intros Hs. step_inv. destruct a; cbn [negb] in Hs.
  { exfalso. eapply refused_fails; [|exact Hs]. done. }
  step_inv. unfold downloads_forbidden in Ha. destruct (RunState.downloads_forbidden s) as [b|] eqn:Ed.
  - injection Ha as -> <-. split; [by left|done].
  - destruct (o_evaluate _ _ _ _) as [answers|]; [|done].
    destruct (im_get _ answers) as [[]|]; try done. injection Ha as -> <-. split; [right; eauto|done].
Qed.

(** Asking leaves the run's state as it was. *)
Lemma ask_choices_in_state o asked context s r s' : ask_choices_in outside hands config o asked context s = (r, s') -> s' = s.
Proof.
  unfold ask_choices_in, bind, lift, failed, fails. destruct (o_reserve outside s); [|by intros [= _ <-]].
  destruct (asked_page _ _ _ _ _ _); [|by intros [= _ <-]]. destruct (o_answer _ _ _ _); [|by intros [= _ <-]].
  destruct (read_picks _ _ _); by intros [= _ <-].
Qed.
Lemma ask_choice_state o question criteria s r s' : ask_choice outside hands config o question criteria s = (r, s') -> s' = s.
Proof.
  unfold ask_choice, bind, ask_choices. destruct (ask_choices_in _ _ _ _ _ _ s) as [[picks|f] s1] eqn:Ea;
    apply ask_choices_in_state in Ea as ->; by intros [= _ <-].
Qed.
Lemma accepts_dialog_state o s b s' : accepts_dialog outside hands config o s = (Ok b, s') -> s' = s.
Proof.
  unfold accepts_dialog. destruct (dialog o); [|done]. intros Hs. step_inv. by apply ask_choice_state in Ha.
Qed.

(** The control an action would use, where it may download a file. *)
Definition download_control (d : Decision) : option Control :=
  match d_operation d with
  | Navigate => caller_link <$> d_url d
  | Click | Enter | Drag => d_target d
  | _ => None
  end.

(** What letting an action go ahead rests on. *)
Definition went_ahead (s : RunState) (o : Observation) (d : Decision) (a : Action) (s' : RunState) : Prop :=
  (forall i r l, commit_gate s o d a = Some (i, r, l) ->
     exists s1, task s1 = task s /\ irreversible_actions s1 = irreversible_actions s /\ passed s1 o i r l s') /\
  (forall c, download_control d = Some c -> starts_download c = true -> RunState.downloads_forbidden s' = Some false).

Lemma gate_irreversible_passed o d s u s' a : answers_asked ->
  d_operation d = Click \/ d_operation d = Enter \/ d_operation d = Drag ->
  gate_irreversible outside page hands config o d s = (Ok u, s') -> went_ahead s o d a s'.
Proof.
  intros Hans Hop. unfold gate_irreversible, went_ahead, commit_gate, download_control.
  assert (may_be_irreversible (d_operation d) = true) as -> by (by destruct Hop as [->|[->| ->]]). cbn [negb].
  destruct (d_target d) as [target|]; [|by destruct Hop as [->|[->| ->]]]. intros Hs. step_inv.
  apply gate_download_passed in Ha as [Hst Hdown].
  destruct (gate_questions _ _ _ _ _) as [[i r] l] eqn:Eg. apply gate_question_passed in Hs; [|done].
  assert (Hsame : task s0 = task s /\ irreversible_actions s0 = irreversible_actions s /\ RunState.history s0 = RunState.history s).
  { by destruct Hst as [->|[b ->]]. }
  destruct Hsame as (Et & Ei & Eh). rewrite Eh in Eg. split.
  - intros i' r' l' E1. assert (Some (i, r, Some l) = Some (i', r', l')) as [= <- <- <-].
    { rewrite <- E1. destruct Hop as [Eo|[Eo|Eo]]; rewrite Eo in *; cbn [fmap option_fmap option_map]; by rewrite Eg. }
    by exists s0.
  - intros c E1 Hd. assert (target = c) as -> by (destruct Hop as [Eo|[Eo|Eo]]; rewrite Eo in E1; by injection E1).
    destruct Hs as (? & ? & _ & _ & _ & _ & ->). by apply Hdown.
Qed.

Lemma navigate_passed o d s a s' : answers_asked -> d_operation d = Navigate ->
  navigate outside page hands config o d s = (Ok a, s') -> went_ahead s o d a s'.
Proof.
  intros Hans Eop. unfold navigate, went_ahead, commit_gate, download_control. rewrite Eop.
  destruct (d_url d) as [url|]; [|done]. destruct (negb (may_open s o url)); [done|]. destruct (reveals _ _); [done|].
  intros Hs. step_inv. apply gate_download_passed in Ha as [Hst Hdown]. apply gate_question_passed in Ha0; [|done].
  assert (Hsame : task s0 = task s /\ irreversible_actions s0 = irreversible_actions s) by (by destruct Hst as [->|[b ->]]).
  split.
  - intros i r l [= <- <- <-]. exists s0. split_and!; [apply Hsame..|done].
  - intros c [= <-] Hd. destruct Ha0 as (? & ? & _ & _ & _ & _ & ->). by apply Hdown.
Qed.

Lemma answer_dialog_passed o d s a s' : answers_asked -> d_operation d = Dialog ->
  answer_dialog outside page hands config o d s = (Ok a, s') -> went_ahead s o d a s'.
Proof.
  intros Hans Eop. unfold answer_dialog, went_ahead, commit_gate, download_control. rewrite Eop.
  intros Hs. step_inv. apply accepts_dialog_state in Ha as ->. split; [|done]. cbn [accept_dialog].
  intros i r l Hg. destruct a0; [|by rewrite bool_decide_eq_false_2 in Hg].
  rewrite bool_decide_eq_true_2 in Hg by done. destruct (dialog o) as [di|]; [|done].
  destruct (dialog_question (task s) (Some di)) as [q|]; [|done]. injection Hg as <- <- <-.
  apply gate_question_passed in Ha0; [|done]. by exists s.
Qed.

Lemma action_went_ahead o d s a s' :
  answers_asked -> action outside page hands config o d s = (Ok a, s') -> went_ahead s o d a s'.
Proof.
  intros Hans. unfold action. destruct (d_operation d) eqn:Eop; intros Hs;
    try (by unfold went_ahead, commit_gate, download_control; rewrite Eop).
  - step_inv. eapply gate_irreversible_passed; eauto.
  - destruct (d_destination d); [|done]. step_inv. destruct (d_target d) eqn:Et; [|done]. cbn in Ha0. step_inv.
    eapply gate_irreversible_passed; eauto.
  - step_inv. eapply gate_irreversible_passed; eauto.
  - by apply answer_dialog_passed.
  - by apply navigate_passed.
Qed.

(** C1: An action that may commit - a press, a key, a drag, an address opened, a dialog accepted - goes ahead only on Jev's
    word: asked the gate's own questions about this very action on this origin, Jev judged it harmless within the
    threshold (and, in an authorized run, that it leaves nothing on the site, or that the task asks for it), or the run
    is authorized and Jev judged the task asks for it; the action is then marked as committing, its tab handed over,
    exactly in the second case. A control that downloads a file is used only once the task was judged to allow it. *)
Theorem commits_are_permitted o d s a s' :
  answers_asked -> action outside page hands config o d s = (Ok a, s') -> went_ahead s o d a s'.
Proof. apply action_went_ahead. Qed.

(** ** Passwords *)
Lemma ask_choice_offered o question criteria s picked s' :
  ask_choice outside hands config o question criteria s = (Ok picked, s') -> picked ∈ im_keys criteria.
Proof.
  unfold ask_choice, ask_choices, ask_choices_in. intros Hs. step_inv.
  destruct (read_picks a2 _ []) as [picks|] eqn:Er; [|done]. step_inv.
  cbn [read_picks] in Er. unfold read_pick in Er. cbn [fst snd] in Er.
  destruct (im_get (lit "pick") a2) as [[choice| | |]|]; try done.
  destruct (im_contains choice criteria) eqn:Ec; [|done]. injection Er as <-.
  change (choice ∈ im_keys criteria). by apply im_contains_spec.
Qed.

(** A value given by the caller's secrets for an origin, and known to the redactor once it is typed. *)
Definition from_secret (name v origin : text) (s' : RunState) : Prop :=
  exists s1 secrets sec, h_secrets hands s1 = Some secrets /\ sec ∈ available secrets /\ secret_name sec = name /\
    secret_allowed sec origin = true /\ Secrets.resolve secrets name origin = Some v /\
    redactor s' = register (redactor s1) name v (Some origin).

Lemma secret_value_spec name origin credential s v s' :
  secret_value hands name origin credential s = (Ok v, s') ->
  from_secret name v origin s' /\ text_source s' = text_source s.
Proof.
  unfold secret_value. destruct (match h_secrets hands s with Some _ => _ | None => _ end) as [v'|] eqn:Ev.
  2: { by destruct credential. }
  intros [= -> <-]. split; [|done]. destruct (h_secrets hands s) as [secrets|] eqn:Es; [|done].
  unfold resolve_secret in Ev. destruct (find _ (available secrets)) as [sec|] eqn:Ef; [|done].
  destruct (secret_allowed sec origin) eqn:Ea; [|done]. apply find_some in Ef as [Hin Hn]. apply teqb_spec in Hn.
  exists s, secrets, sec. split_and!; try done. by apply list_elem_of_In.
Qed.

Lemma stored_secret name origin credential s v s' :
  (sourced (Secret name) ;; secret_value hands name origin credential) s = (Ok v, s') ->
  from_secret name v origin s' /\ text_source s' = Some (Secret name).
Proof. intros Hs. apply bind_ok_inv in Hs as (? & s1 & Ha & Hs). injection Ha as _ <-. by apply secret_value_spec in Hs. Qed.

Lemma existing_password_spec o target secrets origin s v s' :
  existing_password outside hands config o target secrets origin s = (Ok v, s') ->
  exists name, name ∈ secrets /\ from_secret name v origin s' /\ text_source s' = Some (Secret name).
Proof.
  unfold existing_password. destruct secrets as [|only [|second rest]]; [done| |].
  - intros Hs. exists only. split; [set_solver|]. by eapply stored_secret.
  - intros Hs. apply bind_ok_inv in Hs as (name & s1 & Ha & Hs). apply ask_choice_offered in Ha.
    exists name. split; [|by eapply stored_secret]. unfold im_keys in Ha. by rewrite map_map, map_id in Ha.
Qed.

Lemma is_replacement_state o target s b s' : is_replacement outside hands config o target s = (Ok b, s') ->
  s' = s /\ forall known, sets_new_password (controls o) target = Some known -> b = known.
Proof.
  unfold is_replacement. destruct (sets_new_password (controls o) target) as [known|].
  - intros Hs. step_inv. split; [done|]. by intros ? [= <-].
  - intros Hs. apply bind_ok_inv in Hs as (role & s1 & Ha & Hs). apply ask_choice_state in Ha as ->. split; [|done].
    destruct (teqb role (lit "replacement")); [by step_inv|]. destruct (teqb role (lit "current")); by step_inv.
Qed.

(** C13: What is typed into a password field is a secret the caller stored for that field's own origin, never text of the
    task, of a page, of a recipe or of a model: it is registered with the redactor before the action is built and kept in
    a recipe by name alone, and a field the form shows to set a new password gets the replacement and no other does. *)
Theorem passwords_come_from_secrets o d target s v s' :
  is_password target = true -> field_text outside hands config o d target s = (Ok v, s') ->
  exists name, from_secret name v (target_origin s target) s' /\ text_source s' = Some (Secret name) /\
    name ∈ secret_names hands s (target_origin s target) /\
    forall known, sets_new_password (controls o) target = Some known -> (name = NEW_PASSWORD <-> known = true).
Proof.
  intros Hp Hs. unfold field_text in Hs. step_inv.
  assert (replayed_source s o d target = None) as Hr.
  { unfold replayed_source. destruct (d_replayed d), (replay s) as [r|]; try done. unfold text_for. by rewrite Hp, orb_true_r. }
  rewrite Hr, Hp in Hs. unfold sensitive_text in Hs. apply bind_ok_inv in Hs as (known & s1 & Hk & Hs).
  apply is_replacement_state in Hk as [-> Hk]. destruct known.
  - destruct (negb _) eqn:En; [done|]. apply stored_secret in Hs as [Hf Ht]. exists NEW_PASSWORD. split_and!; try done.
    + apply negb_false_iff, existsb_exists in En as (name & Hin & Hn). apply teqb_spec in Hn as <-. by apply list_elem_of_In.
    + intros known Hkn. by rewrite <- (Hk known Hkn).
  - apply existing_password_spec in Hs as (name & Hin & Hf & Ht). apply list_elem_of_filter in Hin as [Hne Hin].
    exists name. split_and!; try done. intros known Hkn. by rewrite <- (Hk known Hkn).
Qed.

(** ** Narrowing a long source *)
Lemma div_ceil_spec a b : (0 < b)%nat -> (a <= b * div_ceil a b < a + b)%nat.
Proof.
  intros Hb. unfold div_ceil. pose proof (Nat.div_mod (a + b - 1) b ltac:(lia)) as Hd.
  pose proof (Nat.mod_upper_bound (a + b - 1) b ltac:(lia)) as Hm. nia.
Qed.

Definition part_step (max : nat) (group : list Word) : nat := div_ceil (length group) (Nat.min (max - 1) VALUE_SOURCE_PARTS).

Lemma part_step_pos max group : (3 <= max)%nat -> (max < length group)%nat ->
  let k := Nat.min (max - 1) VALUE_SOURCE_PARTS in
  (2 <= k <= 4 /\ 0 < part_step max group /\ length group <= k * part_step max group < length group + k)%nat.
Proof.
  intros Hm Hl k. assert (2 <= k <= 4)%nat as Hk by (unfold k, VALUE_SOURCE_PARTS; lia).
  pose proof (div_ceil_spec (length group) k ltac:(lia)) as Hd. unfold part_step. fold k. split_and!; try lia.
Qed.

(** A part is a run of the words, shorter than all of them. *)
Definition run_of (part group : list Word) : Prop := exists a b, part = take b (drop a group).

Lemma source_part_at max group n part : source_parts max group !! n = Some part ->
  (n < div_ceil (length group) (part_step max group))%nat /\
  let from := (n * part_step max group)%nat in
  let width := Nat.min (2 * part_step max group) (length group - 1) in
  part = take (Nat.min (from + width) (length group) - from) (drop from group).
Proof.
  unfold source_parts. fold (part_step max group). rewrite list_lookup_fmap. intros Hn.
  destruct (seq 0 _ !! n) as [m|] eqn:E1; [|done]. apply lookup_seq in E1 as [-> Hlt]. injection Hn as <-. done.
Qed.

Lemma source_part_shorter max group part : (3 <= max)%nat -> (max < length group)%nat -> part ∈ source_parts max group ->
  run_of part group /\ (length part < length group)%nat.
Proof.
  intros Hm Hl Hp. apply list_elem_of_lookup in Hp as [n Hn]. apply source_part_at in Hn as [_ ->].
  split; [eexists _, _; done|]. rewrite length_take. lia.
Qed.

Lemma source_parts_few max group : (3 <= max)%nat -> (max < length group)%nat -> (length (source_parts max group) <= 4)%nat.
Proof.
  intros Hm Hl. unfold source_parts. fold (part_step max group). rewrite length_map, length_seq.
  destruct (part_step_pos max group Hm Hl) as (Hk & Hs & Hc).
  pose proof (div_ceil_spec (length group) (part_step max group) Hs) as Hd. nia.
Qed.

(** A run of fewer words than a step is whole in some part. *)
Lemma source_parts_cover max group a b : (3 <= max)%nat -> (max < length group)%nat ->
  (0 < b < part_step max group)%nat -> (a + b <= length group)%nat ->
  exists part, part ∈ source_parts max group /\ run_of (take b (drop a group)) part.
Proof.
  intros Hm Hl Hb Hab. destruct (part_step_pos max group Hm Hl) as (Hk & Hs & Hc). set (step := part_step max group) in *.
  set (n := (a / step)%nat). pose proof (Nat.div_mod a step ltac:(lia)) as Hd. fold n in Hd.
  pose proof (Nat.mod_upper_bound a step ltac:(lia)) as Hr. set (r := (a mod step)%nat) in *.
  pose proof (div_ceil_spec (length group) step Hs) as Hparts.
  assert (Hn : (n < div_ceil (length group) step)%nat) by nia.
  assert (Hnth : source_parts max group !! n =
    Some (take (Nat.min (n * step + Nat.min (2 * step) (length group - 1)) (length group) - n * step) (drop (n * step) group))).
  { unfold source_parts. fold (part_step max group). fold step. rewrite list_lookup_fmap, lookup_seq_lt by done. done. }
  eexists. split; [apply list_elem_of_lookup; by exists n|]. exists r, b.
  rewrite skipn_firstn_comm, take_take, drop_drop. f_equal.
  - assert ((length group <= 2 * step + 1)%nat -> (2 * step - 2 <= length group - 1)%nat) by nia. nia.
  - f_equal. nia.
Qed.

Lemma run_of_run part whole group : run_of part whole -> run_of whole group -> run_of part group.
Proof.
  intros (a & b & ->) (c & e & ->). exists (c + a)%nat, (Nat.min b (e - a))%nat.
  by rewrite skipn_firstn_comm, take_take, drop_drop.
Qed.

Lemma part_criteria (parts : list (list Word)) source picked :
  picked ∈ im_keys (imap (fun n part => (show_index n, Str (part_shown source part))) parts
                      ++ [(NO_VALUE, Str (lit "None of these parts states the field's value."))]) ->
  picked = NO_VALUE \/ exists n, (n < length parts)%nat /\ picked = show_index n.
Proof.
  unfold im_keys. rewrite map_app, elem_of_app. intros [Hk|Hk]; [right|left; by apply list_elem_of_singleton in Hk].
  apply list_elem_of_fmap in Hk as (kv & -> & Hk). apply list_elem_of_lookup in Hk as [n Hn].
  rewrite list_lookup_imap in Hn. destruct (parts !! n) as [part|] eqn:E1; [|done]. injection Hn as <-.
  exists n. split; [by eapply lookup_lt_Some|done].
Qed.

Lemma narrow_spec o source label max : (3 <= max)%nat -> forall fuel group s r s',
  (length group <= fuel + max)%nat -> narrow outside hands config o source label max fuel group s = (r, s') ->
  s' = s /\
  match r with
  | Ok g => (length g <= max)%nat /\ run_of g group
  | Err f => exists question criteria, ask_choice outside hands config o question criteria s = (Err f, s)
  end.
Proof.
  intros Hm. induction fuel as [|fuel IH]; intros group s r s' Hf; cbn [narrow].
  all: destruct (Nat.leb_spec (length group) max) as [Hle|Hgt];
    [intros [= <- <-]; split_and!; [done|done|exists 0%nat, (length group); by rewrite drop_0, take_ge]|].
  { lia. }
  unfold bind. destruct (ask_choice _ _ _ _ _ _ s) as [[picked|f] s1] eqn:Ea.
  2: { pose proof (ask_choice_state _ _ _ _ _ _ Ea) as ->. intros [= <- <-]. split; [done|]. by eexists _, _. }
  pose proof (ask_choice_state _ _ _ _ _ _ Ea) as ->. apply ask_choice_offered, part_criteria in Ea.
  destruct (teqb picked NO_VALUE) eqn:En.
  { intros [= <- <-]. split_and!; [done|cbn; lia|]. by exists 0%nat, 0%nat. }
  destruct Ea as [->|(n & Hn & ->)]; [by rewrite teqb_refl in En|].
  pose proof (source_parts_few max group Hm Hgt) as Hfew. unfold parse_usize, show_index.
  rewrite parse_int_show by lia. rewrite Nat2Z.id.
  destruct (lookup_lt_is_Some_2 _ _ Hn) as [part Hpart]. rewrite Hpart. cbn [from_option]. unfold id.
  destruct (source_part_shorter max group part Hm Hgt) as [Hrun Hlen]; [by eapply list_elem_of_lookup_2|].
  intros Hs. apply IH in Hs as [-> Hr]; [|lia]. split; [done|].
  destruct r as [g|f]; [|done]. destruct Hr as [Hg Hr]. split; [done|]. by eapply run_of_run.
Qed.

(** A source too long for one choice is narrowed to words one choice can offer, in however many questions it takes,
    and only a question that fails stops it: every part picked is a run of the words, shorter than what it was cut
    from, and what is left is a run of the source's words, none reordered or dropped within. No value is lost to the
    cutting: any run of fewer words than a step is whole in some part offered. *)
Theorem narrowing_ends o source label group s r s' :
  3 <= max_choice_options (h_profile hands) ->
  narrowed outside hands config o source label group s = (r, s') ->
  let max := Z.to_nat (max_choice_options (h_profile hands)) in
  s' = s /\
  match r with
  | Ok g => (length g <= max)%nat /\ run_of g group
  | Err f => exists question criteria, ask_choice outside hands config o question criteria s = (Err f, s)
  end /\
  forall whole a b, (max < length whole)%nat -> (0 < b < part_step max whole)%nat -> (a + b <= length whole)%nat ->
    exists part, part ∈ source_parts max whole /\ run_of (take b (drop a whole)) part.
Proof.
  intros Hmax. unfold narrowed. cbv zeta. rewrite (proj2 (Z.ltb_ge _ _) Hmax). intros Hs. set (max := Z.to_nat _) in *.
  assert (Hm : (3 <= max)%nat) by (unfold max; lia).
  apply narrow_spec in Hs as [-> Hr]; [|done|fold max; lia]. split_and!; [done|done|].
  intros whole a b Hw Hb Hab. by apply source_parts_cover.
Qed.
End Permission.

(** * Cases *)
#[local] Existing Instances ascii_unicode ascii_unicode_str exact_format plain_display plain_digest no_tables plain_parser.
#[local] Instance unchanged_percent : PercentEncoding := {| utf8_percent_encode _ t := t |}.

(** An outside whose Jev finds everything unlikely and picks what [pick] says, or the first option. *)
Definition picking (pick : text -> option text) : Outside unit :=
  mkOutside _ _ (fun _ => Ok tt)
    (fun _ _ questions => Ok (map (fun kq => (kq.1,
       match kq.2 with
       | QChoice q => AChoice (match pick kq.1 with Some c => c | None => default [] (head (im_keys (ch_criteria q))) end) [] f64_zero
       | _ => ANoul (dec 1 1)
       end)) questions))
    (fun _ _ => Ok (new_context [])) (fun _ _ _ => Ok (sample_decision Scroll None)) (fun _ _ => Ok None) false.
Definition unlikely : Outside unit := picking (fun _ => None).

Lemma picking_answers pick : answers_asked (picking pick).
Proof. intros s page questions answers [= <-] k Hk. unfold im_keys in *. by rewrite map_map in Hk. Qed.

Definition account_password : SecretResolver :=
  mkSecretResolver [mkSecretRef (lit "password") [lit "https://a.test"]] (fun _ _ => Some (lit "hunter2")).
Definition narrow_profile : DecisionProfile :=
  mkDecisionProfile 3 10 None 32000 64000 None None false None.
Definition with_hands (p : DecisionProfile) : Hands unit :=
  mkHands _ _ p false (fun _ => Some account_password) (fun _ _ _ _ => Ok None) false (fun _ _ _ => Ok tt)
    (fun _ => tt) (fun _ => tt) (fun _ => tt).

Definition password_field : Control :=
  (new_control (lit "9") (lit "textbox") (lit "Password") [Fill])
    <| c_input_type := Some (lit "password") |> <| c_autocomplete := Some (lit "current-password") |>
    <| c_frame_origin := Some (lit "https://a.test") |> <| c_form_id := Some (lit "f") |>.
Definition buy_button : Control := new_control (lit "5") (lit "button") (lit "Buy now") [Click].

(** Pressing a button Jev finds harmless. *)
Theorem commits_are_permitted_witness :
  exists a, fst (action unlikely sample_seam (with_hands jev) default_config (form_page buy_button) (sample_decision Click (Some buy_button)) sample_run)
              = Ok a /\
    went_ahead unlikely default_config sample_run (form_page buy_button) (sample_decision Click (Some buy_button)) a
      (snd (action unlikely sample_seam (with_hands jev) default_config (form_page buy_button) (sample_decision Click (Some buy_button)) sample_run)).
Proof.
  destruct (action unlikely sample_seam (with_hands jev) default_config (form_page buy_button) (sample_decision Click (Some buy_button)) sample_run)
    as [[a|f] s'] eqn:Ea.
  - exists a. split; [reflexivity|]. eapply commits_are_permitted; [apply picking_answers|exact Ea].
  - exfalso. assert (Hok : is_ok (fst (action unlikely sample_seam (with_hands jev) default_config (form_page buy_button)
      (sample_decision Click (Some buy_button)) sample_run)) = true) by (vm_compute; reflexivity). rewrite Ea in Hok. discriminate Hok.
Defined.

Theorem passwords_come_from_secrets_witness :
  exists v s', field_text unlikely (with_hands jev) default_config (form_page password_field)
                 (sample_decision Fill (Some password_field)) password_field sample_run = (Ok v, s') /\
    exists name, from_secret (with_hands jev) name v (lit "https://a.test") s'.
Proof.
  destruct (field_text unlikely (with_hands jev) default_config (form_page password_field)
              (sample_decision Fill (Some password_field)) password_field sample_run) as [[v|f] s'] eqn:Ea.
  - exists v, s'. split; [reflexivity|].
    destruct (passwords_come_from_secrets unlikely (with_hands jev) default_config (form_page password_field)
                (sample_decision Fill (Some password_field)) password_field sample_run v s' eq_refl Ea) as (name & Hf & _).
    exists name. exact Hf.
  - exfalso. assert (Hok : is_ok (fst (field_text unlikely (with_hands jev) default_config (form_page password_field)
      (sample_decision Fill (Some password_field)) password_field sample_run)) = true) by (vm_compute; reflexivity).
    rewrite Ea in Hok. discriminate Hok.
Defined.

(** Five words for a model that takes three options. *)
Definition five_words : list Word := words_of (lit "a b c d e") None.
Theorem narrowing_ends_witness :
  exists g, narrowed unlikely (with_hands narrow_profile) default_config (form_page buy_button) (lit "a b c d e") (lit "Code")
              five_words sample_run = (Ok g, sample_run) /\ (length g <= 3)%nat /\ run_of g five_words.
Proof.
  destruct (narrowed unlikely (with_hands narrow_profile) default_config (form_page buy_button) (lit "a b c d e") (lit "Code")
              five_words sample_run) as [r s'] eqn:Ea.
  destruct (narrowing_ends unlikely (with_hands narrow_profile) default_config (form_page buy_button) (lit "a b c d e") (lit "Code")
              five_words sample_run r s' ltac:(discriminate) Ea) as (-> & Hr & _).
  assert (Hok : is_ok (fst (narrowed unlikely (with_hands narrow_profile) default_config (form_page buy_button) (lit "a b c d e")
    (lit "Code") five_words sample_run)) = true) by (vm_compute; reflexivity).
  rewrite Ea in Hok. destruct r as [g|f]; [|discriminate Hok]. exists g. split; [reflexivity|exact Hr].
Defined.

(** Asked again, the end of a value may go past the limit the first pick kept to: a field of four characters is given
    eleven. *)
Definition code_field : Control :=
  (new_control (lit "4") (lit "textbox") (lit "Code") [Fill]) <| c_max_length := Some 4 |>.
Definition past_limit (key : text) : option text :=
  if teqb key (lit "source") then Some IN_TASK else if teqb key (lit "first") then Some (lit "1")
  else if teqb key (lit "last") then Some (lit "2") else if teqb key (lit "pick") then Some (lit "4") else Some (lit "1").
Definition code_run : RunState := new_run (lit "type a b cdefgh") [] [] false (mkRedactor [] []).
Lemma limit_is_passed :
  fst (field_text (picking past_limit) (with_hands jev) default_config (form_page code_field)
         (sample_decision Fill (Some code_field)) code_field code_run) = Ok (lit "a b cdefgh").
Proof. vm_compute. reflexivity. Qed.
