(* ===== verification/Policy.v ===== *)
(** What a step asks Jev: the request of [crates/fastbrowse-agent/src/policy.rs].

    [build_request] is one step's state and questions: the operation, the target of each operation that takes one (its group where there
    are more than one choice can offer), a drag's destination, a tab, an address, and what is asked of the page itself.  [fits]
    holds it to Jev's input limits.  Lengths are code points where the source counts them and UTF-8 bytes where it counts bytes. *)

From coqutil Require Import Datatypes.RecordSetters.
From S2P Require Import Prelude Float64 PyText Json Dump DateTime Lax Models Ledger Config Page Origins Navigation Secrets Redactor Effects Notes PageState Citations Answers Composing Decision Helpers Recipe Pyre Spans RunState Seeing Recovery Acting.

(** ** Keys *)
Definition OPERATION : text := lit "operation".
Definition DRAG_DESTINATION : text := lit "drag_destination".
Definition DRAG_DESTINATION_GROUP : text := lit "drag_destination_group".
Definition SWITCH_TAB_TARGET : text := lit "switch_tab_target".
Definition NAVIGATE_TARGET : text := lit "navigate_target".
Definition NAVIGATE_GROUP : text := lit "navigate_group".
Definition LOGIN_REQUIRED : text := lit "login_required".
Definition BOT_CHECK_KEY : text := lit "bot_check".
Definition SHOWS_ANSWER : text := lit "shows_answer".
Definition SITE_FAILURE : text := lit "site_failure".
Definition target_key (o : Operation) : text := Operation_as_str o ++ lit "_target".
Definition group_key (o : Operation) : text := Operation_as_str o ++ lit "_group".

(** ** Wording *)
Definition NEXT_ACTION_RULES : text := join nl
  [lit "Advance the user's task from the current page using one operation.";
   lit "When a subgoal is supplied, take its next action first; it describes the current obstacle.";
   lit "Use current field values and the recent history.";
   lit "Preserve authentication unless the task requires a session change.";
   lit "Fill a search query before submitting. Clicking only focuses; fill can open an editor and type.";
   lit "Do not repeat satisfied steps. Fill required fields before submitting. An action whose";
   lit "effect is " ++ [dquote] ++ lit "nothing visible changed" ++ [dquote] ++ lit " did nothing: take another way, not the same action.";
   lit "When a control offers choices or a confirmation, use its observed behaviour to determine whether entering";
   lit "a value commits it or whether selecting or confirming is needed to reach the requested state.";
   lit "If changing a form's mode changes its fields or clears their values, set the requested mode before filling";
   lit "the affected fields.";
   lit "If a form asks for extra values the task does not need, change its mode before inventing those values.";
   lit "Set the filters the task asks for that this form already offers before submitting; setting one afterwards";
   lit "submits twice. A filter the page only shows once there are results is set there, after submitting.";
   lit "Once the task's fields, mode and the filters offered here are set, submit if the form requires submission";
   lit "to apply them.";
   lit "A matching result alone does not prove a filter was set.";
   lit "Do not toggle a checkbox, switch or radio already in the requested state.";
   lit "Elements marked offscreen can be targeted directly; do not scroll just to reach them.";
   lit "page.text is what the viewport shows; page.offscreen_text is the page's text outside it.";
   lit "A read takes in the whole page, so do not scroll through a page's text to find what a read would.";
   lit "A link's href shows where it leads; use it to tell site navigation from content links. A link marked next_page";
   lit "is the one the page itself names as its next page.";
   lit "A matching link is not an opened result.";
   lit "A list the page shows in part is not read yet: while it offers more of a list the task covers, a next page or a load";
   lit "more, take it, not one record's own page.";
   lit "A wizard or multi-step form can keep one URL for every step, so browser history has no entry for the step before";
   lit "this one: when the page itself offers a Back or Previous control, prefer it over the back operation to move";
   lit "within the form."].
Definition TARGET_RULES : text := join nl
  [lit "Choose the best observed target if the next operation is the one this question names.";
   lit "Use the task, field values, nearby text and recent actions. Another question chooses the operation.";
   lit "Do not choose a field that already contains the requested value. Choose only an offered element.";
   lit "Do not toggle a checkbox, switch or radio already in the requested state.";
   lit "While the form's mode is not the one the task needs, the control that sets the mode is the target, not the";
   lit "form's submit.";
   lit "Elements marked offscreen can be targeted directly. A link's href shows where it leads, already_read marks one to a page this run";
   lit "has read, and next_page marks the one the page itself names as its next page.";
   lit "Elements carry a `context`: the card, row or section each one belongs to. When the task names one, choose";
   lit "by context; a link in one record's context opens it and shows no more of the list."].
Definition DESTINATION_RULES : text := join nl
  [lit "Another question picks the element to drag; choose the element it should be dropped onto. Prefer the drop";
   lit "target, drop zone, slot, list, folder, bucket or column the task names, not the element being dragged."].
Definition RELEVANCE_RULES : text := join nl
  [lit "Could the task's next few actions, or reading what it needs, act on or rely on the element in each question?";
   lit "Judge by its label, role, context and href. Site chrome, footers, ads, social links and unrelated navigation";
   lit "are not relevant."].
Definition GROUP : text := join nl
  [lit "Too many elements to list at once. Choose the group that contains the best target if the next";
   lit "operation is the one this question names. A later question picks the element inside the group."].
Definition operation_label (o : Operation) : text :=
  match o with
  | Navigate => lit "Open another HTTP(S) address supplied by the caller for this task."
  | Click => lit "Click an element, button, link, menu option, autocomplete suggestion or calendar day."
  | Hover => lit "Hover over an element to reveal content the page shows only under the pointer."
  | Drag => lit "Drag one element and drop it onto another, to move, reorder or file it."
  | Fill => lit "Put the value the task needs into an editable field, typing or replacing its text."
  | Blur => lit "Move keyboard focus out of the focused editable field without activating or submitting anything, so the page runs what it does when a field is left."
  | Select => lit "Select a value in an observed dropdown."
  | Enter => lit "Press Enter in a text field to submit or search for what it already contains."
  | Upload => lit "Attach one of the task's files to a file input."
  | Escape => lit "Press Escape to close a menu, popup or overlay."
  | Scroll => lit "Scroll down the page to reveal content below the viewport."
  | ScrollUp => lit "Scroll up the page to return to content above the viewport."
  | Back => lit "Go back to the previous page."
  | SwitchTab => lit "Switch to another open tab."
  | Dialog => lit "Respond to the open browser dialog."
  | Wait => lit "Wait without acting while the page changes by itself, as a clock or a live status line does."
  | Read => lit "Read this page's content, the whole page including text outside the viewport, to extract information the task needs."
  | Done => lit "The task is done: what it asks is carried out. When it asks for a written answer, notes.selected_answer gives every requested fact and value, with no unrelated text or unresolved requirement; a value present only in retained_notes is not in that answer. When composition_pending or structured_output_pending is true, the retained sources cover every requested item and the answer or structured result will be generated and checked before delivery."
  end.

Definition untrusted (rules : text) : text := UNTRUSTED ++ nl ++ rules.
Definition NEXT_ACTION : text := untrusted NEXT_ACTION_RULES.
Definition TARGET : text := untrusted TARGET_RULES.
Definition DESTINATION : text := untrusted DESTINATION_RULES.
Definition RELEVANCE : text := untrusted RELEVANCE_RULES.

(** The UTF-8 bytes of a text. *)
Definition utf8_char (c : Z) : nat := if c <? 0x80 then 1 else if c <? 0x800 then 2 else if c <? 0x10000 then 3 else 4.
Definition utf8_len (t : text) : nat := sum_list (map utf8_char t).

(** [slice::chunks] of at least one. *)
Fixpoint chunks_in {A} (fuel size : nat) (l : list A) : list (list A) :=
  match fuel with
  | O => []
  | S fuel => match l with [] => [] | _ => take size l :: chunks_in fuel size (drop size l) end
  end.
Definition chunks {A} (l : list A) (size : nat) : list (list A) := chunks_in (length l) (Nat.max size 1) l.

Record Request := mkRequest {
  rq_state : value;
  rq_images : list (text * list Z);
  rq_questions : list (text * Question);
  rq_targets : list (Operation * list Control);
  rq_groups : list (Operation * list (list Control));
  destinations : list Control;
  destination_groups : list (list Control);
  navigation_groups : list (list text);
  target_rules : text;
}.

Definition indexed_text {A} (f : A -> text) (l : list A) : list (text * value) := imap (fun i x => (show_Z (Z.of_nat i), Str (f x))) l.

Section Request.
Context `{Unicode} `{UnicodeStr} `{FloatFormat} `{Sha256} `{PercentEncoding} `{UrlParser}.

Definition choice (instructions : text) (criteria : list (text * value)) : Question :=
  QChoice (mkChoiceQuestion instructions (im_extend [] criteria)).
Definition noul_question (instructions yes no : text) : Question :=
  QNoul (mkNoulQuestion (UNTRUSTED ++ nl ++ instructions) (Some yes) (Some no)).

(** ** What each operation may target *)
Definition add_target (o : Operation) (c : Control) (indexed : list (Operation * list Control)) : list (Operation * list Control) :=
  im_insert o (default [] (im_get o indexed) ++ [c]) indexed.
Definition index_control (ctx : StepContext) (indexed : list (Operation * list Control)) (c : Control) : list (Operation * list Control) :=
  let indexed := fold_left (fun indexed o => add_target o c indexed) (base.filter (fun o => o <> Blur) (c_operations c)) indexed in
  if leavable c && negb (bool_decide ((Blur, c_id c) ∈ withheld_targets ctx)) then add_target Blur c indexed else indexed.
Definition index_controls (cs : list Control) (ctx : StepContext) : list (Operation * list Control) := fold_left (index_control ctx) cs [].

Definition ALL_OPERATIONS : list Operation :=
  [Click; Hover; Drag; Fill; Blur; Select; Enter; Escape; Scroll; ScrollUp; Back; SwitchTab; Upload; Dialog; Wait; Read; Done; Navigate].
Definition has_targets (indexed : list (Operation * list Control)) (o : Operation) : bool := bool_decide (is_Some (im_get o indexed)).
Definition may_offer (o : Observation) (indexed : list (Operation * list Control)) (ctx : StepContext) (urls : list text) (op : Operation) : bool :=
  match op with
  | Navigate => negb (is_empty urls)
  | Click | Hover | Fill | Blur | Select | Enter | Drag => has_targets indexed op
  | Upload => has_attachments ctx && has_targets indexed op
  | SwitchTab => (1 <? length (tabs o))%nat
  | Back => can_go_back o
  | Escape | Scroll | ScrollUp | Wait | Read | Done => true
  | Dialog => false
  end.
Definition offered_operations (o : Observation) (indexed : list (Operation * list Control)) (ctx : StepContext) (urls : list text) : list Operation :=
  match dialog o with
  | Some _ => [Dialog]
  | None => base.filter (fun op => op ∉ withheld_operations ctx /\ may_offer o indexed ctx urls op = true) ALL_OPERATIONS
  end.

(** ** Questions *)
Definition target_element (c : Control) (op : Operation) : list (text * value) :=
  if bool_decide (Fill ∈ c_operations c) then
    match op with
    | Click => im_insert (lit "label") (Str (lit "Open " ++ c_label c)) (element c)
    | Enter => im_insert (lit "label") (Str (lit "Press Enter in " ++ c_label c)) (element c)
    | _ => element c
    end
  else element c.
Definition with_rules (rules : value) (op : Operation) : text :=
  dumps (Object [(lit "rules", rules); (lit "operation", Str (Operation_as_str op))]).
Definition target_question (op : Operation) (candidates : list Control) (rules : text) : Question :=
  choice (with_rules (Str rules) op) (map (fun c => (c_id c, Object (target_element c op))) candidates).
Definition group_question (op : Operation) (groups : list (list Control)) (rules : text) : Question :=
  choice (with_rules (Array [Str rules; Str GROUP]) op) (indexed_text (fun g => join (lit " | ") (map c_label g)) groups).
Definition destination_question (candidates : list Control) : Question :=
  choice (with_rules (Str DESTINATION) Drag) (map (fun c => (c_id c, Object (relevance_element c))) candidates).

Definition login_question : Question :=
  noul_question (lit "Does a sign-in or verification wall block the task in state, with no credentials given in the task to pass it? Unrelated sign-in links and login-to-post boxes do not block reading public or empty lists. A prompt to sign in before replying, commenting or posting gates only writing: when page.text shows what the task asks to find, the page is readable and the prompt does not block it. If the task asks to inspect access restrictions, observing the wall advances that task without signing in. A page that refuses access outright and offers no way to sign in is not a sign-in wall. A restricted route does not make the whole task require sign-in when an observed alternative can advance it. Use the observed navigation context and available operations to judge whether the task can continue elsewhere. Going back is useful only when that earlier page offers another way to advance the task. A task that requires this account or authenticated destination still requires sign-in.") (lit "A sign-in or account verification wall blocks the task and the task gives no way through it.")
    (lit "The task can progress without signing in, or the task supplies the credentials to sign in.").
Definition answer_question : Question :=
  noul_question (lit "Does this page show a fact the task needs, to report or to finish its work, which the notes do not hold yet? A part of a larger answer counts: records of a list the task covers, even when the notes hold others like them.") (lit "The page states such a fact.") (lit "The page states none.").
Definition failure_question : Question :=
  noul_question (lit "Does this page report that the site failed to deliver what was asked, instead of showing it? An error message in place of results, a request the site says went wrong, a temporary outage, rate limit or maintenance notice, a browser error page, or a load that has not finished across steps are failures, even when the page also shows an empty result such as no matches. A placeholder served in place of the site, with none of the content the task is about and nothing to follow, is a failure too. An ordinary empty result the site reports as an answer, a form, a form rejecting a value entered in it, or a page still showing its content is not.") (lit "The page reports that the site failed or has not finished delivering the content.")
    (lit "The page shows the site's content or its ordinary answer, empty or not.").
Definition bot_question : Question :=
  noul_question (lit "Does this page ask the visitor to pass an automated-traffic check, or refuse this visitor access outright, such as Access Denied or Forbidden, without offering a way to sign in?") (lit "The page is a CAPTCHA, a browser verification, a similar bot check, or a refusal of access with no sign-in.")
    (lit "The page is a sign-in form or an ordinary page.").

(** *** Targets *)
Definition ask_target (limit size : nat) (indexed : list (Operation * list Control)) (q : list (text * Question)) (op : Operation) : list (text * Question) :=
  if negb (is_targeted op) then q
  else
    let candidates := default [] (im_get op indexed) in
    if (length candidates <=? limit)%nat then im_insert (target_key op) (target_question op candidates TARGET) q
    else im_insert (group_key op) (group_question op (chunks candidates size) TARGET) q.
Definition targets_of (limit : nat) (indexed : list (Operation * list Control)) (offered : list Operation) : list (Operation * list Control) :=
  omap (fun op => let candidates := default [] (im_get op indexed) in
                  if is_targeted op && (length candidates <=? limit)%nat then Some (op, candidates) else None) offered.
Definition groups_of (limit size : nat) (indexed : list (Operation * list Control)) (offered : list Operation) : list (Operation * list (list Control)) :=
  omap (fun op => let candidates := default [] (im_get op indexed) in
                  if is_targeted op && negb (length candidates <=? limit)%nat then Some (op, chunks candidates size) else None) offered.

Definition ask_destination (limit : nat) (drops : list Control) (groups : list (list Control)) (offered : list Operation) (q : list (text * Question))
  : list (text * Question) :=
  if bool_decide (Drag ∈ offered) then
    if (length drops <=? limit)%nat then im_insert DRAG_DESTINATION (destination_question drops) q
    else im_insert DRAG_DESTINATION_GROUP (group_question Drag groups DESTINATION) q
  else q.
Definition tab_choice (t : Tab) : text * value :=
  (tab_id t, Object [(lit "title", Str (tab_title t)); (lit "url", Str (tab_url t)); (lit "active", Bool (tab_active t))]).
Definition ask_tab (o : Observation) (offered : list Operation) (q : list (text * Question)) : list (text * Question) :=
  if bool_decide (SwitchTab ∈ offered)
  then im_insert SWITCH_TAB_TARGET (choice (with_rules (Str TARGET) SwitchTab) (map tab_choice (tabs o))) q else q.
Definition NAVIGATE_RULES : text := UNTRUSTED ++ nl ++ lit "Choose the caller-supplied address that advances what the task still needs, or this page's own address to reload it after a site failure. Read relevant evidence here before leaving. Do not revisit a source whose requested evidence is already in the notes unless more evidence is needed there. URLs used as field values are data, not browsing destinations.".
Definition address_question (instructions : text) (urls : list text) : Question := choice instructions (indexed_text id urls).
Definition ask_address (limit : nat) (urls : list text) (groups : list (list text)) (offered : list Operation) (q : list (text * Question))
  : list (text * Question) :=
  if bool_decide (Navigate ∈ offered) then
    if (limit <? length urls)%nat then im_insert NAVIGATE_GROUP (choice NAVIGATE_RULES (indexed_text (join (lit " | ")) groups)) q
    else im_insert NAVIGATE_TARGET (address_question NAVIGATE_RULES urls) q
  else q.
Definition ask_page (ctx : StepContext) (q : list (text * Question)) : list (text * Question) :=
  let q := if check_login ctx then im_insert LOGIN_REQUIRED login_question q else q in
  let q := if check_answer ctx then im_insert SHOWS_ANSWER answer_question q else q in
  let q := im_insert SITE_FAILURE failure_question q in
  if check_bot ctx then im_insert BOT_CHECK_KEY bot_question q else q.

(** ** The state *)
Definition state (o : Observation) (cs : list Control) (ctx : StepContext) : value :=
  let page :=
    [(lit "url", Str (o_url o)); (lit "title", Str (o_title o)); (lit "text", Str (viewport_text o)); (lit "offscreen_text", Str (offscreen_text o));
     (lit "response_status", match response_status o with Some n => Number (Int n) | None => Null end)]
    ++ if is_empty (media o) then [] else [(lit "media", Array (map (fun m => default Null (dump (media_serial m))) (media o)))] in
  let background := match sc_background ctx with Some b => strip b | None => [] end in
  let omitted := (length (controls o) - length cs)%nat in
  Object
    ([(lit "task", Str (sc_task ctx)); (lit "date", Str (today o)); (lit "subgoal", opt_str (subgoal ctx)); (lit "page", Object page);
      (lit "answered_in_notes", Bool (answered_in_notes ctx)); (lit "notes", Str (sc_notes ctx));
      (lit "recent_actions", Array (map history_dump (sc_history ctx)))]
     ++ (if (0 <? omitted_actions ctx)%nat then [(lit "omitted_actions", Number (Int (Z.of_nat (omitted_actions ctx))))] else [])
     ++ [(lit "elements", Array (map (fun c => Object (element c)) cs))]
     ++ (if is_empty background then [] else [(lit "background", Str background)])
     ++ some_field "problem" (Str <$> problem ctx)
     ++ (if is_empty (no_value_fields ctx) then [] else [(lit "fields_the_task_gives_no_value", Array (map Str (no_value_fields ctx)))])
     ++ (if is_empty (sc_page_facts ctx) then [] else [(lit "page_facts", Array (map Str (sc_page_facts ctx)))])
     ++ (if is_empty (sc_secrets ctx) then [] else [(lit "stored_secrets", Array (map Str (sc_secrets ctx)))])
     ++ (if (0 <? omitted)%nat then [(lit "omitted_elements", Number (Int (Z.of_nat omitted)))] else [])
     ++ some_field "dialog" ((fun d => default Null (dump_exclude_none (dialog_serial d))) <$> dialog o)
     ++ (if (1 <? length (tabs o))%nat then [(lit "tabs", Array (map (fun t => default Null (dump_exclude_none (tab_serial t))) (tabs o)))] else [])
     ++ some_field "viewport_screenshot" ((fun png => Str (screenshot_reference png)) <$> screenshot ctx)).

(** ** Questions asked ahead *)
Definition LONG_CONTEXT_BYTES : nat := 32000.
Definition Ahead : Type := Operation * text * text * Question.
Definition ahead_key (a : Ahead) : text := Operation_as_str a.1.1.1 ++ lit ":" ++ a.1.1.2 ++ lit ":" ++ a.1.2.
Definition ahead_size (a : Ahead) : nat := (utf8_len (ahead_key a) + utf8_len (question_dump a.2))%nat.
Fixpoint take_ahead (room : nat) (l : list Ahead) (q : list (text * Question)) : list (text * Question) :=
  match l with
  | [] => q
  | a :: l => if (room <? ahead_size a)%nat then q else take_ahead (room - ahead_size a) l (im_insert (ahead_key a) a.2 q)
  end.
Definition ask_ahead (cs : list Control) (ctx : StepContext) (offered : list Operation) (state : value) (q : list (text * Question)) : list (text * Question) :=
  match screenshot ctx with
  | Some _ => q
  | None =>
      let written := sum_list (map (fun kq => utf8_len kq.1 + utf8_len (question_dump kq.2))%nat q) in
      let fitting := base.filter (fun a => a.1.1.1 ∈ offered /\ a.1.1.2 ∈ map c_id cs) (sc_ahead ctx) in
      take_ahead (LONG_CONTEXT_BYTES - (utf8_len (dumps state) + written)) (sort_by ahead_size fitting) q
  end.

(** ** The request *)
Definition step_urls (o : Observation) (ctx : StepContext) : list text :=
  let urls := navigation_urls (sc_task ctx) (o_url o) (sc_start_url ctx) (sc_start_landing_url ctx)
                (is_empty (controls o) || bool_decide (is_Some (problem ctx))) in
  match reload ctx with Some url => if bool_decide (url ∈ urls) then urls else urls ++ [url] | None => urls end.
Definition group_size (config : Config) (options : nat) : nat := Nat.min (Z.to_nat (Config.group_size (Config.observation config))) options.

Definition build_request (o : Observation) (cs : list Control) (ctx : StepContext) (config : Config) (limit : nat) : Request :=
  let indexed := index_controls cs ctx in
  let urls := step_urls o ctx in
  let offered := offered_operations o indexed ctx urls in
  let size := group_size config limit in
  let drops := base.filter (fun c => c_label c <> []) cs in
  let drop_groups := if bool_decide (Drag ∈ offered) && negb (length drops <=? limit)%nat then chunks drops size else [] in
  let url_groups := if bool_decide (Navigate ∈ offered) && (limit <? length urls)%nat then chunks urls size else [] in
  let q := [(OPERATION, choice NEXT_ACTION (map (fun op => (Operation_as_str op, Str (operation_label op))) offered))] in
  let q := fold_left (ask_target limit size indexed) offered q in
  let q := ask_page ctx (ask_address limit urls url_groups offered (ask_tab o offered (ask_destination limit drops drop_groups offered q))) in
  let st := state o cs ctx in
  mkRequest st (map (fun png => (screenshot_reference png, png)) (option_list (screenshot ctx))) (ask_ahead cs ctx offered st q)
    (targets_of limit indexed offered) (groups_of limit size indexed offered) drops drop_groups url_groups TARGET.

(** ** Fitting *)
Definition written_questions (r : Request) : list text := map (fun kq => question_dump kq.2) (rq_questions r).
Definition fits (r : Request) (config : Config) : bool := len (dumps (rq_state r)) <=? input_chars (tokens config) (written_questions r).
End Request.

(** * What a request offers *)
(** An element an operation may act on: one that takes it, leaving a field being asked only of a focused one not withheld. *)
Definition can_take (ctx : StepContext) (op : Operation) (c : Control) : Prop :=
  if bool_decide (op = Blur) then leavable c = true /\ (Blur, c_id c) ∉ withheld_targets ctx else op ∈ c_operations c.

Lemma Operation_as_str_inj a b : Operation_as_str a = Operation_as_str b -> a = b.
Proof. intros E. destruct a, b; (reflexivity || (vm_compute in E; discriminate E)). Qed.

Section Offered.
Context `{Unicode} `{UnicodeStr} `{FloatFormat} `{Sha256} `{PercentEncoding} `{UrlParser}.

Lemma add_target_get op op' c indexed l : im_get op (add_target op' c indexed) = Some l ->
  im_get op indexed = Some l \/ (op = op' /\ l = default [] (im_get op indexed) ++ [c]).
Proof.
  unfold add_target. destruct (decide (op = op')) as [->|Hne]; [rewrite im_get_insert_eq|rewrite im_get_insert_ne by done]; [|auto].
  intros [= <-]. auto.
Qed.

(** The index names only controls of the page, each under an operation it can take. *)
Definition sound_index (cs : list Control) (ctx : StepContext) (indexed : list (Operation * list Control)) : Prop :=
  forall op l c, im_get op indexed = Some l -> c ∈ l -> c ∈ cs /\ can_take ctx op c.
Lemma add_target_sound cs ctx op c indexed : c ∈ cs -> can_take ctx op c -> sound_index cs ctx indexed -> sound_index cs ctx (add_target op c indexed).
Proof.
  intros Hc Ht Hi op' l x [Hg|[-> ->]]%add_target_get Hx; [by apply (Hi op' l)|].
  apply elem_of_app in Hx as [Hx| ->%list_elem_of_singleton]; [|done].
  destruct (im_get op indexed) as [l0|] eqn:E; [by apply (Hi op l0)|by apply not_elem_of_nil in Hx].
Qed.
Lemma index_control_sound cs ctx indexed c : c ∈ cs -> sound_index cs ctx indexed -> sound_index cs ctx (index_control ctx indexed c).
Proof.
  intros Hc Hi. unfold index_control.
  assert (sound_index cs ctx (fold_left (fun indexed o => add_target o c indexed) (base.filter (fun o => o <> Blur) (c_operations c)) indexed)) as Hi'.
  { assert (forall op, op ∈ base.filter (fun o => o <> Blur) (c_operations c) -> can_take ctx op c) as Hops.
    { intros op [Hne Hin]%list_elem_of_filter. unfold can_take. by rewrite bool_decide_eq_false_2. }
    revert indexed Hi. induction (base.filter _ (c_operations c)) as [|op ops IH]; intros indexed Hi; [done|].
    cbn [fold_left]. apply IH; [set_solver|]. apply add_target_sound; [done|apply Hops; set_solver|done]. }
  case_match eqn:El; [|done]. apply andb_true_iff in El as [Hl Hw]. apply add_target_sound; [done| |done].
  unfold can_take. cbn. split; [done|]. by apply negb_true_iff, bool_decide_eq_false in Hw.
Qed.
Lemma index_controls_sound cs ctx : sound_index cs ctx (index_controls cs ctx).
Proof.
  unfold index_controls. assert (forall l indexed, (forall c, c ∈ l -> c ∈ cs) -> sound_index cs ctx indexed ->
    sound_index cs ctx (fold_left (index_control ctx) l indexed)) as Hg.
  { induction l as [|c l IH]; intros indexed Hl Hi; [done|]. cbn [fold_left]. apply IH; [set_solver|]. apply index_control_sound; [set_solver|done]. }
  apply Hg; [done|]. intros op l c [=].
Qed.

(** An offered operation that takes a target has targets: looking them up never fails. *)
Lemma offered_indexed o indexed ctx urls op : op ∈ offered_operations o indexed ctx urls -> is_targeted op = true -> is_Some (im_get op indexed).
Proof.
  unfold offered_operations. destruct (dialog o); [intros ->%list_elem_of_singleton; by intros [=]|].
  rewrite list_elem_of_filter. intros [[_ Hm] _] Ht. destruct op; try done; cbn [may_offer] in Hm; unfold has_targets in Hm;
    first [by apply andb_true_iff in Hm as [_ Hm]; apply bool_decide_eq_true in Hm|by apply bool_decide_eq_true in Hm].
Qed.

Lemma chunks_elem {A} (l : list A) size g x : g ∈ chunks l size -> x ∈ g -> x ∈ l.
Proof.
  unfold chunks. generalize (length l) as fuel. revert l. intros l fuel. revert l. induction fuel as [|fuel IH]; intros l; cbn [chunks_in]; [set_solver|].
  destruct l as [|y l]; [set_solver|]. intros [->|Hg]%elem_of_cons Hx.
  - by apply subseteq_take in Hx.
  - by apply (IH _ Hg), subseteq_drop in Hx.
Qed.

(** *** The questions by their keys *)
(** The keys of the questions a decision is read from; no target, no question of the page and none asked ahead has one. *)
Definition action_keys : list text := [OPERATION; SWITCH_TAB_TARGET; NAVIGATE_TARGET].
Lemma im_insert_other (qs : list (text * Question)) k k' q : k <> k' -> im_get k (im_insert k' q qs) = im_get k qs.
Proof. apply im_get_insert_ne. Qed.

Lemma target_key_other k op : k ∈ action_keys -> is_targeted op = true -> k <> target_key op /\ k <> group_key op.
Proof.
  intros Hk Ht. split; intros ->; (apply elem_of_cons in Hk as [Hk|Hk]; [|apply elem_of_cons in Hk as [Hk|Hk%list_elem_of_singleton]]);
    destruct op; vm_compute in Hk, Ht; discriminate.
Qed.
Lemma ahead_key_other k a : k ∈ action_keys -> k <> ahead_key a.
Proof.
  intros Hk ->. assert (58 ∈ ahead_key a) as Hc by (unfold ahead_key; rewrite !elem_of_app; right; left; by left).
  assert (forallb (fun k => negb (bool_decide (58 ∈ k))) action_keys = true) as Hf by by vm_compute.
  rewrite forallb_forall in Hf. apply list_elem_of_In, Hf in Hk. by rewrite bool_decide_eq_true_2 in Hk.
Qed.
Lemma ask_targets_other k limit size indexed ops : k ∈ action_keys -> forall q,
  im_get k (fold_left (ask_target limit size indexed) ops q) = im_get k q.
Proof.
  intros Hk. induction ops as [|op ops IH]; intros q; [done|]. cbn [fold_left]. rewrite IH. unfold ask_target.
  destruct (is_targeted op) eqn:Et; [|done]. destruct (target_key_other k op Hk Et). cbn [negb]. case_match; by apply im_insert_other.
Qed.
(** The other questions of a request have keys of their own. *)
Definition page_keys : list text := [LOGIN_REQUIRED; SHOWS_ANSWER; SITE_FAILURE; BOT_CHECK_KEY; DRAG_DESTINATION; DRAG_DESTINATION_GROUP; NAVIGATE_GROUP].
Lemma page_key_other k k' : k ∈ action_keys -> k' ∈ page_keys -> k <> k'.
Proof.
  intros Hk Hk' ->. assert (forallb (fun k => negb (bool_decide (k ∈ action_keys))) page_keys = true) as Hf by by vm_compute.
  rewrite forallb_forall in Hf. apply list_elem_of_In, Hf in Hk'. by rewrite bool_decide_eq_true_2 in Hk'.
Qed.
Ltac other_page_key := rewrite ?im_insert_other by (apply page_key_other; [done|unfold page_keys; set_solver]); try done.
Lemma ask_page_other k ctx q : k ∈ action_keys -> im_get k (ask_page ctx q) = im_get k q.
Proof. intros Hk. unfold ask_page. repeat case_match; other_page_key. Qed.
Lemma ask_ahead_other k cs ctx offered st q : k ∈ action_keys -> im_get k (ask_ahead cs ctx offered st q) = im_get k q.
Proof.
  intros Hk. unfold ask_ahead. case_match; [done|]. generalize (LONG_CONTEXT_BYTES - (utf8_len (dumps st) + sum_list (map (fun kq : text * Question => utf8_len kq.1 + utf8_len (question_dump kq.2)) q)))%nat.
  generalize (sort_by ahead_size (base.filter (fun a => a.1.1.1 ∈ offered /\ a.1.1.2 ∈ map c_id cs) (sc_ahead ctx))) as l.
  intros l. revert q. induction l as [|a l IH]; intros q room; cbn [take_ahead]; [done|]. case_match; [done|].
  rewrite IH. apply im_insert_other, ahead_key_other, Hk.
Qed.
Lemma ask_destination_other k limit drops groups offered q : k ∈ action_keys -> im_get k (ask_destination limit drops groups offered q) = im_get k q.
Proof. intros Hk. unfold ask_destination. repeat case_match; other_page_key. Qed.
Lemma action_keys_differ : OPERATION <> SWITCH_TAB_TARGET /\ OPERATION <> NAVIGATE_TARGET /\ SWITCH_TAB_TARGET <> NAVIGATE_TARGET.
Proof. split_and!; by vm_compute. Qed.
Lemma ask_tab_other k o offered q : k <> SWITCH_TAB_TARGET -> im_get k (ask_tab o offered q) = im_get k q.
Proof. intros Hk. unfold ask_tab. case_match; by rewrite ?im_insert_other. Qed.
Lemma ask_address_other k limit urls groups offered q : k ∈ action_keys -> k <> NAVIGATE_TARGET ->
  im_get k (ask_address limit urls groups offered q) = im_get k q.
Proof. intros Hk Hne. unfold ask_address. repeat case_match; rewrite ?im_insert_other by done; other_page_key. Qed.

(** What each of the three questions asks. *)
Section Built.
Context (o : Observation) (cs : list Control) (ctx : StepContext) (config : Config) (limit : nat).
Notation r := (build_request o cs ctx config limit).
Notation offered := (offered_operations o (index_controls cs ctx) ctx (step_urls o ctx)).

Lemma built_operation : im_get OPERATION (rq_questions r)
  = Some (choice NEXT_ACTION (map (fun op => (Operation_as_str op, Str (operation_label op))) offered)).
Proof.
  destruct action_keys_differ as (Hs & Hn & _). assert (OPERATION ∈ action_keys) as Hk by by left. cbn [build_request rq_questions].
  rewrite ask_ahead_other, ask_page_other, ask_address_other, ask_tab_other, ask_destination_other, ask_targets_other by done. done.
Qed.
Lemma built_tab : SwitchTab ∈ offered -> im_get SWITCH_TAB_TARGET (rq_questions r)
  = Some (choice (with_rules (Str TARGET) SwitchTab) (map tab_choice (tabs o))).
Proof.
  intros Hin. destruct action_keys_differ as (_ & _ & Hn). assert (SWITCH_TAB_TARGET ∈ action_keys) as Hk by by right; left.
  cbn [build_request rq_questions]. rewrite ask_ahead_other, ask_page_other, ask_address_other by done.
  unfold ask_tab. rewrite bool_decide_eq_true_2 by done. apply im_get_insert_eq.
Qed.
Lemma built_address : Navigate ∈ offered -> navigation_groups r = [] -> im_get NAVIGATE_TARGET (rq_questions r)
  = Some (address_question NAVIGATE_RULES (step_urls o ctx)).
Proof.
  intros Hin. assert (NAVIGATE_TARGET ∈ action_keys) as Hk by by right; right; left.
  cbn [build_request rq_questions navigation_groups]. rewrite ask_ahead_other, ask_page_other by done.
  unfold ask_address. rewrite bool_decide_eq_true_2 by done. cbn [andb]. case_match eqn:El; [|intros _; apply im_get_insert_eq].
  destruct (step_urls o ctx) as [|u us]; [done|]. intros [=].
Qed.

(** What can be picked, of what was indexed. *)
Lemma built_targets op l : im_get op (rq_targets r) = Some l -> is_targeted op = true /\ forall c, c ∈ l -> c ∈ cs /\ can_take ctx op c.
Proof.
  cbn [build_request rq_targets]. intros Hg%im_get_elem. unfold targets_of in Hg. apply list_elem_of_omap in Hg as (op' & _ & Hg).
  case_match eqn:Et; [|done]. injection Hg as <- <-. apply andb_true_iff in Et as [Et _]. split; [done|].
  intros c Hc. destruct (im_get op' (index_controls cs ctx)) as [l|] eqn:E; [|by apply not_elem_of_nil in Hc]. by apply (index_controls_sound _ _ _ _ _ E).
Qed.
Lemma built_groups op gs : im_get op (rq_groups r) = Some gs ->
  is_targeted op = true /\ forall g c, g ∈ gs -> c ∈ g -> c ∈ cs /\ can_take ctx op c.
Proof.
  cbn [build_request rq_groups]. intros Hg%im_get_elem. unfold groups_of in Hg. apply list_elem_of_omap in Hg as (op' & _ & Hg).
  case_match eqn:Et; [|done]. injection Hg as <- <-. apply andb_true_iff in Et as [Et _]. split; [done|].
  intros g c Hgs Hc. pose proof (chunks_elem _ _ _ _ Hgs Hc) as Hc'.
  destruct (im_get op' (index_controls cs ctx)) as [l|] eqn:E; [|by apply not_elem_of_nil in Hc']. by apply (index_controls_sound _ _ _ _ _ E).
Qed.
(** An offered operation that takes a target has its targets, or groups of them. *)
Lemma built_targeted op : op ∈ offered -> is_targeted op = true -> is_Some (im_get op (rq_targets r)) \/ is_Some (im_get op (rq_groups r)).
Proof.
  intros Hin Ht. cbn [build_request rq_targets rq_groups]. destruct (length (default [] (im_get op (index_controls cs ctx))) <=? limit)%nat eqn:El.
  - left. apply im_get_some_keys. unfold im_keys, targets_of. apply list_elem_of_fmap. eexists (op, _). split; [done|].
    apply list_elem_of_omap. exists op. rewrite Ht, El. done.
  - right. apply im_get_some_keys. unfold im_keys, groups_of. apply list_elem_of_fmap. eexists (op, _). split; [done|].
    apply list_elem_of_omap. exists op. rewrite Ht, El. done.
Qed.
Lemma built_destinations c : c ∈ destinations r -> c ∈ cs /\ c_label c <> [].
Proof. cbn [build_request destinations]. rewrite list_elem_of_filter. tauto. Qed.
Lemma built_destination_groups g c : g ∈ destination_groups r -> c ∈ g -> c ∈ cs /\ c_label c <> [].
Proof.
  cbn [build_request destination_groups]. case_match; [|intros []%not_elem_of_nil]. intros Hg Hc. pose proof (chunks_elem _ _ _ _ Hg Hc) as Hc'.
  apply list_elem_of_filter in Hc'. tauto.
Qed.
Lemma built_navigation_groups g url : g ∈ navigation_groups r -> url ∈ g -> url ∈ step_urls o ctx.
Proof. cbn [build_request navigation_groups]. case_match; [|intros []%not_elem_of_nil]. apply chunks_elem. Qed.

(** No choice is asked of more than Jev's limit of options, where no operation has more groups than that. *)
Lemma built_group_size op gs g : im_get op (rq_groups r) = Some gs -> g ∈ gs -> (length g <= Nat.max (group_size config limit) 1)%nat.
Proof.
  cbn [build_request rq_groups]. intros Hg%im_get_elem. unfold groups_of in Hg. apply list_elem_of_omap in Hg as (op' & _ & Hg).
  case_match; [|done]. injection Hg as <- <-. unfold chunks. generalize (default [] (im_get op' (index_controls cs ctx))) as l. intros l.
  generalize (length l) as fuel. intros fuel. revert l. induction fuel as [|fuel IH]; intros l; cbn [chunks_in]; [intros []%not_elem_of_nil|].
  destruct l as [|y l]; [intros []%not_elem_of_nil|]. intros [->|Hg]%elem_of_cons; [rewrite length_take; lia|by apply (IH _ Hg)].
Qed.
End Built.
End Offered.

(** *** How much is asked *)
Section Bounded.
Context `{Unicode} `{UnicodeStr} `{FloatFormat} `{Sha256} `{PercentEncoding} `{UrlParser}.

(** Questions with keys of their own, at most [n] of them. *)
Definition asks_at_most (n : nat) (qs : list (text * Question)) : Prop := NoDup (im_keys qs) /\ (length qs <= n)%nat.
Lemma asks_insert n qs k q : asks_at_most n qs -> asks_at_most (S n) (im_insert k q qs).
Proof. intros [Hn Hl]. split; [by apply im_insert_nodup|]. pose proof (im_insert_length k q qs). lia. Qed.
Lemma asks_more n n' qs : (n <= n')%nat -> asks_at_most n qs -> asks_at_most n' qs.
Proof. intros Hle [Hn Hl]. split; [done|lia]. Qed.
Ltac asks := first [apply asks_insert; assumption | by eapply asks_more; [|eassumption]; lia].

Lemma asks_maybe n qs (b : bool) k q : asks_at_most n qs -> asks_at_most (S n) (if b then im_insert k q qs else qs).
Proof. intros Hq. destruct b; asks. Qed.

Lemma ask_targets_bounded limit size indexed ops : forall n qs, asks_at_most n qs ->
  asks_at_most (length ops + n) (fold_left (ask_target limit size indexed) ops qs).
Proof.
  induction ops as [|op ops IH]; intros n qs Hq; [done|]. cbn [fold_left length]. replace (S (length ops) + n)%nat with (length ops + S n)%nat by lia.
  apply IH. unfold ask_target. repeat case_match; asks.
Qed.
Lemma ask_destination_bounded n limit drops groups offered qs : asks_at_most n qs -> asks_at_most (S n) (ask_destination limit drops groups offered qs).
Proof. intros Hq. unfold ask_destination. repeat case_match; asks. Qed.
Lemma ask_tab_bounded n o offered qs : asks_at_most n qs -> asks_at_most (S n) (ask_tab o offered qs).
Proof. intros Hq. unfold ask_tab. repeat case_match; asks. Qed.
Lemma ask_address_bounded n limit urls groups offered qs : asks_at_most n qs -> asks_at_most (S n) (ask_address limit urls groups offered qs).
Proof. intros Hq. unfold ask_address. repeat case_match; asks. Qed.
Lemma ask_page_bounded n ctx qs : asks_at_most n qs -> asks_at_most (4 + n) (ask_page ctx qs).
Proof. intros Hq. unfold ask_page. cbv zeta. by apply asks_maybe, asks_insert, asks_maybe, asks_maybe. Qed.
Lemma utf8_len_app a b : utf8_len (a ++ b) = (utf8_len a + utf8_len b)%nat.
Proof. unfold utf8_len. induction a as [|c a IH]; [done|]. cbn in *. rewrite IH. lia. Qed.
(** A question asked ahead takes its own room. *)
Lemma ahead_takes_room a : (0 < ahead_size a)%nat.
Proof.
  unfold ahead_size, ahead_key. rewrite !utf8_len_app. assert (utf8_len (lit ":") = 1%nat) as -> by done. lia.
Qed.
Lemma take_ahead_bounded l : forall room n qs, asks_at_most n qs -> asks_at_most (room + n) (take_ahead room l qs).
Proof.
  induction l as [|a l IH]; intros room n qs Hq; cbn [take_ahead]; [asks|]. destruct (Nat.ltb_spec room (ahead_size a)); [asks|].
  pose proof (ahead_takes_room a). eapply asks_more; [|apply IH, asks_insert, Hq]. lia.
Qed.
Lemma ask_ahead_bounded n cs ctx offered st qs : asks_at_most n qs -> asks_at_most (LONG_CONTEXT_BYTES + n) (ask_ahead cs ctx offered st qs).
Proof.
  intros Hq. unfold ask_ahead. case_match; [eapply asks_more; [|exact Hq]; lia|]. eapply asks_more; [|apply take_ahead_bounded, Hq].
  apply Nat.add_le_mono_r, Nat.le_sub_l.
Qed.
Lemma offered_operations_bounded o indexed ctx urls : (length (offered_operations o indexed ctx urls) <= 18)%nat.
Proof. unfold offered_operations. case_match; [cbn; lia|]. by etrans; [apply length_filter|]. Qed.

Lemma built_asks o cs ctx config limit : asks_at_most (26 + LONG_CONTEXT_BYTES) (rq_questions (build_request o cs ctx config limit)).
Proof.
  cbn [build_request rq_questions]. pose proof (offered_operations_bounded o (index_controls cs ctx) ctx (step_urls o ctx)) as Hl.
  set (offered := offered_operations _ _ _ _) in *. eapply asks_more; [|apply ask_ahead_bounded, ask_page_bounded, ask_address_bounded, ask_tab_bounded,
    ask_destination_bounded, ask_targets_bounded]; [|split; [apply NoDup_singleton|reflexivity]]. cbn [length]. lia.
Qed.
End Bounded.
