(* ===== verification/Driving.v ===== *)
(** One step of a run: [crates/fastbrowse-agent/src/agent/driving.rs], with the read of [reading.rs] and
    the covered click of [seeing.rs].

    [step] takes the decided action: it builds it behind the gates (Acting.v) while the page is watched
    for a redraw, hands it to the page, retries it on the redrawn control or where it is seen,
    and judges whether it moved the run on (Recovery.v).  [Driver] is what it asks besides: reading
    a capture, finding a control on a screenshot, how a fact is shown, the clock, and when the watch
    on the page reports.  A dropped future is one whose next request is never answered: [interrupted] is the
    outside in which that is an error of its own.  Trace events are left out. *)

From stdpp Require Import gmap.
From coqutil Require Import Datatypes.RecordSetters.
From S2P Require Import Prelude Float64 PyText Json DateTime Lax Models Config Page Origins Navigation Secrets Redactor Effects Notes PageState Decision Helpers Recipe Pyre Spans RunState Seeing Recovery Acting.

Import TriangleBracketNotations.
Open Scope step_scope.

Record Driver `{TR : TableReader} (E : Type) := mkDriver {
  v_read_page : RunState -> Capture -> bool -> result (list Fact * bool) (Flow E);
  v_locate : RunState -> value -> list (text * Question) -> list Z -> result (Evaluation Answer) (DecisionError Answer);
  v_record : RunState -> CostLine -> result unit (Flow E);
  v_decision_error : DecisionError Answer -> E;
  v_public_fact : RunState -> Fact -> StepFact;
  v_elapsed : RunState -> Z;
  v_reported : RunState -> bool;
}.
Arguments v_read_page {TR E} _ _ _ _.
Arguments v_locate {TR E} _ _ _ _ _.
Arguments v_record {TR E} _ _ _.
Arguments v_decision_error {TR E} _ _.
Arguments v_public_fact {TR E} _ _ _.
Arguments v_elapsed {TR E} _ _.
Arguments v_reported {TR E} _ _.

Definition REDRAW_WATCH_SECONDS : f64 := f64_of_Z 10.

(** ** Work dropped at a request *)
(** The error [None] is the drop itself. *)
Section Interrupted.
Context `{TR : TableReader} {E : Type}.

Definition raised (f : Flow E) : Flow (option E) :=
  match f with
  | FlowStop s => FlowStop s | FlowUnsure u => FlowUnsure u | FlowAgent e => FlowAgent (Some e) | FlowBrowser e => FlowBrowser e
  end.
Definition surfaced (f : Flow (option E)) : option (Flow E) :=
  match f with
  | FlowStop s => Some (FlowStop s) | FlowUnsure u => Some (FlowUnsure u)
  | FlowAgent e => FlowAgent <$> e | FlowBrowser e => Some (FlowBrowser e)
  end.
Definition raise {A} (r : result A (Flow E)) : result A (Flow (option E)) :=
  match r with Ok a => Ok a | Err f => Err (raised f) end.

(** What is asked from the moment [reported] holds is never answered. *)
Definition unless {A} (reported : bool) (r : result A (Flow E)) : result A (Flow (option E)) :=
  if reported then Err (FlowAgent None) else raise r.

Definition interrupted (reported : RunState -> bool) (outside : Outside E) : Outside (option E) :=
  mkOutside _ _ (fun s => unless (reported s) (o_reserve outside s))
    (fun s shown questions => unless (reported s) (o_answer outside s shown questions))
    (fun s o => raise (o_context outside s o)) (fun s o ctx => unless (reported s) (o_decide outside s o ctx))
    (fun s png => unless (reported s) (o_read_image outside s png)) (o_images outside).
Definition interrupted_hands (reported : RunState -> bool) (hands : Hands E) : Hands (option E) :=
  mkHands _ _ (h_profile hands) (h_over_http hands) (h_secrets hands)
    (fun s t inputs label => unless (reported s) (h_write_value hands s t inputs label)) (h_events hands)
    (fun s step shown => unless (reported s) (h_report hands s step shown)) (fun m => Some (h_failed hands m))
    (fun m => Some (h_invalid hands m)) (fun e => Some (h_page_state hands e)).
End Interrupted.

(** ** Sources read ([helpers.rs]) *)
Section Sources.
Context `{FloatFormat} `{UnicodeStr} `{Sha256} `{TR : TableReader}.

Definition source_key (n : Notes) (e : Evidence) : text * option text * text :=
  (e_url e, e_frame_id e,
   dumps (Object [(lit "url", Str (e_url e)); (lit "frame_id", opt_str (e_frame_id e)); (lit "quote", Str (quote e));
                  (lit "source_id", Str (e_source_id e)); (lit "heading_path", Array (map Str (e_heading_path e)));
                  (lit "page_title", opt_str (page_title <$> captured_page n e))])).
Definition read_sources (n : Notes) : list (text * option text * text) :=
  map (fun ke => source_key n ke.2) (evidence_by_id n).
End Sources.

(** ** A step *)
Section Driving.
Context `{Unicode} `{UnicodeStr} `{FloatFormat} `{F64Display} `{Sha256} `{PercentEncoding} `{UrlParser} `{UrlFragment}
        `{ValueText} `{TR : TableReader}.
Context {E : Type} (outside : Outside E) (page : PageSeam) (hands : Hands E) (driver : Driver E) (config : Config).

(** *** Reading ([reading.rs]) *)
(** An empty page may still be rendering: only new content warrants a read. *)
Definition has_text (c : Capture) : bool := negb (is_empty (strip (cap_text c))).
Definition filled_capture (o : Observation) (c : Capture) : Step E (option Capture) :=
  if has_text c then ret (Some c)
  else
    let! moved := outwait page o in
    if negb moved then ret None
    else let! c := capture page in ret (if has_text c then Some c else None).

(** Whether what was read still needs composing: picks that differ, or a page kept to compose from. *)
Definition composes (r : Reading) (c : Capture) (read : list Fact) (asked : bool) : bool :=
  let noted := map snd (facts (notes r)) in
  let differs :=
    match find Notes.answers read with
    | Some new => existsb (fun f => Notes.answers f && negb (teqb (f_text f) (f_text new))) noted
    | None => false
    end in
  let elsewhere :=
    RunState.compose r
    && existsb (fun f => negb (Notes.answers f)
         && match evidence f with Some e => negb (teqb (address (e_url e)) (address (cap_url c))) | None => false end) noted in
  asked || differs || elsewhere.
Definition take_read (c : Capture) (read : list Fact) (asked : bool) (r : Reading) : Reading :=
  let r := if is_empty read then r else r <| RunState.compose := composes r c read asked |> in
  record_read r c read asked.

Definition gathered (s : RunState) : RunState :=
  s <| reading -> evidence_reads ::= S |> <| stall -> unchanged := 0 |> <| stall -> recoveries := 0 |>.

Definition read (c : Capture) (o : Observation) (shows : bool) : Step E bool := fun s =>
  if page_failed (site s) then (Ok false, s)
  else
    (modify (fun s => s <| reading ::= fun r => mark_read r o |>) ;;
     let! found := filled_capture o c in
     match found with
     | None => ret false
     | Some c =>
         let! known := get (fun s => read_sources (notes (reading s))) in
         let! got := lift (fun s => v_read_page driver s c shows) in
         modify (fun s => s <| reading ::= take_read c got.1 got.2 |>) ;;
         let! again := get (fun s => bool_decide (cap_url c ∈ fetched (reading s))) in
         modify (fun s => s <| reading -> fetched ::= fun f => f ∖ {[cap_url c]} |>) ;;
         let! progressed := get (fun s =>
           negb again && existsb (fun key => bool_decide (key ∉ known)) (read_sources (notes (reading s)))) in
         (if progressed then modify gathered else ret tt) ;;
         ret progressed
     end) s.

(** *** A covered click ([seeing.rs]) *)
Definition SHOWN : text :=
  lit "Is the control described in `control` shown in `viewport_screenshot` with nothing drawn over it, such as a dialog, banner or menu, so that a click on it would press that control?".
Definition WHERE : text := lit "The control described in `control`, in `viewport_screenshot`.".
Definition seen_questions : list (text * Question) :=
  [(lit "shown", QNoul (mkNoulQuestion (UNTRUSTED ++ nl ++ SHOWN) (Some (lit "The control is visible and nothing covers it."))
                          (Some (lit "It is hidden, covered or absent."))));
   (lit "where", QBox (UNTRUSTED ++ nl ++ WHERE))].
Definition seen_state (s : RunState) (target : Control) (reference : text) : value :=
  Object [(lit "task", Str (task s)); (lit "control", Object (element target)); (lit "viewport_screenshot", Str reference)].

(** Where Jev finds the control, when both its answers reach even odds. *)
Definition found_at (answers : list (text * Answer)) : option (f64 * f64) :=
  match im_get (lit "shown") answers, im_get (lit "where") answers with
  | Some (ANoul p), Some (ABox edges confidence) =>
      if f64_lt p EVEN_ODDS || match confidence with Some c => f64_lt c EVEN_ODDS | None => false end
      then None else Some (centre edges)
  | _, _ => None
  end.

(** The click at a point of the screenshot, while the page still shows it. *)
Definition click_at (o : Observation) (target : Control) (png : list Z) (x y : f64) : Step E (option ActResult) :=
  let! moved := call_or_stop Checked (fun s => p_document_changed page s o) in
  if moved then ret None
  else
    let! redrawn := call_or_stop Watched (fun s => p_redrawn page s o f64_zero (Some (c_id target))) in
    if redrawn then ret None
    else
      let! current := viewport page (o_images outside) in
      if negb (bool_decide (current = Some png)) then ret None
      else let! r := call_or_stop (ClickedAt x y) (fun s => p_click_viewport page s x y) in ret (Some r).

Definition locate (target : Control) (png : list Z) : Step E (option (f64 * f64)) :=
  let! _ := lift (o_reserve outside) in
  let! located := get (fun s => v_locate driver s (seen_state s target (screenshot_reference png)) seen_questions png) in
  match located with
  | Err (Budget e) => fails (FlowAgent (v_decision_error driver (Budget e)))
  | Err _ => ret None
  | Ok e => lift (fun s => v_record driver s (ev_cost e)) ;; ret (found_at (Decision.answers e))
  end.

Definition click_where_seen (o : Observation) (target : Control) : Step E (option ActResult) :=
  let! shown := viewport page (o_images outside) in
  match shown with
  | None => ret None
  | Some png =>
      let! found := locate target png in
      match found with Some (x, y) => click_at o target png x y | None => ret None end
  end.

(** *** The redrawn twin *)
Definition act (a : Action) (on : Observation) : Step E (result ActResult BrowserError) :=
  call (Acted a on) (fun s => p_act page s a on).

Definition act_on_twin (a : Action) (o : Observation) (target : Control) : Step E (option ActResult) :=
  if bool_decide (operation a = Drag) || bool_decide (operation a = Blur) then ret None
  else
    let! fresh := observe page in
    match retargeted a o fresh target with
    | None => ret None
    | Some a =>
        let! raw := raw_or fresh in
        let! r := act a raw in
        match r with Ok r => ret (Some r) | Err e => fails (FlowBrowser e) end
    end.

(** *** Building the action under the watch ([unless_redrawn]) *)
(** The action, or none when the page redrew under the gates. *)
Definition watched_action (o : Observation) (d : Decision) : Step E (option Action) := fun s =>
  let build : Step E (option Action) := let! a := action outside page hands config o d in ret (Some a) in
  if redecided s then build s
  else
    (let! raw := raw_or o in
     let! watch := call Watched (fun s => p_redrawn page s raw REDRAW_WATCH_SECONDS (c_id <$> d_target d)) in
     match watch with
     | Ok false => build
     | _ =>
         fun s =>
           match action (interrupted (v_reported driver) outside) page (interrupted_hands (v_reported driver) hands) config o d s with
           | (Ok a, s) => (Ok (Some a), s)
           | (Err f, s) =>
               match surfaced f, watch with
               | Some f, _ => (Err f, s)
               | None, Err e => (Err (FlowBrowser e), s)
               | None, Ok _ => (Ok None, s)
               end
           end
     end) s.

(** *** After the page was acted on *)
(** What a step did, as its record and the stall rule read it. *)
Record Taken := mkTaken {
  t_act : ActResult; t_changed : bool; t_progressed : option bool; t_typed : option text; t_effect : option text;
  t_setting : bool; t_frame : option (list Z);
}.

Definition executed (r : ActResult) : bool := bool_decide (outcome r = Executed).

Definition recipe_step (d : Decision) (raw : Observation) (a : Action) (source : option RecipeText) (reveals : text -> bool)
  : option RecipeStep :=
  let target :=
    match d_target d with
    | Some t => match find (fun c => teqb (c_id c) (c_id t)) (controls raw) with Some raw => Some raw | None => Some t end
    | None => None
    end in
  step_of reveals (o_url raw) (d <| d_target := target |>) a source.

(** The replay and the recipe the step leaves. *)
Definition note_replay (o raw : Observation) (d : Decision) (a : Action) (done : bool) (s : RunState) : RunState :=
  let s := s <| replay ::= fmap (fun r => if d_replayed d then settled r done else if done then followed_step r (o_url o) d else r) |> in
  let source := text_source s in
  let s := s <| text_source := None |> in
  if done && Recipe.recorded (d_operation d) then
    match recipe_step d raw a source (reveals (redactor s)) with
    | Some step => s <| recipe_log ::= fun l => l ++ [step] |>
    | None => s
    end
  else s.

(** A navigation the browser could not complete is the site's failure. *)
Definition note_navigation (a : Action) (r : ActResult) (s : RunState) : RunState :=
  if bool_decide (operation a = Navigate) && bool_decide (outcome r = Failed) then
    match a_url a, detail r with
    | Some url, Some error =>
        let since := match site_failure (site s) with
                     | Some f => if teqb (sf_url f) url then since f else step_count s
                     | None => step_count s
                     end in
        s <| site -> site_failure := Some (mkSiteFailure url (NavigationFailed (redact (redactor s) error)) since) |>
    | _, _ => s
    end
  else s.

(** What is kept of a value the action wrote: a secret only as the word. *)
Definition typed_text (s : RunState) (a : Action) (done : bool) : option text :=
  if done then (fun t => if secret a then lit "<secret>" else mask (redactor s) t) <$> a_text a else None.

Definition stays (o : Operation) : bool :=
  bool_decide (o = Scroll) || bool_decide (o = ScrollUp) || bool_decide (o = SwitchTab).

Definition written_here (s : RunState) (o : Observation) : Written := default nothing_written (written s !! address (o_url o)).
Definition note_written (o : Observation) (d : Decision) (a : Action) (done : bool) (s : RunState) : RunState :=
  let w := written_here s o in
  s <| written ::= <[address (o_url o) := if done then remember_edit d a w else w]> |>.

(** Whether the step moved the run on, where it can say so itself. *)
Definition judged (d : Decision) (edit : option bool) (done changed : bool) : option bool :=
  if negb done then Some false
  else match edit with
       | Some edited => Some edited
       | None => if bool_decide (d_operation d = Blur) then None else if changed then None else Some false
       end.

(** What Jev is told of an edit that set nothing new. *)
Definition edit_hint (d : Decision) (a : Action) : text :=
  let named := default (lit "None") (decision_label d) in
  match match d_target d with Some t => c_value t | None => None end with
  | Some shown =>
      if bool_decide (Some shown = held_value a)
      then named ++ lit " already holds that value: submit the form, or read the page, instead of typing it again."
      else named ++ lit " was given that value before, and the page shows " ++ repr shown ++ lit " there instead."
  | None => named ++ lit " already holds that value: submit the form, or read the page, instead of typing it again."
  end.
Definition note_hint (d : Decision) (a : Action) (edit : option bool) (done : bool) (s : RunState) : RunState :=
  if bool_decide (edit = Some false) && done then s <| stall -> hint := Some (redact (redactor s) (edit_hint d a)) |> else s.

(** The address the action asked for. *)
Definition asked_address (o : Observation) (d : Decision) (a : Action) (done : bool) : option text :=
  let asked := match operation a with
               | Click => match d_target d with Some t => c_href t | None => None end
               | Navigate => d_url d
               | _ => None
               end in
  match asked, parse_url (o_url o) with
  | Some href, Some here => if done then Origins.as_str <$> join_url here href else None
  | _, _ => None
  end.

Definition note_acted (o raw : Observation) (d : Decision) (a : Action) (r : ActResult) (edit : option bool) (s : RunState)
  : RunState :=
  let done := executed r in
  let s := note_navigation a r (note_replay o raw d a done s) in
  let s := s <| reading -> RunState.changed_page :=
                 (if done && page_changed r && negb (stays (d_operation d)) then Some (read_key o) else None) |> in
  let s := note_hint d a edit done (note_written o d a done s) in
  s <| acted_from := Some o |> <| reading -> followed := asked_address o d a done |>.

(** *** A page that hung *)
Definition REOPENED : text := lit "The page stopped answering and was reopened.".

Definition hung_step (s : RunState) (o : Observation) (d : Decision) (url : text) : StepResult :=
  mkStepResult (step_count s) (d_operation d) (decider d) Failed url (decision_label d) (Some (decision_confidence d))
    (Some REOPENED) [] (Some (negb (teqb url (o_url o)))) (v_elapsed driver s) [].

Definition reopen_hung_page (o : Observation) (d : Decision) (shown : option (list Z)) : Step E unit :=
  modify (fun s => s <| site -> hung_page_reopened := true |>
                     <| replay ::= fmap (fun r => if d_replayed d then settled r false else r) |>) ;;
  let! active := call AskedAddress (p_active_url page) in
  let url := match active with Ok (Some url) => url | _ => o_url o end in
  modify (fun s => s <| acted_from := None |> <| reading -> followed := None |>
                     <| RunState.history ::= fun h =>
                          h ++ [(new_entry (Some (d_operation d)) (decision_label d) Failed false) <| h_effect := Some REOPENED |>] |>) ;;
  let! step := get (fun s => hung_step s o d url) in
  record_step page hands config step false shown ;;
  navigate_to page url.

(** A page that stopped answering is reopened where that cannot repeat a commit, and ends the run elsewhere. *)
Definition or_reopen {A} (o : Observation) (d : Decision) (a : Action) (shown : option (list Z)) (e : Flow E)
  : Step E (option A) := fun s =>
  match e with
  | FlowBrowser (PageUnresponsive _) =>
      if may_reopen s d a then (reopen_hung_page o d shown ;; ret None) s else (Err e, s)
  | _ => (Err e, s)
  end.

(** *** A choice that sets something *)
Definition sets_something (d : Decision) : option Control :=
  match d_target d with
  | Some t => if existsb (teqb (c_role t)) SETTING_ROLES then Some t else None
  | None => None
  end.

(** [observe], whose page may have hung. *)
Definition observe_or_reopen (o : Observation) (d : Decision) (a : Action) (shown : option (list Z)) : Step E (option Observation) :=
  fun s => match observe page s with
           | (Ok landed, s) => (Ok (Some landed), s)
           | (Err e, s) => or_reopen o d a shown e s
           end.

Definition note_choice (done : Effect) (landed : Observation) (s : RunState) : RunState :=
  let s := if changed done then s <| stall -> idle ::= uncover |> else s in
  s <| acted_from := None |> <| reading ::= fun r => settle_change r landed |>.

Definition settle_action (o raw : Observation) (d : Decision) (a : Action) (shown : option (list Z)) (r : ActResult)
  : Step E (option Taken) := fun s =>
  let done := executed r in
  let edit := edit_progress d a (written_here s o) in
  let taken setting effect s := mkTaken r (page_changed r) (judged d edit done (page_changed r)) (typed_text s a done)
                                  (match effect with Some e => Some e | None => redact (redactor s) <$> detail r end) setting shown in
  (modify (note_acted o raw d a r edit) ;;
   match (if done then sets_something d else None) with
   | None => get (fun s => Some (taken false None s))
   | Some target =>
       let! landed := observe_or_reopen o d a shown in
       match landed with
       | None => ret None
       | Some landed =>
           let done := effect o landed (Some target) in
           modify (note_choice done landed) ;;
           get (fun s => Some (taken (set_something done) (Some (summary done)) s))
       end
   end) s.

(** *** Acting *)
Definition empty_text (t : option text) : bool := match t with Some t => is_empty t | None => true end.

(** Typing nothing into an empty field does nothing. *)
Definition refuse_empty (d : Decision) (a : Action) : Step E unit :=
  if bool_decide (operation a = Fill) && empty_text (a_text a) then
    let! target := require hands (d_target d) in
    if empty_text (c_value target)
    then fails (FlowUnsure (new_unsure (lit "the task gives no text for " ++ repr (describe target) ++ lit ": leave it empty")))
    else ret tt
  else ret tt.

Definition frames : bool := h_events hands && step_frames config.
Definition step_frame : Step E (option (list Z)) := if frames then frame page else ret None.

(** A stale action is retried on the control redrawn in its place, a covered click where Jev sees the control. *)
Definition retried (a : Action) (o : Observation) (d : Decision) (r : ActResult) : Step E ActResult :=
  match d_target d with
  | Some target =>
      if bool_decide (outcome r = Stale)
      then let! again := act_on_twin a o target in ret (default r again)
      else ret r
  | None => ret r
  end.
Definition clicked (a : Action) (raw : Observation) (d : Decision) (r : ActResult) : Step E ActResult :=
  match d_target d with
  | Some target =>
      if bool_decide (outcome r = Covered) && bool_decide (operation a = Click)
      then let! again := click_where_seen raw target in ret (default r again)
      else ret r
  | None => ret r
  end.

Definition dispatch (o : Observation) (d : Decision) (a : Action) : Step E (option Taken) :=
  refuse_empty d a ;;
  let! shown := step_frame in
  (if secret a then modify (fun s => s <| frames_withheld := true |>) else ret tt) ;;
  let! raw := raw_or o in
  let! r := act a raw in
  match r with
  | Err e => or_reopen o d a shown (FlowBrowser e)
  | Ok r =>
      let! r := retried a o d r in
      let! r := clicked a raw d r in
      settle_action o raw d a shown r
  end.

Definition page_step (o : Observation) (d : Decision) : Step E (option Taken) :=
  let! built := watched_action o d in
  match built with
  | None => modify (fun s => s <| redecided := true |>) ;; ret None
  | Some a => modify (fun s => s <| redecided := false |>) ;; dispatch o d a
  end.

Definition read_step (o : Observation) : Step E (option Taken) :=
  let! shown := step_frame in
  let! c := capture page in
  let! progressed := read c o false in
  get (fun s =>
    let note := redact (redactor s) (read_note (reading s)) in
    Some (mkTaken (mkActResult Executed false (Some note) false) false (Some progressed) None (Some note) false shown)).

(** *** Recording *)
Definition step_entry (d : Decision) (t : Taken) : HistoryEntry :=
  (new_entry (Some (d_operation d)) (decision_label d) (outcome (t_act t)) (t_changed t))
    <| h_text := t_typed t |> <| h_effect := t_effect t |> <| h_setting := (if t_setting t then Some true else None) |>
    <| h_read_progress := bool_decide (d_operation d = Read) && bool_decide (t_progressed t = Some true) |>.

Definition step_result (facts_before : nat) (o : Observation) (d : Decision) (t : Taken) (s : RunState) : StepResult :=
  let note := redact (redactor s) (default [] (detail (t_act t))) in
  let noted := map snd (facts (notes (reading s))) in
  mkStepResult (step_count s) (d_operation d) (decider d) (outcome (t_act t)) (o_url o) (decision_label d)
    (Some (decision_confidence d)) (if is_empty note then None else Some note)
    (map (v_public_fact driver s) (drop facts_before noted))
    (if bool_decide (d_operation d = Read) then None else Some (t_changed t)) (v_elapsed driver s) [].

Definition finish_step (facts_before : nat) (o : Observation) (d : Decision) (t : Taken) : Step E unit :=
  modify (fun s => s <| RunState.history ::= fun h => h ++ [step_entry d t] |>) ;;
  let! step := get (step_result facts_before o d t) in
  record_step page hands config step false (t_frame t) ;;
  match t_progressed t with
  | Some progressed => count_progress outside page config progressed o (mkIdle (withheld d) (outcome (t_act t))) Stuck
  | None => modify (fun s => s <| stall -> landing := Some (withheld d) |>)
  end.

(** [step]: one step of the run. None of a step is a page that redrew before it was acted on, or hung. *)
Definition step (o : Observation) (d : Decision) : Step E unit := fun s =>
  let facts_before := length (facts (notes (reading s))) in
  (let! taken := if bool_decide (d_operation d = Read) then read_step o else page_step o d in
   match taken with
   | None => ret tt
   | Some taken => finish_step facts_before o d taken
   end) s.
End Driving.

(** * Properties *)
(** ** Dropped work *)
Section Interruption.
Context `{Unicode} `{UnicodeStr} `{FloatFormat} `{F64Display} `{Sha256} `{PercentEncoding} `{UrlParser} `{TR : TableReader}.
Context {E : Type} (reported : RunState -> bool) (outside : Outside E) (config : Config).

Lemma unless_ok {A} b (r : result A (Flow E)) a : unless b r = Ok a -> r = Ok a.
Proof. unfold unless. destruct b; [done|]. destruct r; [by intros [= ->]|done]. Qed.

Lemma interrupted_evaluate s shown questions answers :
  o_evaluate (interrupted reported outside) s shown questions = Ok answers -> o_evaluate outside s shown questions = Ok answers.
Proof.
  unfold o_evaluate. cbn [o_reserve o_answer interrupted]. destruct (unless _ (o_reserve outside s)) as [[]|] eqn:Er; [|done].
  apply unless_ok in Er. rewrite Er. apply unless_ok.
Qed.
Lemma interrupted_answers : answers_asked outside -> answers_asked (interrupted reported outside).
Proof. intros Ha s shown questions answers Hq. apply (Ha s shown). by apply unless_ok in Hq. Qed.

(** What let an action go ahead under the watch lets it go ahead. *)
Lemma interrupted_went_ahead s o d a s' : went_ahead (interrupted reported outside) config s o d a s' -> went_ahead outside config s o d a s'.
Proof.
  intros [Hg Hd]. split; [|done]. intros i r l Hgate. destruct (Hg i r l Hgate) as (s1 & Ht & Hi & answers & committing & He & Hrest).
  exists s1. split; [done|]. split; [done|]. exists answers, committing. split; [by apply interrupted_evaluate|done].
Qed.
End Interruption.

(** ** What a step hands to the page *)
Section Dispatch.
Context `{Unicode} `{UnicodeStr} `{FloatFormat} `{F64Display} `{Sha256} `{PercentEncoding} `{UrlParser} `{UrlFragment}
        `{ValueText} `{TR : TableReader}.
Context {E : Type} (outside : Outside E) (page : PageSeam) (hands : Hands E) (driver : Driver E) (config : Config).

Lemma filled_capture_quiet o c : quiet (E := E) (filled_capture page o c).
Proof. unfold filled_capture. quiet_all. Qed.
#[local] Hint Resolve filled_capture_quiet : quiet.
Lemma read_quiet c o shows : quiet (read page driver c o shows).
Proof. unfold read. quiet_all. Qed.
Lemma locate_quiet target png : quiet (locate outside driver target png).
Proof. unfold locate. quiet_all. Qed.
Lemma step_frame_quiet : quiet (step_frame page hands config).
Proof. unfold step_frame. quiet_all. Qed.
Lemma refuse_empty_quiet d a : quiet (refuse_empty hands d a).
Proof. unfold refuse_empty. quiet_all. Qed.
#[local] Hint Resolve read_quiet locate_quiet step_frame_quiet refuse_empty_quiet : quiet.
Lemma read_step_quiet o : quiet (read_step page hands driver config o).
Proof. unfold read_step. quiet_all. Qed.
Lemma watched_action_quiet o d : quiet (watched_action outside page hands driver config o d).
Proof.
  unfold watched_action. intros s v Hs.
  assert (Hb : quiet (let! a := action outside page hands config o d in ret (Some a))) by quiet_all.
  destruct (redecided s); [by apply Hb|]. apply quiet_bind; [repeat quiet_one|]. intros raw s1 E1.
  apply quiet_bind; [repeat quiet_one|]. intros watch s2 E2.
  assert (Hi : kept (action (interrupted (v_reported driver) outside) page (interrupted_hands (v_reported driver) hands) config o d s2).2 = v)
    by (by apply action_quiet).
  destruct watch as [[]|e]; [|by apply Hb|]; destruct (action _ _ _ _ _ _ s2) as [[a|f] s3]; cbn [snd] in *; try done; by destruct (surfaced f).
Qed.
Lemma note_acted_kept o raw d a r edit s v : kept s = v -> kept (note_acted o raw d a r edit s) = v.
Proof.
  intros Hs. unfold note_acted.
  assert (P1 : forall done s1, kept s1 = v -> kept (note_replay o raw d a done s1) = v).
  { intros done s1 E1. unfold note_replay. destruct (done && _); [|exact E1]. destruct (recipe_step _ _ _ _ _); exact E1. }
  assert (P2 : forall s1, kept s1 = v -> kept (note_navigation a r s1) = v).
  { intros s1 E1. unfold note_navigation. destruct (_ && _); [|exact E1]. destruct (a_url a), (detail r); exact E1. }
  assert (P3 : forall done s1, kept s1 = v -> kept (note_hint d a edit done s1) = v).
  { intros done s1 E1. unfold note_hint. destruct (_ && _); exact E1. }
  apply (P3 _ (note_written o d a (executed r) _)). exact (P2 _ (P1 (executed r) s Hs)).
Qed.

(** The calls a part of a step adds to the trace of those that act, and nothing else it changes of what is kept. *)
Definition traced (s s' : RunState) (l : list PageCall) : Prop :=
  kept s' = (page_acts s ++ l, hung_page_reopened (site s), irreversible_actions s).

Lemma traced_nil s s' : kept s' = kept s -> traced s s' [].
Proof. unfold traced. intros ->. by rewrite app_nil_r. Qed.
Lemma traced_app s s1 s2 l1 l2 : traced s s1 l1 -> traced s1 s2 l2 -> traced s s2 (l1 ++ l2).
Proof. unfold traced. intros [= P1 P2 P3] ->. by rewrite P1, P2, P3, app_assoc. Qed.
Lemma traced_quiet {A} (m : Step E A) s r s' : quiet m -> m s = (r, s') -> traced s s' [].
Proof. intros Hm Hs. apply traced_nil. specialize (Hm s (kept s) eq_refl). by rewrite Hs in Hm. Qed.
Lemma traced_after s s1 s2 l : kept s1 = kept s -> traced s1 s2 l -> traced s s2 l.
Proof. unfold traced. intros [= P1 P2 P3] ->. by rewrite P1, P2, P3. Qed.
Lemma traced_before s s1 s2 l : traced s s1 l -> kept s2 = kept s1 -> traced s s2 l.
Proof. unfold traced. intros P1 ->. done. Qed.

Lemma act_traced a on s r s' : act (E := E) page a on s = (r, s') -> traced s s' [Acted a on].
Proof. intros [= <- <-]. unfold traced, kept, page_acts. cbn. by rewrite filter_app. Qed.
Lemma clicked_at_traced x y s r s' :
  call_or_stop (E := E) (ClickedAt x y) (fun s => p_click_viewport page s x y) s = (r, s') -> traced s s' [ClickedAt x y].
Proof.
  unfold call_or_stop, bind, call. intros Hs. assert (kept s' = kept (s <| page_calls ::= fun l => l ++ [ClickedAt x y] |>)) as E1.
  { destruct (p_click_viewport page s x y); by injection Hs as _ <-. }
  unfold traced. rewrite E1. unfold kept, page_acts. cbn. by rewrite filter_app.
Qed.

(** [s1] is a state at which [l] is all that had been handed to the page since [s]. *)
Definition after (s : RunState) (l : list PageCall) (s1 : RunState) : Prop := page_acts s1 = page_acts s ++ l.
Lemma after_here s : after s [] s.
Proof. unfold after. by rewrite app_nil_r. Qed.
Lemma after_traced s s1 l : traced s s1 l -> after s l s1.
Proof. by intros [= P1 _ _]. Qed.
Lemma after_on s s1 s2 l l2 : traced s s1 l -> after s1 l2 s2 -> after s (l ++ l2) s2.
Proof. intros [= P1 _ _]. unfold after. intros ->. by rewrite P1, app_assoc. Qed.
Lemma after_quiet s s1 s2 : traced s s1 [] -> after s1 [] s2 -> after s [] s2.
Proof. exact (after_on s s1 s2 [] []). Qed.

(** How the page answered an action. *)
Definition answers_with (r : result ActResult BrowserError) (out : StepOutcome) : Prop := exists x, r = Ok x /\ outcome x = out.

(** An action the page called stale, retried on the control redrawn in its target's place, as the page then showed it. *)
Definition twin_part (s : RunState) (a : Action) (o : Observation) (d : Decision) (raw : Observation) (acted : result ActResult BrowserError)
    (l : list PageCall) : Prop :=
  l = [] \/ exists target s1 fresh raw' a', answers_with acted Stale /\ d_target d = Some target /\ after s [Acted a raw] s1 /\
    (observe (E := E) page s1).1 = Ok fresh /\ retargeted a o fresh target = Some a' /\ l = [Acted a' raw'].

(** The point where Jev saw a control on a picture of the page, and the page still the one pictured: the same document, the control not
    redrawn, the same picture. *)
Definition seen_at (s : RunState) (l : list PageCall) (raw : Observation) (target : Control) (x y : f64) : Prop :=
  exists png e s1 s2 s3 s4 s5, Forall (after s l) [s1; s2; s3; s4; s5] /\
    (viewport (E := E) page (o_images outside) s1).1 = Ok (Some png) /\
    v_locate driver s2 (seen_state s2 target (screenshot_reference png)) seen_questions png = Ok e /\ found_at (Decision.answers e) = Some (x, y) /\
    p_document_changed page s3 raw = Ok false /\ p_redrawn page s4 raw f64_zero (Some (c_id target)) = Ok false /\
    (viewport (E := E) page (o_images outside) s5).1 = Ok (Some png).
(** A click the page called covered, the action's or its retry's, made at the point where its target is seen. *)
Definition covered (s : RunState) (a : Action) (raw : Observation) (acted : result ActResult BrowserError) (twin : list PageCall) : Prop :=
  (twin = [] /\ answers_with acted Covered) \/
  exists a' raw' s1, twin = [Acted a' raw'] /\ after s [Acted a raw] s1 /\ answers_with (p_act page s1 a' raw') Covered.
Definition click_part (s : RunState) (a : Action) (d : Decision) (raw : Observation) (acted : result ActResult BrowserError) (twin l : list PageCall) : Prop :=
  l = [] \/ exists target x y, d_target d = Some target /\ operation a = Click /\ covered s a raw acted twin /\
    seen_at s (Acted a raw :: twin) raw target x y /\ l = [ClickedAt x y].

Lemma bind_inv {A B} (m : Step E A) (k : A -> Step E B) s r s' : bind m k s = (r, s') ->
  (exists a s1, m s = (Ok a, s1) /\ k a s1 = (r, s')) \/ (exists e, m s = (Err e, s') /\ r = Err e).
Proof. unfold bind. destruct (m s) as [[a|e] s1]; [by left; eauto|intros [= <- <-]; right; eauto]. Qed.
Lemma call_or_stop_ok {A} did (f : RunState -> result A BrowserError) s a s1 : call_or_stop (E := E) did f s = (Ok a, s1) -> f s = Ok a.
Proof. unfold call_or_stop, bind, call. by destruct (f s); intros [= ->]. Qed.

(** Takes the first, quiet, part of a sequence; the failure comes second.  [quiet_eq] keeps what the part came to. *)
Ltac quiet_eq H a s1 Heq :=
  let Hq := fresh "Hq" in let e := fresh "e" in
  apply bind_inv in H as [(a & s1 & Heq & H)|(e & Heq & ->)];
  pose proof Heq as Hq; apply traced_quiet in Hq; [|solve [auto with quiet|quiet_all]| |solve [auto with quiet|quiet_all]].
Ltac quiet_first H a s1 := let Heq := fresh "Heq" in quiet_eq H a s1 Heq; clear Heq.

(** What follows a quiet beginning. *)
Lemma traced_on s s1 s2 l : traced s s1 [] -> traced s1 s2 l -> traced s s2 l.
Proof. exact (traced_app s s1 s2 [] l). Qed.

Lemma act_on_twin_traced a o target s r s' : act_on_twin (E := E) page a o target s = (r, s') ->
  exists l, traced s s' l /\
    ((l = [] /\ forall x, r <> Ok (Some x)) \/
     exists s1 s2 fresh raw a', after s [] s1 /\ (observe (E := E) page s1).1 = Ok fresh /\ retargeted a o fresh target = Some a' /\
       after s [] s2 /\ (forall x, r = Ok (Some x) -> p_act page s2 a' raw = Ok x) /\ r <> Ok None /\ l = [Acted a' raw]).
Proof.
  unfold act_on_twin. destruct (_ || _). { intros [= <- <-]. exists []. split; [by apply traced_nil|by left]. }
  intros Hs. quiet_eq Hs seen s1 Eseen. 2: by exists []; split; [|left].
  destruct (retargeted a o seen target) as [a'|] eqn:Er. 2: { injection Hs as <- <-. exists []. by split; [|left]. }
  quiet_first Hs raw s2. 2: { exists []. split; [by apply (traced_app _ s1 _ [] [])|by left]. }
  exists [Acted a' raw]. split.
  - apply (traced_app s s1 s' [] _); [done|]. apply (traced_app s1 s2 s' [] _); [done|].
    apply bind_inv in Hs as [(r1 & s3 & Ha & Hs)|(e & Ha & _)]; apply act_traced in Ha; [|done]. by destruct r1; injection Hs as <- <-.
  - right. exists s, s2, seen, raw, a'. split_and!; [apply after_here|by rewrite Eseen|done|eapply after_quiet; [done|by apply after_traced]| | |done];
      (apply bind_inv in Hs as [(r1 & s3 & Ha & Hs)|(e & Ha & ->)]; [injection Ha as <- _; destruct (p_act page s2 a' raw); injection Hs as <- _|done]); [by intros x [= ->]|done..].
Qed.

(** What a located control was located by. *)
Lemma locate_found target png s x y s1 : locate outside driver target png s = (Ok (Some (x, y)), s1) ->
  exists e, v_locate driver s (seen_state s target (screenshot_reference png)) seen_questions png = Ok e /\ found_at (Decision.answers e) = Some (x, y).
Proof.
  unfold locate. intros Hs. apply bind_inv in Hs as [(u & s2 & [= _ <-] & Hs)|(e & _ & [=])].
  apply bind_inv in Hs as [(located & s3 & [= <- <-] & Hs)|(e & _ & [=])].
  destruct (v_locate driver s _ _ png) as [e|[]]; try done. exists e. split; [done|].
  apply bind_inv in Hs as [(u' & s4 & _ & [= Hf _])|(e' & _ & [=])]. done.
Qed.
Lemma click_where_seen_traced o target s r s' : click_where_seen outside page driver o target s = (r, s') ->
  exists l, traced s s' l /\ (l = [] \/ exists x y, seen_at s [] o target x y /\ l = [ClickedAt x y]).
Proof.
  unfold click_where_seen, click_at. intros Hs.
  quiet_eq Hs pic s1 Epic. 2: eauto. destruct pic as [png|]. 2: { injection Hs as <- <-. eauto. }
  quiet_eq Hs place s2 Eplace. 2: eauto 6 using traced_on. destruct place as [[x y]|]. 2: { injection Hs as <- <-. eauto 6 using traced_on. }
  quiet_eq Hs away s3 Eaway. 2: eauto 7 using traced_on. destruct away. { injection Hs as <- <-. eauto 7 using traced_on. }
  quiet_eq Hs again s4 Eagain. 2: eauto 8 using traced_on. destruct again. { injection Hs as <- <-. eauto 8 using traced_on. }
  quiet_eq Hs pic s5 Epic'. 2: eauto 9 using traced_on. destruct (bool_decide (pic = Some png)) eqn:Esame; cbn [negb] in Hs.
  2: { injection Hs as <- <-. eauto 9 using traced_on. }
  apply bool_decide_eq_true in Esame as ->. apply locate_found in Eplace as (e & Hloc & Hfound). apply call_or_stop_ok in Eaway, Eagain.
  exists [ClickedAt x y]. split.
  - apply bind_inv in Hs as [(r1 & s6 & Hc & Hs)|(e' & Hc & _)]; apply clicked_at_traced in Hc; [injection Hs as _ <-|]; eauto 6 using traced_on.
  - right. exists x, y. split; [|done]. exists png, e, s, s1, s2, s3, s4. split_and!; try done; [|by rewrite Epic|by rewrite Epic'].
    repeat (apply List.Forall_cons; [first [apply after_here|apply after_traced; eauto 6 using traced_on]|]). constructor.
Qed.
Lemma traced_same s s1 l : traced s s1 l ->
  hung_page_reopened (site s1) = hung_page_reopened (site s) /\ irreversible_actions s1 = irreversible_actions s.
Proof. by intros [= _ P2 P3]. Qed.

(** The address a page that hung is opened at: its own where it still tells it. *)
Definition own_address (o : Observation) (s : RunState) : text := match p_active_url page s with Ok (Some url) => url | _ => o_url o end.
(** How a step that acted ends: as it was, or, where the page stopped answering, with it opened once more. *)
Definition hung_part (s : RunState) (o : Observation) (d : Decision) (a : Action) (hangs : Prop) (l : list PageCall) (reopened : bool) : Prop :=
  (l = [] /\ reopened = hung_page_reopened (site s)) \/
  (hangs /\ may_reopen s d a = true /\ reopened = true /\ (l = [] \/ exists s1, l = [Opened (own_address o s1)])).
Definition ends (o : Observation) (d : Decision) (a : Action) (hangs : Prop) (s s' : RunState) : Prop :=
  exists l reopened, hung_part s o d a hangs l reopened /\ kept s' = (page_acts s ++ l, reopened, irreversible_actions s).

Lemma ends_same o d a (hangs : Prop) s s' : traced s s' [] -> ends o d a hangs s s'.
Proof. intros Ht. exists [], (hung_page_reopened (site s)). split; [by left|exact Ht]. Qed.
Lemma hung_part_same s s1 l1 o d a (hangs hangs1 : Prop) l b : traced s s1 l1 -> (hangs1 -> hangs) -> hung_part s1 o d a hangs1 l b -> hung_part s o d a hangs l b.
Proof.
  intros [P2 P3]%traced_same Hi. unfold hung_part, may_reopen. rewrite P2, P3. intros [?|(? & ? & ? & ?)]; [by left|right; eauto].
Qed.
Lemma ends_on o d a (hangs hangs1 : Prop) s s1 s' : traced s s1 [] -> (hangs1 -> hangs) -> ends o d a hangs1 s1 s' -> ends o d a hangs s s'.
Proof.
  intros Ht Hi (l & b & Hl & Hk). exists l, b. split; [by eapply hung_part_same; eauto|].
  injection Ht as P1 P2 P3. by rewrite Hk, P1, P3, app_nil_r.
Qed.

Lemma navigate_to_opens url s r s' : navigate_to (E := E) page url s = (r, s') -> traced s s' [Opened url].
Proof.
  unfold navigate_to, call_or_stop, bind, call. intros Hs.
  assert (kept s' = kept (s <| page_calls ::= fun l => l ++ [Opened url] |>)) as E1 by (destruct (p_navigate page s url); by injection Hs as _ <-).
  unfold traced. rewrite E1. unfold kept, page_acts. cbn. by rewrite filter_app.
Qed.

Lemma reopen_hung_page_ends o d a shown (hangs : Prop) s r s' : hangs -> may_reopen s d a = true ->
  reopen_hung_page page hands driver config o d shown s = (r, s') -> ends o d a hangs s s'.
Proof.
  intros Hhangs Hmay. unfold reopen_hung_page. intros Hs.
  apply bind_inv in Hs as [(u & s1 & Hm & Hs)|(e & Hm & _)]; [|done].
  assert (K1 : kept s1 = (page_acts s, true, irreversible_actions s)) by (by injection Hm as _ <-).
  assert (Hend : forall l, traced s1 s' l -> (l = [] \/ exists s1, l = [Opened (own_address o s1)]) -> ends o d a hangs s s').
  { intros l Ht Hl. exists l, true. split; [by right|]. injection K1 as P1 P2 P3. unfold traced in Ht. by rewrite Ht, P1, P2, P3. }
  quiet_eq Hs at_url s2 Eat. 2: eauto. injection Eat as Eat _.
  quiet_first Hs u2 s3. 2: eauto using traced_on.
  quiet_first Hs entry s4. 2: eauto using traced_on.
  quiet_first Hs u4 s5. 2: eauto 6 using traced_on.
  eapply Hend; [do 4 (eapply traced_on; [done|]); by apply navigate_to_opens in Hs|]. right. exists s1. unfold own_address. by rewrite Eat.
Qed.
(** The page stopped answering. *)
Definition unresponsive (e : Flow E) : Prop := exists m, e = FlowBrowser (PageUnresponsive m).
Lemma or_reopen_ends {A} o d a shown e s (r : result (option A) (Flow E)) s' :
  or_reopen page hands driver config o d a shown e s = (r, s') -> ends o d a (unresponsive e) s s' /\ forall x, r <> Ok (Some x).
Proof.
  assert (Hsame : forall f, (Err f, s) = (r, s') -> ends o d a (unresponsive e) s s' /\ forall x, r <> Ok (Some x))
    by (intros f [= <- <-]; split; [by apply ends_same, traced_nil|done]).
  unfold or_reopen. destruct e as [?|?|?|[]]; try apply Hsame.
  destruct (may_reopen s d a) eqn:Hmay; [|apply Hsame]. intros Hs.
  apply bind_inv in Hs as [(u & s1 & Hr & Hs)|(e & Hr & ->)]; (split; [|by try injection Hs as <- <-]).
  - injection Hs as _ <-. eapply reopen_hung_page_ends; [by eexists|done..].
  - eapply reopen_hung_page_ends; [by eexists|done..].
Qed.

Lemma note_choice_kept done landed s v : kept s = v -> kept (note_choice done landed s) = v.
Proof. unfold note_choice. by destruct (changed done). Qed.

(** A page that stops answering the reading taken after [l] was handed to it. *)
Definition goes_silent (s : RunState) (l : list PageCall) : Prop := exists s1 e, after s l s1 /\ (observe (E := E) page s1).1 = Err e /\ unresponsive e.
Lemma observe_or_reopen_ends o d a shown s r s' : observe_or_reopen page hands driver config o d a shown s = (r, s') ->
  traced s s' [] \/ (ends o d a (goes_silent s []) s s' /\ forall x, r <> Ok (Some x)).
Proof.
  unfold observe_or_reopen. destruct (observe page s) as [[now|f] s1] eqn:Eo; pose proof Eo as Hq; apply traced_quiet in Hq; [|auto with quiet| |auto with quiet].
  - intros [= <- <-]. by left.
  - intros [Hl Hr]%or_reopen_ends. right. split; [|done]. eapply ends_on; [done| |done]. intros Hf. exists s, f. split_and!; [apply after_here|by rewrite Eo|done].
Qed.

Lemma settle_action_ends o raw d a shown r0 s r s' :
  settle_action page hands driver config o raw d a shown r0 s = (r, s') -> ends o d a (goes_silent s []) s s'.
Proof.
  unfold settle_action. intros Hs. apply bind_inv in Hs as [(u & s1 & Hm & Hs)|(e & Hm & _)]; [|done].
  assert (T1 : traced s s1 []) by (injection Hm as _ <-; by apply traced_nil, note_acted_kept).
  assert (Hsilent : goes_silent s1 [] -> goes_silent s []) by (intros (s2 & e & Ha & Ho); exists s2, e; split; [by eapply after_quiet|done]).
  eapply ends_on; [exact T1|exact Hsilent|]. destruct (if executed r0 then sets_something d else None) as [target|].
  2: { injection Hs as _ <-. by apply ends_same, traced_nil. }
  apply bind_inv in Hs as [(seen & s2 & Hl & Hs)|(e & Hl & _)].
  - apply observe_or_reopen_ends in Hl as [Hl|[Hl Hr]].
    + eapply ends_on; [exact Hl|done|]. destruct seen as [landed|]; [|injection Hs as _ <-; by apply ends_same, traced_nil].
      apply traced_quiet in Hs; [by apply ends_same|quiet_all; by apply note_choice_kept].
    + destruct seen as [landed|]; [by destruct (Hr landed)|]. by injection Hs as _ <-.
  - apply observe_or_reopen_ends in Hl as [Hl|[Hl _]]; [by apply ends_same|done].
Qed.

(** Why a page is opened again: it did not answer the action, or the reading after it. *)
Definition hangs (s : RunState) (acted : result ActResult BrowserError) (l : list PageCall) : Prop :=
  (exists m, acted = Err (PageUnresponsive m)) \/ goes_silent s l.
(** What a step that built its action hands to the page, by the page's own answers. *)
Definition acts (o : Observation) (d : Decision) (a : Action) (s s' : RunState) : Prop :=
  exists raw s0 twin click hung reopened, after s [] s0 /\
    let acted := p_act page s0 a raw in
    twin_part s a o d raw acted twin /\ click_part s a d raw acted twin click /\
    hung_part s o d a (hangs s acted (Acted a raw :: twin ++ click)) hung reopened /\
    kept s' = (page_acts s ++ Acted a raw :: twin ++ click ++ hung, reopened, irreversible_actions s).

(** What came of a retry: the result as it was, or the twin's own. *)
Lemma retried_traced a o d r0 s r s' : retried (E := E) page a o d r0 s = (r, s') -> exists l, traced s s' l /\
  ((l = [] /\ forall x, r = Ok x -> x = r0) \/
   exists target s1 s2 fresh raw a', outcome r0 = Stale /\ d_target d = Some target /\ after s [] s1 /\ (observe (E := E) page s1).1 = Ok fresh /\
     retargeted a o fresh target = Some a' /\ after s [] s2 /\ (forall x, r = Ok x -> p_act page s2 a' raw = Ok x) /\ l = [Acted a' raw]).
Proof.
  unfold retried. intros Hs. destruct (d_target d) as [target|].
  2: { injection Hs as <- <-. exists []. split; [by apply traced_nil|]. left. split; [done|by intros x [= ->]]. }
  destruct (bool_decide (outcome r0 = Stale)) eqn:Est.
  2: { injection Hs as <- <-. exists []. split; [by apply traced_nil|]. left. split; [done|by intros x [= ->]]. }
  apply bool_decide_eq_true in Est.
  apply bind_inv in Hs as [(x & s1 & Hr & Hs)|(e & Hr & ->)].
  - injection Hs as <- <-. apply act_on_twin_traced in Hr as (l & Ht & Hl). exists l. split; [done|].
    destruct Hl as [[-> Hn]|(t1 & t2 & fresh & raw & a' & K1 & K2 & K3 & K4 & K5 & K6 & ->)].
    + left. split; [done|]. intros y [= <-]. destruct x as [x|]; [by destruct (Hn x)|done].
    + right. exists target, t1, t2, fresh, raw, a'. split_and!; try done. intros y [= <-]. destruct x as [x|]; [by apply K5|done].
  - apply act_on_twin_traced in Hr as (l & Ht & Hl). exists l. split; [done|].
    destruct Hl as [[-> Hn]|(t1 & t2 & fresh & raw & a' & K1 & K2 & K3 & K4 & K5 & K6 & ->)]; [by left|].
    right. exists target, t1, t2, fresh, raw, a'. by split_and!.
Qed.
Lemma clicked_traced a raw d r1 s r s' : clicked outside page driver a raw d r1 s = (r, s') -> exists l, traced s s' l /\
  (l = [] \/ exists target x y, d_target d = Some target /\ operation a = Click /\ outcome r1 = Covered /\ seen_at s [] raw target x y /\ l = [ClickedAt x y]).
Proof.
  unfold clicked. assert (Hnil : forall r1, (r1, s) = (r, s') -> traced s s' []) by (intros ? [= _ <-]; by apply traced_nil).
  destruct (d_target d) as [target|]; [|intros Hs; exists []; split; [by eapply Hnil|by left]].
  destruct (_ && _) eqn:Eb; [|intros Hs; exists []; split; [by eapply Hnil|by left]].
  apply andb_prop in Eb as [Ecov%bool_decide_eq_true Eop%bool_decide_eq_true]. intros Hs.
  apply bind_inv in Hs as [(x & s1 & Hr & Hs)|(e & Hr & _)]; [injection Hs as _ <-|];
    apply click_where_seen_traced in Hr as (l & Ht & Hl); exists l; (split; [done|]); destruct Hl as [->|(x' & y & Hseen & ->)]; [by left| |by left|];
    right; exists target, x', y; by split_and!.
Qed.

Lemma seen_at_on s s1 l raw target x y : traced s s1 l -> seen_at s1 [] raw target x y -> seen_at s l raw target x y.
Proof.
  intros Ht (png & e & s2 & s3 & s4 & s5 & s6 & Hall & Hrest). exists png, e, s2, s3, s4, s5, s6. split; [|done].
  eapply Forall_impl; [exact Hall|]. intros s7 Ha. cbn beta in Ha. by rewrite <- (app_nil_r l); apply (after_on s s1).
Qed.
Lemma goes_silent_on s s1 l : traced s s1 l -> goes_silent s1 [] -> goes_silent s l.
Proof. intros Ht (s2 & e & Ha & Hrest). exists s2, e. split; [|done]. by rewrite <- (app_nil_r l); apply (after_on s s1). Qed.
Lemma acts_on_page a d o s s0 s1 raw twin click (silent : Prop) s' :
  after s [] s0 -> traced s s1 (Acted a raw :: twin ++ click) ->
  twin_part s a o d raw (p_act page s0 a raw) twin -> click_part s a d raw (p_act page s0 a raw) twin click ->
  (silent -> hangs s (p_act page s0 a raw) (Acted a raw :: twin ++ click)) -> ends o d a silent s1 s' -> acts o d a s s'.
Proof.
  intros A0 Ht Htw Hcl Hsil (hung & b & Hh & Hk). exists raw, s0, twin, click, hung, b. cbv zeta. split_and!; [done..| |].
  - by eapply hung_part_same; eauto.
  - injection Ht as P1 P2 P3. rewrite Hk, P1, P3. by rewrite <- app_assoc, <- app_comm_cons, <- app_assoc.
Qed.

(** The retry's and the covered click's parts, from what their results were. *)
Lemma retried_part s s4 s5 s6 a o d raw r0 r : traced s s4 [] -> traced s s5 [Acted a raw] -> p_act page s4 a raw = Ok r0 ->
  retried (E := E) page a o d r0 s5 = (r, s6) -> exists twin, traced s s6 (Acted a raw :: twin) /\ twin_part s a o d raw (Ok r0) twin /\
    forall r1, r = Ok r1 -> outcome r1 = Covered -> covered s a raw (Ok r0) twin.
Proof.
  intros T4 T5 Hact Hr. apply retried_traced in Hr as (twin & Ht & Hl). exists twin. split; [exact (traced_app _ _ _ _ _ T5 Ht)|].
  destruct Hl as [[-> Hr]|(target & s1 & s2 & fresh & raw' & a' & Hst & Htg & Ha & Ho & Hre & Ha' & Hr & ->)].
  - split; [by left|]. intros r1 ->. rewrite (Hr r1 eq_refl). intros Hc. left. split; [done|by exists r0].
  - split; [right; exists target, s1, fresh, raw', a'; split_and!; try done; [by exists r0|exact (after_on _ _ _ _ _ T5 Ha)]|].
    intros r1 -> Hc. right. exists a', raw', s2. split_and!; [done|exact (after_on _ _ _ _ _ T5 Ha')|]. exists r1. by rewrite (Hr r1 eq_refl).
Qed.

Lemma dispatch_acts o d a s r s' : dispatch outside page hands driver config o d a s = (r, s') -> traced s s' [] \/ acts o d a s s'.
Proof.
  unfold dispatch. intros Hs.
  quiet_first Hs u s1. 2: by left. quiet_first Hs shown s2. 2: by left; eauto using traced_on.
  quiet_first Hs u2 s3. 2: by left; eauto using traced_on.
  quiet_first Hs raw s4. 2: by left; eauto 6 using traced_on.
  assert (T4 : traced s s4 []) by eauto 6 using traced_on.
  apply bind_inv in Hs as [(acted & s5 & Ha & Hs)|(e & Ha & _)]; [|by injection Ha]. right. assert (Eacted : p_act page s4 a raw = acted) by (by injection Ha).
  apply act_traced in Ha. assert (T5 : traced s s5 [Acted a raw]) by by eapply traced_on.
  pose proof (after_traced _ _ _ T4) as A4. destruct acted as [r0|f].
  2: { apply or_reopen_ends in Hs as [He _]. eapply (acts_on_page a d o s s4 s5 raw [] []); [done|done|by left|by left| |exact He].
       intros (m & [= ->]). left. by exists m. }
  apply bind_inv in Hs as [(r1 & s6 & Hr & Hs)|(e & Hr & _)]; apply (retried_part s s4 _ _ _ _ _ raw) in Hr as (twin & T6 & Htw & Hcov); try done; rewrite <- Eacted in *.
  2: { eapply (acts_on_page a d o s s4 s' raw twin [] False); [done|by rewrite app_nil_r|done|by left|done|by apply ends_same, traced_nil]. }
  apply bind_inv in Hs as [(r2 & s7 & Hr & Hs)|(e & Hr & _)]; apply clicked_traced in Hr as (click & Hc & Hcl);
    pose proof (traced_app _ _ _ _ _ T6 Hc) as T7;
    (assert (click_part s a d raw (p_act page s4 a raw) twin click) as Hclick;
      [destruct Hcl as [->|(target & x & y & Htg & Hop & Hcv & Hseen & ->)]; [by left|right; exists target, x, y; split_and!; try done; [by eapply Hcov|by eapply seen_at_on]]|]).
  - apply settle_action_ends in Hs. eapply (acts_on_page a d o s s4 s7 raw twin click); [done..| |exact Hs]. intros Hsil. right. by eapply goes_silent_on.
  - eapply (acts_on_page a d o s s4 s' raw twin click False); [done..| |by apply ends_same, traced_nil]. done.
Qed.


Lemma watched_action_went_ahead o d s a s' : answers_asked outside ->
  watched_action outside page hands driver config o d s = (Ok (Some a), s') -> went_ahead outside config s o d a s'.
Proof.
  intros Hans. unfold watched_action.
  assert (Hbuild : forall s1, (let! a := action outside page hands config o d in ret (Some a)) s1 = (Ok (Some a), s') ->
                     went_ahead outside config s1 o d a s').
  { intros s1 Hs. apply bind_inv in Hs as [(a1 & s2 & Ha & [= -> ->])|(e & _ & [=])]. by apply action_went_ahead in Ha. }
  destruct (redecided s); [apply Hbuild|]. intros Hs.
  apply bind_inv in Hs as [(raw & s1 & [= _ <-] & Hs)|(e & _ & [=])].
  apply bind_inv in Hs as [(watch & s2 & [= _ <-] & Hs)|(e & _ & [=])].
  destruct watch as [[]|e]; [|by apply Hbuild in Hs|]; destruct (action _ _ _ _ _ _ _) as [[a1|f] s3] eqn:Ea in Hs.
  all: first [by destruct (surfaced f)|injection Hs as -> ->].
  all: apply action_went_ahead in Ea; [|by apply interrupted_answers]; by apply interrupted_went_ahead in Ea.
Qed.

(** The step's action, with what let it go ahead. *)
Definition built (o : Observation) (d : Decision) (s : RunState) (a : Action) : Prop :=
  d_operation d <> Read /\ exists s1, watched_action outside page hands driver config o d s = (Ok (Some a), s1).

(** What is true once nothing was handed to the page since [s] is true of a step that began at [s]. *)
Lemma after_from s s1 l s2 : traced s s1 [] -> after s1 l s2 -> after s l s2.
Proof. exact (after_on s s1 s2 [] l). Qed.
Lemma seen_at_from s s1 l raw target x y : traced s s1 [] -> seen_at s1 l raw target x y -> seen_at s l raw target x y.
Proof.
  intros Ht (png & e & s2 & s3 & s4 & s5 & s6 & Hall & Hrest). exists png, e, s2, s3, s4, s5, s6. split; [|done].
  eapply Forall_impl; [exact Hall|]. intros s7. by apply after_from.
Qed.
Lemma twin_part_from s s1 a o d raw acted l : traced s s1 [] -> twin_part s1 a o d raw acted l -> twin_part s a o d raw acted l.
Proof.
  intros Ht [->|(target & s2 & fresh & raw' & a' & Hst & Htg & Ha & Hrest)]; [by left|]. right. exists target, s2, fresh, raw', a'.
  split_and!; [done..|by eapply after_from|apply Hrest|apply Hrest|apply Hrest].
Qed.
Lemma click_part_from s s1 a d raw acted twin l : traced s s1 [] -> click_part s1 a d raw acted twin l -> click_part s a d raw acted twin l.
Proof.
  intros Ht [->|(target & x & y & Htg & Hop & Hcv & Hseen & ->)]; [by left|]. right. exists target, x, y.
  split_and!; [done..| |by eapply seen_at_from|done]. destruct Hcv as [?|(a' & raw' & s2 & -> & Ha & Hc)]; [by left|].
  right. exists a', raw', s2. split_and!; [done|by eapply after_from|done].
Qed.
Lemma acts_from o d a s s1 s' : traced s s1 [] -> acts o d a s1 s' -> acts o d a s s'.
Proof.
  intros Ht (raw & s0 & twin & click & hung & b & Ha & Htw & Hc & Hh & Hk). exists raw, s0, twin, click, hung, b. cbv zeta.
  split_and!; [by eapply after_from|by eapply twin_part_from|by eapply click_part_from| |].
  - eapply hung_part_same; [exact Ht| |exact Hh]. intros [?|(s2 & e & Ha2 & He)]; [by left|right]. exists s2, e. split; [by eapply after_from|done].
  - injection Ht as P1 P2 P3. by rewrite Hk, P1, P3, app_nil_r.
Qed.

Lemma page_step_acts o d s r s' : d_operation d <> Read -> page_step outside page hands driver config o d s = (r, s') ->
  traced s s' [] \/ exists a, built o d s a /\ acts o d a s s'.
Proof.
  intros Hop. unfold page_step. intros Hs.
  apply bind_inv in Hs as [(b & s1 & Hb & Hs)|(e & Hb & _)]; pose proof (traced_quiet _ _ _ _ (watched_action_quiet o d) Hb) as T1; [|by left].
  destruct b as [a|].
  2: { left. apply traced_quiet in Hs; [by eapply traced_on|quiet_all]. }
  apply bind_inv in Hs as [(u & s2 & Hm & Hs)|(e & Hm & _)]; [|done].
  assert (T2 : traced s s2 []) by (injection Hm as _ <-; exact T1).
  apply dispatch_acts in Hs as [Ht|Ha]; [left; by eapply traced_on|].
  right. exists a. split; [split; eauto|by eapply acts_from].
Qed.

Lemma finish_step_quiet n o d t : quiet (finish_step outside page hands driver config n o d t).
Proof. unfold finish_step. quiet_all. Qed.
#[local] Hint Resolve read_step_quiet finish_step_quiet : quiet.

Lemma acts_before o d a s s1 s' : acts o d a s s1 -> kept s' = kept s1 -> acts o d a s s'.
Proof. intros (raw & s0 & twin & click & hung & b & H0' & Ht & Hc & Hh & Hk) E1. exists raw, s0, twin, click, hung, b. by rewrite E1. Qed.

Lemma step_acts o d s r s' : step outside page hands driver config o d s = (r, s') ->
  traced s s' [] \/ exists a, built o d s a /\ acts o d a s s'.
Proof.
  unfold step. intros Hs.
  assert (Hend : forall taken s1, (match taken with None => ret tt | Some taken =>
      finish_step outside page hands driver config (length (facts (notes (reading s)))) o d taken end) s1 = (r, s') -> kept s' = kept s1).
  { intros [t|] s1 Hf; [|by injection Hf as _ <-].
    pose proof (finish_step_quiet (length (facts (notes (reading s)))) o d t s1 _ eq_refl) as Hq. by rewrite Hf in Hq. }
  destruct (bool_decide (d_operation d = Read)) eqn:Eop.
  - left. quiet_first Hs taken s1; [|done]. apply Hend in Hs. by eapply traced_before.
  - apply bool_decide_eq_false in Eop.
    apply bind_inv in Hs as [(taken & s1 & Hp & Hs)|(e & Hp & _)]; apply page_step_acts in Hp; try done.
    apply Hend in Hs. destruct Hp as [Ht|(a & Hb & Ha)]; [left; by eapply traced_before|]. right. exists a. eauto using acts_before.
Qed.

(** *** Pages reopened over a run *)
Definition opened (c : PageCall) : bool := match c with Opened _ => true | _ => false end.
Definition openings (l : list PageCall) : nat := length (base.filter (fun c => opened c = true) l).
(** A decision whose action, once authorized, could be done twice by opening the page again. *)
Definition may_repeat (d : Decision) : bool := bool_decide (d_operation d = Navigate) || may_be_irreversible (d_operation d).
Definition take_steps (turns : list (Observation * Decision)) (s : RunState) : RunState :=
  fold_left (fun s od => snd (step outside page hands driver config od.1 od.2 s)) turns s.

Lemma openings_app l1 l2 : openings (l1 ++ l2) = (openings l1 + openings l2)%nat.
Proof. unfold openings. by rewrite filter_app, length_app. Qed.
Lemma twin_part_opens s a o d raw acted l : twin_part s a o d raw acted l -> openings l = 0%nat.
Proof. by intros [->|(?&?&?&?&?&_&_&_&_&_& ->)]. Qed.
Lemma click_part_opens s a d raw acted twin l : click_part s a d raw acted twin l -> openings l = 0%nat.
Proof. by intros [->|(?&?&?&_&_&_&_& ->)]. Qed.

Lemma step_openings o d s : exists l reopened,
  kept (snd (step outside page hands driver config o d s)) = (page_acts s ++ l, reopened, irreversible_actions s) /\
  (openings l + (if hung_page_reopened (site s) then 1 else 0) <= if reopened then 1 else 0)%nat /\
  (irreversible_actions s && may_repeat d = true -> openings l = 0%nat).
Proof.
  destruct (step _ _ _ _ _ o d s) as [r s'] eqn:Es. cbn [snd].
  apply step_acts in Es as [Ht|(a & _ & raw & s0 & twin & click & hung & b & _ & Htw & Hc & Hh & Hk)].
  { eexists _, _. split; [exact Ht|]. cbn. split; [lia|done]. }
  exists (Acted a raw :: twin ++ click ++ hung), b. split; [done|]. apply twin_part_opens in Htw. apply click_part_opens in Hc.
  assert (openings (Acted a raw :: twin ++ click ++ hung) = openings hung) as -> by
    (change (Acted a raw :: ?x) with ([Acted a raw] ++ x); rewrite !openings_app, Htw, Hc; done).
  destruct Hh as [[-> ->]|(_ & Hmay & -> & Hl)]; [split; [cbn; lia|done]|].
  unfold may_reopen in Hmay. destruct (hung_page_reopened (site s)); [done|]. split.
  - destruct Hl as [->|[s1 ->]]; [by cbn; lia|]. by change (1 + 0 <= 1)%nat.
  - intros [Hi Hr]%andb_prop. rewrite Hi in Hmay. cbn in Hmay. unfold may_repeat in Hr.
    destruct (bool_decide (d_operation d = Navigate)), (may_be_irreversible (d_operation d)); by rewrite ?andb_false_r in Hmay.
Qed.

(** Over any steps of a run at most one page that stopped answering is opened again: none once one was, and none
    in an authorized run whose every decision could be done twice that way. *)
Theorem hung_page_reopened_once turns s : exists l,
  page_acts (take_steps turns s) = page_acts s ++ l /\
  (openings l <= if hung_page_reopened (site s) || irreversible_actions s && forallb (fun od => may_repeat od.2) turns then 0 else 1)%nat.
Proof.
  assert (exists l reopened, kept (take_steps turns s) = (page_acts s ++ l, reopened, irreversible_actions s) /\
    (openings l + (if hung_page_reopened (site s) then 1 else 0) <= if reopened then 1 else 0)%nat /\
    (irreversible_actions s && forallb (fun od => may_repeat od.2) turns = true -> openings l = 0%nat)) as (l & b & Hk & Hl & Hn).
  { induction turns as [|[o d] turns IH] in s |- *; cbn.
    - exists [], (hung_page_reopened (site s)). rewrite app_nil_r. split; [done|]. cbn. split; [lia|done].
    - destruct (step_openings o d s) as (l1 & b1 & K1 & L1 & N1). destruct (IH (snd (step outside page hands driver config o d s))) as (l2 & b2 & K2 & L2 & N2).
      injection K1 as P1 P2 P3. rewrite P2 in L2. rewrite P3 in N2. rewrite P1, P3 in K2.
      exists (l1 ++ l2), b2. rewrite openings_app. split; [by rewrite app_assoc|]. split; [lia|].
      intros [Hi [Hd Ht]%andb_prop]%andb_prop. rewrite N1, N2; [done|by rewrite Hi, Ht|by rewrite Hi, Hd]. }
  exists l. injection Hk as P1 P2 P3. split; [done|]. destruct (_ && forallb _ _); [rewrite Hn by done|]; destruct (hung_page_reopened (site s)), b; cbn; lia.
Qed.
End Dispatch.

(** * Cases *)
#[local] Existing Instances ascii_unicode ascii_unicode_str exact_format plain_display plain_digest no_tables plain_parser
  unchanged_percent plain_fragment plain_value_text.

Definition sample_driver : Driver unit :=
  mkDriver _ _ (fun _ _ _ => Ok ([], false)) (fun _ _ _ _ => Err (DecisionFailed [])) (fun _ _ => Ok tt) (fun _ => tt)
    (fun _ f => mkStepFact (f_text f) None None JevChoice None) (fun _ => 0) (fun _ => false).
(** A page that stops answering when it is acted on. *)
Definition hung_seam (o : Observation) : PageSeam :=
  let p := still_page o in
  mkPage _ (p_observe p) (p_glance p) (p_screenshot p) (p_capture p) (fun _ _ _ => Err (PageUnresponsive [])) (p_redrawn p)
    (p_document_changed p) (p_click_viewport p) (p_navigate p) (p_active_url p) (p_wait_for_lifecycle p) (p_clock p).
Definition press : Decision := sample_decision Click (Some buy_button).
Definition press_step (seam : Observation -> PageSeam) : result unit (Flow unit) * RunState :=
  step unlikely (seam (form_page buy_button)) (with_hands jev) sample_driver default_config (form_page buy_button) press sample_run.

Definition acted_calls (l : list PageCall) : list (option text * option text) :=
  omap (fun c => match c with Acted a _ => Some (target_id a, None) | Opened url => Some (None, Some url) | _ => None end) l.

