(* ===== verification/Reporting.v ===== *)
(** What a run reports: [crates/fastbrowse-agent/src/agent/mod.rs] and [error.rs], with [rejection_reason] of [finishing.rs].

    The answer, its citations and every text of a result pass the run's redactor on the way out.  [Reporter] is what a report
    takes from outside: what the ledger says was spent and how long it has run, the page's artifacts, and the clock.  A run that
    fails before its state exists reports without one ([begun]).  [browser] and [recordings], which callers fill in, are left out
    of [RunResult], as are trace events. *)

From stdpp Require Import gmap.
From coqutil Require Import Datatypes.RecordSetters.
From S2P Require Import Prelude Float64 PyText Json DateTime Lax Models Ledger Config Page Origins Secrets Redactor Effects Notes NotesText Citations Answers Composing Decision Helpers Recipe Pyre Spans RunState Seeing Recovery Acting.

Import TriangleBracketNotations.
Open Scope step_scope.
#[local] Existing Instance table_reader.

(** ** Errors ([error.rs]) *)
Inductive LLMError := LlmFailed (m : text) | LlmRetriesExhausted (m : text) | LlmRejected (m : text) | LlmBudget (e : BudgetExceeded).
Definition LLMError_text (e : LLMError) : text :=
  match e with LlmFailed m | LlmRetriesExhausted m | LlmRejected m => m | LlmBudget e => reason e end.
Definition DecisionError_text (e : DecisionError Answer) : text :=
  match e with
  | DecisionFailed m | InputTooLarge m | TransportFailed m | Rejected m => m
  | Exhausted e => message e
  | Decision.Budget e => reason e
  end.

Inductive AgentError :=
| AJev (e : DecisionError Answer) | ALlm (e : LLMError) | ABudget (e : BudgetExceeded)
| AObservationTooLarge (m : text) | ANotesTooLarge (m : text) | AInvalid (m : text).
Definition AgentError_of_llm (e : LLMError) : AgentError := match e with LlmBudget e => ABudget e | e => ALlm e end.
Definition AgentError_text (e : AgentError) : text :=
  match e with
  | AJev e => DecisionError_text e
  | ALlm e => LLMError_text e
  | ABudget e => reason e
  | AObservationTooLarge m | ANotesTooLarge m | AInvalid m => m
  end.
Definition AgentError_unavailable (e : AgentError) : bool :=
  match e with
  | AJev e => Decision.is_unavailable e
  | ALlm (LlmRetriesExhausted _) => true
  | _ => false
  end.
Definition BrowserError_text (e : BrowserError) : text :=
  match e with
  | BrowserFailed m | ContextLost m | BrowserUnavailable m | PageUnresponsive m | ScreenshotsUnavailable m
  | NavigationTimeout m | SiteUnreachable m | NeedsBrowser m => m
  end.

(** ** Results *)
Record Artifact := mkArtifact {
  a_name : text; a_mime_type : text; size_bytes : Z; a_sha256 : text; uri : text;
}.
Record Wall := mkWall { w_kind : WallKind; w_origin : text; w_asked : list text; seen_at_ms : Z }.
Record RunResult := mkRunResult {
  rr_status : Status; rr_budget : option BudgetStop; rr_answer : option text; rr_data : value; rr_evidence : list Evidence;
  rr_steps : list StepResult; rr_cost : CostBreakdown; rr_artifacts : list Artifact; rr_citations : list Citation;
  rr_error : option text; rr_final_url : option text; final_frame : option (list Z); rr_wall : option Wall;
}.
(** The parts of a result a run's ending fills in. *)
Record Outcome := mkOutcome {
  out_answer : option text; out_data : value; out_evidence : list Evidence; out_citations : list Citation;
  out_error : option text; out_budget : option BudgetStop; out_wall : option Wall;
}.

Record Reporter := mkReporter {
  r_cost : RunState -> CostBreakdown;
  r_limits : Limits;
  r_elapsed : RunState -> option f64;
  r_artifacts : RunState -> list Artifact;
  r_now_ms : RunState -> Z;
}.

Definition result_without_browser (message : text) : RunResult :=
  mkRunResult Blocked None None Null [] [] [] [] [] (Some message) None None None.

Section Reporting.
Context `{Unicode} `{UnicodeStr} `{FloatFormat} `{F64Display} `{Sha256} `{PercentEncoding} `{UrlParser} `{ValueText} `{JsonReader}.

(** ** Redacted answers *)
(** A link percent-encodes its quote, where redacting cannot see a secret, so it is rebuilt from what was redacted. *)
Definition public_citation (r : Redactor) (c : Citation) : Citation :=
  let url := redact r (ci_url c) in
  let q := redact r (ci_quote c) in
  let link := if teqb (deep_link c) (ci_url c) then url else match text_fragment url q with Ok l => l | Err _ => url end in
  mkCitation (ci_id c) (redact r (ci_text c)) url q link.
Definition public_links (r : Redactor) (citations : list Citation) : list (text * text) :=
  im_extend [] (map (fun c => (deep_link c, deep_link (public_citation r c))) citations).

(** Every second piece is a link's destination. *)
Definition public_piece (r : Redactor) (links : list (text * text)) (n : nat) (piece : text) : text :=
  if Nat.odd n then lit "](<" ++ default piece (im_get piece links) ++ lit ">)" else redact r piece.
Definition public_answer (r : Redactor) (a : ComposedAnswer) : text * list Citation :=
  (concat (imap (public_piece r (public_links r (citations a))) (split_answer_links (linked_answer a))), map (public_citation r) (citations a)).

Definition public_fact (r : Redactor) (n : Notes) (f : Fact) : StepFact :=
  let shown := redact r (f_text f) in
  match evidence f with
  | None => mkStepFact shown None None (reader f) None
  | Some e =>
      let '(q, link) := cited_quote e n (redact r) in
      mkStepFact shown (Some q) (Some (redact r (e_url e))) (reader f) (Some link)
  end.

(** ** The wall a run ended at *)
(** The labels models saw of the fields that ask for credentials. *)
Definition asked_label (s : RunState) (c : Control) : option text :=
  let label := default (c_label c) (o ← observed_page s; c_label <$> find (fun seen => teqb (c_id seen) (c_id c)) (controls o)) in
  if is_empty label then None else Some (redact (redactor s) label).
Definition wall (reporter : Reporter) (s : RunState) (stop : Stop) : option Wall :=
  let here kind :=
    let page := match observed_page s with Some o => Some o | None => raw_page s end in
    let asking := if bool_decide (kind = Some BotCheck) then []
                  else base.filter (fun c => asks_for_credentials c = true) (match raw_page s with Some raw => controls raw | None => [] end) in
    Some (mkWall (default (wall_kind (omap credential_field asking)) kind)
            (match page with Some o => redact (redactor s) (secret_origin_of (o_url o)) | None => [] end)
            (omap (asked_label s) asking) (r_now_ms reporter s)) in
  match st_status stop, st_wall stop with
  | NeedsLogin, hint => here hint
  | Blocked, Some hint => here (Some hint)
  | _, _ => None
  end.

(** ** The result a run ends with *)
Section Result.
Context (reporter : Reporter).

Definition result (s : RunState) (begun : bool) (status : Status) (out : Outcome) : RunResult :=
  let observed := match raw_page s with Some o => Some o | None => observed_page s end in
  mkRunResult status (out_budget out) (out_answer out) (out_data out) (out_evidence out)
    (if begun then steps s else []) (r_cost reporter s) (r_artifacts reporter s) (out_citations out) (out_error out)
    (if begun then (fun o => redact (redactor s) (o_url o)) <$> observed else None) None (out_wall out).

(** A composed answer as the result of a run that ended as [status], with the evidence it cites. *)
Definition answered (a : ComposedAnswer) (n : Notes) (s : RunState) (begun : bool) (status : Status) (error : option text)
    (budget : option BudgetStop) : RunResult :=
  let cited := expand_evidence_ids n (concat (map evidence_ids (ca_claims a))) in
  let '(shown, links) := public_answer (redactor s) a in
  result s begun status
    (mkOutcome (Some shown) Null (map snd (base.filter (fun ke => ke.1 ∈ cited) (evidence_by_id n))) links error budget None).

(** A run that could not finish still returns what it read, each claim with its evidence. *)
Definition partial_result (n : Notes) (s : RunState) (begun : bool) (status : Status) (error : option text) (budget : option BudgetStop)
  : RunResult :=
  let bare := result s begun status (mkOutcome None Null [] [] error budget None) in
  match (if begun then checked_composition s (notes_to_compose (reading s)) else None) with
  | Some partial => answered (marked_partial partial) (notes_to_compose (reading s)) s begun status error budget
  | None =>
      if begun && compose (reading s)
      then match draft_answer n with Some a => answered a n s begun status error budget | None => bare end
      else if is_empty (facts n) then bare
      else answered (partial_answer n) n s begun status error budget
  end.

Definition begun_notes (s : RunState) (begun : bool) : Notes := if begun then notes (reading s) else empty_notes.
Definition failed (message : text) (unavailable : bool) (s : RunState) (begun : bool) : RunResult :=
  partial_result (begun_notes s begun) s begun (if unavailable then Unavailable else StatusError) (Some (redact (redactor s) message)) None.
End Result.

(** ** Why a draft was rejected ([finishing.rs]) *)
(** [value[key]]: null where it is no object or has no such member. *)
Definition member (key : string) (v : value) : value := match v with Object fields => default Null (im_get (lit key) fields) | _ => Null end.
Definition as_array (v : value) : list value := match v with Array items => items | _ => [] end.
Definition as_str (v : value) : option text := match v with Str t => Some t | _ => None end.

Definition drafted_claim (feedback : value) (index : Z) : text :=
  match as_array (member "draft_claims" feedback) !! Z.to_nat index ≫= (fun c => as_str (member "text" c)) with
  | Some t => repr t
  | None => lit "A claim"
  end.

(** The miscount of a claim: what it states, and what its notes hold. *)
Definition miscounted (feedback : value) (index : Z) : option (value * value) :=
  match find (fun m => match member "claim" m with Number (Int n) => n =? index | _ => false end) (as_array (member "miscounted_claims" feedback)) with
  | Some (Object fields) =>
      match im_get (lit "records_in_cited_quotes") fields with
      | Some held => Some (member "states" (Object fields), held)
      | None => (fun held => (member "states" (Object fields), held)) <$> im_get (lit "breakdown_sums_to") fields
      end
  | _ => None
  end.

Definition LEAVES_OUT : text := lit "the answer leaves out a fact or value the task asks for".
Definition failed_check (feedback : value) (check : text) : option text :=
  let '(name, part) := default (check, []) (split_once (chr "/") check) in
  match strip_prefix name (lit "claim") ≫= parse_u64 with
  | None => if teqb check (lit "coverage") then Some LEAVES_OUT else None
  | Some index =>
      let claim := drafted_claim feedback index in
      let follows := claim ++ lit " does not follow from the notes it cites" in
      Some
        (if teqb part (lit "count") then
           match miscounted feedback index with
           | Some (states, held) => claim ++ lit " states " ++ value_text states ++ lit ", but its cited notes hold " ++ value_text held
           | None => claim ++ lit " states a count its cited notes do not hold"
           end
         else if teqb part (lit "citations") then claim ++ lit " cites no note it can be checked against"
         else match strip_prefix part (lit "cell") with
              | Some cell =>
                  match (n ← parse_u64 cell; column ← as_array (member "columns" feedback) !! Z.to_nat n; as_str column) with
                  | Some column => claim ++ lit ": its " ++ repr column ++ lit " cell does not follow from the notes it cites"
                  | None => follows
                  end
              | None => follows
              end)
  end.

(** [dedup]: neighbours that say the same once. *)
Fixpoint dedup (l : list text) : list text :=
  match l with
  | x :: rest => match dedup rest with y :: more => if teqb x y then y :: more else x :: y :: more | [] => [x] end
  | [] => []
  end.
Definition parsed_feedback (feedback : text) : value := default Null (from_str feedback).
Definition rejection_reason (rejection : text) : text :=
  let feedback := parsed_feedback rejection in
  let said := dedup (omap (failed_check feedback) (omap as_str (as_array (member "rejected_checks" feedback)))) in
  if is_empty said
  then lit "The composed answer was rejected against its source quotes or requested coverage. Correct the answer or gather the evidence it needs."
  else lit "The composed answer was rejected: " ++ join (lit "; ") said ++ lit ". Correct the answer or gather the evidence it needs.".

(** The claims of a rejected draft, as its feedback records them. *)
Definition drafted (feedback : text) : option (list text) :=
  match from_str feedback with
  | Some (Object fields) =>
      match im_get (lit "draft_claims") fields with
      | Some (Array claims) => Some (omap (fun c => as_str (member "text" c)) claims)
      | _ => None
      end
  | _ => None
  end.

(** ** Time *)
Definition compose_reserve (limit : f64) : f64 := f64_min (f64_mul limit (dec 1 1)) (f64_of_Z 60).
Definition time_limit (limit : f64) : text := lit "time limit " ++ float_str limit ++ lit "s reached".
(** A run that composes its answer browses only while it can still write it in time. *)
Definition out_of_browsing_time (reporter : Reporter) (s : RunState) : option Stop :=
  match max_seconds (r_limits reporter), r_elapsed reporter s with
  | Some limit, Some elapsed =>
      if compose (reading s) && f64_le (f64_sub limit (compose_reserve limit)) elapsed
      then Some (new_stop StatusBudgetExceeded (time_limit limit)) else None
  | _, _ => None
  end.
End Reporting.

(** ** The context of a decision ([context]) *)
Section Context_.
Context `{Unicode} `{UnicodeStr} `{FloatFormat} `{F64Display} `{Sha256} `{PercentEncoding} `{UrlParser} `{ValueText} `{JsonReader}.
Context {E : Type} (hands : Hands E).

Definition sorted_labels (labels : list text) : list text := sort_texts (unique labels).

(** What is shown of the notes: the answer they stand for, unless it is still to be composed, and all they hold. *)
Definition decision_notes (s : RunState) : text :=
  let selected :=
    if negb (compose (reading s)) && negb (extraction_pending s)
    then (fun a => (public_answer (redactor s) a).1) <$> draft_answer (notes (reading s)) else None in
  dumps (Object
    [(lit "selected_answer", opt_str selected); (lit "composition_pending", Bool (compose (reading s)));
     (lit "structured_output_pending", Bool (extraction_pending s)); (lit "retained_notes", Str (render_for_navigation (notes (reading s))))]).

(** The page the latest navigation began on, told while the run is on the page it reached. *)
Definition source_control (mask : text -> text) (c : Control) : value :=
  Object [(lit "label", Str (mask (c_label c))); (lit "role", Str (mask (c_role c))); (lit "context", opt_str (mask <$> c_context c));
          (lit "href", opt_str (mask <$> c_href c));
          (lit "operations", Array (map Str (sort_texts (map Operation_as_str (c_operations c)))))].
Definition navigation_fact (s : RunState) (o : Observation) : option text :=
  match navigation_from s with
  | Some (destination, source) =>
      if bool_decide (destination = read_key o) then
        let mask := mask (redactor s) in
        Some (lit "The latest navigation began on this observed page. These controls were available there before navigation; their current state is unknown. This source is historical context, not content of the current page: "
          ++ value_text (Object
               [(lit "page", Object
                   [(lit "url", Str (mask (o_url source))); (lit "title", Str (mask (o_title source)));
                    (lit "text", Str (mask (viewport_text source))); (lit "offscreen_text", Str (mask (offscreen_text source)));
                    (lit "response_status", match response_status source with Some n => Number (Int n) | None => Null end)]);
                (lit "login_required_probability",
                 match login_readings (site s) !! read_key source with
                 | Some p => if is_finite p then Number (Float p) else Null
                 | None => Null
                 end);
                (lit "controls", Array (map (source_control mask) (controls source)))]))
      else None
  | None => None
  end.

(** The origins whose credential fields no stored secret may fill. *)
Definition credential_origins (s : RunState) (o : Observation) : list text :=
  sorted_labels (map (target_origin s) (base.filter (fun c => asks_for_credentials c = true) (controls o))).
Definition no_secrets_fact (s : RunState) (page_origin : text) (secrets : list text) (origin : text) : option text :=
  if teqb origin page_origin
  then if is_empty secrets then Some (lit "No stored secrets are available for this page's origin.") else None
  else if is_empty (secret_names hands s origin)
       then Some (lit "No stored secrets are available for credential fields at " ++ mask (redactor s) origin ++ lit ".") else None.

Definition context (s : RunState) (o : Observation) (secrets : list text) (check_login check_bot : bool) : StepContext :=
  let origin := secret_origin_of (o_url o) in
  mkStepContext (task s) (hint (stall s)) (decision_notes s) (Notes.answered (notes (reading s))) (RunState.history s) check_login
    (check_bot && negb (bool_decide (page_key o ∈ read_pages (reading s)))) check_bot (negb (is_empty (attachments s))) secrets
    (caller_start s) (start_landing_url s) (background s) None
    (if page_read (reading s) o then [Read] else []) []
    (sorted_labels (map (fun m => m.1.2) (elements (RunState.missing s))))
    (page_facts s o ++ omap (no_secrets_fact s origin secrets) (credential_origins s o) ++ option_list (navigation_fact s o))
    (reload_target s (o_url o)) 0 None (ahead hands s o).
End Context_.

(** ** Recipes and captures kept with the result *)
Section Kept.
Context `{Unicode} `{UnicodeStr} `{FloatFormat} `{Sha256} `{PercentEncoding} `{UrlParser}.

Record RecipeOutcome := mkRecipeOutcome { ro_recipe : Recipe; ro_replayed : nat; ro_fell_back : nat }.
(** A task or an opening address that holds a secret is stored nowhere. *)
Definition store_recipe (s : RunState) : option RecipeOutcome :=
  let task := redact (redactor s) (given_task s) in
  let start := redact (redactor s) <$> started_url s in
  if negb (teqb task (given_task s)) || negb (bool_decide (start = started_url s)) then None
  else
    Some (mkRecipeOutcome (mkRecipe RECIPE_VERSION task start (safe_steps (reveals (redactor s)) (recipe_log s)))
            (match replay s with Some r => replayed r | None => 0%nat end) (match replay s with Some r => fell_back r | None => 0%nat end)).

(** Each capture the evidence quotes, kept once and named on it; [keep] is None for a capture not read or not kept. *)
Fixpoint keep_captures (keep : text -> option Artifact) (kept : list (text * option text)) (evidence : list Evidence)
  : list Evidence * list Artifact :=
  match evidence with
  | [] => ([], [])
  | e :: evidence =>
      let digest := capture_sha256 e in
      let '(found, kept, added) :=
        match im_get digest kept with
        | Some found => (found, kept, [])
        | None => let a := keep digest in (uri <$> a, im_insert digest (uri <$> a) kept, option_list a)
        end in
      let '(rest, more) := keep_captures keep kept evidence in
      (mkEvidence (e_source_id e) (e_url e) (e_frame_id e) (e_captured_at e) (capture_sha256 e) (e_start e) (e_end e) (quote e)
         (e_complete_source e) (e_control_context e) (rendered_text e) (e_heading_path e) found :: rest, added ++ more)
  end.
End Kept.
