(* ===== verification/Deciding.v ===== *)
(** The decision of a step: [decide] of [crates/fastbrowse-agent/src/policy.rs].

    [decide] asks Jev the request of Policy.v and reads its answer as a decision.  A page too dense for Jev's limits is reduced a rung at
    a time - long texts cut, controls shortlisted by relevance, the off-screen ones dropped, the rest capped - and asked again, so
    the loop is [rung] repeated.  Jev and the ledger are the
    [Judge] of Judging.v, the pass of relevance questions with every answer it brought, a failed pass included.  The scores kept for a document are the first half of
    the state. *)

From coqutil Require Import Datatypes.RecordSetters.
From S2P Require Import Prelude Float64 PyText Json Dump DateTime Lax Models Ledger Config Receipts Retry DecisionClients Page Origins Navigation Secrets Redactor Effects Notes PageState Citations Answers Composing Decision Split Batches Judging Helpers Recipe Pyre Spans RunState Seeing Recovery Acting Reporting Policy.

Import TriangleBracketNotations.

(** ** The reduction a page was asked with *)
Inductive Reduction := ReductionNone | Relevance | OnscreenOnly | Capped | Trimmed.
#[export] Instance Reduction_eq_dec : EqDecision Reduction.
Proof. solve_decision. Defined.

(** A decision with the figures of the request that made it. *)
Record Decided := mkDecided {
  dd_decision : Helpers.Decision; dd_offered_controls : nat; dd_reduction : Reduction; dd_cost : list CostLine; dd_tokens : Z;
}.

(** *** The scores kept ([RelevanceCache]) *)
Record CacheState := mkCacheState { cached_for : option (text * text); scores : list (text * f64) }.
Definition no_scores : CacheState := mkCacheState None [].

(** *** Ordering *)
(** [f64::total_cmp], of values whose NaN is one. *)
Definition total_le (a b : f64) : bool :=
  if is_nan b then true else if is_nan a then false
  else f64_lt a b || (f64_eq a b && (is_sign_negative a || negb (is_sign_negative b))).
(** [max_by]: the last of the greatest. *)
Fixpoint greatest {A} (key : A -> f64) (best : A) (l : list A) : A :=
  match l with [] => best | x :: l => greatest key (if total_le (key best) (key x) then x else best) l end.

(** [sort_by], the comparison a strict order. *)
Fixpoint insert_before {A} (before : A -> A -> bool) (x : A) (l : list A) : list A :=
  match l with [] => [x] | y :: l => if before x y then x :: y :: l else y :: insert_before before x l end.
Definition sort_before {A} (before : A -> A -> bool) (l : list A) : list A := fold_left (fun l x => insert_before before x l) l [].

(** The largest of [low..high] the search finds to fit. *)
Fixpoint largest (fit : nat -> bool) (fuel low high : nat) : nat :=
  match fuel with
  | O => low
  | S fuel =>
      if (low <? high)%nat then
        let middle := ((low + high + 1) / 2)%nat in
        if fit middle then largest fit fuel middle high else largest fit fuel low (middle - 1)
      else low
  end.
Fixpoint least (fit : nat -> bool) (fuel low high : nat) : nat :=
  match fuel with
  | O => low
  | S fuel =>
      if (low <? high)%nat then
        let middle := ((low + high) / 2)%nat in
        if fit middle then least fit fuel low middle else least fit fuel (S middle) high
      else low
  end.

Definition keep_indices (cs : list Control) (kept : list nat) : list Control :=
  map snd (base.filter (fun ic => ic.1 ∈ kept) (imap pair cs)).

(** State the task has already set, and the page's own next link. *)
Definition protected (c : Control) : bool :=
  pager_link c || match c_value c with Some v => negb (is_empty v) | None => false end
  || bool_decide (c_checked c = Some true) || bool_decide (c_selected c = Some true) || bool_decide (c_expanded c = Some true).
Definition protected_indices (cs : list Control) : list nat := map fst (base.filter (fun ic => protected ic.2 = true) (imap pair cs)).
Definition other_indices (cs : list Control) : list nat := map fst (base.filter (fun ic => protected ic.2 = false) (imap pair cs)).
Definition protected_first (cs : list Control) (limit : nat) : list nat :=
  protected_indices cs ++ take (limit - length (protected_indices cs)) (other_indices cs).

Definition fact_marker (omitted : nat) : text :=
  nl ++ lit "[Page fact cut: " ++ show_Z (Z.of_nat omitted) ++ lit " characters omitted to fit Jev's input limit]".
Definition notes_marker (omitted : nat) : text :=
  nl ++ lit "[Notes cut: " ++ show_Z (Z.of_nat omitted) ++ lit " characters omitted to fit the request]".

Definition onscreen_rung (cs : list Control) (reduction : Reduction) : option (list Control) :=
  if negb (bool_decide (reduction = OnscreenOnly)) && negb (bool_decide (reduction = Capped)) && existsb c_offscreen cs
  then Some (base.filter (fun c => c_offscreen c = false) cs) else None.

Section Deciding.
Context `{Unicode} `{UnicodeStr} `{FloatFormat} `{Sha256} `{PercentEncoding} `{UrlParser}.

(** ** Fitting *)
Section Fitting.
Context (config : Config) (options : nat).

Definition max_offered : nat := (group_size config options * options)%nat.
Definition excess (o : Observation) (cs : list Control) (ctx : StepContext) : Z :=
  let r := build_request o cs ctx config options in len (dumps (rq_state r)) - input_chars (tokens config) (written_questions r).
Definition fitting (o : Observation) (cs : list Control) (ctx : StepContext) : bool := excess o cs ctx <=? 0.

(** *** Cutting *)
(** The actions in the order they go: values set last. *)
Definition action_order (history : list HistoryEntry) : list nat :=
  sort_by (fun i => match history !! i with
                    | Some e => if bool_decide (is_Some (h_text e)) || bool_decide (h_setting e = Some true) then 1 else 0
                    | None => 0
                    end)%nat (seq 0 (length history)).
Definition without (history : list HistoryEntry) (ctx : StepContext) (dropped : nat) : StepContext :=
  let gone := take dropped (action_order history) in
  ctx <| sc_history := map snd (base.filter (fun ie => ie.1 ∉ gone) (imap pair history)) |> <| omitted_actions ::= fun n => (n + dropped)%nat |>.
Definition fewest (o : Observation) (cs : list Control) (history : list HistoryEntry) (ctx : StepContext) : nat :=
  least (fun n => fitting o cs (without history ctx n)) (length history) 0 (length history).

Definition room_in (t : text) (excess : Z) : nat := Z.to_nat (Z.max (Z.of_nat (dumped_len t) - excess) 0).
Fixpoint cut_facts (o : Observation) (cs : list Control) (history : list HistoryEntry) (indices : list nat) (ctx : StepContext) : StepContext :=
  match indices with
  | [] => ctx
  | i :: indices =>
      let over := excess o cs (without history ctx 0) in
      if over <=? 0 then ctx
      else
        let fact := default [] (sc_page_facts ctx !! i) in
        cut_facts o cs history indices (ctx <| sc_page_facts ::= fun facts => <[i := cut_with fact (room_in fact over) true fact_marker]> facts |>)
  end.
Definition cut_offscreen (over : Z) (o : Observation) : Observation :=
  if 0 <? over then o <| offscreen_text := cut_text (offscreen_text o) (room_in (offscreen_text o) over) true |> else o.
Definition cut_viewport (over : Z) (o : Observation) : Observation :=
  if 0 <? over then o <| viewport_text := cut_text (viewport_text o) (room_in (viewport_text o) over) true |> else o.
Definition cut_notes (over : Z) (ctx : StepContext) : StepContext :=
  if 0 <? over then ctx <| sc_notes := cut_with (sc_notes ctx) (room_in (sc_notes ctx) over) true notes_marker |> else ctx.

Definition cut_texts (o : Observation) (cs : list Control) (history : list HistoryEntry) (ctx : StepContext) : Observation * StepContext :=
  let ctx := cut_facts o cs history (rev (seq 0 (length (sc_page_facts ctx)))) ctx in
  let o := cut_offscreen (excess o cs (without history ctx 0)) o in
  let o := cut_viewport (excess o cs (without history ctx 0)) o in
  (o, cut_notes (excess o cs (without history ctx 0)) ctx).

(** What was cut until the request with these controls fits; none where no cut makes it fit. *)
Definition trim (o : Observation) (cs : list Control) (original : StepContext) : option (Observation * StepContext) :=
  let history := sc_history original in
  let ctx := original <| sc_history := [] |> in
  let '(shown, ctx) :=
    if fitting o cs (without history ctx (length history)) then (o, ctx) else cut_texts o cs history ctx in
  let ctx := without history ctx (fewest shown cs history ctx) in
  let cut := negb (bool_decide (sc_page_facts ctx = sc_page_facts original)) || (length (sc_history ctx) <? length history)%nat
             || negb (teqb (sc_notes ctx) (sc_notes original)) || negb (teqb (viewport_text shown) (viewport_text o))
             || negb (teqb (offscreen_text shown) (offscreen_text o)) in
  if cut && fitting shown cs ctx then Some (shown, ctx) else None.

(** *** Fewer controls *)
Definition cap_order (cs : list Control) : list nat := protected_indices cs ++ other_indices cs.
Definition cap (o : Observation) (cs : list Control) (ctx : StepContext) : option (list Control) :=
  let kept prefix := keep_indices cs (take prefix (cap_order cs)) in
  let fits_with prefix := fitting o (kept prefix) ctx in
  if is_empty cs || negb (fits_with 0%nat) then None
  else Some (kept (largest fits_with (length cs) 0 (length cs - 1))).

(** A large request the provider sheds is asked once more without its off-screen controls. *)
Definition shed (r : Request) (cs : list Control) (reduction : Reduction) : option (list Control * Reduction) :=
  let ratio := chars_per_token (tokens config) in
  let state := f64_div (f64_of_Z (len (dumps (rq_state r)))) ratio in
  let largest := f64_div (f64_of_Z (fold_left Z.max (map len (written_questions r)) 0)) ratio in
  if f64_le (f64_add state largest) (f64_of_Z (batch_tokens (tokens config))) then None
  else (fun onscreen => (onscreen, OnscreenOnly)) <$> onscreen_rung cs reduction.
End Fitting.

(** ** Reading the answer *)
Definition invalid (m : text) : AgentError := AInvalid m.
Definition choice_answer (e : Evaluation Answer) (key : text) : Prelude.result (text * list (text * f64) * f64) AgentError :=
  match im_get key (answers e) with
  | Some (AChoice choice probabilities confidence) => Ok (choice, probabilities, confidence)
  | _ => Err (invalid (lit "Jev returned no choice for " ++ repr key))
  end.
Definition noul_of (e : Evaluation Answer) (key : text) : option f64 := im_get key (answers e) ≫= noul_probability.
Definition find_control (candidates : list Control) (id : text) : Prelude.result Control AgentError :=
  match find (fun c => teqb (c_id c) id) candidates with
  | Some c => Ok c
  | None => Err (invalid (lit "Jev chose " ++ repr id ++ lit ", which was not offered"))
  end.

(** Jev's pick, links to one address counted as one destination. *)
Definition chance (probabilities : list (text * f64)) (c : Control) : f64 := default f64_zero (im_get (c_id c) probabilities).
Definition votes (probabilities : list (text * f64)) (candidates : list Control) : list (text * f64) :=
  fold_left (fun m c => match c_href c with
                        | Some href => im_insert href (f64_add (default f64_zero (im_get href m)) (chance probabilities c)) m
                        | None => m
                        end) candidates [].
Definition vote (probabilities : list (text * f64)) (candidates : list Control) (c : Control) : f64 :=
  match c_href c with
  | Some href => default f64_zero (im_get href (votes probabilities candidates))
  | None => chance probabilities c
  end.
Definition destination_pick (candidates : list Control) (choice : text) (probabilities : list (text * f64)) : text :=
  let total := vote probabilities candidates in
  let chosen := match find (fun c => teqb (c_id c) choice) candidates with Some c => total c | None => f64_zero end in
  match candidates with
  | [] => choice
  | c :: rest => let best := greatest total c rest in if f64_gt (total best) chosen then c_id best else choice
  end.

(** [int(choice)] used as an index into [count] groups. *)
Definition group_index (choice : text) (count : nat) : Prelude.result nat AgentError :=
  match int_of (Str choice) with
  | Err _ => Err (invalid (lit "invalid literal for int() with base 10: " ++ repr choice))
  | Ok i =>
      let i := if i <? 0 then i + Z.of_nat count else i in
      if (0 <=? i) && (i <? Z.of_nat count) then Ok (Z.to_nat i) else Err (invalid (lit "list index out of range"))
  end.

(** ** Asking *)
Section Asking.
Context {W : Type} (judge : Judge W AgentError).
Notation Ask A := (Asks W AgentError A).

(** A request of the step. *)
Definition ask (r : Request) (q : list (text * Question)) : Ask (Evaluation Answer) := ask_once judge JevAction (rq_state r) q (rq_images r).

(** What the requests of one decision were billed, in order. *)
Definition Paid : Type := list CostLine * Z.
Definition pay (e : Evaluation Answer) (paid : Paid) : Paid := (paid.1 ++ [ev_cost e], paid.2 + ev_input_tokens e).

Definition pick_target (r : Request) (e : Evaluation Answer) (op : Operation) (candidates : list Control) : Prelude.result (Control * f64) AgentError :=
  let? answer := choice_answer e (target_key op) in
  let '(choice, probabilities, confidence) := answer in
  let? c := find_control candidates (destination_pick candidates choice probabilities) in
  Ok (c, confidence).
(** The group, then the element in it: a doubtful group is a doubtful target. *)
Definition pick_grouped {A} (r : Request) (e : Evaluation Answer) (group_key key : text) (groups : list A) (question : A -> Question)
  : Ask (A * f64 * Evaluation Answer * (text * f64)) :=
  let* picked := raised (choice_answer e group_key) in
  let '(choice, _, group_confidence) := picked in
  let* i := raised (group_index choice (length groups)) in
  match groups !! i with
  | None => failing (invalid (lit "list index out of range"))
  | Some group =>
      let* inner := ask r [(key, question group)] in
      let* answer := raised (choice_answer inner key) in
      let '(choice, _, confidence) := answer in
      done (group, group_confidence, inner, (choice, confidence))
  end.

Definition address_of (question : Question) (choice : text) : Prelude.result text AgentError :=
  match question with
  | QChoice q =>
      match im_get choice (ch_criteria q) with
      | Some (Str url) => Ok url
      | Some _ => Err (invalid (lit "navigation requires an address"))
      | None => Err (invalid (repr choice))
      end
  | _ => Err (invalid (lit "navigation requires caller-supplied choices"))
  end.
Definition GROUP_ADDRESS : text := UNTRUSTED ++ nl ++ lit "Choose the caller-supplied address for what the task still needs.".
Definition pick_address (r : Request) (e : Evaluation Answer) (paid : Paid) : Ask (text * f64 * Paid) :=
  if is_empty (navigation_groups r) then
    match im_get NAVIGATE_TARGET (rq_questions r) with
    | Some (QChoice q) =>
        let* answer := raised (choice_answer e NAVIGATE_TARGET) in
        let '(choice, _, confidence) := answer in
        let* url := raised (address_of (QChoice q) choice) in
        done (url, f64_mul (f64_of_Z 1) confidence, paid)
    | _ => failing (invalid (lit "navigation requires caller-supplied choices"))
    end
  else
    let* picked := pick_grouped r e NAVIGATE_GROUP NAVIGATE_TARGET (navigation_groups r) (address_question GROUP_ADDRESS) in
    let '(group, group_confidence, inner, (choice, confidence)) := picked in
    let* url := raised (address_of (address_question GROUP_ADDRESS group) choice) in
    done (url, f64_mul group_confidence confidence, pay inner paid).

(** What an operation acts on: its target, a tab or an address, and how certain it is. *)
Definition Picked : Type := option Control * option text * option text * option f64 * Paid.
Definition pick (r : Request) (e : Evaluation Answer) (op : Operation) (paid : Paid) : Ask Picked :=
  match im_get op (rq_targets r), im_get op (rq_groups r) with
  | Some candidates, _ =>
      let* c := raised (pick_target r e op candidates) in done (Some c.1, None, None, Some c.2, paid)
  | None, Some groups =>
      let* picked := pick_grouped r e (group_key op) (target_key op) groups (fun g => target_question op g (target_rules r)) in
      let '(group, group_confidence, inner, (choice, confidence)) := picked in
      let* c := raised (find_control group choice) in
      done (Some c, None, None, Some (f64_mul group_confidence confidence), pay inner paid)
  | None, None =>
      if bool_decide (op = SwitchTab) then
        let* answer := raised (choice_answer e SWITCH_TAB_TARGET) in
        done (None, Some answer.1.1, None, Some answer.2, paid)
      else if bool_decide (op = Navigate) then
        let* picked := pick_address r e paid in done (None, None, Some picked.1.1, Some picked.1.2, picked.2)
      else done (None, None, None, None, paid)
  end.

(** A drag is only as certain as the weaker of its two ends. *)
Definition pick_destination (r : Request) (e : Evaluation Answer) (paid : Paid) : Ask (Control * f64 * Paid) :=
  if is_empty (destination_groups r) then
    let* answer := raised (choice_answer e DRAG_DESTINATION) in
    let '(choice, _, confidence) := answer in
    let* c := raised (find_control (destinations r) choice) in
    done (c, confidence, paid)
  else
    let* picked := pick_grouped r e DRAG_DESTINATION_GROUP DRAG_DESTINATION (destination_groups r) destination_question in
    let '(group, group_confidence, inner, (choice, confidence)) := picked in
    let* c := raised (find_control group choice) in
    done (c, f64_mul group_confidence confidence, pay inner paid).

(** The answers to what was asked ahead of the action picked. *)
Definition answered_ahead (r : Request) (e : Evaluation Answer) (op : Operation) (target : option Control) : list (text * Answer) :=
  match target with
  | None => []
  | Some c =>
      let prefix := Operation_as_str op ++ lit ":" ++ c_id c ++ lit ":" in
      im_extend [] (omap (fun key => rest ← strip_prefix key prefix; a ← im_get key (answers e); Some (rest, a)) (im_keys (rq_questions r)))
  end.

Definition parse_operation (t : text) : option Operation := find (fun op => teqb (Operation_as_str op) t) ALL_OPERATIONS.
Definition read_operation (e : Evaluation Answer) : Prelude.result (Operation * f64) AgentError :=
  let? answer := choice_answer e OPERATION in
  let '(choice, _, confidence) := answer in
  match parse_operation choice with
  | Some op => Ok (op, confidence)
  | None => Err (invalid (repr choice ++ lit " is not a valid Operation"))
  end.

Definition evaluate (r : Request) (cs : list Control) (reduction : Reduction) : Ask Decided :=
  let* e := ask r (rq_questions r) in
  let* read := raised (read_operation e) in
  let '(op, confidence) := read in
  let* picked := pick r e op (pay e ([], 0)) in
  let '(target, tab, url, target_confidence, paid) := picked in
  let* dropped :=
    (if bool_decide (op = Drag) then
       let* d := pick_destination r e paid in
       done (Some d.1.1, Some (match target_confidence with Some t => f64_min t d.1.2 | None => d.1.2 end), d.2)
     else done (None, target_confidence, paid)) in
  let '(destination, target_confidence, paid) := dropped in
  done (mkDecided
    (mkDecision op url target tab confidence target_confidence (noul_of e LOGIN_REQUIRED) (noul_of e BOT_CHECK_KEY) (noul_of e SHOWS_ANSWER)
       (noul_of e SITE_FAILURE) destination false false [] (answered_ahead r e op target))
    (length cs) reduction paid.1 paid.2).
End Asking.

(** ** The shortlist *)
Definition relevance_state (o : Observation) (ctx : StepContext) : value :=
  Object [(lit "rules", Str RELEVANCE); (lit "task", Str (sc_task ctx)); (lit "subgoal", opt_str (subgoal ctx));
          (lit "answered_in_notes", Bool (answered_in_notes ctx)); (lit "recent_actions", Array (map history_dump (sc_history ctx)));
          (lit "page", Object [(lit "url", Str (o_url o)); (lit "title", Str (o_title o))])].
Definition relevance_question (c : Control) : Question :=
  QNoul (mkNoulQuestion (lit "Is this element relevant? " ++ dumps (Object (relevance_element c))) None None).
Definition relevance_key (i : nat) : text := lit "r" ++ show_Z (Z.of_nat i).
Definition relevance_questions (cs : list Control) : list (text * Question) :=
  map (fun ic => (relevance_key ic.1, relevance_question ic.2)) (base.filter (fun ic => protected ic.2 = false) (imap pair cs)).

(** The scores kept for this document and context, cleared when either changed. *)
Definition prepare (document : text) (state : value) (cache : CacheState) : CacheState :=
  let key := (document, write state (sorted DUMPS)) in
  if bool_decide (cached_for cache = Some key) then cache else mkCacheState (Some key) [].
Definition remember (qs : list (text * Question)) (cache : CacheState) (ka : text * Answer) : CacheState :=
  match ka.2, im_get ka.1 qs with
  | ANoul p, Some q => mkCacheState (cached_for cache) (im_insert (question_dump q) p (scores cache))
  | _, _ => cache
  end.

Definition known_answers (qs : list (text * Question)) (known : list (text * f64)) : list (text * Answer) :=
  omap (fun kq => (fun p => (kq.1, ANoul p)) <$> im_get (question_dump kq.2) known) qs.
(** Each unscored question with the first that is written as it is. *)
Definition aliases (qs : list (text * Question)) (known : list (text * Answer)) : list (text * text) :=
  (fold_left (fun m kq =>
     if im_contains kq.1 known then m
     else
       let representative := default kq.1 (im_get (question_dump kq.2) m.2) in
       (m.1 ++ [(kq.1, representative)], im_insert (question_dump kq.2) representative m.2)) qs ([], [])).1.
Definition pending (qs : list (text * Question)) (aliased : list (text * text)) : list (text * Question) :=
  base.filter (fun kq => im_get kq.1 aliased = Some kq.1) qs.
Definition spread (aliased : list (text * text)) (answers : list (text * Answer)) : list (text * Answer) :=
  fold_left (fun m kr => match im_get kr.2 m with Some a => im_insert kr.1 a m | None => m end) aliased answers.

Definition score_index (key : text) : Prelude.result nat AgentError :=
  match parse_u64 (drop 1 key) with
  | Some i => Ok (Z.to_nat i)
  | None => Err (invalid (lit "invalid literal for int() with base 10: " ++ repr (drop 1 key)))
  end.
Fixpoint scores_of (answers : list (text * Answer)) (scored : list (nat * f64)) : Prelude.result (list (nat * f64)) AgentError :=
  match answers with
  | [] => Ok scored
  | (key, ANoul p) :: answers => let? i := score_index key in scores_of answers (im_insert i p scored)
  | _ :: answers => scores_of answers scored
  end.

(** Highest first; of equals the unscored first, then as they stand. *)
Definition ranks_before (scored : list (nat * f64)) (a b : nat) : bool :=
  let score i := default (f64_of_Z 1) (im_get i scored) in
  if f64_lt (score b) (score a) then true
  else if f64_lt (score a) (score b) then false
  else match im_contains a scored, im_contains b scored with
       | false, true => true
       | true, false => false
       | _, _ => (a <? b)%nat
       end.
Definition ranked (scored : list (nat * f64)) (cs : list Control) : list nat := sort_before (ranks_before scored) (other_indices cs).

Section Rungs.
Context {W : Type} (judge : Judge W AgentError) (config : Config) (options : nat).
Definition World : Type := option CacheState * W.
Notation Ask A := (Asks World AgentError A).

Definition in_world {A} (m : Asks W AgentError A) : Ask A := fun s => let '(r, w) := m s.2 in (r, (s.1, w)).

(** The pass over what is not scored yet; what it brought is kept even where it failed. *)
Definition relevance_pass (document : text) (state : value) (qs : list (text * Question))
  : Ask (list (text * Answer) * option (Answered Answer)) := fun s =>
  let cache := prepare document state <$> s.1 in
  let known := match cache with Some c => known_answers qs (scores c) | None => [] end in
  let aliased := aliases qs known in
  let '((answered, brought), w) := j_batches judge Models.Relevance state (pending qs aliased) s.2 in
  let cache := fold_left (remember qs) brought <$> cache in
  match answered with
  | Err e => (Err e, (cache, w))
  | Ok answered =>
      let found := match answered with Some a => im_extend known (an_answers a) | None => known end in
      (Ok (spread aliased found, answered), (cache, w))
  end.

Definition offered_prefix (o : Observation) (cs : list Control) (ctx : StepContext) (order : list nat) : list Control :=
  let kept prefix := keep_indices cs (protected_indices cs ++ take prefix order) in
  let high := Nat.min (length order) (max_offered config options - length (protected_indices cs)) in
  kept (largest (fun n => fits (build_request o (kept n) ctx config options) config) (length order) 0 high).

(** The controls kept, with the bill of the pass; none where nothing was scored. *)
Definition shortlist (o : Observation) (cs : list Control) (ctx : StepContext) : Ask (option (list Control * Paid)) :=
  let* pass := relevance_pass (document_key o) (relevance_state o ctx) (relevance_questions cs) in
  let '(answers, answered) := pass in
  if is_empty answers then done None
  else
    let* scored := raised (scores_of answers []) in
    done (Some (offered_prefix o cs ctx (ranked scored cs), match answered with Some a => (an_cost a, an_input_tokens _ a) | None => ([], 0) end)).

(** ** The ladder *)
Record Ladder := mkLadder {
  l_page : Observation; l_context : StepContext; l_controls : list Control; l_reduction : Reduction; l_paid : Paid;
  shortlist_tried : bool; trimmed : bool;
}.

Definition with_choices (cs : list Control) (paid : Paid) (d : Decided) : Decided :=
  d <| dd_cost := paid.1 ++ dd_cost d |> <| dd_tokens ::= fun n => n + paid.2 |>
    <| dd_decision ::= fun d => if step_choices config then d <| d_offered := cs |> else d |>.

(** What the request itself came to: a decision, a smaller page to ask with at once, or nothing of use. *)
Definition attempt (l : Ladder) : Ask (option (Decided + Ladder)) := fun s =>
  let r := build_request (l_page l) (l_controls l) (l_context l) config options in
  if negb (fits r config) then (Ok None, s)
  else
    match in_world (evaluate judge r (l_controls l) (l_reduction l)) s with
    | (Ok d, s) => (Ok (Some (inl (with_choices (l_controls l) (l_paid l) d))), s)
    | (Err (AJev (InputTooLarge _)), s) => (Ok None, s)
    | (Err (AJev (Exhausted e)), s) =>
        match shed config r (l_controls l) (l_reduction l) with
        | None => (Err (AJev (Exhausted e)), s)
        | Some (smaller, reduced) => (Ok (Some (inr (l <| l_controls := smaller |> <| l_reduction := reduced |>))), s)
        end
    | (Err e, s) => (Err e, s)
    end.

(** The texts cut, once. *)
Definition trim_rung (l : Ladder) : Ladder * bool :=
  if trimmed l then (l, false)
  else
    let l := l <| trimmed := true |> in
    match trim config options (l_page l) (l_controls l) (l_context l) with
    | Some (o, ctx) => (l <| l_page := o |> <| l_context := ctx |> <| l_reduction := Trimmed |>, true)
    | None => (l, false)
    end.
(** The relevance pass, once. *)
Definition shortlist_rung (l : Ladder) : Ask (Ladder * bool) :=
  if shortlist_tried l then done (l, false)
  else
    let l := l <| shortlist_tried := true |> in
    let* kept := shortlist (l_page l) (l_controls l) (l_context l) in
    done (match kept with
          | Some (cs, paid) => (l <| l_controls := cs |> <| l_paid := paid |> <| l_reduction := Relevance |>, true)
          | None => (l, false)
          end).
Definition TOO_LARGE (o : Observation) : text :=
  lit "the state on " ++ o_url o ++ lit " exceeds Jev's input limits with no controls".
(** The rungs that ask nothing: off-screen controls dropped, the rest capped, or texts cut until no controls at all fit. *)
Definition last_rungs (l : Ladder) : Prelude.result Ladder AgentError :=
  match onscreen_rung (l_controls l) (l_reduction l) with
  | Some onscreen => Ok (l <| l_controls := onscreen |> <| l_reduction := OnscreenOnly |>)
  | None =>
      match cap config options (l_page l) (l_controls l) (l_context l) with
      | Some capped => Ok (l <| l_controls := capped |> <| l_reduction := Capped |>)
      | None =>
          match (if fitting config options (l_page l) [] (l_context l) then None else trim config options (l_page l) [] (l_context l)) with
          | Some (o, ctx) => Ok (l <| l_page := o |> <| l_context := ctx |>)
          | None => Err (AObservationTooLarge (TOO_LARGE (l_page l)))
          end
      end
  end.
(** One turn of the loop. *)
Definition rung (l : Ladder) : Ask (Decided + Ladder) :=
  let* tried := attempt l in
  match tried with
  | Some next => done next
  | None =>
      let '(l, again) := trim_rung l in
      if again then done (inr l)
      else
        let* short := shortlist_rung l in
        if short.2 then done (inr short.1) else match last_rungs short.1 with Ok l => done (inr l) | Err e => failing e end
  end.

Fixpoint ladder (fuel : nat) (l : Ladder) : Ask (option Decided) :=
  match fuel with
  | O => done None
  | S fuel =>
      let* next := rung l in
      match next with inl d => done (Some d) | inr l => ladder fuel l end
  end.

(** A target is picked from at most [options] groups, so a page past that is shortlisted before it is asked. *)
Definition opening_ladder (o : Observation) (ctx : StepContext) : Ask Ladder :=
  let cs := controls o in
  if (max_offered config options <? length cs)%nat then
    let* kept := shortlist o cs ctx in
    done (match kept with
          | Some (cs, paid) => mkLadder o ctx cs Relevance paid true false
          | None => mkLadder o ctx (keep_indices cs (protected_first cs (max_offered config options))) ReductionNone ([], 0) true false
          end)
  else done (mkLadder o ctx cs ReductionNone ([], 0) false false).

(** The rungs there are: the two tried once, and for each the texts cut once more and the controls dropped one at a time. *)
Definition rungs_left (l : Ladder) (most : nat) : nat :=
  (((if trimmed l then 0 else 1) + (if shortlist_tried l then 0 else 1)) * (2 * S most)
   + (if fitting config options (l_page l) [] (l_context l) then 0 else S most) + length (l_controls l))%nat.
Definition decide (o : Observation) (ctx : StepContext) : Ask (option Decided) :=
  let* l := opening_ladder o ctx in ladder (S (rungs_left l (length (controls o)))) l.
End Rungs.
End Deciding.

(** * Properties *)
(** ** What the searches find *)
(** A search that may run its course ends where the test last held and fails one past it. *)
Lemma largest_found fit fuel : forall low high, (high - low <= fuel)%nat -> (low <= high)%nat ->
  let n := largest fit fuel low high in
  (low <= n <= high)%nat /\ (n = low \/ fit n = true) /\ (n = high \/ fit (S n) = false).
Proof.
  induction fuel as [|fuel IH]; intros low high Hf Hl; cbn [largest]; [split_and!; auto; lia|].
  destruct (Nat.ltb_spec low high); [|split_and!; auto; lia].
  pose proof (Nat.div_mod_eq (low + high + 1) 2). pose proof (Nat.mod_upper_bound (low + high + 1) 2 ltac:(done)).
  set (middle := ((low + high + 1) / 2)%nat) in *. destruct (fit middle) eqn:E.
  - destruct (IH middle high) as (Hb & Hn & Hs); [lia..|]. split_and!; [lia|lia| |exact Hs]. destruct Hn as [->|Hn]; auto.
  - destruct (IH low (middle - 1)%nat) as (Hb & Hn & Hs); [lia..|]. split_and!; [lia|lia|exact Hn|].
    destruct Hs as [Hs|Hs]; [|by right]. right. rewrite Hs. by replace (S (middle - 1)) with middle by lia.
Qed.
Lemma largest_le fit fuel : forall low high, (low <= high)%nat -> (low <= largest fit fuel low high <= high)%nat.
Proof.
  induction fuel as [|fuel IH]; intros low high Hl; cbn [largest]; [lia|].
  destruct (Nat.ltb_spec low high); [|lia].
  pose proof (Nat.div_mod_eq (low + high + 1) 2). pose proof (Nat.mod_upper_bound (low + high + 1) 2 ltac:(done)).
  set (middle := ((low + high + 1) / 2)%nat) in *.
  destruct (fit middle); [pose proof (IH middle high ltac:(lia))|pose proof (IH low (middle - 1)%nat ltac:(lia))]; lia.
Qed.
Lemma least_le fit fuel : forall low high, (low <= high)%nat -> (low <= least fit fuel low high <= high)%nat.
Proof.
  induction fuel as [|fuel IH]; intros low high Hl; cbn [least]; [lia|].
  destruct (Nat.ltb_spec low high); [|lia].
  pose proof (Nat.div_mod_eq (low + high) 2). pose proof (Nat.mod_upper_bound (low + high) 2 ltac:(done)).
  set (middle := ((low + high) / 2)%nat) in *.
  destruct (fit middle); [pose proof (IH low middle ltac:(lia))|pose proof (IH (S middle) high ltac:(lia))]; lia.
Qed.
Lemma least_found fit fuel : forall low high, (high - low <= fuel)%nat -> (low <= high)%nat -> fit high = true ->
  let n := least fit fuel low high in (low <= n <= high)%nat /\ fit n = true /\ (n = low \/ fit (n - 1)%nat = false).
Proof.
  induction fuel as [|fuel IH]; intros low high Hf Hl Hh; cbn [least].
  - assert (low = high) as -> by lia. auto with lia.
  - destruct (Nat.ltb_spec low high); [|assert (low = high) as -> by lia; auto with lia].
    pose proof (Nat.div_mod_eq (low + high) 2). pose proof (Nat.mod_upper_bound (low + high) 2 ltac:(done)).
    set (middle := ((low + high) / 2)%nat) in *. destruct (fit middle) eqn:E.
    + destruct (IH low middle) as (Hb & Hn & Hs); [lia..|done|]. split_and!; auto; lia.
    + destruct (IH (S middle) high) as (Hb & Hn & Hs); [lia..|done|]. split_and!; [lia|lia|done|].
      destruct Hs as [Hs|Hs]; [|by right]. right. rewrite Hs. by replace (S middle - 1)%nat with middle by lia.
Qed.

(** ** The controls kept *)
Lemma keep_imap_sublist (cs : list Control) (kept : list nat) : forall k,
  map snd (base.filter (fun ic => ic.1 ∈ kept) (imap (fun i c => ((k + i)%nat, c)) cs)) `sublist_of` cs.
Proof.
  induction cs as [|c cs IH]; intros k; [constructor|]. rewrite imap_cons, filter_cons. specialize (IH (S k)).
  rewrite (imap_ext _ (fun i c => ((S k + i)%nat, c))) by (intros; cbn; f_equal; lia).
  case_decide; cbn [map]; [apply sublist_skip, IH|apply sublist_cons, IH].
Qed.
Lemma keep_indices_sublist cs kept : keep_indices cs kept `sublist_of` cs.
Proof. apply (keep_imap_sublist cs kept 0). Qed.
Lemma keep_indices_length cs kept : (length (keep_indices cs kept) <= length kept)%nat.
Proof.
  unfold keep_indices. rewrite length_map. rewrite <- (length_map fst). apply submseteq_length, NoDup_submseteq.
  - eapply sublist_NoDup; [|apply (fmap_sublist fst), sublist_filter]. rewrite fmap_imap.
    rewrite (imap_ext _ (fun i _ => id i)) by done. rewrite imap_seq_0, list_fmap_id. apply NoDup_seq.
  - intros i (ic & -> & Hi)%list_elem_of_fmap. by apply list_elem_of_filter in Hi as [? _].
Qed.

Lemma onscreen_rung_some cs r small : onscreen_rung cs r = Some small ->
  small `sublist_of` cs /\ (length small < length cs)%nat /\ r <> OnscreenOnly /\ r <> Capped.
Proof.
  unfold onscreen_rung. intros E'. destruct (existsb c_offscreen cs) eqn:Ex; [|by rewrite andb_false_r in E'].
  apply existsb_exists in Ex as (c & Hin%list_elem_of_In & Hc).
  assert (small = base.filter (fun c => c_offscreen c = false) cs /\ r <> OnscreenOnly /\ r <> Capped) as (-> & Hr)
    by (destruct r; try done; by injection E' as <-).
  split; [apply sublist_filter|]. split; [|done]. apply (length_filter_lt _ _ c); [done|by rewrite Hc].
Qed.

Section Laddering.
Context `{Unicode} `{UnicodeStr} `{FloatFormat} `{Sha256} `{PercentEncoding} `{UrlParser}.

(** ** The cuts *)
Section Cut.
Context (config : Config) (options : nat).

(** A page of the same address, controls, tabs and dialog, its texts perhaps shorter; a context that differs in what may be cut. *)
Definition same_page (o' o : Observation) : Prop :=
  o' = o <| viewport_text := viewport_text o' |> <| offscreen_text := offscreen_text o' |>.
Definition same_context (ctx' ctx : StepContext) : Prop :=
  ctx' = ctx <| sc_history := sc_history ctx' |> <| omitted_actions := omitted_actions ctx' |>
             <| sc_page_facts := sc_page_facts ctx' |> <| sc_notes := sc_notes ctx' |>.

Lemma same_page_trans a b c : same_page a b -> same_page b c -> same_page a c.
Proof. unfold same_page. intros Hab Hbc. rewrite Hbc in Hab. rewrite Hab. by destruct c. Qed.
Lemma same_context_trans a b c : same_context a b -> same_context b c -> same_context a c.
Proof. unfold same_context. intros Hab Hbc. rewrite Hbc in Hab. rewrite Hab. by destruct c. Qed.
Lemma same_page_refl o : same_page o o. Proof. by destruct o. Qed.
Lemma same_context_refl ctx : same_context ctx ctx. Proof. by destruct ctx. Qed.

Lemma without_same history ctx n : same_context (without history ctx n) ctx.
Proof. by destruct ctx. Qed.
Lemma cut_facts_same o cs history indices : forall ctx, same_context (cut_facts config options o cs history indices ctx) ctx
  /\ omitted_actions (cut_facts config options o cs history indices ctx) = omitted_actions ctx.
Proof.
  induction indices as [|i indices IH]; intros ctx; cbn [cut_facts]; [split; [apply same_context_refl|done]|].
  case_match; [split; [apply same_context_refl|done]|]. destruct (IH (ctx <| sc_page_facts ::= fun facts =>
    <[i := cut_with (default [] (sc_page_facts ctx !! i)) (room_in (default [] (sc_page_facts ctx !! i)) (excess config options o cs (without history ctx 0))) true fact_marker]> facts |>)) as [Hs Ho].
  split; [|rewrite Ho; by destruct ctx]. eapply same_context_trans; [exact Hs|by destruct ctx].
Qed.
Lemma cut_offscreen_same over o : same_page (cut_offscreen over o) o.
Proof. unfold cut_offscreen. case_match; by destruct o. Qed.
Lemma cut_viewport_same over o : same_page (cut_viewport over o) o.
Proof. unfold cut_viewport. case_match; by destruct o. Qed.
Lemma cut_notes_same over ctx : same_context (cut_notes over ctx) ctx /\ omitted_actions (cut_notes over ctx) = omitted_actions ctx.
Proof. unfold cut_notes. case_match; by destruct ctx. Qed.
Lemma cut_texts_same o cs history ctx o' ctx' : cut_texts config options o cs history ctx = (o', ctx') ->
  same_page o' o /\ same_context ctx' ctx /\ omitted_actions ctx' = omitted_actions ctx.
Proof.
  unfold cut_texts. intros [= <- <-].
  pose proof (cut_facts_same o cs history (rev (seq 0 (length (sc_page_facts ctx)))) ctx) as [Hf Hfo].
  set (ctx1 := cut_facts _ _ _ _ _ _ _) in *.
  split; [eapply same_page_trans; [apply cut_viewport_same|apply cut_offscreen_same]|].
  edestruct (cut_notes_same) as [Hn Hno]. split; [eapply same_context_trans; [exact Hn|exact Hf]|by rewrite Hno].
Qed.

(** *** The actions left out *)
Lemma action_order_perm history : action_order history ≡ₚ seq 0 (length history).
Proof. apply sort_by_perm. Qed.
Lemma fewest_le o cs history ctx : (fewest config options o cs history ctx <= length history)%nat.
Proof. apply least_le. lia. Qed.
Lemma without_history history ctx n :
  sc_history (without history ctx n) `sublist_of` history /\
  (length (sc_history (without history ctx n)) = length history - n)%nat /\ omitted_actions (without history ctx n) = (omitted_actions ctx + n)%nat.
Proof.
  split; [|split; [|by destruct ctx]].
  - transitivity (snd <$> imap pair history); [apply fmap_sublist, sublist_filter|]. rewrite fmap_imap, (imap_ext _ (const id)), imap_const, list_fmap_id; done.
  - transitivity (length (base.filter (fun i => i ∉ take n (action_order history)) (seq 0 (length history)))).
    + destruct ctx; unfold without, constant; cbn. rewrite length_map, <- (length_map fst).
      rewrite (filter_fst (fun i => i ∉ take n (action_order history)) _ _ (fun _ => iff_refl _)). change (map fst (imap pair history)) with (fst <$> imap pair history).
      by rewrite fmap_imap, (imap_ext _ (fun i _ => id i)), imap_seq_0, list_fmap_id.
    + pose proof (action_order_perm history) as Hp. set (order := action_order history) in *.
      rewrite <- Hp. replace (base.filter _ order) with (drop n order); [by rewrite length_drop, Hp, length_seq|].
      pose proof (filter_rest (take n order) (drop n order)) as Hr. rewrite take_drop in Hr. symmetry. apply Hr. rewrite Hp. apply NoDup_seq.
Qed.

(** What a page may be shown as: its texts cut, and of the history a part, every action left out counted. *)
Definition shown_page (page : Observation) (shown : StepContext) (o : Observation) (ctx : StepContext) : Prop :=
  same_page page o /\ same_context shown ctx /\ sc_history shown `sublist_of` sc_history ctx /\
  (omitted_actions shown + length (sc_history shown) = omitted_actions ctx + length (sc_history ctx))%nat.
Lemma shown_page_refl o ctx : shown_page o ctx o ctx.
Proof. split; [apply same_page_refl|]. split; [apply same_context_refl|done]. Qed.
Lemma shown_page_trans o1 ctx1 o2 ctx2 o3 ctx3 : shown_page o1 ctx1 o2 ctx2 -> shown_page o2 ctx2 o3 ctx3 -> shown_page o1 ctx1 o3 ctx3.
Proof.
  intros (Hp & Hc & Hs & Hn) (Hp' & Hc' & Hs' & Hn'). split; [by eapply same_page_trans|]. split; [by eapply same_context_trans|].
  split; [by etrans|lia].
Qed.

Lemma trim_shown o cs ctx o' ctx' : trim config options o cs ctx = Some (o', ctx') ->
  fitting config options o' cs ctx' = true /\ shown_page o' ctx' o ctx.
Proof.
  unfold trim. destruct (if fitting _ _ _ _ _ then _ else _) as [shown ctx1] eqn:E1. intros E2. case_match eqn:Ef; [|done].
  injection E2 as <- <-. apply andb_true_iff in Ef as [_ Ef]. split; [exact Ef|].
  assert (same_page shown o /\ same_context ctx1 (ctx <| sc_history := [] |>) /\ omitted_actions ctx1 = omitted_actions ctx) as (Hp & Hc & Ho).
  { case_match; [injection E1 as <- <-; split; [apply same_page_refl|split; [apply same_context_refl|by destruct ctx]]|].
    apply cut_texts_same in E1 as (Hp & Hc & Ho). split; [done|]. split; [done|]. rewrite Ho. by destruct ctx. }
  set (n := fewest _ _ _ _ _ _) in *. destruct (without_history (sc_history ctx) ctx1 n) as (Hs & Hl & Hn).
  split; [exact Hp|]. split; [eapply same_context_trans; [apply without_same|]; eapply same_context_trans; [exact Hc|by destruct ctx]|].
  split; [exact Hs|]. rewrite Hl, Hn, Ho. pose proof (fewest_le shown cs (sc_history ctx) ctx1). lia.
Qed.
End Cut.

(** ** The ladder ends *)
Section Ending.
Context {W : Type} (judge : Judge W AgentError) (config : Config) (options : nat).

Lemma offered_prefix_sublist o cs ctx order : offered_prefix config options o cs ctx order `sublist_of` cs.
Proof. apply keep_indices_sublist. Qed.
Lemma cap_shorter o cs ctx small : cap config options o cs ctx = Some small ->
  small `sublist_of` cs /\ (length small < length cs)%nat /\ fitting config options o small ctx = true.
Proof.
  unfold cap. intros E'. case_match eqn:E0; [done|]. injection E' as <-. apply orb_false_iff in E0 as [Ee E0]. apply negb_false_iff in E0.
  assert (0 < length cs)%nat by (destruct cs; [done|cbn; lia]).
  destruct (largest_found (fun prefix => fitting config options o (keep_indices cs (take prefix (cap_order cs))) ctx) (length cs) 0
              (length cs - 1)) as (Hb & Hn & _); [lia..|].
  split; [apply keep_indices_sublist|]. split.
  - eapply Nat.le_lt_trans; [apply keep_indices_length|]. rewrite length_take. lia.
  - destruct Hn as [->|Hn]; [exact E0|exact Hn].
Qed.

Lemma shortlist_sublist o cs ctx s kept paid s' :
  shortlist judge config options o cs ctx s = (Ok (Some (kept, paid)), s') -> kept `sublist_of` cs.
Proof.
  intros ([answers answered] & s1 & Hp & Hk)%andthen_ok. case_match; [done|].
  apply andthen_ok in Hk as (scored & s2 & _ & [= <- _ _]). apply offered_prefix_sublist.
Qed.

Lemma attempt_smaller l s l' s' : attempt judge config options l s = (Ok (Some (inr l')), s') ->
  exists small, onscreen_rung (l_controls l) (l_reduction l) = Some small /\ l' = l <| l_controls := small |> <| l_reduction := OnscreenOnly |>.
Proof.
  unfold attempt. cbv zeta. destruct (negb _); [intros [=]|].
  destruct (in_world _ s) as [[d|e] s1]; [intros [=]|]. destruct e as [d| | | | |]; [|intros [=]..].
  destruct d as [m|m|m|ex|m|b]; [intros [=]|intros [=]|intros [=]| |intros [=]..].
  destruct (shed _ _ _ _) as [[small r]|] eqn:Es; intros [= <- <-].
  unfold shed in Es. cbv zeta in Es. case_match; [done|]. apply fmap_Some in Es as (onscreen & Hs & [= -> ->]). eauto.
Qed.

(** A ladder of as few controls whose page fits bare where the other's did has no more rungs left. *)
Lemma rungs_left_fewer l' l most :
  trimmed l' = trimmed l -> shortlist_tried l' = shortlist_tried l -> l_page l' = l_page l -> l_context l' = l_context l ->
  (length (l_controls l') < length (l_controls l))%nat -> (rungs_left config options l' most < rungs_left config options l most)%nat.
Proof. unfold rungs_left. intros -> -> -> ->. lia. Qed.

Lemma trim_rung_left l l' again most : (length (l_controls l) <= most)%nat -> trim_rung config options l = (l', again) ->
  l_controls l' = l_controls l /\ shortlist_tried l' = shortlist_tried l /\
  if again then (rungs_left config options l' most < rungs_left config options l most)%nat
  else (rungs_left config options l' most <= rungs_left config options l most)%nat /\ l_reduction l' = l_reduction l.
Proof.
  intros Hm. unfold trim_rung. destruct (trimmed l) eqn:Et; [intros [= <- <-]; split_and!; auto; lia|].
  destruct (trim _ _ _ _ _) as [[o ctx]|]; intros [= <- <-]; (split; [done|split; [done|]]).
  - destruct l; unfold rungs_left, constant; cbn in *. rewrite Et. repeat case_match; lia.
  - split; [|done]. destruct l; unfold rungs_left, constant; cbn in *. rewrite Et. repeat case_match; lia.
Qed.
Lemma shortlist_rung_left l s l' again s' most : (length (l_controls l) <= most)%nat ->
  shortlist_rung judge config options l s = (Ok (l', again), s') ->
  (length (l_controls l') <= length (l_controls l))%nat /\
  if again then (rungs_left config options l' most < rungs_left config options l most)%nat
  else (rungs_left config options l' most <= rungs_left config options l most)%nat.
Proof.
  intros Hm. unfold shortlist_rung. destruct (shortlist_tried l) eqn:Et; [intros [= <- <- _]; split; lia|].
  intros (kept & s1 & Hs & Hk)%andthen_ok. destruct l, kept as [[cs paid]|]; injection Hk as <- <- _.
  - apply shortlist_sublist, sublist_length in Hs. cbn in Hs. split; [exact Hs|]. unfold rungs_left, constant; cbn in *. rewrite Et. repeat case_match; lia.
  - split; [cbn; lia|]. unfold rungs_left, constant; cbn in *. rewrite Et. repeat case_match; lia.
Qed.
Lemma last_rungs_left l l' most : (length (l_controls l) <= most)%nat -> last_rungs config options l = Ok l' ->
  (length (l_controls l') <= length (l_controls l))%nat /\ (rungs_left config options l' most < rungs_left config options l most)%nat.
Proof.
  intros Hm. unfold last_rungs. destruct (onscreen_rung _ _) as [small|] eqn:Eo.
  { intros [= <-]. apply onscreen_rung_some in Eo as (_ & Hl & _). split; [unfold constant in *; cbn in *; lia|by apply rungs_left_fewer]. }
  destruct (cap _ _ _ _ _) as [small|] eqn:Ec.
  { intros [= <-]. apply cap_shorter in Ec as (_ & Hl & _). split; [unfold constant in *; cbn in *; lia|by apply rungs_left_fewer]. }
  destruct (fitting _ _ (l_page l) [] _) eqn:Ef; [done|]. destruct (trim _ _ _ _ _) as [[o ctx]|] eqn:Et; [|done].
  intros [= <-]. apply trim_shown in Et as (Hf & _). split; [done|]. destruct l; unfold rungs_left, constant; cbn in *. rewrite Ef, Hf. lia.
Qed.

Lemma rung_left l s l' s' most : (length (l_controls l) <= most)%nat -> rung judge config options l s = (Ok (inr l'), s') ->
  (length (l_controls l') <= most)%nat /\ (rungs_left config options l' most < rungs_left config options l most)%nat.
Proof.
  intros Hm. unfold rung. intros (tried & s1 & Ha & Hk)%andthen_ok. destruct tried as [next|].
  { injection Hk as -> _. apply attempt_smaller in Ha as (small & Hs & ->). apply onscreen_rung_some in Hs as (_ & Hl & _).
    split; [unfold constant in *; cbn in *; lia|by apply rungs_left_fewer]. }
  destruct (trim_rung _ _ l) as [l1 again] eqn:Et. apply (trim_rung_left _ _ _ most) in Et as (Hc & Hst & Hl); [|done]. destruct again.
  { injection Hk as <- _. rewrite Hc. done. }
  apply andthen_ok in Hk as ([l2 again] & s2 & Hs & Hk). apply (shortlist_rung_left _ _ _ _ _ most) in Hs as (Hc2 & Hl2); [|by rewrite Hc].
  rewrite Hc in Hc2. cbn in Hk. destruct again; [injection Hk as <- _; lia|].
  destruct (last_rungs _ _ l2) as [l3|] eqn:El; [|done]. injection Hk as <- _.
  apply (last_rungs_left _ _ most) in El as (Hc3 & Hl3); lia.
Qed.

Lemma ladder_ends fuel : forall l s most, (length (l_controls l) <= most)%nat -> (rungs_left config options l most < fuel)%nat ->
  (ladder judge config options fuel l s).1 <> Ok None.
Proof.
  induction fuel as [|fuel IH]; intros l s most Hm Hf; [lia|]. cbn [ladder]. unfold andthen.
  destruct (rung _ _ _ l s) as [[[d|l']|e] s'] eqn:Er; [done| |done].
  apply (rung_left _ _ _ _ most) in Er as (Hm' & Hl); [|done]. apply (IH l' s' most); [done|lia].
Qed.

Lemma opening_ladder_sublist o ctx s l s' : opening_ladder judge config options o ctx s = (Ok l, s') ->
  l_controls l `sublist_of` controls o /\ l_page l = o /\ l_context l = ctx.
Proof.
  unfold opening_ladder. case_match; [|by intros [= <- _]]. intros (kept & s1 & Hs & Hk)%andthen_ok.
  injection Hk as <- _. destruct kept as [[cs paid]|]; cbn; (split; [|done]).
  - by apply shortlist_sublist in Hs.
  - apply keep_indices_sublist.
Qed.
End Ending.

(** C7: a step is always decided or its error reported: the page is asked with fewer and fewer controls and shorter texts, each rung of
    the ladder is taken a bounded number of times, and so the loop ends, whatever Jev answers, sheds or fails to score. *)
Theorem decide_ends {W} (judge : Judge W AgentError) config options o ctx s : (decide judge config options o ctx s).1 <> Ok None.
Proof.
  unfold decide, andthen. destruct (opening_ladder _ _ _ _ _ s) as [[l|e] s'] eqn:El; [|done].
  apply opening_ladder_sublist in El as (Hs & _). apply (ladder_ends _ _ _ _ _ _ (length (controls o))); [by apply sublist_length|lia].
Qed.
End Laddering.

(** * A decision is one the page offered *)
Section Offering.
Context `{Unicode} `{UnicodeStr} `{FloatFormat} `{Sha256} `{PercentEncoding} `{UrlParser}.
Context {W : Type} (judge : Judge W AgentError) (config : Config) (options : nat).

(** A decision of a page shown with the controls [cs]: its operation is offered, and what it acts on can take it. *)
Definition offered_decision (o : Observation) (cs : list Control) (ctx : StepContext) (d : Helpers.Decision) : Prop :=
  d_operation d ∈ offered_operations o (index_controls cs ctx) ctx (step_urls o ctx) /\
  match d_target d with
  | Some c => is_targeted (d_operation d) = true /\ c ∈ cs /\ can_take ctx (d_operation d) c
  | None => is_targeted (d_operation d) = false
  end /\
  match d_tab_id d with Some id => d_operation d = SwitchTab /\ id ∈ map tab_id (tabs o) | None => d_operation d <> SwitchTab end /\
  match d_url d with Some url => d_operation d = Navigate /\ url ∈ step_urls o ctx | None => d_operation d <> Navigate end /\
  match d_destination d with Some c => d_operation d = Drag /\ c ∈ cs /\ c_label c <> [] | None => d_operation d <> Drag end.

Lemma choice_answer_asked qs e key instructions criteria picked probabilities confidence :
  answers_all qs (answers e) -> im_get key qs = Some (choice instructions criteria) ->
  choice_answer e key = Ok (picked, probabilities, confidence) -> picked ∈ map fst criteria.
Proof.
  intros (_ & _ & Ha) Hq%im_get_elem Hc. destruct (Ha _ _ Hq) as (a & Hg & Ho). unfold choice_answer in Hc. rewrite Hg in Hc.
  destruct a; try done. injection Hc as -> -> ->. destruct Ho as (Ho & _). apply im_extend_keys in Ho as [[]%not_elem_of_nil|Ho]. done.
Qed.
Lemma find_control_in candidates id c : find_control candidates id = Ok c -> c ∈ candidates.
Proof.
  unfold find_control. destruct (find _ _) as [c'|] eqn:Ef; [|done]. intros [= ->]. apply find_some in Ef as [Hin _]. by apply list_elem_of_In.
Qed.
Lemma pick_grouped_in {A} (r : Request) e group_key key (groups : list A) question w group gc inner choice_ confidence w' :
  pick_grouped judge r e group_key key groups question w = (Ok (group, gc, inner, (choice_, confidence)), w') -> group ∈ groups.
Proof.
  unfold pick_grouped. intros (((c & p) & g) & w1 & [_ ->]%raised_ok & E)%andthen_ok.
  apply andthen_ok in E as (i & w1 & [_ ->]%raised_ok & E). destruct (groups !! i) as [group'|] eqn:Eg; [|done].
  apply andthen_ok in E as (inner' & w1 & _ & E). apply andthen_ok in E as ([[c' p'] g'] & w2 & _ & [= <- _ _ _ _ _]).
  by apply list_elem_of_lookup_2 in Eg.
Qed.
Lemma address_of_in instructions urls choice_ url : address_of (address_question instructions urls) choice_ = Ok url -> url ∈ urls.
Proof.
  unfold address_question, choice. cbn [address_of ch_criteria]. destruct (im_get choice_ _) as [v|] eqn:Eg; [|done].
  apply im_get_elem, im_extend_elem in Eg as [[]%not_elem_of_nil|Hin]. unfold indexed_text in Hin.
  apply elem_of_lookup_imap in Hin as (i & u & [= -> ->] & Hl). intros [= <-]. by apply list_elem_of_lookup_2 in Hl.
Qed.
Lemma parse_operation_str t op : parse_operation t = Some op -> Operation_as_str op = t.
Proof. intros Hf%find_some. destruct Hf as [_ Hf]. by apply teqb_spec. Qed.

Section Request.
Context (o : Observation) (cs : list Control) (ctx : StepContext).
Notation r := (build_request o cs ctx config options).
Notation offered := (offered_operations o (index_controls cs ctx) ctx (step_urls o ctx)).

Lemma read_operation_offered e op confidence : answers_all (rq_questions r) (answers e) -> read_operation e = Ok (op, confidence) -> op ∈ offered.
Proof.
  intros Ha. unfold read_operation. destruct (choice_answer e OPERATION) as [[[c p] g]|] eqn:Ec; [|done]. cbn beta iota.
  pose proof (choice_answer_asked _ _ _ _ _ _ _ _ Ha (built_operation _ _ _ _ _) Ec) as Hin. rewrite map_map in Hin. cbn [fst] in Hin.
  destruct (parse_operation c) as [op'|] eqn:Ep; [|intros [=]]. intros [= <- _]. apply parse_operation_str in Ep as <-.
  by apply list_elem_of_fmap in Hin as (op & ->%Operation_as_str_inj & Hin).
Qed.
Lemma pick_address_in e paid w url confidence paid' w' : Navigate ∈ offered ->
  pick_address judge r e paid w = (Ok (url, confidence, paid'), w') -> url ∈ step_urls o ctx.
Proof.
  intros Hin. unfold pick_address. destruct (is_empty (navigation_groups r)) eqn:Ee.
  - assert (navigation_groups r = []) as En by by destruct (navigation_groups r). rewrite (built_address _ _ _ _ _ Hin En).
    unfold address_question at 1, choice at 1. intros ([[c p] g] & w1 & [_ ->]%raised_ok & E)%andthen_ok.
    apply andthen_ok in E as (u & w1 & [Hu _]%raised_ok & [= -> _ _ _]). by apply address_of_in in Hu.
  - intros ([[[group g] inner] [c f]] & w1 & Hg & E)%andthen_ok. apply pick_grouped_in in Hg.
    apply andthen_ok in E as (u & w2 & [Hu _]%raised_ok & [= -> _ _ _]). apply address_of_in in Hu. by apply (built_navigation_groups _ _ _ _ _ _ _ Hg).
Qed.
Lemma pick_destination_in e paid w c confidence paid' w' :
  pick_destination judge r e paid w = (Ok (c, confidence, paid'), w') -> c ∈ cs /\ c_label c <> [].
Proof.
  unfold pick_destination. destruct (is_empty (destination_groups r)).
  - intros ([[k p] g] & w1 & [_ ->]%raised_ok & E)%andthen_ok. apply andthen_ok in E as (c' & w1 & [Hc _]%raised_ok & [= -> _ _ _]).
    apply find_control_in in Hc. by apply (built_destinations o cs ctx config options).
  - intros ([[[group g] inner] [k f]] & w1 & Hg & E)%andthen_ok. apply pick_grouped_in in Hg.
    apply andthen_ok in E as (c' & w2 & [Hc _]%raised_ok & [= -> _ _ _]). apply find_control_in in Hc.
    by apply (built_destination_groups o cs ctx config options group).
Qed.

Lemma pick_in e op paid w target tab url confidence paid' w' : op ∈ offered -> answers_all (rq_questions r) (answers e) ->
  pick judge r e op paid w = (Ok (target, tab, url, confidence, paid'), w') ->
  match target with Some c => is_targeted op = true /\ c ∈ cs /\ can_take ctx op c | None => is_targeted op = false end /\
  match tab with Some id => op = SwitchTab /\ id ∈ map tab_id (tabs o) | None => op <> SwitchTab end /\
  match url with Some url => op = Navigate /\ url ∈ step_urls o ctx | None => op <> Navigate end.
Proof.
  intros Hin Ha. assert (is_targeted op = true -> op <> SwitchTab /\ op <> Navigate) as Hne by (intros Ht; destruct op; split; done).
  unfold pick. destruct (im_get op (rq_targets r)) as [candidates|] eqn:Et; [|destruct (im_get op (rq_groups r)) as [groups|] eqn:Eg].
  - apply built_targets in Et as [Ht Hl]. intros ([c f] & w1 & [Hp ->]%raised_ok & [= <- <- <- _ _ _])%andthen_ok.
    destruct (Hne Ht). split; [|done]. split; [done|]. apply Hl. unfold pick_target in Hp.
    destruct (choice_answer e (target_key op)) as [[[k p] g]|]; [|done]. cbn in Hp.
    destruct (find_control _ _) as [c'|] eqn:Ec; [|done]. injection Hp as -> _. by apply find_control_in in Ec.
  - apply built_groups in Eg as [Ht Hl]. intros ([[[group g] inner] [k f]] & w1 & Hg & E)%andthen_ok. apply pick_grouped_in in Hg.
    apply andthen_ok in E as (c & w2 & [Hc _]%raised_ok & [= <- <- <- _ _ _]). apply find_control_in in Hc.
    destruct (Hne Ht). split; [|done]. split; [done|]. by apply (Hl group).
  - assert (is_targeted op = false) as Hf.
    { destruct (is_targeted op) eqn:Ht; [|done]. destruct (built_targeted o cs ctx config options op Hin Ht) as [[? Hs]|[? Hs]]; congruence. }
    destruct (base.decide (op = SwitchTab)) as [->|Hs]; [|destruct (base.decide (op = Navigate)) as [->|Hn]].
    + rewrite bool_decide_eq_true_2 by done. intros ([[k p] f] & w1 & [Hc ->]%raised_ok & [= <- <- <- _ _ _])%andthen_ok. split; [done|].
      split; [|done]. split; [done|]. apply (choice_answer_asked _ _ _ _ _ _ _ _ Ha (built_tab _ _ _ _ _ Hin)) in Hc. by rewrite map_map in Hc.
    + cbn [bool_decide]. intros ([[u f] p] & w1 & Hp & [= <- <- <- _ _ _])%andthen_ok. split; [done|]. split; [done|]. split; [done|].
      by apply pick_address_in in Hp.
    + rewrite !bool_decide_eq_false_2 by done. by intros [= <- <- <- _ _ _].
Qed.

Lemma evaluate_offered reduction w d w' : answers_the_questions judge -> evaluate judge r cs reduction w = (Ok d, w') ->
  offered_decision o cs ctx (dd_decision d).
Proof.
  intros Hj. unfold evaluate. intros (e & w1 & He & E)%andthen_ok. apply ask_answered in He as (wa & wb & He). pose proof (built_asks o cs ctx config options) as [Hnd Hl].
  apply Hj in He; [|intros Hq; pose proof (built_operation o cs ctx config options) as Ho; by rewrite Hq in Ho|exact Hnd|etrans; [apply inj_le, Hl|by vm_compute]].
  apply andthen_ok in E as ([op f] & w2 & [Hr ->]%raised_ok & E). pose proof (read_operation_offered _ _ _ He Hr) as Hin.
  apply andthen_ok in E as ([[[[target tab] url] tc] paid] & w2 & Hp & E). apply pick_in in Hp as (Ht & Htab & Hurl); [|done..].
  apply andthen_ok in E as ([[destination tc'] paid'] & w3 & Hd & [= <- _]). unfold offered_decision. cbn [dd_decision d_operation d_target d_tab_id d_url d_destination].
  split; [done|]. split; [done|]. split; [done|]. split; [done|]. destruct (base.decide (op = Drag)) as [->|Hn].
  - rewrite bool_decide_eq_true_2 in Hd by done. apply andthen_ok in Hd as ([[c g] q] & w4 & Hd & [= <- _ _ _]). split; [done|].
    by apply pick_destination_in in Hd.
  - rewrite bool_decide_eq_false_2 in Hd by done. by injection Hd as <- _ _ _.
Qed.
End Request.
End Offering.

(** ** Down the ladder *)
Section Climbing.
Context `{Unicode} `{UnicodeStr} `{FloatFormat} `{Sha256} `{PercentEncoding} `{UrlParser}.
Context {W : Type} (judge : Judge W AgentError) (config : Config) (options : nat).

(** What a page was cut from decides nothing of what it offers. *)
Lemma offered_decision_of page shown o ctx cs d : shown_page page shown o ctx -> offered_decision page cs shown d -> offered_decision o cs ctx d.
Proof. intros (Hp & Hc & _ & _). unfold same_page, same_context in *. rewrite Hp, Hc. by destruct o, ctx. Qed.

(** Each rung shows the page observed with some of its controls. *)
Definition shown_rung (o : Observation) (ctx : StepContext) (l : Ladder) : Prop :=
  l_controls l `sublist_of` controls o /\ shown_page (l_page l) (l_context l) o ctx.
Lemma fewer_controls o ctx l cs red : shown_rung o ctx l -> cs `sublist_of` l_controls l ->
  shown_rung o ctx (l <| l_controls := cs |> <| l_reduction := red |>).
Proof. intros (Hs & Hp) Hl. split; [|by destruct l]. destruct l; unfold constant in *; cbn in *. by etrans. Qed.
Lemma trim_rung_shown o ctx l l' again : shown_rung o ctx l -> trim_rung config options l = (l', again) -> shown_rung o ctx l'.
Proof.
  intros (Hs & Hp). unfold trim_rung. destruct (trimmed l) eqn:Et; [by intros [= <- _]|].
  destruct (trim _ _ _ _ _) as [[page shown]|] eqn:E; intros [= <- _]; [|by destruct l].
  apply trim_shown in E as (_ & E). destruct l; unfold constant in *; cbn in *. split; [done|]. by eapply shown_page_trans.
Qed.
Lemma shortlist_rung_shown o ctx l s l' again s' : shown_rung o ctx l -> shortlist_rung judge config options l s = (Ok (l', again), s') -> shown_rung o ctx l'.
Proof.
  intros (Hs & Hp). unfold shortlist_rung. destruct (shortlist_tried l); [by intros [= <- _ _]|].
  intros (kept & s1 & Hk & E)%andthen_ok. destruct kept as [[cs paid]|]; injection E as <- _ _; [|by destruct l].
  apply shortlist_sublist in Hk. destruct l; unfold constant in *; cbn in *. split; [by etrans|done].
Qed.
Lemma last_rungs_shown o ctx l l' : shown_rung o ctx l -> last_rungs config options l = Ok l' -> shown_rung o ctx l'.
Proof.
  intros Hl. unfold last_rungs. destruct (onscreen_rung _ _) as [small|] eqn:Eo.
  { intros [= <-]. apply fewer_controls; [done|]. by apply onscreen_rung_some in Eo as (? & _). }
  destruct (cap _ _ _ _ _) as [small|] eqn:Ec.
  { intros [= <-]. apply fewer_controls; [done|]. by apply cap_shorter in Ec as (? & _). }
  destruct (if fitting _ _ _ _ _ then _ else _) as [[page shown]|] eqn:Et; [|done]. intros [= <-]. case_match; [done|].
  apply trim_shown in Et as (_ & Et). destruct Hl as (Hs & Hp). destruct l; unfold constant in *; cbn in *. split; [done|]. by eapply shown_page_trans.
Qed.

(** A decision is of the rung it was asked at, whose request fits. *)
Definition decided_at (l : Ladder) (d : Decided) : Prop :=
  fits (build_request (l_page l) (l_controls l) (l_context l) config options) config = true /\
  offered_decision (l_page l) (l_controls l) (l_context l) (dd_decision d) /\
  dd_offered_controls d = length (l_controls l).
Lemma evaluate_counts r cs red w d w' : evaluate judge r cs red w = (Ok d, w') -> dd_offered_controls d = length cs.
Proof.
  unfold evaluate. intros (e & w1 & _ & E)%andthen_ok. apply andthen_ok in E as ([op f] & w2 & _ & E).
  apply andthen_ok in E as ([[[[target tab] url] tc] paid] & w3 & _ & E). by apply andthen_ok in E as ([[destination tc'] paid'] & w4 & _ & [= <- _]).
Qed.
Lemma attempt_decides l s d s' : answers_the_questions judge -> attempt judge config options l s = (Ok (Some (inl d)), s') -> decided_at l d.
Proof.
  intros Hj. unfold attempt. cbv zeta. destruct (fits _ _) eqn:Ef; [|intros [=]]. cbn [negb].
  destruct (in_world _ s) as [[d'|e] s1] eqn:Ei.
  - intros [= <- _]. unfold in_world in Ei. destruct (evaluate _ _ _ _ s.2) as [x w] eqn:Ee. injection Ei as -> _.
    pose proof (evaluate_offered judge config options _ _ _ _ _ _ _ Hj Ee) as Ho. apply evaluate_counts in Ee. split; [exact Ef|].
    unfold with_choices. destruct d' as [d0 n red c t]. split; [|exact Ee]. destruct d0. unfold constant. cbn. by case_match.
  - destruct e as [d'| | | | |]; [|intros [=]..]. destruct d' as [m|m|m|ex|m|b]; [intros [=]|intros [=]|intros [=]| |intros [=]..].
    destruct (shed _ _ _ _) as [[small r]|]; intros [=].
Qed.
Lemma rung_shown o ctx l s next s' : answers_the_questions judge -> shown_rung o ctx l -> rung judge config options l s = (Ok next, s') ->
  match next with inl d => decided_at l d | inr l' => shown_rung o ctx l' end.
Proof.
  intros Hj Hl. unfold rung. intros (tried & s1 & Ha & Hk)%andthen_ok. destruct tried as [next'|].
  { injection Hk as -> _. destruct next as [d|l']; [by apply attempt_decides in Ha|].
    apply attempt_smaller in Ha as (small & Hs & ->). apply fewer_controls; [done|]. by apply onscreen_rung_some in Hs as (? & _). }
  destruct (trim_rung _ _ l) as [l1 again] eqn:Et. pose proof (trim_rung_shown _ _ _ _ _ Hl Et) as H1'. destruct again.
  { by injection Hk as <- _. }
  apply andthen_ok in Hk as ([l2 again] & s2 & Hs & Hk). pose proof (shortlist_rung_shown _ _ _ _ _ _ _ H1' Hs) as H2'. cbn in Hk.
  destruct again; [by injection Hk as <- _|]. destruct (last_rungs _ _ l2) as [l3|] eqn:El; [|done]. injection Hk as <- _.
  by apply (last_rungs_shown _ _ l2).
Qed.
Lemma ladder_decides o ctx fuel : answers_the_questions judge -> forall l s d s', shown_rung o ctx l ->
  ladder judge config options fuel l s = (Ok (Some d), s') -> exists l', shown_rung o ctx l' /\ decided_at l' d.
Proof.
  intros Hj. induction fuel as [|fuel IH]; intros l s d s' Hl; cbn [ladder]; [by intros [=]|].
  intros (next & s1 & Hr & E)%andthen_ok. pose proof (rung_shown _ _ _ _ _ _ Hj Hl Hr) as Hn.
  destruct next as [d'|l']; [injection E as -> _; eauto|]. by apply (IH l' s1 d s').
Qed.

(** C6: a step's decision is one the page offers, and what it acts on can take it: from a judge that answers what it is asked, the
    operation is offered and not withheld, its target an observed control that takes it, its address one the task supplies, its tab
    open; the request it answers fits Jev's limits and shows the page observed, with some of its controls, its texts perhaps cut, and
    every action its history leaves out counted. *)
Theorem decided_was_offered o ctx s d s' : answers_the_questions judge -> decide judge config options o ctx s = (Ok (Some d), s') ->
  exists cs page shown, cs `sublist_of` controls o /\ shown_page page shown o ctx /\
    fits (build_request page cs shown config options) config = true /\ offered_decision o cs ctx (dd_decision d) /\ dd_offered_controls d = length cs.
Proof.
  intros Hj. unfold decide. intros (l & s1 & Hl & E)%andthen_ok. apply opening_ladder_sublist in Hl as (Hs & Hp & Hc).
  apply (ladder_decides o ctx _ Hj) in E as (l' & (Hs' & Hp') & Hf & Ho & Hn).
  - exists (l_controls l'), (l_page l'), (l_context l'). split_and!; [done..| |done]. by eapply offered_decision_of.
  - split; [done|]. rewrite Hp, Hc. apply shown_page_refl.
Qed.
End Climbing.

(** ** What a shortlist keeps and a cap costs *)
Lemma keep_indices_in cs kept i c : cs !! i = Some c -> i ∈ kept -> c ∈ keep_indices cs kept.
Proof.
  intros Hc Hi. unfold keep_indices. apply list_elem_of_fmap. exists (i, c). split; [done|]. apply list_elem_of_filter. split; [done|].
  apply elem_of_lookup_imap. eauto.
Qed.
Lemma protected_index cs i c : cs !! i = Some c -> protected c = true -> i ∈ protected_indices cs.
Proof.
  intros Hc Hp. unfold protected_indices. apply list_elem_of_fmap. exists (i, c). split; [done|]. apply list_elem_of_filter. split; [done|].
  apply elem_of_lookup_imap. eauto.
Qed.

Section Kept.
Context `{Unicode} `{UnicodeStr} `{FloatFormat} `{Sha256} `{PercentEncoding} `{UrlParser}.
Context (config : Config) (options : nat).

(** What the task has already set, and the page's next link, outlive a shortlist. *)
Lemma offered_prefix_keeps_protected o cs ctx order c : c ∈ cs -> protected c = true -> c ∈ offered_prefix config options o cs ctx order.
Proof.
  intros (i & Hi)%list_elem_of_lookup_1 Hp. unfold offered_prefix. apply (keep_indices_in _ _ i); [done|]. apply elem_of_app. left.
  by apply (protected_index _ _ c).
Qed.

(** A page too dense even on screen is offered with as many of its controls as fit: the cap keeps the first of them, those already
    set first, shorter than all, with a request that fits, and one more would not fit or is all there were; it gives up only where
    there is none to leave out or the texts alone do not fit. *)
Theorem cap_keeps_what_fits o cs ctx :
  match cap config options o cs ctx with
  | Some kept => exists n, (n < length cs)%nat /\ kept = keep_indices cs (take n (cap_order cs)) /\ kept `sublist_of` cs /\
      fitting config options o kept ctx = true /\
      ((n + 1 = length cs)%nat \/ fitting config options o (keep_indices cs (take (S n) (cap_order cs))) ctx = false)
  | None => cs = [] \/ fitting config options o [] ctx = false
  end.
Proof.
  unfold cap. cbv zeta. assert (keep_indices cs (take 0 (cap_order cs)) = []) as E0.
  { unfold keep_indices. by rewrite filter_dropped by (intros ic _ []%not_elem_of_nil). }
  rewrite E0. destruct (is_empty cs) eqn:Ee; [left; by destruct cs|]. cbn [orb].
  destruct (fitting config options o [] ctx) eqn:Ef; cbn [negb]; [|by right].
  assert (0 < length cs)%nat by (destruct cs; [done|cbn; lia]).
  destruct (largest_found (fun prefix => fitting config options o (keep_indices cs (take prefix (cap_order cs))) ctx) (length cs) 0
              (length cs - 1)) as (Hb & Hn & Hs); [lia..|].
  eexists. split; [|split; [reflexivity|split; [apply keep_indices_sublist|split]]].
  - lia.
  - destruct Hn as [->|Hn]; [by rewrite E0|done].
  - destruct Hs as [Hs|Hs]; [left; lia|by right].
Qed.
End Kept.

(** ** What the relevance pass asks *)
Section Scored.
Context `{Unicode} `{UnicodeStr} `{FloatFormat} `{Sha256} `{PercentEncoding} `{UrlParser}.

Definition alias_step (known : list (text * Answer)) (m : list (text * text) * list (text * text)) (kq : text * Question) :=
  if im_contains kq.1 known then m
  else
    let representative := default kq.1 (im_get (question_dump kq.2) m.2) in
    (m.1 ++ [(kq.1, representative)], im_insert (question_dump kq.2) representative m.2).

(** Each question seen is with the first that is written as it is, and each first with itself. *)
Record aliased_so_far (known : list (text * Answer)) (seen : list (text * Question)) (m : list (text * text) * list (text * text)) : Prop := {
  alias_keys : map fst m.1 = map fst (base.filter (fun kq => im_contains kq.1 known = false) seen);
  alias_written : forall k q, (k, q) ∈ seen -> im_contains k known = false ->
    exists r, (k, r) ∈ m.1 /\ im_get (question_dump q) m.2 = Some r;
  alias_first : forall d r, im_get d m.2 = Some r -> (r, r) ∈ m.1 /\ exists q, (r, q) ∈ seen /\ question_dump q = d /\ im_contains r known = false;
}.
Lemma alias_step_so_far known seen m kq : aliased_so_far known seen m -> aliased_so_far known (seen ++ [kq]) (alias_step known m kq).
Proof.
  intros [Hk Hw Hf]. unfold alias_step. destruct kq as [k q]. cbn [fst snd]. destruct (im_contains k known) eqn:Ec.
  - split.
    + rewrite Hk, filter_app, filter_cons_False by (cbn; by rewrite Ec). by rewrite filter_nil, app_nil_r.
    + intros k' q' [Hin|[= -> ->]%list_elem_of_singleton]%elem_of_app Hc; [by apply Hw|congruence].
    + intros d r Hg. destruct (Hf d r Hg) as (Hr & q' & Hin & He). split; [done|]. exists q'. split; [set_solver|done].
  - set (r := default k (im_get (question_dump q) m.2)). split; cbn [fst snd].
    + rewrite map_app, Hk, filter_app, filter_cons_True by done. by rewrite filter_nil, map_app.
    + intros k' q' [Hin|[= -> ->]%list_elem_of_singleton]%elem_of_app Hc.
      * destruct (Hw k' q' Hin Hc) as (r' & Hr' & Hg). exists r'. split; [set_solver|]. destruct (base.decide (question_dump q' = question_dump q)) as [He|Hne].
        -- rewrite He, im_get_insert_eq. subst r. by rewrite <- He, Hg.
        -- by rewrite im_get_insert_ne.
      * exists r. split; [set_solver|]. apply im_get_insert_eq.
    + intros d r' Hg. destruct (base.decide (d = question_dump q)) as [->|Hne].
      * rewrite im_get_insert_eq in Hg. injection Hg as <-. subst r. destruct (im_get (question_dump q) m.2) as [r|] eqn:Er; cbn [default].
        -- destruct (Hf _ _ Er) as (Hr & q' & Hin & He). split; [set_solver|]. exists q'. split; [set_solver|done].
        -- split; [set_solver|]. exists q. split; [set_solver|done].
      * rewrite im_get_insert_ne in Hg by done. destruct (Hf _ _ Hg) as (Hr & q' & Hin & He). split; [set_solver|]. exists q'. split; [set_solver|done].
Qed.
Lemma aliases_so_far qs known : exists written, aliased_so_far known qs (aliases qs known, written).
Proof.
  unfold aliases. change (fold_left _ qs ([], [])) with (fold_left (alias_step known) qs ([], [])).
  enough (aliased_so_far known qs (fold_left (alias_step known) qs ([], []))) as Hg.
  { destruct (fold_left (alias_step known) qs ([], [])) as [m1 m2]. by exists m2. }
  assert (forall l seen m, aliased_so_far known seen m -> aliased_so_far known (seen ++ l) (fold_left (alias_step known) l m)) as Hg.
  { induction l as [|kq l IH]; intros seen m Hm; [by rewrite app_nil_r|]. cbn [fold_left]. rewrite (cons_middle kq), app_assoc. by apply IH, alias_step_so_far. }
  apply (Hg qs []). split; [done|by intros ? ? []%not_elem_of_nil|by intros ? ? [=]].
Qed.

Section Asked.
Context (qs : list (text * Question)) (known : list (text * Answer)) (Hqs : NoDup (map fst qs)).
Lemma aliases_nodup : NoDup (im_keys (aliases qs known)).
Proof.
  destruct (aliases_so_far qs known) as [w [Hk _ _]]. unfold im_keys. cbn [fst] in Hk. rewrite Hk.
  eapply sublist_NoDup; [exact Hqs|]. apply (fmap_sublist fst), sublist_filter.
Qed.
Lemma pending_elem k q : (k, q) ∈ pending qs (aliases qs known) <-> (k, q) ∈ qs /\ (k, k) ∈ aliases qs known.
Proof.
  unfold pending. rewrite list_elem_of_filter. cbn [fst]. split.
  - intros [Ha Hq]. split; [done|by apply im_get_elem].
  - intros [Hq Ha]. split; [|done]. apply im_get_nodup; [apply aliases_nodup|done].
Qed.
Lemma asked_written_once k q k' q' : (k, q) ∈ pending qs (aliases qs known) -> (k', q') ∈ pending qs (aliases qs known) ->
  question_dump q = question_dump q' -> k = k'.
Proof.
  intros [Hq Ha]%pending_elem [Hq' Ha']%pending_elem He. destruct (aliases_so_far qs known) as [w [Hk Hw Hf]]. cbn [fst snd] in *.
  assert (forall x, (x, x) ∈ aliases qs known -> im_contains x known = false) as Hc.
  { intros x Hx. assert (x ∈ map fst (aliases qs known)) as Hin by (apply list_elem_of_fmap; by exists (x, x)). rewrite Hk in Hin.
    apply list_elem_of_fmap in Hin as ([x' qx] & -> & Hin). by apply list_elem_of_filter in Hin as [? _]. }
  destruct (Hw k q Hq (Hc _ Ha)) as (r & Hr & Hg). destruct (Hw k' q' Hq' (Hc _ Ha')) as (r' & Hr' & Hg').
  apply (im_get_nodup _ _ _ aliases_nodup) in Ha, Ha', Hr, Hr'. rewrite He in Hg. congruence.
Qed.
(** Whatever is not scored yet is asked, under its own key or its twin's. *)
Lemma asked_for k q : (k, q) ∈ qs -> im_contains k known = false ->
  exists r q', (k, r) ∈ aliases qs known /\ (r, q') ∈ pending qs (aliases qs known) /\ question_dump q' = question_dump q.
Proof.
  intros Hq Hc. destruct (aliases_so_far qs known) as [w [Hk Hw Hf]]. cbn [fst snd] in *.
  destruct (Hw k q Hq Hc) as (r & Hr & Hg). destruct (Hf _ _ Hg) as (Hrr & q' & Hq' & He & _). exists r, q'. split; [done|]. split; [|done].
  by apply pending_elem.
Qed.

(** A key that stands for itself keeps its answer; another takes its twin's. *)
Lemma spread_self l : forall found x, (forall r, (x, r) ∈ l -> r = x) -> im_get x (spread l found) = im_get x found.
Proof.
  unfold spread. induction l as [|[k r] l IH]; intros found x Hx; [done|]. cbn [fold_left fst snd]. rewrite IH by set_solver.
  destruct (im_get r found) as [a|] eqn:Er; [|done]. destruct (base.decide (x = k)) as [->|Hne]; [|by rewrite im_get_insert_ne].
  rewrite im_get_insert_eq. rewrite <- Er. f_equal. apply Hx. left.
Qed.
Lemma spread_twin l : forall found k r a, NoDup (map fst l) -> (k, r) ∈ l -> (forall r', (r, r') ∈ l -> r' = r) -> im_get r found = Some a ->
  im_get k (spread l found) = Some a.
Proof.
  unfold spread. induction l as [|[k' r'] l IH]; intros found k r a Hnd Hin Hr Ha; [by apply not_elem_of_nil in Hin|].
  apply NoDup_cons in Hnd as [Hni Hnd]. cbn [fold_left fst snd].
  apply elem_of_cons in Hin as [[= <- <-]|Hin].
  - rewrite Ha. assert (forall r', (k, r') ∉ l) as Hk by (intros r' Hin; apply Hni, list_elem_of_fmap; by exists (k, r')).
    etrans; [apply spread_self; intros r' Hin; by apply Hk in Hin|]. apply im_get_insert_eq.
  - apply (IH _ _ r); [done|done|set_solver|]. destruct (im_get r' found) as [a'|] eqn:Er'; [|done].
    destruct (base.decide (r = k')) as [->|Hne]; [|by rewrite im_get_insert_ne].
    rewrite im_get_insert_eq. rewrite (Hr r') in Er' by left. congruence.
Qed.

(** C29: relevance is asked of each distinct question once: what is asked is some of what the page asks, none of it scored already and no two
    written the same; and once those are answered every control not scored before has the answer to a question written as its own. *)
Theorem relevance_asked_once :
  let asked := pending qs (aliases qs known) in
  asked `sublist_of` qs /\ NoDup (map (fun kq => question_dump kq.2) asked) /\
  (forall k q, (k, q) ∈ asked -> im_contains k known = false) /\
  forall found, (forall k q, (k, q) ∈ asked -> is_Some (im_get k found)) ->
    forall k q, (k, q) ∈ qs -> im_contains k known = false ->
      exists r q' a, (r, q') ∈ asked /\ question_dump q' = question_dump q /\ im_get r found = Some a /\ im_get k (spread (aliases qs known) found) = Some a.
Proof.
  cbv zeta. assert (pending qs (aliases qs known) `sublist_of` qs) as Hsub by apply sublist_filter. split; [exact Hsub|]. split; [|split].
  - pose proof (fun k q k' q' => asked_written_once k q k' q') as Hone.
    assert (NoDup (pending qs (aliases qs known))) as Hnd by (eapply sublist_NoDup; [|exact Hsub]; by apply NoDup_fmap_1 in Hqs).
    assert (NoDup (map fst (pending qs (aliases qs known)))) as Hnk by (eapply sublist_NoDup; [exact Hqs|by apply (fmap_sublist fst)]).
    apply NoDup_fmap_2_strong; [|exact Hnd]. intros [k q] [k' q'] Hin Hin' He. cbn in He. pose proof (Hone _ _ _ _ Hin Hin' He) as ->. f_equal.
    apply (im_get_nodup _ _ _ Hnk) in Hin, Hin'. congruence.
  - intros k q [_ Ha]%pending_elem. destruct (aliases_so_far qs known) as [w [Hk _ _]]. cbn [fst] in Hk.
    assert (k ∈ map fst (aliases qs known)) as Hin by (apply list_elem_of_fmap; by exists (k, k)). rewrite Hk in Hin.
    apply list_elem_of_fmap in Hin as ([x qx] & -> & Hin). by apply list_elem_of_filter in Hin as [? _].
  - intros found Hfound k q Hq Hc. destruct (asked_for k q Hq Hc) as (r & q' & Hr & Ha & He). destruct (Hfound _ _ Ha) as [a Hfa].
    exists r, q', a. split; [done|]. split; [done|]. split; [done|]. apply (spread_twin _ _ _ r); [apply aliases_nodup|done| |done].
    apply pending_elem in Ha as [_ Hrr]. intros r' Hr'. apply (im_get_nodup _ _ _ aliases_nodup) in Hrr, Hr'. congruence.
Qed.
End Asked.
End Scored.

(** * Cases *)
Section Examples.
#[local] Existing Instances ascii_unicode ascii_unicode_str exact_format plain_digest plain_parser.
#[local] Instance literal_percent : PercentEncoding := {| utf8_percent_encode _ t := t |}.

Definition UNASKED : AgentError := AInvalid (lit "unasked").
Definition shop : Observation := sample "page" "N1 9GU".
Definition shop_step : StepContext := new_context (lit "Go to the shop").

(** The first operation offered is the button's. *)
Lemma first_decision : match (decide (first_judge UNASKED) default_config 100 shop shop_step (None, tt)).1 with
  | Ok (Some d) => Some (d_operation (dd_decision d), c_id <$> d_target (dd_decision d)) | _ => None end = Some (Click, Some (lit "c2")).
Proof. by vm_compute. Qed.
Theorem decided_was_offered_witness :
  exists d s', decide (first_judge UNASKED) default_config 100 shop shop_step (None, tt) = (Ok (Some d), s') /\
    d_operation (dd_decision d) = Click /\ c_id <$> d_target (dd_decision d) = Some (lit "c2") /\
    exists cs page shown, cs `sublist_of` controls shop /\ shown_page page shown shop shop_step /\
      fits (build_request page cs shown default_config 100) default_config = true /\
      offered_decision shop cs shop_step (dd_decision d) /\ dd_offered_controls d = length cs.
Proof.
  destruct (decide (first_judge UNASKED) default_config 100 shop shop_step (None, tt)) as [r s'] eqn:Er.
  pose proof first_decision as Hr. rewrite Er in Hr. destruct r as [[d|]|]; [|done..]. injection Hr as Ho Ht.
  exists d, s'. split; [done|]. split; [done|]. split; [done|].
  by apply (decided_was_offered (first_judge UNASKED) default_config 100 shop shop_step (None, tt) d s' (first_judge_answers _)).
Defined.

(** Two buttons that read alike are asked about once. *)
Definition twins : list Control := [new_control (lit "1") (lit "button") (lit "Add") [Click]; new_control (lit "2") (lit "button") (lit "Add") [Click];
  new_control (lit "3") (lit "link") (lit "Terms") [Click]].
Theorem relevance_asked_once_witness :
  NoDup (map fst (relevance_questions twins)) /\
  map fst (pending (relevance_questions twins) (aliases (relevance_questions twins) [])) = [lit "r0"; lit "r2"] /\
  let asked := pending (relevance_questions twins) (aliases (relevance_questions twins) []) in
  NoDup (map (fun kq => question_dump kq.2) asked).
Proof.
  assert (NoDup (map fst (relevance_questions twins))) as Hnd by (apply (bool_decide_unpack _); by vm_compute).
  split; [exact Hnd|]. split; [by vm_compute|]. by destruct (relevance_asked_once (relevance_questions twins) [] Hnd) as (_ & Ho & _).
Defined.

(** The controls that hold what the task set are offered however many groups they make: two fields that hold values, where one group of
    one choice is all Jev takes, make a group question of two choices. *)
Definition filled : Observation :=
  shop <| controls := [sample_field (lit "N1"); (sample_field (lit "N2")) <| c_id := lit "c3" |>] |>.
Example protected_past_the_limit :
  let config := default_config in
  match opening_ladder (first_judge UNASKED) config 1 filled shop_step (None, tt) with
  | (Ok l, _) =>
      length (l_controls l) = 2%nat /\ max_offered config 1 = 1%nat /\
      match im_get (group_key Fill) (rq_questions (build_request (l_page l) (l_controls l) (l_context l) config 1)) with
      | Some (QChoice q) => length (ch_criteria q) = 2%nat
      | _ => False
      end
  | _ => False
  end.
Proof. by vm_compute. Qed.
End Examples.
