(* ===== verification/Finishing.v ===== *)
(** How a run ends: [crates/fastbrowse-agent/src/agent/finishing.rs], with [stopped] and [ending_frame] of [agent/mod.rs].

    [finish] is the DONE of a run: what is refused, what is still read, and [conclude_attempt], which writes the answer
    from the notes and reviews it (Composing.v, whose requests are [models] over the run state).  [stopped] is the result
    of a run a step stopped.  [Ender] is the rest of what ending asks: the filling of a caller's schema
    (its reading of the page is not modelled yet), the caller's condition on the last page, and whether a last frame comes in time. *)

From stdpp Require Import gmap relations.
From coqutil Require Import Datatypes.RecordSetters.
From S2P Require Import Prelude Float64 PyText Json DateTime Lax Models Ledger Config Page Origins Secrets Redactor Effects Notes NotesText Citations Answers Composing Decision Helpers Recipe Pyre Spans RunState Seeing Recovery Acting Driving Reporting.

Import TriangleBracketNotations.
Open Scope step_scope.
#[local] Existing Instance table_reader.

(** A caller's schema, filled. *)
Record Extraction := mkExtraction { x_data : option value; x_evidence : list Evidence; x_problem : option text }.

Record Ender := mkEnder {
  n_extract : option (RunState -> Capture -> Prelude.result Extraction (Flow AgentError));
  n_until : option (RunState -> text -> bool);
  n_timely : RunState -> bool;
}.

(** Each address and quote cited once, the first of them standing. *)
Definition cited_once (evidence : list Evidence) : list Evidence :=
  map snd (fold_left (fun m e =>
    let key := (e_url e, quote e) in if im_contains key m then m else m ++ [(key, e)]) evidence []).

Section Finishing.
Context `{Unicode} `{UnicodeStr} `{FloatFormat} `{F64Display} `{Sha256} `{PercentEncoding} `{UrlParser} `{UrlFragment} `{ValueText}
        `{JsonBytes} `{JsonReader}.
Notation E := AgentError.
Context (outside : Outside E) (page : PageSeam) (hands : Hands E) (driver : Driver E) (config : Config)
        (models reporting : Answers.Models RunState (Flow E)) (reporter : Reporter) (ender : Ender).

Definition pictured (i : OutputIntent) : bool := match i with IntentImage | IntentTextAndImage => true | _ => false end.
Definition tells (i : OutputIntent) : bool := match i with IntentText | IntentTextAndImage => true | _ => false end.
Definition no_schema : bool := match n_extract ender with None => true | Some _ => false end.

(** ** The last frame *)
(** Taken, checked for secrets, where the caller asks for frames or the task for a picture. *)
Definition ending_frame (r : RunResult) (requested : bool) (s : RunState) : RunResult * RunState :=
  if negb (step_frames config || requested) then (r, s)
  else
    let '(taken, s') := frame (E := E) page s in
    let shown := match taken with Ok shown => if n_timely ender s then shown else None | Err _ => None end in
    let r := r <| final_frame := shown |> in
    if requested && bool_decide (shown = None) && bool_decide (rr_status r = Complete)
    then (r <| rr_status := Unverified |> <| rr_error := Some (lit "The requested final screenshot could not be captured.") |>, s')
    else (r, s').

Definition framed (r : RunResult) (requested : bool) : Step E RunResult := fun s =>
  let '(r, s) := ending_frame r requested s in (Ok r, s).

(** ** Concluding *)
Definition observe_if_changed (o : Observation) : Step E unit :=
  let! raw := raw_or o in
  let! changed := call_or_stop Checked (fun s => p_document_changed page s raw) in
  if changed then (observe page ;; ret tt) else ret tt.

(** The notes as an answer, and what a rejected draft is told. *)
Definition composed_answer (intent : OutputIntent) : Step E (option ComposedAnswer * option text) := fun s =>
  let n := notes_to_compose (reading s) in
  (let! chosen := match composition_feedback s with None => verdict models (task s) n | Some _ => ret None end in
   match chosen with
   | Some a => ret (Some a, None)
   | None =>
       let! reviewed := compose_reviewed models (task s) n (composition_feedback s) (negb (bool_decide (intent = IntentCarriedOut))) in
       ret (Some (rc_answer reviewed), rc_rejection reviewed)
   end) s.
Definition draft_fell_short (r : ReviewedComposition) : bool :=
  bool_decide (is_Some (rc_rejection r)) || bool_decide (is_Some (Answers.problem (rc_answer r))).
Definition picked_answer : Step E (option ComposedAnswer * option text) := fun s =>
  (let! reviewed := draft_reviewed models (task s) (notes (reading s)) in
   match reviewed with
   | None => ret (None, None)
   | Some r =>
       modify (fun s => s <| reading -> RunState.compose ::= fun c => c || draft_fell_short r |>) ;;
       ret (Some (rc_answer r), rc_rejection r)
   end) s.
Definition written_answer (intent : OutputIntent) : Step E (option ComposedAnswer * option text) := fun s =>
  if bool_decide (intent = IntentImage) then (Ok (None, None), s)
  else if RunState.compose (reading s) then composed_answer intent s
  else if tells intent then picked_answer s
  else (Ok (draft_answer (notes (reading s)), None), s).

(** The same draft rejected again. *)
Definition repeated (before now : option text) : bool :=
  match before, now with
  | Some before, Some now =>
      match drafted before with Some claims => bool_decide (drafted now = Some claims) | None => false end
  | _, _ => false
  end.
Definition send_back (o : Observation) (a : option ComposedAnswer) (rejection : text) : Step E unit := fun s =>
  let why := rejection_reason rejection in
  (modify (fun s => s <| composition_feedback := Some rejection |>) ;;
   modify (fun s =>
     match a with
     | Some a => if is_empty (ca_claims a) then s
                 else s <| composition_partial := Some (a, composition_sources (notes_to_compose (reading s))) |>
     | None => s
     end) ;;
   recover outside page config o why Unverified (performed None)) s.

Definition UNREAD_PART (unread : text) : text :=
  lit "The list continues at " ++ unread ++ lit ", which this run did not read, so the answer covers only part of it.".

(** What a run concludes: its answer, then the list it left unread, then the schema's own shortfall. *)
Definition conclusion (s : RunState) (a : option ComposedAnswer) (x : option Extraction) (evidence : list Evidence) : Status * Outcome :=
  let answer_problem := a ≫= Answers.problem in
  let a := match answer_problem, checked_composition s (notes_to_compose (reading s)) with
           | Some _, Some partial => Some (marked_partial partial)
           | _, _ => a
           end in
  let '(shown, links) := match a with Some a => public_answer (redactor s) a | None => ([], []) end in
  let '(status, error) := match answer_problem with Some p => (Unverified, Some p) | None => (Complete, None) end in
  let '(status, error) :=
    match (if every_page (pager s) then head (unread_list_pages (pager s) (reading s)) else None) with
    | Some unread => (Unverified, Some (default (redact (redactor s) (UNREAD_PART unread)) error))
    | None => (status, error)
    end in
  let '(status, error) :=
    match x ≫= x_problem with
    | Some p => (Unverified, Some (default (redact (redactor s) p) error))
    | None => (status, error)
    end in
  let evidence := evidence ++ match x with Some x => x_evidence x | None => [] end in
  (status,
   mkOutcome (if is_empty shown then None else Some shown) (default Null (x ≫= x_data)) (cited_once evidence) links error None None).

Definition extraction : Step E (option Extraction) :=
  match n_extract ender with
  | None => ret None
  | Some extract => let! c := capture page in let! x := lift (fun s => extract s c) in ret (Some x)
  end.

(** An answer with no problem leaves no draft behind. *)
Definition forget_drafts (a : option ComposedAnswer) (s : RunState) : RunState :=
  match a with
  | Some a => match Answers.problem a with
              | None => s <| composition_feedback := None |> <| composition_partial := None |>
              | Some _ => s
              end
  | None => s
  end.

Definition conclude_attempt (o : Observation) (recover_rejection : bool) : Step E (option RunResult) :=
  let! intent := ask_output_intent outside hands config in
  (if negb (bool_decide (intent = IntentImage)) && no_schema then read_drawn_page outside page o else ret tt) ;;
  let! evidence := get (fun s => map snd (evidence_by_id (notes (reading s)))) in
  let! x := extraction in
  let! wrote := written_answer intent in
  let! rejection := get (fun s => redact (redactor s) <$> wrote.2) in
  let! again := get (fun s => repeated (composition_feedback s) rejection) in
  match (if recover_rejection && no_schema && negb again then rejection else None) with
  | Some rejection => send_back o wrote.1 rejection ;; ret None
  | None =>
      modify (forget_drafts wrote.1) ;;
      let! concluded := get (fun s => conclusion s wrote.1 x evidence) in
      let! observed := get observed_page in
      (match observed with Some seen => observe_if_changed seen | None => ret tt end) ;;
      let! r := get (fun s => result reporter s true concluded.1 concluded.2) in
      let! r := framed r (pictured intent) in
      ret (Some r)
  end.

(** ** DONE *)
(** A form filled and left unsent is an ending of its own where the task said to stop and ask. *)
Definition confirm_unsent (o : Observation) : Step E unit := fun s =>
  match unsent_fact (RunState.history s) o with
  | None => (Ok tt, s)
  | Some unsent =>
      (let! confirms := stops_to_confirm outside hands config o in
       if confirms then fails (FlowStop (new_stop NeedsConfirmation unsent)) else ret tt) s
  end.

(** Whether any step carried something out: reading, scrolling, hovering and waiting do not. *)
Definition carries_out (e : HistoryEntry) : bool :=
  bool_decide (h_outcome e = Executed)
  && match h_operation e with
     | None => false
     | Some op => negb (bool_decide (op ∈ [Read; Scroll; ScrollUp; Hover; Wait]))
     end.
Definition acted (s : RunState) : bool := existsb carries_out (RunState.history s).

Definition NOT_CARRIED_OUT : text := lit "The task asks for something to be carried out, and no step has done it.".
Definition STEPS_LEFT : text := lit "A step the task asks to be carried out has not been done, so it is not done.".
Definition NOTHING_READ : text := lit "Nothing read so far answers the task, so it is not done.".
Definition NOT_REACHED : text := lit "The caller's until condition failed on this page.".

(** True where the DONE is refused and the run goes back to work. *)
Definition refuse (o : Observation) (why : text) : Step E bool := recover outside page config o why Stuck (performed DONE) ;; ret true.

(** What was read did not carry anything out, so it answers nothing yet. *)
Definition refuse_unacted (o : Observation) (intent : OutputIntent) : Step E bool := fun s =>
  if negb (acted s) && no_schema && bool_decide (intent = IntentCarriedOut) then
    (modify (fun s => s <| reading -> notes := empty_notes |> <| to_carry_out := true |>) ;;
     if h_over_http hands then browser_needed NOT_CARRIED_OUT else refuse o NOT_CARRIED_OUT) s
  else (Ok false, s).
Definition refuse_undone (o : Observation) : Step E bool := fun s =>
  if acted s then (let! all := actions_done outside hands config o in if all then ret false else refuse o STEPS_LEFT) s else (Ok false, s).

(** What a DONE never read, or read before its page changed, is read first. *)
Definition read_unread (o : Observation) (intent : OutputIntent) : Step E unit := fun s =>
  let unread := negb (bool_decide (read_documents (reading s) !! read_key o = Some false)) in
  if negb (bool_decide (intent = IntentImage)) && no_schema
     && (is_empty (facts (notes (reading s))) || (negb (is_empty (document_key o)) && unread))
  then (let! c := capture page in read page driver c o (RunState.compose (reading s)) ;; ret tt) s
  else (Ok tt, s).
(** A failed page with nothing read is that failure. *)
Definition end_as_failure (o : Observation) : Step E unit := fun s =>
  match site_failure (site s) with
  | Some f => if is_empty (facts (notes (reading s))) && teqb (sf_url f) (o_url o) then (Err (FlowStop (failure_stop f)), s) else (Ok tt, s)
  | None => (Ok tt, s)
  end.

(** A next page a whole-list task left unread, opened as a step the run's code chose. *)
Definition open_decision (next : text) : Decision :=
  mkDecision Navigate (Some next) None None (f64_of_Z 1) None None None None None None false true [] [].
Definition open_unread_page (o : Observation) (next : text) : Step E unit := fun s =>
  let s := s <| pager ::= fun p => follow_pager_page p next |> in
  match step outside page hands driver config o (open_decision next) s with
  | (Err (FlowUnsure u), s) => recover outside page config o (u_reason u) (gives_up_as u) (performed None) s
  | done => done
  end.
Definition unread_next (s : RunState) : option text :=
  if no_schema && every_page (pager s) then unread_pager_page (pager s) (reading s) else None.

Definition refuse_unread (o : Observation) (intent : OutputIntent) : Step E bool := fun s =>
  if no_schema && is_empty (facts (notes (reading s))) && tells intent then refuse o NOTHING_READ s else (Ok false, s).

Definition reached_end (o : Observation) (s : RunState) : bool :=
  match n_until ender with Some until => until s (match raw_page s with Some raw => o_url raw | None => o_url o end) | None => true end.
Definition not_reached (o : Observation) : Step E unit :=
  modify (fun s => s <| RunState.history ::= fun h => h ++ [(new_entry (Some Done) None Failed false) <| h_effect := Some NOT_REACHED |>] |>) ;;
  record_failure page hands config o Done NOT_REACHED None None None DeciderCode ;;
  count_progress outside page config false o (performed DONE) Stuck.

(** The result of a DONE, or none where the run goes back to work. *)
Definition conclude_done (o : Observation) : Step E (option RunResult) :=
  let! concluded := conclude_attempt o true in
  match concluded with
  | None => ret None
  | Some r =>
      let! reached := get (reached_end o) in
      if reached then ret (Some r) else (not_reached o ;; ret None)
  end.
Definition finish_read (o : Observation) (intent : OutputIntent) : Step E (option RunResult) :=
  read_unread o intent ;;
  end_as_failure o ;;
  (if negb (bool_decide (intent = IntentImage)) && no_schema then read_drawn_page outside page o else ret tt) ;;
  let! next := get unread_next in
  match next with
  | Some next => open_unread_page o next ;; ret None
  | None => let! back := refuse_unread o intent in if back then ret None else conclude_done o
  end.
Definition PICTURE_NEEDED : text := lit "The requested output needs a screenshot of the rendered page.".
Definition finish (o : Observation) : Step E (option RunResult) :=
  confirm_unsent o ;;
  let! intent := ask_output_intent outside hands config in
  (if pictured intent && h_over_http hands then browser_needed PICTURE_NEEDED else ret tt) ;;
  let! back := refuse_unacted o intent in
  if back then ret None
  else
    let! back := refuse_undone o in
    if back then ret None else finish_read o intent.

(** ** A run a step stopped *)
(** A stop for a limit keeps the limit; a clock stop of the loop has none of its own. *)
Definition stop_budget (stop : Stop) (exhausted : option BudgetStop) : option BudgetStop :=
  match exhausted with
  | Some b => Some b
  | None => if bool_decide (st_status stop = StatusBudgetExceeded)
            then Some (mkBudgetStop Seconds (default f64_zero (max_seconds (r_limits reporter)))) else None
  end.
Definition wrote_claims (composed : Prelude.result ComposedAnswer (Flow E)) : option ComposedAnswer :=
  match composed with Ok a => if is_empty (ca_claims a) then None else Some a | Err _ => None end.

(** What was read is still cited evidence: it is composed once more where it has to be. *)
Definition report_read (stop : Stop) (error : option text) (budget : option BudgetStop) (s : RunState) : RunResult * RunState :=
  let n := if RunState.compose (reading s) then notes_to_compose (reading s) else notes (reading s) in
  let '(composed, s) := if RunState.compose (reading s) then Composing.compose reporting (task s) n s
                        else (Err (FlowStop stop), s) in
  match wrote_claims composed with
  | Some a =>
      if bool_decide (st_status stop = Unverified) && bool_decide (Answers.problem a = None)
      then ending_frame (answered reporter a n s true Complete None None) (bool_decide (output_intent s = IntentTextAndImage)) s
      else (answered reporter (marked_partial a) n s true (st_status stop) error budget, s)
  | None => (partial_result reporter n s true (st_status stop) error budget, s)
  end.
Definition reports_read (stop : Stop) (s : RunState) : bool :=
  bool_decide (st_status stop ∈ [Stuck; Unverified; StatusBudgetExceeded]) && negb (is_empty (evidence_by_id (notes (reading s)))).
Definition stopped_run (stop : Stop) (exhausted : option BudgetStop) (s : RunState) : RunResult * RunState :=
  let error := redact (redactor s) <$> st_error stop in
  let budget := stop_budget stop exhausted in
  match checked_composition s (notes_to_compose (reading s)) with
  | Some partial =>
      let r := answered reporter (marked_partial partial) (notes_to_compose (reading s)) s true (st_status stop) error budget in
      (r <| rr_wall := wall reporter s stop |> <| rr_evidence ::= fun l => l ++ st_evidence stop |>, s)
  | None =>
      if reports_read stop s then report_read stop error budget s
      else (result reporter s true (st_status stop)
              (mkOutcome None Null (st_evidence stop) [] error budget (wall reporter s stop)), s)
  end.
Definition stopped_early (stop : Stop) (exhausted : option BudgetStop) (s : RunState) : RunResult :=
  result reporter s false (st_status stop)
    (mkOutcome None Null (st_evidence stop) [] (redact (redactor s) <$> st_error stop) exhausted (wall reporter s stop)).

Definition browser_outage (e : BrowserError) (begun : bool) : bool :=
  match e with
  | BrowserUnavailable _ | PageUnresponsive _ => true
  | NavigationTimeout _ | SiteUnreachable _ => negb begun
  | _ => false
  end.
(** The result of a run a step stopped: the error the loop raised, as the status it means. *)
Definition stopped (f : Flow E) (begun : bool) (s : RunState) : RunResult * RunState :=
  let stop_as stop exhausted := if begun then stopped_run stop exhausted s else (stopped_early stop exhausted s, s) in
  match f with
  | FlowAgent (ABudget e) => stop_as (new_stop StatusBudgetExceeded (reason e)) (Some (budget e))
  | FlowStop stop => stop_as stop None
  | FlowAgent (ANotesTooLarge m) =>
      (partial_result reporter (begun_notes s begun) s begun ObservationLimit (Some (redact (redactor s) m)) None, s)
  | FlowAgent (AObservationTooLarge m) => (partial_result reporter (begun_notes s begun) s begun ObservationLimit (Some m) None, s)
  | FlowBrowser e => (failed reporter (BrowserError_text e) (browser_outage e begun) s begun, s)
  | FlowAgent e => (failed reporter (AgentError_text e) (AgentError_unavailable e) s begun, s)
  | FlowUnsure u => (failed reporter (u_reason u) false s begun, s)
  end.
End Finishing.

(** * Properties *)
(** ** Asking leaves the page alone *)
(** What answering asks of Jev, the LLM and the ledger happens away from the page. *)
Class Offstage (models : Answers.Models RunState (Flow AgentError)) : Prop := {
  judge_offstage v qs s : kept (m_judge models v qs s).2 = kept s;
  ask_offstage v qs s : kept (m_ask models v qs s).2 = kept s;
  write_offstage messages s : kept (m_write models messages s).2 = kept s;
  context_offstage s : kept (m_context models s).2 = kept s;
}.

Section AskQuiet.
Context `{Unicode} `{UnicodeStr} `{FloatFormat} `{Sha256} `{PercentEncoding} `{ValueText} `{JsonBytes} `{JsonReader}.
Notation Asking A := (Answers.Asks RunState (Flow AgentError) A).
Context (models : Answers.Models RunState (Flow AgentError)) `{!Offstage models}.

Definition hushed {A} (m : Asking A) : Prop := forall s v, kept s = v -> kept (m s).2 = v.
Lemma hushed_run {A} (m : Asking A) s v : hushed m -> kept s = v -> kept (m s).2 = v.
Proof. intros Hm. apply Hm. Qed.
Lemma hushed_andthen {A B} (m : Asking A) (k : A -> Asking B) s v :
  kept (m s).2 = v -> (forall a s', kept s' = v -> kept (k a s').2 = v) -> kept (andthen m k s).2 = v.
Proof. unfold andthen. intros Hm Hk. destruct (m s) as [[a|e] s']; [by apply Hk|done]. Qed.
End AskQuiet.

Ltac hushed_one :=
  match goal with
  | |- kept (andthen _ _ _).2 = _ => apply hushed_andthen; [| intros ? ? ?]
  | |- kept (done _ _).2 = _ => unfold done; cbn [snd]
  | |- kept (failing _ _).2 = _ => unfold failing; cbn [snd]
  | |- kept (_, _).2 = _ => cbn [snd]
  | |- kept (match ?x with _ => _ end).2 = _ => destruct x eqn:?
  | |- kept (match ?x with _ => _ end _).2 = _ => destruct x
  | |- kept (let _ := _ in _).2 = _ => cbv zeta
  | |- kept _ = _ => quiet_leaf
  | |- kept (_ _).2 = _ => apply hushed_run; [solve [auto with quiet]|]
  | |- kept ((fun _ => _) _).2 = _ => cbv beta
  end.
Ltac hushed_all := intros ? ? ?; repeat hushed_one.

Section Hushed.
Context `{Unicode} `{UnicodeStr} `{FloatFormat} `{Sha256} `{PercentEncoding} `{ValueText} `{JsonBytes} `{JsonReader}.
Context (models : Answers.Models RunState (Flow AgentError)) `{!Offstage models}.

Lemma judge_or_none_hushed state qs : hushed (judge_or_none models state qs).
Proof.
  intros s v <-. unfold judge_or_none. pose proof (judge_offstage state qs s) as Hj.
  destruct (m_judge models state qs s) as [[a|[m|e]] s']; exact Hj.
Qed.
Lemma judge_or_say_hushed state qs : hushed (judge_or_say models state qs).
Proof.
  intros s v <-. unfold judge_or_say. pose proof (judge_offstage state qs s) as Hj.
  destruct (m_judge models state qs s) as [[a|[m|e]] s']; exact Hj.
Qed.
Lemma ask_hushed state qs : hushed (m_ask models state qs).
Proof. intros s v <-. apply ask_offstage. Qed.
Lemma write_hushed messages : hushed (m_write models messages).
Proof. intros s v <-. apply write_offstage. Qed.
#[local] Hint Resolve judge_or_none_hushed judge_or_say_hushed ask_hushed write_hushed : quiet.

Lemma counted_records_hushed task c stated n : hushed (counted_records models task c stated n).
Proof. unfold counted_records. hushed_all. Qed.
#[local] Hint Resolve counted_records_hushed : quiet.
Lemma miscount_hushed task n pass i c : hushed (miscount models task n pass i c).
Proof. unfold miscount. hushed_all. Qed.
#[local] Hint Resolve miscount_hushed : quiet.
Lemma miscounts_from_hushed task n pass claims : forall i, hushed (miscounts_from models task n pass i claims).
Proof. induction claims as [|c claims IH]; intros i; cbn [miscounts_from]; hushed_all. Qed.
#[local] Hint Resolve miscounts_from_hushed : quiet.
Lemma review_claims_hushed task columns claims n require : hushed (review_claims models task columns claims n require).
Proof. unfold review_claims. hushed_all. Qed.
#[local] Hint Resolve review_claims_hushed : quiet.

Lemma compose_part_hushed task items : hushed (compose_part models task items).
Proof. unfold compose_part. hushed_all. Qed.
#[local] Hint Resolve compose_part_hushed : quiet.
Lemma compose_parts_hushed task parts : forall columns claims, hushed (compose_parts models task parts columns claims).
Proof. induction parts as [|part parts IH]; intros columns claims; cbn [compose_parts]; hushed_all. Qed.
#[local] Hint Resolve compose_parts_hushed : quiet.
Lemma compose_rounds_hushed task limit : forall parts (Ha : Acc smaller (packed_size parts)), hushed (compose_rounds models task limit parts Ha).
Proof.
  enough (Hall : forall size, Acc smaller size -> forall parts, size = packed_size parts -> forall Ha, hushed (compose_rounds models task limit parts Ha)).
  { intros parts Ha. by apply (Hall _ Ha parts). }
  induction 1 as [size _ IH]. intros parts -> Ha. destruct Ha as [Ha]. cbn [compose_rounds]. intros s v Hs.
  apply hushed_andthen; [by apply compose_parts_hushed|]. intros [columns claims] s' Hs'.
  destruct (Nat.eqb _ _); [done|]. destruct (_ <=? _)%nat; [done|]. destruct (pack_items _ _ _ _) as [next|]; [|done].
  destruct (decide _) as [Hsm|]; [|done]. by apply (IH _ Hsm).
Qed.
#[local] Hint Resolve compose_rounds_hushed : quiet.
Lemma compose_packed_hushed task items limit : hushed (compose_packed models task items limit).
Proof. unfold compose_packed. hushed_all. Qed.
#[local] Hint Resolve compose_packed_hushed : quiet.
Lemma compose_draft_hushed task items : hushed (compose_draft models task items).
Proof.
  intros s v <-. unfold compose_draft. pose proof (context_offstage s) as Hc. destruct (m_context models s) as [context s']. cbn [snd] in Hc.
  revert Hc. generalize (kept s). intros v Hc. repeat hushed_one.
Qed.
#[local] Hint Resolve compose_draft_hushed : quiet.
Lemma compose_reviewed_hushed task n feedback reports : hushed (compose_reviewed models task n feedback reports).
Proof. unfold compose_reviewed. hushed_all. Qed.
#[local] Hint Resolve compose_reviewed_hushed : quiet.
Lemma verdict_hushed task n : hushed (verdict models task n).
Proof. unfold verdict. hushed_all. Qed.
Lemma draft_reviewed_hushed task n : hushed (draft_reviewed models task n).
Proof. unfold draft_reviewed. hushed_all. Qed.
End Hushed.

(** ** What a run does to the page *)
Section Moves.
Context `{Unicode} `{UnicodeStr} `{FloatFormat} `{F64Display} `{Sha256} `{PercentEncoding} `{UrlParser} `{UrlFragment} `{ValueText}
        `{JsonBytes} `{JsonReader}.
Notation E := AgentError.
Context (outside : Outside E) (page : PageSeam) (hands : Hands E) (driver : Driver E) (config : Config).

(** A run moves by leaving the page alone, by reloading a page (one that drew nothing, before any action; a challenge, once an
    address), or by a step that hands the page the one action that went ahead behind the gates. *)
Inductive move (s s' : RunState) : Prop :=
| keeps : kept s' = kept s -> move s s'
| reloads_blank o : drew_something o = false -> Forall (fun e => h_operation e = None) (RunState.history s) ->
    blank_opening_checked (site s) = false -> blank_opening_checked (site s') = true -> traced s s' [Opened (o_url o)] -> move s s'
| reloads_challenge o : o_url o ∉ challenge_reloads (site s) -> o_url o ∈ challenge_reloads (site s') ->
    traced s s' [Opened (o_url o)] -> move s s'
| steps_on o d a s1 : d_operation d <> Read -> watched_action outside page hands driver config o d s = (Ok (Some a), s1) ->
    went_ahead outside config s o d a s1 -> acts outside page driver o d a s s' -> move s s'.
Definition moves : RunState -> RunState -> Prop := rtc move.

Definition along {A} (m : Step E A) : Prop := forall s, moves s (m s).2.

Lemma moves_kept s s1 s2 : moves s s1 -> kept s2 = kept s1 -> moves s s2.
Proof. intros Hm Hk. eapply rtc_r; [exact Hm|by constructor]. Qed.
Lemma along_run {A} (m : Step E A) s s1 : along m -> moves s s1 -> moves s (m s1).2.
Proof. intros Hm Hs. etransitivity; [exact Hs|apply Hm]. Qed.
Lemma along_quiet {A} (m : Step E A) : quiet m -> along m.
Proof. intros Hm s. eapply moves_kept; [apply rtc_refl|]. by apply Hm. Qed.
Lemma along_quiet_run {A} (m : Step E A) s s1 : quiet m -> moves s s1 -> moves s (m s1).2.
Proof. intros Hm. apply along_run. by apply along_quiet. Qed.
Lemma along_bind {A B} (m : Step E A) (k : A -> Step E B) s s1 :
  moves s (m s1).2 -> (forall a s2, moves s s2 -> moves s (k a s2).2) -> moves s (bind m k s1).2.
Proof. unfold bind. intros Hm Hk. destruct (m s1) as [[a|e] s2]; [by apply Hk|done]. Qed.

Lemma step_along o d : answers_asked outside -> along (step outside page hands driver config o d).
Proof.
  intros Hans s. destruct (step outside page hands driver config o d s) as [r s'] eqn:Es. cbn [snd].
  apply step_acts in Es as [Ht|(a & (Hop & s1 & Hb) & Ha)].
  - apply rtc_once, keeps. unfold traced in Ht. by rewrite Ht, app_nil_r.
  - apply rtc_once. eapply steps_on; [done|done| |done]. by apply watched_action_went_ahead in Hb.
Qed.
End Moves.
Create HintDb along.
Ltac along_leaf :=
  match goal with H : moves _ _ _ _ _ ?s ?s1 |- moves _ _ _ _ _ ?s ?s2 => first [exact H | apply (moves_kept _ _ _ _ _ s s1); [exact H|reflexivity]] end.
Ltac along_one :=
  match goal with
  | |- moves _ _ _ _ _ _ (bind _ _ _).2 => apply along_bind; [| intros ? ? ?]
  | |- moves _ _ _ _ _ _ (_, _).2 => cbn [snd]
  | |- moves _ _ _ _ _ _ (ret _ _).2 => unfold ret; cbn [snd]
  | |- moves _ _ _ _ _ _ (fails _ _).2 => unfold fails; cbn [snd]
  | |- moves _ _ _ _ _ _ (get _ _).2 => unfold get; cbn [snd]
  | |- moves _ _ _ _ _ _ (lift _ _).2 => unfold lift; cbn [snd]
  | |- moves _ _ _ _ _ _ (modify _ _).2 => unfold modify; cbn [snd]
  | |- moves _ _ _ _ _ _ (match ?x with _ => _ end).2 => destruct x eqn:?
  | |- moves _ _ _ _ _ _ (match ?x with _ => _ end _).2 => destruct x
  | |- moves _ _ _ _ _ _ (let _ := _ in _).2 => cbv zeta
  | |- moves _ _ _ _ _ _ (_ _).2 => apply along_run; [solve [auto with along]|]
  | |- moves _ _ _ _ _ _ (_ _).2 => apply along_quiet_run; [solve [auto with quiet]|]
  | |- moves _ _ _ _ _ _ ((fun _ => _) _).2 => cbv beta
  | |- moves _ _ _ _ _ _ _ => along_leaf
  | |- moves _ _ _ _ _ _ (match ?x with _ => _ end) => destruct x
  end.
Ltac along_all :=
  let s := fresh "s" in intros s;
  match goal with |- moves ?outside ?page ?hands ?driver ?config s _ => assert (moves outside page hands driver config s s) by apply rtc_refl end;
  repeat along_one.

Section FinishMoves.
Context `{Unicode} `{UnicodeStr} `{FloatFormat} `{F64Display} `{Sha256} `{PercentEncoding} `{UrlParser} `{UrlFragment} `{ValueText}
        `{JsonBytes} `{JsonReader}.
Notation E := AgentError.
Context (outside : Outside E) (page : PageSeam) (hands : Hands E) (driver : Driver E) (config : Config)
        (models : Answers.Models RunState (Flow E)) (reporter : Reporter) (ender : Ender) `{!Offstage models}.
Notation along := (along outside page hands driver config).

Lemma asks_quiet {A} (m : Answers.Asks RunState (Flow E) A) : hushed m -> quiet (E := E) m.
Proof. intros Hm s v. apply Hm. Qed.
#[local] Hint Resolve asks_quiet compose_reviewed_hushed verdict_hushed draft_reviewed_hushed ask_choices_quiet ask_choice_quiet
  ask_choices_in_quiet read_drawn_page_quiet record_failure_quiet browser_needed_quiet read_quiet : quiet.

Lemma composed_answer_quiet intent : quiet (composed_answer models intent).
Proof. unfold composed_answer. quiet_all. Qed.
Lemma picked_answer_quiet : quiet (picked_answer models).
Proof. unfold picked_answer. quiet_all. Qed.
#[local] Hint Resolve composed_answer_quiet picked_answer_quiet : quiet.
Lemma written_answer_quiet intent : quiet (written_answer models intent).
Proof. unfold written_answer. quiet_all. Qed.
Lemma observe_if_changed_quiet o : quiet (observe_if_changed page o).
Proof. unfold observe_if_changed. quiet_all. Qed.
Lemma ask_output_intent_quiet : quiet (ask_output_intent outside hands config).
Proof. unfold ask_output_intent. quiet_all. Qed.
Lemma extraction_quiet : quiet (extraction page ender).
Proof. unfold extraction. quiet_all. Qed.
Lemma send_back_quiet o a rejection : quiet (send_back outside page config o a rejection).
Proof. unfold send_back. quiet_all. Qed.
Lemma ending_frame_kept r requested s : kept (ending_frame page config ender r requested s).2 = kept s.
Proof.
  unfold ending_frame. destruct (negb _); [done|]. pose proof (frame_quiet (E := E) page s _ eq_refl) as Hf.
  destruct (frame page s) as [taken s1]. cbn [snd] in Hf. by destruct (requested && _ && _).
Qed.
Lemma framed_quiet r requested : quiet (framed page config ender r requested).
Proof. intros s v <-. unfold framed. pose proof (ending_frame_kept r requested s) as Hf. by destruct (ending_frame _ _ _ _ _ _). Qed.
Lemma forget_drafts_kept a s : kept (forget_drafts a s) = kept s.
Proof. unfold forget_drafts. destruct a as [a|]; [|done]. by destruct (Answers.problem a). Qed.
#[local] Hint Resolve framed_quiet : quiet.
#[local] Hint Resolve written_answer_quiet observe_if_changed_quiet ask_output_intent_quiet extraction_quiet send_back_quiet : quiet.
Lemma conclude_attempt_quiet o recover_rejection : quiet (conclude_attempt outside page hands config models reporter ender o recover_rejection).
Proof. unfold conclude_attempt. quiet_all. all: by rewrite forget_drafts_kept. Qed.
#[local] Hint Resolve conclude_attempt_quiet : quiet.

Lemma confirm_unsent_quiet o : quiet (confirm_unsent outside hands config o).
Proof. unfold confirm_unsent, stops_to_confirm. quiet_all. Qed.
Lemma refuse_quiet o why : quiet (refuse outside page config o why).
Proof. unfold refuse. quiet_all. Qed.
#[local] Hint Resolve refuse_quiet : quiet.
Lemma refuse_unacted_quiet o intent : quiet (refuse_unacted outside page hands config ender o intent).
Proof. unfold refuse_unacted. quiet_all. Qed.
Lemma refuse_undone_quiet o : quiet (refuse_undone outside page hands config o).
Proof. unfold refuse_undone, actions_done. quiet_all. Qed.
Lemma read_unread_quiet o intent : quiet (read_unread page driver ender o intent).
Proof. unfold read_unread. quiet_all. Qed.
Lemma end_as_failure_quiet o : quiet (E := E) (end_as_failure o).
Proof. unfold end_as_failure. quiet_all. Qed.
Lemma refuse_unread_quiet o intent : quiet (refuse_unread outside page config ender o intent).
Proof. unfold refuse_unread. quiet_all. Qed.
Lemma not_reached_quiet o : quiet (not_reached outside page hands config o).
Proof. unfold not_reached. quiet_all. Qed.
#[local] Hint Resolve confirm_unsent_quiet refuse_unacted_quiet refuse_undone_quiet read_unread_quiet end_as_failure_quiet
  refuse_unread_quiet not_reached_quiet : quiet.
Lemma conclude_done_quiet o : quiet (conclude_done outside page hands config models reporter ender o).
Proof. unfold conclude_done. quiet_all. Qed.
#[local] Hint Resolve conclude_done_quiet : quiet.

Lemma step_or_recover_along o d w s : answers_asked outside ->
  moves outside page hands driver config s
    (match step outside page hands driver config o d s with
     | (Err (FlowUnsure u), s) => recover outside page config o (u_reason u) (gives_up_as u) w s
     | done => done
     end).2.
Proof.
  intros Hans. pose proof (step_along outside page hands driver config o d Hans s) as Hs.
  destruct (step outside page hands driver config o d s) as [[r|[st|u|e|e]] s1]; try exact Hs.
  apply along_quiet_run; [auto with quiet|exact Hs].
Qed.
Lemma open_unread_page_along o next : answers_asked outside -> along (open_unread_page outside page hands driver config o next).
Proof.
  intros Hans s. unfold open_unread_page. etransitivity; [|by apply step_or_recover_along].
  eapply moves_kept; [apply rtc_refl|reflexivity].
Qed.
#[local] Hint Resolve open_unread_page_along : along.
Lemma finish_along o : answers_asked outside -> along (finish outside page hands driver config models reporter ender o).
Proof. intros Hans. unfold finish, finish_read. along_all. Qed.
End FinishMoves.

(** ** What a complete run says *)
Section Backed.
Context `{Unicode} `{UnicodeStr} `{FloatFormat} `{F64Display} `{Sha256} `{PercentEncoding} `{UrlParser} `{UrlFragment} `{ValueText}
        `{JsonBytes} `{JsonReader}.
Notation E := AgentError.
Context (outside : Outside E) (page : PageSeam) (hands : Hands E) (driver : Driver E) (config : Config)
        (models : Answers.Models RunState (Flow E)) (reporter : Reporter) (ender : Ender).

(** The answer's claims are a fact's own words each, citing it. *)
Definition as_noted (n : Notes) (c : Claim) : Prop := exists f, f ∈ map snd (facts n) /\ c = mkClaim (f_text f) [fact_id f].
Definition reports (i : OutputIntent) : bool := negb (bool_decide (i = IntentCarriedOut)).

(** What stands behind an answer with no problem: claims that held up in one review; notes Jev picked to be repeated, reviewed so; the
    answering facts, which one question found to cover the task; or, where the task asks to be told nothing, the answering facts. *)
Inductive backed (i : OutputIntent) (s : RunState) (a : ComposedAnswer) : Prop :=
| backed_composed columns claims w p : let n := notes_to_compose (reading s) in
    claims <> [] -> upheld models (task s) columns claims n (reports i) w (ca_claims a) p -> (reports i = true -> p = None) ->
    a = tabled columns (assemble_answer (ca_claims a) n) -> backed i s a
| backed_silent : reports i = false -> ca_claims a = [] -> backed i s a
| backed_picked w : let n := notes_to_compose (reading s) in
    upheld models (task s) None (ca_claims a) n true w (ca_claims a) None -> Forall (as_noted n) (ca_claims a) ->
    a = assemble_answer (ca_claims a) n -> backed i s a
| backed_drafted answers w w' : let n := notes (reading s) in
    tells i = true -> ca_claims a <> [] ->
    m_judge models (review_state (task s) n) [(lit "coverage", coverage_question (task s) None (ca_claims a))] w = (Ok (Some answers), w') ->
    Answers.holds (Some answers) (lit "coverage") = Some true -> a = assemble_answer (draft_claims n) n -> backed i s a
| backed_noted : let n := notes (reading s) in
    tells i = false -> ca_claims a <> [] -> a = assemble_answer (draft_claims n) n -> backed i s a.

Lemma tabled_claims columns a : ca_claims (tabled columns a) = ca_claims a.
Proof. unfold tabled. repeat case_match; done. Qed.
Lemma tabled_problem columns a : Answers.problem (tabled columns a) = Answers.problem a.
Proof. unfold tabled. repeat case_match; done. Qed.
Lemma with_no_problem a : Answers.problem a = None -> with_problem a None = a.
Proof. by destruct a; cbn; intros ->. Qed.
Lemma review_nothing task columns n require w checked w' :
  review_claims models task columns [] n require w = (Ok checked, w') -> checked_claims checked = [] /\ checked_problem checked <> None.
Proof. unfold review_claims, done. cbn. by intros [= <- _]. Qed.

Context (only_asked : AnswersOnlyAsked models).

Lemma compose_reviewed_backed i s feedback w reviewed w' :
  compose_reviewed models (task s) (notes_to_compose (reading s)) feedback (reports i) w = (Ok reviewed, w') ->
  Answers.problem (rc_answer reviewed) = None -> backed i s (rc_answer reviewed).
Proof.
  unfold compose_reviewed. intros Hc Hp. set (n := notes_to_compose (reading s)) in *.
  apply andthen_ok in Hc as ([[columns claims] reduced] & w1 & _ & Hc). cbn beta iota in Hc.
  apply andthen_ok in Hc as (checked & w2 & Hr & Hc).
  assert (Ha : rc_answer reviewed = tabled columns (assemble_answer (checked_claims checked) n) /\ (reports i = true -> checked_problem checked = None)).
  { destruct (reports i); cbn [negb] in Hc; injection Hc as <- _; cbn [rc_answer] in *; [|done].
    rewrite tabled_problem in Hp. cbn [Answers.problem with_problem] in Hp.
    destruct (checked_problem checked) eqn:Ep; [done|]. cbn [unreduced_problem] in *. destruct reduced; [|done]. split; [|done].
    by rewrite with_no_problem. }
  destruct Ha as [-> Hnone]. assert (Hcl : ca_claims (tabled columns (assemble_answer (checked_claims checked) n)) = checked_claims checked) by by rewrite tabled_claims.
  destruct claims as [|c claims].
  - apply review_nothing in Hr as [Hk Hnp]. apply backed_silent; [|by rewrite Hcl].
    destruct (reports i); [|done]. by destruct Hnp; auto.
  - eapply (backed_composed i s _ columns (c :: claims)); [done| |exact Hnone|by rewrite Hcl]. rewrite Hcl. by eapply review_upheld.
Qed.

Lemma picked_claims_noted n answered : Forall (as_noted n) (picked_claims n answered).
Proof.
  apply Forall_forall. intros c Hc. unfold picked_claims in Hc. apply list_elem_of_In, in_map_iff in Hc as ([j [k f]] & <- & Hin).
  apply list_elem_of_In, list_elem_of_filter in Hin as [_ Hin]. apply elem_of_lookup_imap in Hin as (j' & y & [= _ <-] & Hy).
  exists f. split; [|done]. apply list_elem_of_In, in_map_iff. exists (k, f). split; [done|]. by eapply list_elem_of_In, list_elem_of_lookup_2.
Qed.
Lemma verdict_backed i s w a w' : verdict models (task s) (notes_to_compose (reading s)) w = (Ok (Some a), w') -> backed i s a.
Proof.
  unfold verdict. set (n := notes_to_compose (reading s)). destruct (negb _); [done|]. intros Hv.
  apply andthen_ok in Hv as (answered & w1 & _ & Hv). destruct answered as [answered|]; [|done].
  destruct (negb _ || _) eqn:Eb; [done|]. apply orb_false_iff in Eb as [_ Hne%is_empty_false].
  apply andthen_ok in Hv as (checked & w2 & Hr & Hv). injection Hv as Hv _. destruct (checked_problem checked) eqn:Ep; [done|]. injection Hv as <-.
  apply review_upheld in Hr; [|done|exact Hne]. rewrite Ep in Hr. pose proof Hr as (_ & _ & _ & _ & _ & [Hall _]); [done|].
  apply (backed_picked i s _ w1); cbn [ca_claims assemble_answer]; fold n; [by rewrite <- Hall in Hr at 1| |done].
  rewrite Hall. apply picked_claims_noted.
Qed.
Lemma draft_backed i s w reviewed w' : tells i = true ->
  draft_reviewed models (task s) (notes (reading s)) w = (Ok (Some reviewed), w') -> Answers.problem (rc_answer reviewed) = None ->
  backed i s (rc_answer reviewed).
Proof.
  intros Hi. unfold draft_reviewed. set (n := notes (reading s)). destruct (is_empty (draft_claims n)) eqn:Ee; [done|].
  apply is_empty_false in Ee. destruct (too_large _ _ _); [by intros [= <- _]|]. intros Hd Hp.
  apply andthen_ok in Hd as (pass & w1 & Hj & Hd). destruct (coverage_verdict (draft_claims n) pass) as [problem rejection] eqn:Ec.
  injection Hd as <- _. cbn [rc_answer with_problem Answers.problem] in Hp. subst problem.
  unfold coverage_verdict in Ec. destruct (Answers.holds pass (lit "coverage")) as [[]|] eqn:Eh; try done.
  destruct pass as [answers|]; [|done]. unfold judge_or_none in Hj.
  destruct (m_judge models _ _ w) as [[answered|[m|e]] w2] eqn:Ej; try done. injection Hj as -> ->.
  by apply (backed_drafted i s _ answers w w1).
Qed.

(** The answer a run writes where it has no problem, and the state it was written from. *)
Lemma written_answer_backed i s wrote s' a : written_answer models i s = (Ok wrote, s') -> wrote.1 = Some a ->
  Answers.problem a = None -> backed i s a.
Proof.
  unfold written_answer. intros Hw Ha Hp. destruct (bool_decide (i = IntentImage)); [by injection Hw as <- _|].
  destruct (RunState.compose (reading s)).
  - unfold composed_answer in Hw. apply bind_inv in Hw as [(chosen & s1 & Hv & Hw)|(e & _ & [=])].
    destruct chosen as [c|].
    + injection Hw as <- _. injection Ha as ->. destruct (composition_feedback s); [by injection Hv|]. by eapply verdict_backed.
    + apply bind_inv in Hw as [(reviewed & s2 & Hr & Hw)|(e & _ & [=])]. injection Hw as <- _. injection Ha as <-.
      by eapply compose_reviewed_backed.
  - destruct (tells i) eqn:Ei.
    + unfold picked_answer in Hw. apply bind_inv in Hw as [(reviewed & s1 & Hr & Hw)|(e & _ & [=])]. destruct reviewed as [r|]; [|by injection Hw as <- _].
      apply bind_inv in Hw as [(u & s2 & _ & Hw)|(e & _ & [=])]. injection Hw as <- _. injection Ha as <-. by eapply draft_backed.
    + injection Hw as <- _. cbn in Ha. unfold draft_answer in Ha. destruct (is_empty (draft_claims _)) eqn:Ee; [done|]. injection Ha as <-.
      apply backed_noted; [done| |done]. by apply is_empty_false.
Qed.

(** *** Looking again changes nothing that was read *)
Definition known (s : RunState) : Reading * Pager * Redactor := (reading s, pager s, redactor s).
Lemma bind_known {A B} (m : Step E A) (k : A -> Step E B) : (forall s, known (m s).2 = known s) -> (forall a s, known (k a s).2 = known s) ->
  forall s, known (bind m k s).2 = known s.
Proof. intros Hm Hk s. unfold bind. specialize (Hm s). destruct (m s) as [[a|e] s1]; [by rewrite Hk|done]. Qed.
Ltac known_all := intros; repeat first [reflexivity | apply bind_known; intros | match goal with |- known (match ?x with _ => _ end _).2 = _ => destruct x end].
Lemma observe_if_changed_known o s : known (observe_if_changed page o s).2 = known s.
Proof. unfold observe_if_changed, observe. known_all. Qed.
Lemma frame_known s : known (frame (E := E) page s).2 = known s.
Proof. unfold frame, picture. known_all. Qed.
Lemma ending_frame_known r requested s r' s' : ending_frame page config ender r requested s = (r', s') ->
  known s' = known s /\ rr_answer r' = rr_answer r /\ rr_data r' = rr_data r /\ rr_citations r' = rr_citations r /\
  (rr_status r' = Complete -> rr_status r = Complete).
Proof.
  unfold ending_frame. destruct (negb _); [by intros [= <- <-]|]. pose proof (frame_known s) as Hf. destruct (frame page s) as [taken s1].
  destruct (requested && _ && _); intros [= <- <-]; done.
Qed.

Lemma conclusion_complete s a x evidence : (conclusion s a x evidence).1 = Complete ->
  (forall a', a = Some a' -> Answers.problem a' = None) /\ (x ≫= x_problem) = None /\
  (every_page (pager s) = true -> unread_list_pages (pager s) (reading s) = []) /\
  out_data (conclusion s a x evidence).2 = default Null (x ≫= x_data) /\
  let shown := match a with Some a => public_answer (redactor s) a | None => ([], []) end in
  out_answer (conclusion s a x evidence).2 = (if is_empty shown.1 then None else Some shown.1) /\ out_citations (conclusion s a x evidence).2 = shown.2.
Proof.
  unfold conclusion. destruct (a ≫= Answers.problem) as [p|] eqn:Ep.
  { destruct (checked_composition _ _); destruct (match a with Some _ => _ | None => _ end), (if every_page _ then _ else _), (x ≫= x_problem); done. }
  assert (Ha : forall a', a = Some a' -> Answers.problem a' = None) by (by intros a' ->).
  destruct (match a with Some a => public_answer (redactor s) a | None => ([], []) end) as [shown links] eqn:Es.
  destruct (every_page (pager s)).
  - destruct (unread_list_pages (pager s) (reading s)) as [|unread rest]; cbn [head]; destruct (x ≫= x_problem); done.
  - cbn. destruct (x ≫= x_problem); done.
Qed.

(** C2: A run that concludes complete shows no answer that nothing stands behind: its text and links are the redacted rendering of an
    answer whose claims held up as the task's intent requires, no page of a list asked for whole is left unread, and the caller's schema, if
    any, was filled without a shortfall. *)
Theorem complete_answer_is_backed o back s r s' :
  conclude_attempt outside page hands config models reporter ender o back s = (Ok (Some r), s') -> rr_status r = Complete ->
  (every_page (pager s') = true -> unread_list_pages (pager s') (reading s') = []) /\
  (exists x s1 s2, extraction page ender s1 = (Ok x, s2) /\ (x ≫= x_problem) = None /\ rr_data r = default Null (x ≫= x_data)) /\
  (exists i s1, ask_output_intent outside hands config s = (Ok i, s1) /\
     ((rr_answer r = None /\ rr_citations r = []) \/
      exists s2 a, backed i s2 a /\ Answers.problem a = None /\ rr_citations r = (public_answer (redactor s') a).2 /\
        let shown := (public_answer (redactor s') a).1 in rr_answer r = if is_empty shown then None else Some shown)).
Proof.
  unfold conclude_attempt. intros Hc Hs.
  apply bind_inv in Hc as [(i & s1 & Hi & Hc)|(e & _ & [=])]. apply bind_inv in Hc as [(u & s2 & _ & Hc)|(e & _ & [=])].
  apply bind_inv in Hc as [(evidence & s3 & _ & Hc)|(e & _ & [=])]. apply bind_inv in Hc as [(x & s4 & Hx & Hc)|(e & _ & [=])].
  apply bind_inv in Hc as [(wrote & s5 & Hw & Hc)|(e & _ & [=])]. apply bind_inv in Hc as [(rejection & s6 & _ & Hc)|(e & _ & [=])].
  apply bind_inv in Hc as [(again & s7 & _ & Hc)|(e & _ & [=])].
  destruct (if back && _ && _ then rejection else None). { apply bind_inv in Hc as [(? & ? & _ & [=])|(e & _ & [=])]. }
  apply bind_inv in Hc as [(u1 & s8 & _ & Hc)|(e & _ & [=])]. apply bind_inv in Hc as [(concluded & s9 & [= <- <-] & Hc)|(e & _ & [=])].
  apply bind_inv in Hc as [(observed & s10 & [= <- <-] & Hc)|(e & _ & [=])].
  apply bind_inv in Hc as [(u2 & s11 & Ho & Hc)|(e & _ & [=])]. apply bind_inv in Hc as [(r0 & s12 & [= <- <-] & Hc)|(e & _ & [=])].
  apply bind_inv in Hc as [(r1 & s13 & Hf & Hc)|(e & _ & [=])]. injection Hc as -> ->.
  assert (Hk : known s11 = known s8).
  { destruct (observed_page s8); [|by injection Ho as _ <-]. pose proof (observe_if_changed_known o0 s8) as Hk. by rewrite Ho in Hk. }
  unfold framed in Hf. destruct (ending_frame _ _ _ _ _ s11) as [r2 s14] eqn:Ef. injection Hf as -> ->.
  apply ending_frame_known in Ef as (Hk2 & Ea & Ed & El & Est). specialize (Est Hs). rewrite Hk in Hk2. injection Hk2 as Kr Kp Kd.
  cbn in Ea, Ed, El, Est. apply conclusion_complete in Est as (Hp & Hxp & Hu & Hd & Hsa & Hsl). rewrite Kr, Kp, Kd.
  split; [exact Hu|]. split.
  { exists x, s3, s4. split_and!; [done..|]. by rewrite Ed. }
  exists i, s1. split; [done|]. destruct wrote.1 as [a|] eqn:Ew.
  - right. exists s4, a. split_and!; [by eapply written_answer_backed; eauto|by apply Hp|by rewrite El|by rewrite Ea].
  - left. by rewrite Ea, El.
Qed.

Lemma partial_result_status n s begun status error budget :
  rr_status (partial_result reporter n s begun status error budget) = status /\
  rr_budget (partial_result reporter n s begun status error budget) = budget.
Proof.
  unfold partial_result, answered.
  destruct (if begun then _ else _); [by destruct (public_answer _ _)|].
  destruct (_ && _); [destruct (draft_answer n); [by destruct (public_answer _ _)|done]|].
  destruct (is_empty (facts n)); [done|]. by destruct (public_answer _ _).
Qed.

(** C27: A run a step stopped is complete only where its draft was rejected and the same notes, composed once more without feedback, give an
    answer that is backed and has no problem. *)
Theorem stopped_complete_is_backed stop exhausted s r s' :
  st_status stop <> Complete -> stopped_run page config models reporter ender stop exhausted s = (r, s') -> rr_status r = Complete ->
  st_status stop = Unverified /\ exists a, backed IntentText s a /\ Answers.problem a = None /\
    rr_answer r = Some (public_answer (redactor s') a).1 /\ rr_citations r = (public_answer (redactor s') a).2.
Proof.
  intros Hst. unfold stopped_run. destruct (checked_composition _ _).
  { unfold answered. destruct (public_answer _ _). by intros [= <- _]. }
  destruct (reports_read stop s); [|by intros [= <- _]]. unfold report_read.
  destruct (RunState.compose (reading s)).
  2: { cbn. intros [= <- _]. by rewrite (proj1 (partial_result_status _ _ _ _ _ _)). }
  destruct (Composing.compose _ _ _ s) as [[a|e] s1] eqn:Ec; cbn [wrote_claims].
  2: { intros [= <- _]. by rewrite (proj1 (partial_result_status _ _ _ _ _ _)). }
  destruct (is_empty (ca_claims a)). { intros [= <- _]. by rewrite (proj1 (partial_result_status _ _ _ _ _ _)). }
  destruct (bool_decide (st_status stop = Unverified) && _) eqn:Eb.
  2: { unfold answered. destruct (public_answer _ _). by intros [= <- _]. }
  apply andb_prop in Eb as [Hu%bool_decide_eq_true Hp%bool_decide_eq_true]. intros Hf Hs. split; [done|]. exists a.
  unfold Composing.compose in Ec. apply andthen_ok in Ec as (reviewed & w1 & Hr & Ec). injection Ec as <- <-.
  apply ending_frame_known in Hf as (Hk & Ha & _ & Hl & _). injection Hk as _ _ ->. rewrite Ha, Hl. unfold answered.
  split_and!; [by eapply (compose_reviewed_backed IntentText)|done|by destruct (public_answer _ _)..].
Qed.
End Backed.

(** ** A limit the client hits *)
Section Stops.
Context `{Unicode} `{UnicodeStr} `{FloatFormat} `{F64Display} `{Sha256} `{PercentEncoding} `{UrlParser} `{UrlFragment} `{ValueText}
        `{JsonBytes} `{JsonReader}.
Notation E := AgentError.
Context (page : PageSeam) (config : Config) (reporting : Answers.Models RunState (Flow E)) (reporter : Reporter) (ender : Ender).

(** A limit is reported as a limit only where it reached the run as one: the ledger's own refusal ends the run as budget exceeded with the
    limit it names, but the same refusal of a request of Jev's, made inside its client, arrives as an error of Jev's, and the run ends as an
    error with no limit to its name. *)
Theorem client_budget_stop_is_an_error b begun s :
  (rr_status (stopped page config reporting reporter ender (FlowAgent (ABudget b)) begun s).1 = StatusBudgetExceeded /\
   rr_budget (stopped page config reporting reporter ender (FlowAgent (ABudget b)) begun s).1 = Some (budget b)) /\
  (rr_status (stopped page config reporting reporter ender (FlowAgent (AJev (Decision.Budget b))) begun s).1 = StatusError /\
   rr_budget (stopped page config reporting reporter ender (FlowAgent (AJev (Decision.Budget b))) begun s).1 = None /\
   rr_error (stopped page config reporting reporter ender (FlowAgent (AJev (Decision.Budget b))) begun s).1 = Some (redact (redactor s) (reason b))).
Proof.
  split.
  - unfold stopped. destruct begun; [|done]. unfold stopped_run, stop_budget. cbn [st_status new_stop].
    destruct (checked_composition _ _); [unfold answered; by destruct (public_answer _ _)|].
    destruct (reports_read _ s); [|done]. unfold report_read. cbn [st_status new_stop].
    destruct (if RunState.compose _ then Composing.compose _ _ _ s else _) as [composed s1].
    destruct (wrote_claims composed); [|apply partial_result_status]. rewrite bool_decide_eq_false_2 by done. cbn [andb fst].
    unfold answered. by destruct (public_answer _ _).
  - cbn [stopped fst]. unfold failed. cbn [AgentError_unavailable AgentError_text DecisionError_text is_unavailable].
    pose proof (partial_result_status reporter (begun_notes s begun) s begun StatusError (Some (redact (redactor s) (reason b))) None) as [Hs Hb].
    split_and!; [exact Hs|exact Hb|].
    unfold partial_result, answered.
    destruct (if begun then _ else _); [by destruct (public_answer _ _)|].
    destruct (_ && _); [destruct (draft_answer _); [by destruct (public_answer _ _)|done]|].
    destruct (is_empty _); [done|]. by destruct (public_answer _ _).
Qed.
End Stops.

(** * Cases *)
#[local] Existing Instances ascii_unicode ascii_unicode_str exact_format plain_display plain_digest plain_parser unchanged_percent
  plain_fragment plain_value_text ascii_bytes.
#[local] Instance unread_json : JsonReader := {| from_str _ := None |}.

(** A Jev that holds all it is asked, of notes that answer as they are. *)
Definition affirmed (asked : list (text * Question)) : list (text * Answer) := map (fun kq => (kq.1, ANoul (dec 9 1))) asked.
Definition affirming : Answers.Models RunState (Flow AgentError) :=
  mkModels _ _ default_tokens (fun _ qs s => (Ok (Some (affirmed qs)), s)) (fun _ qs s => (Ok (Some (affirmed qs)), s))
    (fun _ s => (Ok (mkAnswerDraft [] None), s)) (fun s => (None, s)) 0 (fun m => FlowAgent (AInvalid m)).
Lemma affirming_only_asked : AnswersOnlyAsked affirming.
Proof. intros state qs w answers w' [= <- _] k Hk. unfold im_keys, affirmed in *. by rewrite map_map in Hk. Qed.

Definition told_run : RunState :=
  let n := total_notes <| answering := take 1 (im_keys (facts total_notes)) |> in
  (new_run (lit "What was the total?") [] [] false (mkRedactor [] [])) <| reading ::= fun r => r <| notes := n |> |> <| output_intent := IntentText |>.
Definition plain_ender : Ender := mkEnder None None (fun _ => true).
Definition plain_reporter : Reporter := mkReporter (fun _ => []) (mkLimits None None None None None) (fun _ => None) (fun _ => []) (fun _ => 0).
Definition silent_hands : Hands AgentError :=
  mkHands _ _ jev false (fun _ => None) (fun _ _ _ _ => Ok None) false (fun _ _ _ => Ok tt) AInvalid AInvalid (fun _ => AInvalid []).
Definition unasked : Outside AgentError :=
  mkOutside _ _ (fun _ => Ok tt) (fun _ _ qs => Ok (affirmed qs)) (fun _ _ => Ok (new_context []))
    (fun _ _ _ => Err (FlowAgent (AInvalid []))) (fun _ _ => Ok None) false.
Definition blank_seam (o : Observation) : PageSeam :=
  mkPage _ (fun _ => Ok o) (fun _ => Ok o) (fun _ => Ok [0x89; 80; 78; 71]) (fun _ => Ok (cart_view "https://shop.test/" "c1"))
    (fun _ _ _ => Ok (mkActResult Executed false None false)) (fun _ _ _ _ => Ok false) (fun _ _ => Ok false)
    (fun _ _ _ => Ok (mkActResult Executed false None false)) (fun _ _ => Ok tt) (fun _ => Ok None) (fun _ _ => false)
    (fun s => Z.of_nat (length (page_calls s))).
Definition told_result : Prelude.result (option RunResult) (Flow AgentError) * RunState :=
  conclude_attempt unasked (blank_seam (sample "page" "")) silent_hands default_config affirming plain_reporter plain_ender (sample "page" "") true told_run.

Lemma told_intent : ask_output_intent unasked silent_hands default_config told_run = (Ok IntentText, told_run).
Proof. reflexivity. Qed.

Theorem complete_answer_is_backed_witness :
  match told_result.1 with
  | Ok (Some r) => rr_status r = Complete /\ rr_answer r = Some (lit "The total is 12.29 [1](<https://shop.test/cart#:~:text=12.29>)") /\
      exists s2 a, backed affirming IntentText s2 a /\ rr_citations r = (public_answer (redactor told_result.2) a).2
  | _ => False
  end.
Proof.
  assert (Ht : option_map (fun r => (rr_status r, rr_answer r)) (match told_result.1 with Ok r => r | Err _ => None end)
                 = Some (Complete, Some (lit "The total is 12.29 [1](<https://shop.test/cart#:~:text=12.29>)"))) by (vm_compute; reflexivity).
  destruct told_result as [[[r|]|e] s'] eqn:Er; cbn [fst snd option_map] in Ht |- *; [|discriminate Ht|discriminate Ht].
  unfold told_result in Er. apply (inj Some) in Ht. apply pair_equal_spec in Ht as [Hs Ha]. split; [exact Hs|]. split; [exact Ha|].
  destruct (complete_answer_is_backed unasked (blank_seam (sample "page" "")) silent_hands default_config affirming plain_reporter plain_ender
              affirming_only_asked (sample "page" "") true told_run r s' Er Hs) as (_ & _ & i & s1 & Hi & [[Hn _]|(s2 & a & Hb & _ & Hl & _)]).
  - rewrite Ha in Hn. discriminate Hn.
  - exists s2, a. rewrite told_intent in Hi. injection Hi as <- _. split; [exact Hb|exact Hl].
Defined.

(** An LLM that writes one claim of the first note. *)
Definition telling : Answers.Models RunState (Flow AgentError) :=
  mkModels _ _ default_tokens (fun _ qs s => (Ok (Some (affirmed qs)), s)) (fun _ qs s => (Ok (Some (affirmed qs)), s))
    (fun _ s => (Ok (mkAnswerDraft [mkClaim (lit "It was 12.29.") [lit "e0"]] None), s)) (fun s => (None, s)) 0 (fun m => FlowAgent (AInvalid m)).
Definition rejected_run : RunState := told_run <| reading ::= fun r => r <| RunState.compose := true |> |>.
Definition rejected_result : RunResult * RunState :=
  stopped_run (blank_seam (sample "page" "")) default_config telling plain_reporter plain_ender (new_stop Unverified (lit "rejected")) None rejected_run.

Theorem stopped_complete_is_backed_witness :
  rr_status rejected_result.1 = Complete /\
  exists a, backed telling IntentText rejected_run a /\
    rr_answer rejected_result.1 = Some (public_answer (redactor rejected_result.2) a).1.
Proof.
  assert (Hs : rr_status rejected_result.1 = Complete) by (vm_compute; reflexivity). split; [exact Hs|].
  destruct rejected_result as [r s'] eqn:Er. unfold rejected_result in Er. cbn [fst snd] in Hs |- *.
  destruct (stopped_complete_is_backed (blank_seam (sample "page" "")) default_config telling plain_reporter plain_ender
     affirming_only_asked (new_stop Unverified (lit "rejected")) None rejected_run r s' ltac:(discriminate) Er Hs) as (_ & a & Hb & _ & Ha & _).
  exists a. split; [exact Hb|exact Ha].
Defined.
