(* ===== verification/Extracting.v ===== *)
(** The record a caller asked for: [extract] of [crates/fastbrowse-agent/src/verification/mod.rs], and how retrieval reads an output
    schema's fields (retrieval/fields.rs).

    Each field of the caller's model (Output.v) is copied from a span of the page or the notes (Fields.v) and the record is then the
    model's to validate.  The properties compose the two: what is extracted is stated where its evidence says, and satisfies the caller's
    schema. *)

From S2P Require Import Prelude Float64 PyText Json DateTime Lax Models Ledger Config Receipts Page Origins Navigation Secrets Redactor Effects Notes PageState Citations Answers Composing Decision Schema Validation Batches Judging Helpers Recipe Pyre Spans RunState Seeing Recovery Acting Policy Driving Reporting Finishing Fields Output.

(** ** The fields of an output schema *)
(** [Annotated[int, Strict(), ...]] is an [int] to retrieval, held to the schema's bounds. *)
Definition from_output_type (t : OutputType) : Annotation * list (text * f64) :=
  match t with
  | OStr => (AnStr, [])
  | OInt bounds => (AnInt, bounds)
  | ONumber bounds => (AnFloat, bounds)
  | OBool => (AnBool, [])
  | _ => (AnOther, [])
  end.
Definition from_output_field (f : OutputField OutputType) : ScalarField :=
  let '(a, bounds) := from_output_type (of_ty f) in mkScalarField a None (of_description f) (of_required f) Null bounds.

Record RecordSchema := mkRecordSchema { rs_fields : list (text * ScalarField); rs_model : OutputModel }.
Definition from_output (m : OutputModel) : RecordSchema :=
  mkRecordSchema (im_extend [] (map (fun f => (of_name f, from_output_field f)) (ob_fields (root m)))) m.

(** ** Extraction *)
Definition failed_extraction (name problem : text) (evidence : list Evidence) : Extraction :=
  mkExtraction None evidence (Some (name ++ lit ": " ++ problem)).
(** A field read, the extraction it ends, or a loop of [choose_candidate] that does not end. *)
Inductive Reading :=
| Read (values : list (text * value)) (evidence : list Evidence)
| EndsWith (x : Extraction)
| ReadingPanics.

Section Extracting.
Context `{Unicode} `{UnicodeStr} `{ReadFloat} `{FloatFormat} `{Sha256} `{TableReader} `{ValueText}.
Context {W : Type} (judge : Judge W AgentError).
Notation Ask A := (Asks W AgentError A).

(** The page's candidates, the notes' after them. *)
Definition offered_values (capture : Capture) (notes : option Notes) (f : ScalarField) : Prelude.result (list Candidate) UnsupportedField :=
  let? candidates := field_candidates capture f in
  match notes with
  | None => Ok candidates
  | Some notes => let? quoted := field_candidates_from_notes notes f (Some capture) in Ok (merge_candidates [candidates; quoted])
  end.
Definition extract_state (task : text) (capture : Capture) : value :=
  Object [(lit "task", Str task); (lit "page", Object [(lit "url", Str (cap_url capture)); (lit "title", Str (cap_title capture))])].
(** An [Invalid] question is the field's problem; any other error is the run's. *)
Definition choose_or_problem (name : text) (evidence : list Evidence) (choice : Ask Chosen) : Ask (Chosen + Extraction) := fun w =>
  match choice w with
  | (Ok c, w) => (Ok (inl c), w)
  | (Err (AInvalid error), w) => (Ok (inr (failed_extraction name error evidence)), w)
  | (Err other, w) => (Err other, w)
  end.
Fixpoint read_fields (task : text) (capture : Capture) (notes : option Notes) (record_fields : list text) (max_options : nat)
    (fields : list (text * ScalarField)) (values : list (text * value)) (evidence : list Evidence) : Ask Reading :=
  match fields with
  | [] => done (Read values evidence)
  | (name, f) :: fields =>
      match offered_values capture notes f with
      | Err unsupported => done (EndsWith (failed_extraction name (uf_reason unsupported) []))
      | Ok [] => read_fields task capture notes record_fields max_options fields values evidence
      | Ok candidates =>
          let* chosen := choose_or_problem name evidence
            (choose_candidate judge (length candidates) (extract_state task capture) f candidates name task record_fields max_options) in
          match chosen with
          | inr x => done (EndsWith x)
          | inl (Chose (Some (v, quoted))) =>
              read_fields task capture notes record_fields max_options fields (im_insert name (scalar_json v) values) (evidence ++ [quoted])
          | inl (Chose None) => read_fields task capture notes record_fields max_options fields values evidence
          | inl _ => done ReadingPanics
          end
      end
  end.

(** A default the page never showed is the caller's placeholder, not data. *)
Definition is_null (v : value) : bool := match v with Null => true | _ => false end.
Definition unsupported_fields (schema : RecordSchema) (values : list (text * value)) : list text :=
  map fst (base.filter (fun nf : text * ScalarField =>
    negb (im_contains nf.1 values) && negb (sf_required nf.2) && negb (is_null (sf_default nf.2)) = true) (rs_fields schema)).
Definition extracted (schema : RecordSchema) (values : list (text * value)) (evidence : list Evidence) : Extraction :=
  match unsupported_fields schema values with
  | [] =>
      match model_validate (rs_model schema) (Object values) with
      | Ok data => mkExtraction (Some data) evidence None
      | Err error => mkExtraction None evidence (Some (validation_error_text error))
      end
  | names => mkExtraction None evidence (Some (lit "no value on the page for " ++ join (lit ", ") names))
  end.
(** [None] is a loop that does not end or panics. *)
Definition extract (task : text) (capture : Capture) (notes : option Notes) (schema : RecordSchema) (max_options : nat) : Ask (option Extraction) :=
  let* reading := read_fields task capture notes (im_keys (rs_fields schema)) max_options (rs_fields schema) [] [] in
  match reading with
  | Read values evidence => done (Some (extracted schema values evidence))
  | EndsWith x => done (Some x)
  | ReadingPanics => done None
  end.
End Extracting.

(** * Properties *)
Section Extracted.
Context `{Unicode} `{UnicodeStr} `{ReadFloat} `{FloatFormat} `{Sha256} `{TableReader} `{ValueText}.
Context {W : Type} (judge : Judge W AgentError).

(** A value is the reading of its evidence's quote as the field's type, and the evidence a cut of one block of the page or of the quote of one
    note that still stands. *)
Definition stated (c : Capture) (notes : option Notes) (f : ScalarField) (v : ScalarValue) (e : Evidence) : Prop :=
  scalar_candidate f (quote e) = Some v /\
  ((exists b, b ∈ blocks c /\ e = evidence_of c b (e_start e) (e_end e) /\ b_start b <= e_start e <= e_end e /\ e_end e <= b_end b) \/
   (exists n k note s t, notes = Some n /\ (k, note) ∈ current_evidence n (Some c) /\ (s <= t <= length (quote note))%nat /\
      e = narrowed note s t (span_of (quote note) (s, t)))).

Lemma note_candidates_stated n c f cs : field_candidates_from_notes n f (Some c) = Ok cs -> forall x, x ∈ cs -> stated c (Some n) f (cd_value x) (cd_evidence x).
Proof.
  unfold field_candidates_from_notes. destruct (span_kind f) as [k|]; [|done]. intros [= <-] x Hx%number_from_elem.
  apply list_elem_of_In, in_concat in Hx as (l & Hl & Hx). apply list_elem_of_In in Hx. apply in_map_iff in Hl as ([key note] & <- & Hin%list_elem_of_In).
  unfold note_candidates in Hx. cbn [snd] in Hx. apply list_elem_of_omap in Hx as ([[s t] raw] & Hs & Hx). cbn [fst snd] in Hx.
  apply fmap_Some in Hx as (v & Hv & [= -> Hxe _]). apply spans_within in Hs as [Hst ->]. rewrite Hxe. split; [done|]. right. by exists n, key, note, s, t.
Qed.
Lemma offered_values_stated c notes f cs : blocks_on_page c -> offered_values c notes f = Ok cs -> forall x, x ∈ cs -> stated c notes f (cd_value x) (cd_evidence x).
Proof.
  intros Hb. unfold offered_values. destruct (field_candidates c f) as [page|] eqn:Ep; [|done].
  assert (forall x, x ∈ page -> stated c notes f (cd_value x) (cd_evidence x)) as Hpage.
  { intros x Hx. destruct (field_candidates_cut _ _ _ Hb Ep x Hx) as (b & Hin & He & Hs & Ht & Hv). split; [done|]. left. by exists b. }
  destruct notes as [n|]; [|by intros [= <-]]. destruct (field_candidates_from_notes n f (Some c)) as [quoted|] eqn:En; [|done]. intros [= <-] x Hx.
  destruct (merge_candidates_so_far [page; quoted]) as (_ & _ & Hfrom & _). destruct (Hfrom x Hx) as (y & Hy & [= <- <- _]).
  cbn [concat] in Hy. rewrite app_nil_r in Hy. apply elem_of_app in Hy as [Hy|Hy]; [by apply Hpage|by apply (note_candidates_stated n c f quoted)].
Qed.
Lemma offered_values_choosable c notes f cs : offered_values c notes f = Ok cs -> choosable cs.
Proof.
  unfold offered_values. destruct (field_candidates c f) as [page|] eqn:Ep; [|done]. destruct notes as [n|].
  - destruct (field_candidates_from_notes n f (Some c)); [|done]. intros [= <-]. apply merge_candidates_choosable.
  - intros [= <-]. by eapply field_candidates_choosable.
Qed.
Lemma choose_or_problem_ok name evidence choice (w : W) r w' : choose_or_problem name evidence choice w = (Ok r, w') ->
  (exists c, choice w = (Ok c, w') /\ r = inl c) \/ (exists error, choice w = (Err (AInvalid error), w') /\ r = inr (failed_extraction name error evidence)).
Proof. unfold choose_or_problem. destruct (choice w) as [[c|[]] w1]; try done; intros [= <- <-]; [left|right]; eauto. Qed.

(** The values read so far, each stated where a piece of the evidence says. *)
Definition values_stated (c : Capture) (notes : option Notes) (fields : list (text * ScalarField)) (values : list (text * value)) (evidence : list Evidence) : Prop :=
  forall name v, (name, v) ∈ values -> exists f sv e, (name, f) ∈ fields /\ v = scalar_json sv /\ e ∈ evidence /\ stated c notes f sv e.
Lemma read_fields_stated all task c notes names m : blocks_on_page c -> forall fields values evidence w values' evidence' w',
  (forall nf, nf ∈ fields -> nf ∈ all) -> values_stated c notes all values evidence ->
  read_fields judge task c notes names m fields values evidence w = (Ok (Read values' evidence'), w') -> values_stated c notes all values' evidence'.
Proof.
  intros Hb. induction fields as [|[name f] fields IH]; intros values evidence w values' evidence' w' Hall Hv; cbn [read_fields].
  { intros E. injection E as <- <- _. exact Hv. }
  assert (forall nf, nf ∈ fields -> nf ∈ all) as Hall' by (intros nf Hin; apply Hall; by right).
  destruct (offered_values c notes f) as [[|x cs]|] eqn:Eo; [by apply IH| |by intros [=]].
  intros (chosen & w1 & Hc & E)%andthen_ok. destruct chosen as [[[[v e]|]| |]|]; try (by injection E); [|by eapply IH].
  apply choose_or_problem_ok in Hc as [(ch & Hc & E1)|(error & _ & E1)]; [|discriminate E1]. injection E1 as <-. apply chosen_in in Hc as (y & Hy & <- & <-).
  eapply (IH _ _ _ _ _ _ Hall'); [|exact E]. intros n u [[= -> ->]|Hu]%im_insert_elem.
  - exists f, (cd_value y), (cd_evidence y). split; [apply Hall; by left|]. split; [done|]. split; [apply elem_of_app; right; by left|].
    by eapply offered_values_stated.
  - destruct (Hv n u Hu) as (f' & sv & e' & ? & ? & ? & ?). exists f', sv, e'. split_and!; [done|done| |done]. apply elem_of_app. by left.
Qed.

(** What an extraction with data is of. *)
Lemma extract_data task c notes schema m w x w' data : extract judge task c notes schema m w = (Ok (Some x), w') -> x_data x = Some data ->
  exists values evidence w1, read_fields judge task c notes (im_keys (rs_fields schema)) m (rs_fields schema) [] [] w = (Ok (Read values evidence), w1) /\
    model_validate (rs_model schema) (Object values) = Ok data /\ x_evidence x = evidence /\ x_problem x = None /\ unsupported_fields schema values = [].
Proof.
  unfold extract. intros (r & w1 & Hr & E)%andthen_ok. destruct r as [values evidence|x'|]; [| |by injection E].
  - injection E as <- _. unfold extracted. destruct (unsupported_fields schema values) eqn:Eu; [|done].
    destruct (model_validate _ _) as [d|] eqn:Ev; [|done]. intros [= <-]. by exists values, evidence, w1.
  - injection E as <- _. intros Hd. exfalso.
    assert (forall fields values evidence w, read_fields judge task c notes (im_keys (rs_fields schema)) m fields values evidence w = (Ok (EndsWith x'), w1) -> x_data x' = None) as Hn;
      [|by rewrite (Hn _ _ _ _ Hr) in Hd].
    clear. induction fields as [|[name f] fields IH]; intros values evidence w; cbn [read_fields]; [by intros [=]|].
    destruct (offered_values c notes f) as [[|y cs]|]; [by apply IH| |by intros [= <-]].
    intros (chosen & w2 & Hc & E)%andthen_ok. destruct chosen as [[[[v e]|]| |]|y']; try (by injection E); [by eapply IH|by eapply IH|].
    apply choose_or_problem_ok in Hc as [(ch & Hc & E1)|(error & _ & E1)]; [discriminate E1|]. injection E1 as ->. by injection E as <-.
Qed.
End Extracted.

Section Conforming.
Context {U : Unicode} {UL : UnicodeLetters U} `{UnicodeStr} `{ReadFloat} `{FloatFormat} `{Sha256} `{TableReader} `{ValueText}.
Context {W : Type} (judge : Judge W AgentError).

Lemma parse_int_range lo hi t n : parse_int lo hi t = Some n -> lo <= n <= hi.
Proof. unfold parse_int. repeat case_match; try done; intros [= <-]; unfold in_range in *; bool_hyps; lia. Qed.
Lemma scalar_json_finite f raw v : scalar_candidate f raw = Some v -> finite_numbers (scalar_json v) = true.
Proof.
  unfold scalar_candidate, Fields.within. destruct (Fields.annotation f); try (by intros [= <-]); try done.
  - intros (d & _ & Hv)%bind_Some. apply bind_Some in Hv as (n & Hn & Hv). destruct (holds_bounds f _); [|done]. injection Hv as <-.
    cbn. apply f64_of_Z_finite. unfold int_of_digits in Hn. destruct (existsb _ _); [done|]. apply fmap_Some in Hn as (k & Hk & ->).
    apply parse_int_range in Hk. destruct (negative d); unfold i64_min, i64_max in *; lia.
  - intros (d & _ & Hv)%bind_Some. apply bind_Some in Hv as (x & Hx & Hv). destruct (holds_bounds f x); [|done]. injection Hv as <-.
    unfold float_of in Hx. apply bind_Some in Hx as (y & _ & Hy). cbn. destruct (is_finite y) eqn:E; [|done]. by injection Hy as ->.
  - intros (d & _ & Hv)%bind_Some. destruct (holds_bounds f _); [|done]. by injection Hv as <-.
  - intros (t & _ & ->)%fmap_Some. done.
Qed.

(** C3: extracted data is stated and is the caller's: what [extract] returns satisfies the caller's JSON Schema, and each entry of it is one of the
    schema's properties with the validated reading of a quote, cut from a block of the page or from a note that still stands, that is
    among the evidence returned with it; nothing Jev answers adds anything else. *)
Theorem extracted_data_is_stated schema m task c notes mo w x w' data : blocks_on_page c -> output_model schema = Some (Ok m) ->
  extract judge task c notes (from_output m) mo w = (Ok (Some x), w') -> x_data x = Some data ->
  x_problem x = None /\
  (exists definitions, definitions_of schema = Ok definitions /\ satisfies definitions schema data) /\
  exists entries, data = Object entries /\ forall k d, (k, d) ∈ entries ->
    exists field name f sv e here, field ∈ ob_fields (root m) /\ of_key field = k /\ (name = of_key field \/ name = of_name field) /\
      (name, f) ∈ rs_fields (from_output m) /\ e ∈ x_evidence x /\ stated c notes f sv e /\ validate (of_ty field) (scalar_json sv) here = Ok d.
Proof.
  intros Hb Hm Hx Hd. destruct (extract_data _ _ _ _ _ _ _ _ _ _ Hx Hd) as (values & evidence & w1 & Hr & Hv & <- & Hp & _). split; [done|].
  apply (read_fields_stated judge (rs_fields (from_output m))) in Hr; [|done|done|intros n v Hn; by apply not_elem_of_nil in Hn].
  split.
  { eapply model_satisfies; [exact Hm| |exact Hv]. cbn [finite_numbers]. apply forallb_forall. intros [n v] Hin%list_elem_of_In.
    destruct (Hr n v Hin) as (f & sv & e & _ & -> & _ & Hs & _). by eapply scalar_json_finite. }
  unfold model_validate in Hv. cbn [validate] in Hv. unfold valid_object in Hv. cbn [closed ob_fields] in Hv.
  destruct (valid_fields values [] _ []) as [entries|] eqn:Ef; [|done]. destruct (if closed (root (rs_model (from_output m))) then _ else _); [done|]. injection Hv as <-.
  exists entries. split; [done|]. intros k d Hk. destruct (valid_fields_from _ _ _ _ _ Ef k d Hk) as [Hn|(fc & item & here & Hc & Hkey & Hgot & Hok)]; [by apply not_elem_of_nil in Hn|].
  apply list_elem_of_fmap in Hc as (field & -> & Hfield). cbn [of_key of_name of_ty with_type] in *.
  assert (exists name, (name = of_key field \/ name = of_name field) /\ (name, item) ∈ values) as (name & Hname & Hin)
    by (destruct Hgot as [Hg%im_get_elem|Hg%im_get_elem]; eauto).
  destruct (Hr name item Hin) as (f & sv & e & Hf & -> & He & Hs). by exists field, name, f, sv, e, here.
Qed.
End Conforming.

(** ** Extraction ends *)
Section Ends.
Context `{Unicode} `{UnicodeStr} `{ReadFloat} `{FloatFormat} `{Sha256} `{TableReader} `{ValueText}.
Context {W : Type} (judge : Judge W AgentError).

(** An extraction has data or says why it has none. *)
Definition settled (x : Extraction) : Prop := (exists d, x_data x = Some d /\ x_problem x = None) \/ (x_data x = None /\ is_Some (x_problem x)).
Definition reading_settled (r : Prelude.result Reading AgentError) : Prop :=
  match r with
  | Ok (Read _ _) => True
  | Ok (EndsWith x) => settled x
  | Ok ReadingPanics => False
  | Err e => judges_error judge e /\ forall t, e <> AInvalid t
  end.
Lemma failed_settled name problem evidence : settled (failed_extraction name problem evidence).
Proof. right. split; [done|by eexists]. Qed.
Lemma read_fields_settled task c notes names m : (3 <= m)%nat -> forall fields values evidence w,
  reading_settled (read_fields judge task c notes names m fields values evidence w).1.
Proof.
  intros Hm. induction fields as [|[name f] fields IH]; intros values evidence w; cbn [read_fields]; [done|].
  destruct (offered_values c notes f) as [cs|] eqn:Eo; [|apply failed_settled]. destruct cs as [|x cs']; [apply IH|].
  pose proof (offered_values_choosable _ _ _ _ Eo) as Hc. revert Hc. generalize (x :: cs'). clear Eo x cs'. intros cs Hc.
  unfold andthen. destruct (choose_or_problem _ _ _ w) as [r w1] eqn:E. unfold choose_or_problem in E.
  destruct (choose_candidate judge (length cs) (extract_state task c) f cs name task names m w) as [[ch|e] w2] eqn:Ec.
  - injection E as <- <-. destruct (choosing_ends_with judge (length cs) (extract_state task c) f cs name task names m w ch w2 Hm (le_n _) Ec) as (v & ->).
    destruct v as [[v e]|]; apply IH.
  - apply (choosing_error judge (length cs) (extract_state task c) f cs name task names m w e w2 Hm (le_n _) Hc) in Ec.
    destruct e; injection E as <- <-; [..]; try (split; [exact Ec|done]). apply failed_settled.
Qed.

(** C25: extracting a record always settles: where a choice offers three options or more, [extract] returns data or the reason there is none,
    whatever Jev picks and however many candidates there are; the only errors it passes on are the ledger's and Jev's own, and a question
    refused as invalid is a field's problem instead. *)
Theorem extract_settles task c notes schema m w : (3 <= m)%nat ->
  match (extract judge task c notes schema m w).1 with
  | Ok (Some x) => settled x
  | Ok None => False
  | Err e => judges_error judge e /\ forall t, e <> AInvalid t
  end.
Proof.
  intros Hm. unfold extract, andthen. pose proof (read_fields_settled task c notes (im_keys (rs_fields schema)) m Hm (rs_fields schema) [] [] w) as Hr.
  destruct (read_fields _ _ _ _ _ _ _ _ _ w) as [[[values evidence|x|]|e] w1]; cbn [fst] in Hr; [|exact Hr|destruct Hr|exact Hr].
  cbn [fst]. unfold extracted. destruct (unsupported_fields schema values); [|right; split; [done|by eexists]].
  destruct (model_validate _ _); [left; by eexists|right; split; [done|by eexists]].
Qed.
End Ends.

(** * Cases *)
Section Examples.
#[local] Existing Instances ascii_unicode ascii_unicode_str exact_format plain_digest table_reader.
#[local] Instance no_float_text : ReadFloat := {| read_float _ := None |}.
#[local] Instance shown_values : ValueText := {| value_text v := dumps v |}.

(** A product's page and the record asked of it. *)
Definition product_page : Capture :=
  mkCapture (lit "https://shop.test/kettle") [] (new_datetime 2024 1 1 0 0 0) (lit "0f") (lit "Kettle costs 1,250 yen.")
    [mkBlock (lit "main") None false Paragraph None 0 23 [] None None None None false] 0.
Definition product_schema : value :=
  typed_schema "object" [("properties"%string, obj [("name"%string, typed_schema "string" []);
                            ("price.yen"%string, typed_schema "integer" [("minimum"%string, Number (Int 1))])]);
                         ("required"%string, Array [Str (lit "name"); Str (lit "price.yen")]); ("additionalProperties"%string, Bool false)].
Definition product_data : value := obj [("name"%string, Str (lit "Kettle costs 1,250 yen.")); ("price.yen"%string, Number (Int 1250))].
Definition product_extraction := extract (first_judge UNASKED) (lit "What does it cost?") product_page None (from_output (model_of product_schema)) 255 tt.

Lemma product_model : output_model product_schema = Some (Ok (model_of product_schema)).
Proof. by vm_compute. Qed.
Lemma product_extracted : match product_extraction.1 with Ok (Some x) => x_data x | _ => None end = Some product_data.
Proof. by vm_compute. Qed.
Theorem extracted_data_is_stated_witness :
  exists x w', product_extraction = (Ok (Some x), w') /\ x_data x = Some product_data /\ x_problem x = None /\
    (exists definitions, definitions_of product_schema = Ok definitions /\ satisfies definitions product_schema product_data).
Proof.
  pose proof product_extracted as Hp. destruct product_extraction as [[[x|]|] w'] eqn:Er; cbn [fst] in Hp; [|discriminate Hp..].
  exists x, w'. split; [reflexivity|]. split; [exact Hp|].
  destruct (extracted_data_is_stated (first_judge UNASKED) product_schema (model_of product_schema) (lit "What does it cost?") product_page None 255 tt x w' product_data)
    as (H1 & H2 & _); [repeat constructor; discriminate|apply product_model|exact Er|exact Hp|]. split; [exact H1|exact H2].
Defined.
Theorem extract_settles_witness : (3 <= 255)%nat /\
  match product_extraction.1 with Ok (Some x) => settled x | Ok None => False | Err e => judges_error (first_judge UNASKED) e /\ forall t, e <> AInvalid t end.
Proof.
  assert (3 <= 255)%nat as Hm by lia. split; [exact Hm|].
  exact (extract_settles (first_judge UNASKED) (lit "What does it cost?") product_page None (from_output (model_of product_schema)) 255 tt Hm).
Defined.
End Examples.
