(* ===== verification/Running.v ===== *)
(** The run: [run_loop] of [crates/fastbrowse-agent/src/agent/driving.rs], and [run] and [body] of [agent/mod.rs], with [start.rs].

    One [turn] observes, settles what the last action did, decides, and reads, finishes or takes a step; [run_loop] repeats it.
    The loop itself has no bound of its own: what ends it is the ledger's limits, the stall rule and Jev, so [run_loop] takes fuel and
    says [None] when a run is still going.  [Runner] is the ledger's checks, the first page the LLM proposes and where captures are kept.
    A deadline cuts a run at any state it is in: [timed_out] is what it then reports. *)

From stdpp Require Import gmap relations.
From coqutil Require Import Datatypes.RecordSetters.
From S2P Require Import Prelude Float64 PyText Json DateTime Lax Models Ledger Config Page Origins Secrets Redactor Effects Notes NotesText Citations Answers Composing Decision Helpers Recipe Pyre Spans RunState Seeing Recovery Acting Driving Reporting Finishing.

Import TriangleBracketNotations.
Open Scope step_scope.
#[local] Existing Instance table_reader.

Record Runner := mkRunner {
  l_check : RunState -> Prelude.result unit BudgetExceeded;
  l_check_spend : RunState -> Prelude.result unit BudgetExceeded;
  l_address : RunState -> Prelude.result text BrowserError;
  l_propose : RunState -> Prelude.result (option text) AgentError;
  l_keep : RunState -> text -> option Artifact;
}.

(** The page a run opens on, and what carries over from one that ended without a browser. *)
Record Options := mkOptions {
  start : option text; choose_start : bool; resume_at : option text;
}.

Section Running.
Context `{Unicode} `{UnicodeStr} `{FloatFormat} `{F64Display} `{Sha256} `{PercentEncoding} `{UrlParser} `{UrlFragment} `{ValueText}
        `{JsonBytes} `{JsonReader}.
Notation E := AgentError.
Context (outside : Outside E) (page : PageSeam) (hands : Hands E) (driver : Driver E) (config : Config)
        (models reporting : Answers.Models RunState (Flow E)) (reporter : Reporter) (ender : Ender) (runner : Runner).

(** ** Before a decision *)
Definition check_limits : Step E unit := fun s =>
  match l_check runner s with
  | Err e => (Err (FlowAgent (ABudget e)), s)
  | Ok _ => match out_of_browsing_time reporter s with Some stop => (Err (FlowStop stop), s) | None => (Ok tt, s) end
  end.
Definition note_first (o : Observation) (s : RunState) : RunState :=
  match first_url s with None => s <| first_url := Some (o_url o) |> | Some _ => s end.

(** A status that can clear by itself is waited out, once per document; true where the page moved on. *)
Definition http_document (o : Observation) (status : Z) : text * text * Z :=
  (o_url o, if is_empty (document_key o) then page_key o else document_key o, status).
Definition outwait_status (o : Observation) : Step E bool := fun s =>
  match response_status o with
  | Some status =>
      if 400 <=? status then
        let fresh := bool_decide (http_document o status ∉ http_seen (site s)) in
        let s := s <| site -> http_seen ::= fun seen => {[http_document o status]} ∪ seen |> in
        if fresh && one_of [403; 429; 503] status then (let! raw := raw_or o in outwait page raw) s else (Ok false, s)
      else (Ok false, s)
  | None => (Ok false, s)
  end.

(** *** The decision *)
(** Jev's pick when it was asked again, where it still fits this page. *)
Definition pick_fits (o : Observation) (key : text) (d : Decision) : bool :=
  teqb key (state_key o)
  && match d_target d with Some target => existsb (fun c => teqb (c_id c) (c_id target)) (controls o) | None => true end.
Definition take_pick (o : Observation) : Step E (option Decision) := fun s =>
  let kept := match picked s with Some (key, d) => if pick_fits o key d then Some d else None | None => None end in
  let s := s <| picked := None |> in
  (Ok kept, match kept with Some _ => s <| replay ::= fmap drop_pending |> | None => s end).

(** What Jev is offered: the page but for what moved nothing, or the one control of a saved step that is certain. *)
Definition offer (o : Observation) (secrets : list text) (check_login fresh : bool)
  : Step E (Observation * StepContext * option Decision) := fun s =>
  let '(offered, ctx) := leave_out_idle s o (context hands s o secrets check_login fresh) in
  let offered := mark_read_links (reading s) offered in
  let '(saved, r) := match replay s with
                     | Some r => let '(saved, r) := replay_ahead r (o_url offered) (controls offered) (is_missing (missing s) (o_url offered)) in (saved, Some r)
                     | None => (None, None)
                     end in
  let s := s <| replay := r |> in
  match saved with
  | Some d => (Ok (offered <| controls ::= base.filter (fun c => Some (c_id c) = (c_id <$> d_target d)) |>, ctx, Some d), s)
  | None => (let! shown := drawn_viewport page (o_images outside) o in ret (offered, ctx <| screenshot := shown |>, None)) s
  end.

(** The decision, or none when the page redrew under it. *)
Definition watched_decision (o offered : Observation) (ctx : StepContext) : Step E (option Decision) := fun s =>
  let build : Step E (option Decision) := let! d := lift (fun s => o_decide outside s offered ctx) in ret (Some d) in
  if redecided s then build s
  else
    (let! raw := raw_or o in
     let! watch := call Watched (fun s => p_redrawn page s raw REDRAW_WATCH_SECONDS None) in
     match watch with
     | Ok false => build
     | _ =>
         fun s =>
           match o_decide (interrupted (v_reported driver) outside) s offered ctx with
           | Ok d => (Ok (Some d), s)
           | Err f =>
               match surfaced f, watch with
               | Some f, _ => (Err f, s)
               | None, Err e => (Err (FlowBrowser e), s)
               | None, Ok _ => (Ok None, s)
               end
           end
     end) s.

(** The decision held against the saved step it was offered; none where it is decided again with the whole page in view. *)
Definition settle_saved (offered : Observation) (saved : option Decision) (d : Decision) : Step E (option Decision) := fun s =>
  match saved with
  | Some saved =>
      if agreed saved d then (Ok (Some (d <| d_replayed := true |>)), s)
      else (Ok (if bool_decide (is_Some (d_target d)) then None else Some d), s <| replay ::= fmap declined |>)
  | None =>
      match replay s with
      | Some r =>
          let lacks := match d_target d with Some c => is_missing (missing s) (o_url offered) c | None => false end in
          let '(d, r) := confirm r (o_url offered) (controls offered) d lacks in (Ok (Some d), s <| replay := Some r |>)
      | None => (Ok (Some d), s)
      end
  end.

Definition decide_afresh (o raw : Observation) : Step E (option Decision) := fun s =>
  let secrets := secret_names hands s (secret_origin_of (o_url raw)) in
  let here := (o_url raw, document_key raw) in
  let fresh := negb (bool_decide (last_page s = Some here)) || page_failed (site s) in
  (let! asked := offer o secrets (fresh && is_empty secrets) fresh in
   let! decided := watched_decision o asked.1.1 asked.1.2 in
   match decided with
   | None => modify (fun s => s <| replay ::= fmap drop_pending |> <| redecided := true |>) ;; ret None
   | Some d =>
       let! settled := settle_saved asked.1.1 asked.2 d in
       match settled with
       | None => ret None
       | Some d => modify (fun s => s <| last_page := Some here |>) ;; ret (Some d)
       end
   end) s.
Definition decision (o raw : Observation) : Step E (option Decision) :=
  let! kept := take_pick o in
  match kept with Some d => ret (Some d) | None => decide_afresh o raw end.

(** *** What the decision says of the page *)
Definition failed_here (d : Decision) : bool :=
  match d_site_failure d with
  | Some failed => f64_le EVEN_ODDS failed && f64_gt failed (default f64_zero (d_shows_answer d))
  | None => false
  end.
Definition note_decision (o : Observation) (d : Decision) (s : RunState) : RunState :=
  s <| pager ::= fun p => note_pager_pages p (reading s) o |>
    <| choices := choices_of (redactor s) d |>
    <| site ::= judge_site o d (step_count s) |>
    <| site -> login_readings ::= fun m => match d_login_required d with Some p => <[read_key o := p]> m | None => m end |>
    <| site -> page_failed := failed_here d |>.

(** A fetched page that failed may not have in a browser, and going back from a commit that failed sends it again. *)
Definition stop_on_failure : Step E unit := fun s =>
  let committed := committing (site s) in
  match (if page_failed (site s) then site_failure (site s) else None) with
  | None => (Ok tt, s <| site -> committing := false |>)
  | Some f =>
      if h_over_http hands then browser_needed (failure_message f) s
      else
        let s := s <| site -> committing := false |> in
        if committed then (Err (FlowStop (failure_stop f)), s) else (Ok tt, s)
  end.

(** *** Walls *)
(** Only the wall's own words are cited: a check can clear just after it was waited out. *)
Definition wall_quotes (w : Observation) : Step E (list Evidence) := fun s =>
  match (let! c := capture (E := E) page in
         let! now := observe page in
         ret (if teqb (page_key now) (page_key w) then page_quotes c else [])) s with
  | (Ok quotes, s) => (Ok quotes, s)
  | (Err _, s) => (Ok [], s)
  end.
Definition BOT_CHECK (origin : text) : text :=
  lit "bot check at " ++ origin ++ lit "; it is not a sign-in and no credential passes it. Retry using an attached local browser or choose another source for this research.".
Definition stop_at_check (raw : Observation) : Step E bool :=
  let! error := get (fun s => BOT_CHECK (redact (redactor s) (secret_origin_of (o_url raw)))) in
  let! quotes := wall_quotes raw in
  fails (FlowStop (mkStop Blocked (Some error) quotes (Some BotCheck))).

Definition above (p : option f64) (threshold : f64) : bool := f64_gt (default f64_zero p) threshold.
(** True where the wall went away while it was waited for. *)
Definition pass_wall (o raw : Observation) (d : Decision) : Step E bool :=
  let bot := above (d_bot_check d) (bot_check_above (thresholds config)) in
  let bare := is_empty (controls raw) in
  if negb (bot || above (d_login_required d) (login_required_above (thresholds config))) then ret false
  else
    let! moved := if bot || bare then outwait page raw else ret false in
    if moved then ret true
    else
      let! reloaded := if bot && bare then reload_challenge page raw else ret false in
      if reloaded then ret true
      else if bot then stop_at_check raw
      else fun s => (Err (meet_wall s o raw), s).

(** ** One turn *)
Definition read_first_ (o : Observation) (d : Decision) : Step E unit := fun s =>
  match reads_before_leaving s o d with
  | Some shows => (let! c := capture page in Driving.read page driver c o shows ;; ret tt) s
  | None => (Ok tt, s)
  end.
Definition carry_out_step (o : Observation) (d : Decision) : Step E unit := fun s =>
  match step outside page hands driver config o d s with
  | (Err (FlowUnsure u), s) => recover outside page config o (u_reason u) (gives_up_as u) (performed (withheld d)) s
  | done => done
  end.
Definition act_on (o : Observation) (d : Decision) : Step E (option RunResult) :=
  read_first_ o d ;;
  if bool_decide (d_operation d = Done) then finish outside page hands driver config models reporter ender o
  else (carry_out_step o d ;; ret None).

Definition decided_turn (o raw : Observation) : Step E (option RunResult) :=
  let! decided := decision o raw in
  match decided with
  | None => ret None
  | Some d =>
      modify (note_decision o d) ;;
      stop_on_failure ;;
      let! passed := pass_wall o raw d in
      if passed then ret None else act_on o d
  end.

(** One turn of the loop: the run's result, or none where it goes on. *)
Definition turn : Step E (option RunResult) :=
  check_limits ;;
  let! o := observe page in
  modify (note_first o) ;;
  let! moved := outwait_status o in
  if moved then ret None
  else
    let! raw := raw_or o in
    let! blank := settle_blank page raw in
    if blank then ret None
    else
      modify (note_effect o) ;;
      settle outside page config o ;;
      decided_turn o raw.

Fixpoint turns (fuel : nat) : Step E (option RunResult) :=
  match fuel with
  | O => ret None
  | S fuel => let! ended := turn in match ended with Some r => ret (Some r) | None => turns fuel end
  end.
Definition run_loop (fuel : nat) : Step E (option RunResult) :=
  modify (fun s => s <| extraction_pending := negb (no_schema ender) |>) ;; turns fuel.

(** ** Opening ([body], [start.rs]) *)
Definition accept_start (proposed : option text) : option text :=
  match proposed with
  | Some url => if bool_decide ((split_scheme url).1 ∈ [lit "http"; lit "https"]) then Some url else None
  | None => None
  end.
Definition NO_START : text := lit "the task names no page to start from, and none was given".
Definition first_page : Step E text := fun s =>
  match l_propose runner s with
  | Err e => (Err (FlowAgent e), s)
  | Ok proposed =>
      match accept_start proposed with
      | Some opening => (Ok opening, s)
      | None => (Err (FlowStop (new_stop NeedsInput NO_START)), s)
      end
  end.

(** The front page of a site whose proposed address opened nothing. *)
Definition front_page_if_blank (opened : text) : Step E bool :=
  if is_empty (path_of opened) || teqb (path_of opened) (lit "/") then ret false
  else
    let! o := observe page in
    if drew_something o then ret false
    else
      let! moved := outwait page o in
      let! drawn := if moved then (let! now := observe page in ret (drew_something now)) else ret false in
      if drawn then ret false
      else navigate_to page (scheme_of opened ++ lit "://" ++ netloc_of opened) ;; ret true.

Definition opening (options : Options) : Step E unit :=
  let! chosen :=
    match start options with
    | Some url => ret (Some url)
    | None => if choose_start options then (let! url := first_page in ret (Some url)) else ret None
    end in
  (match chosen with Some url => navigate_to page url | None => ret tt end) ;;
  (match start options, chosen with None, Some url => front_page_if_blank url ;; ret tt | _, _ => ret tt end) ;;
  modify (fun s => s <| started_url := chosen |> <| caller_start := start options |>) ;;
  match start options with
  | Some _ =>
      let! landed := call_or_stop AskedAddress (l_address runner) in
      modify (fun s => s <| start_landing_url := Some landed |>)
  | None => ret tt
  end.
Definition resuming (url : text) : Step E unit := navigate_to page url ;; modify carried_on.

(** The run up to its loop's result, with whether its state was begun when it stopped. *)
Definition body (fuel : nat) (options : Options) (s : RunState) : Prelude.result (option RunResult) (Flow E) * bool * RunState :=
  match (match resume_at options with Some url => resuming url | None => opening options end) s with
  | (Err f, s) => (Err f, false, s)
  | (Ok _, s) => let '(r, s) := run_loop fuel s in (r, true, s)
  end.

(** ** The result of a run *)
Definition timed_out (limit : f64) (begun : bool) (s : RunState) : RunResult :=
  partial_result reporter (begun_notes s begun) s begun StatusBudgetExceeded (Some (time_limit limit)) (Some (mkBudgetStop Seconds limit)).

(** A limit the spending passed is the result's, unless it failed or ran out of time. *)
Definition over_spend (e : BudgetExceeded) (r : RunResult) : RunResult :=
  if negb (bool_decide (rr_status r = StatusError)) && match rr_budget r with Some b => negb (bool_decide (resource b = Seconds)) | None => true end
  then r <| rr_status := StatusBudgetExceeded |> <| rr_error := Some (reason e) |> <| rr_budget := Some (budget e) |> else r.
Definition closed (r : RunResult) (loop_returned requested : bool) (s : RunState) : RunResult * RunState :=
  let '(evidence, added) := keep_captures (l_keep runner s) [] (rr_evidence r) in
  let r := r <| rr_evidence := evidence |> <| rr_artifacts ::= fun l => l ++ added |> in
  let '(r, loop_returned) := match l_check_spend runner s with Ok _ => (r, loop_returned) | Err e => (over_spend e r, false) end in
  let r := r <| rr_cost := r_cost reporter s |> in
  if loop_returned then (r, s) else ending_frame page config ender r requested s.

(** [run]: none while it is still going; [cut] is the limit of a deadline that stopped it where it stood. *)
Definition run (fuel : nat) (options : Options) (cut : option f64) (s : RunState) : option RunResult * RunState :=
  let '(ended, begun, s) := body fuel options s in
  let requested s := begun && pictured (output_intent s) in
  match cut with
  | Some limit => let '(r, s) := closed (timed_out limit begun s) false (requested s) s in (Some r, s)
  | None =>
      match ended with
      | Ok None => (None, s)
      | Ok (Some r) => let '(r, s) := closed r true (requested s) s in (Some r, s)
      | Err (FlowBrowser (NeedsBrowser m)) => (Some ((result_without_browser m) <| rr_cost := r_cost reporter s |>), s)
      | Err f =>
          let '(r, s) := stopped page config reporting reporter ender f begun s in
          let '(r, s) := closed r false (requested s) s in (Some r, s)
      end
  end.
End Running.

(** * Properties *)
(** ** A run's moves *)
Section RunMoves.
Context `{Unicode} `{UnicodeStr} `{FloatFormat} `{F64Display} `{Sha256} `{PercentEncoding} `{UrlParser} `{UrlFragment} `{ValueText}
        `{JsonBytes} `{JsonReader}.
Notation E := AgentError.
Context (outside : Outside E) (page : PageSeam) (hands : Hands E) (driver : Driver E) (config : Config)
        (models reporting : Answers.Models RunState (Flow E)) (reporter : Reporter) (ender : Ender) (runner : Runner)
        `{!Offstage models}.
Notation along := (along outside page hands driver config).
Notation moves := (moves outside page hands driver config).

Lemma site_kept s (f : Site -> Site) : hung_page_reopened (f (site s)) = hung_page_reopened (site s) -> kept (s <| site ::= f |>) = kept s.
Proof. intros Hf. unfold kept. apply (f_equal2 pair); [|done]. by apply (f_equal2 pair); [|exact Hf]. Qed.
Lemma note_status_hung o steps t : hung_page_reopened (note_status o steps t) = hung_page_reopened t.
Proof. unfold note_status. destruct (response_status o); [|done]. destruct (400 <=? z); [done|]. by destruct (_ && _ && _). Qed.
Lemma judge_site_hung o d steps t : hung_page_reopened (judge_site o d steps t) = hung_page_reopened t.
Proof. unfold judge_site. destruct (d_site_failure d); [|done]. repeat case_match; done. Qed.
Lemma clear_failure_hung o t : hung_page_reopened (clear_failure o t) = hung_page_reopened t.
Proof. unfold clear_failure. repeat case_match; done. Qed.
Lemma note_landing_kept before o s : kept (note_landing before o s) = kept s.
Proof. unfold note_landing. repeat case_match; done. Qed.
Lemma note_effect_kept o s : kept (note_effect o s) = kept s.
Proof.
  unfold note_effect. transitivity (kept (s <| site ::= note_status o (step_count s) |>)); [|apply site_kept, note_status_hung].
  generalize (s <| site ::= note_status o (step_count s) |>). clear s. intros s. destruct (acted_from s) as [before|]; [|done].
  match goal with |- context [note_landing before o ?s1] => transitivity (kept (note_landing before o s1)); [|by rewrite note_landing_kept] end.
  match goal with |- context [note_landing before o ?s1] => generalize (note_landing before o s1) end. intros s1.
  destruct (last (RunState.history s1)) as [e|]; [|done]. cbv zeta. by destruct (changed _ && _).
Qed.
Lemma note_decision_kept o d s : kept (note_decision o d s) = kept s.
Proof.
  unfold note_decision. set (s0 := s <| pager ::= _ |> <| choices := _ |>). transitivity (kept s0); [|reflexivity].
  transitivity (kept (s0 <| site ::= judge_site o d (step_count s0) |>)); [|apply site_kept, judge_site_hung].
  by destruct (d_login_required d).
Qed.
Lemma note_first_kept o s : kept (note_first o s) = kept s.
Proof. unfold note_first. by destruct (first_url s). Qed.

Lemma settle_quiet o : quiet (settle outside page config o).
Proof.
  intros s v <-. unfold settle.
  assert (Hk : forall s1, kept s1 = kept s -> kept (match landing (stall s1) with
    | None => (Ok tt, s1)
    | Some stalled => count_progress outside page config
        (match reached (stall s) !! state_key o with None => true | Some seen_at => (seen_at <? evidence_reads (reading s))%nat end)
        o (performed stalled) Stuck (s1 <| stall -> landing := None |>)
    end).2 = kept s).
  { intros s1 Hs1. destruct (landing (stall s1)); [|exact Hs1]. by apply count_progress_quiet. }
  cbv zeta. destruct (reached (stall s) !! state_key o) as [seen|]; apply Hk; [done|].
  unfold kept, page_acts. cbn. by rewrite clear_failure_hung.
Qed.

Lemma drawn_viewport_quiet takes_images o : quiet (E := E) (drawn_viewport page takes_images o).
Proof. unfold drawn_viewport. quiet_all. Qed.
#[local] Hint Resolve drawn_viewport_quiet : quiet.
Lemma outwait_status_quiet o : quiet (E := E) (outwait_status page o).
Proof. unfold outwait_status. quiet_all. Qed.
Lemma check_limits_quiet : quiet (check_limits reporter runner).
Proof. unfold check_limits. quiet_all. Qed.
Lemma take_pick_quiet o : quiet (E := E) (take_pick o).
Proof. unfold take_pick. quiet_all. Qed.
Lemma offer_quiet o secrets check_login fresh : quiet (offer outside page hands o secrets check_login fresh).
Proof. unfold offer. quiet_all. Qed.
Lemma watched_decision_quiet o offered ctx : quiet (watched_decision outside page driver o offered ctx).
Proof. unfold watched_decision. quiet_all. Qed.
Lemma settle_saved_quiet offered saved d : quiet (E := E) (settle_saved offered saved d).
Proof. unfold settle_saved. quiet_all. Qed.
#[local] Hint Resolve outwait_status_quiet check_limits_quiet take_pick_quiet offer_quiet watched_decision_quiet settle_saved_quiet
  settle_quiet read_quiet : quiet.
Lemma decide_afresh_quiet o raw : quiet (decide_afresh outside page hands driver o raw).
Proof. unfold decide_afresh. quiet_all. Qed.
#[local] Hint Resolve decide_afresh_quiet : quiet.
Lemma decision_quiet o raw : quiet (decision outside page hands driver o raw).
Proof. unfold decision. quiet_all. Qed.
Lemma stop_on_failure_quiet : quiet (stop_on_failure hands).
Proof. unfold stop_on_failure, browser_needed. quiet_all. Qed.
Lemma wall_quotes_quiet w : quiet (wall_quotes page w).
Proof.
  intros s v <-. unfold wall_quotes.
  assert (Hq : quiet (E := E) (let! c := capture page in let! now := observe page in ret (if teqb (page_key now) (page_key w) then page_quotes c else [])))
    by quiet_all.
  specialize (Hq s _ eq_refl). by destruct ((let! c := capture page in _) s) as [[|] s1].
Qed.
#[local] Hint Resolve decision_quiet stop_on_failure_quiet wall_quotes_quiet : quiet.
Lemma stop_at_check_quiet raw : quiet (stop_at_check page raw).
Proof. unfold stop_at_check. quiet_all. Qed.
Lemma read_first_quiet o d : quiet (read_first_ page driver o d).
Proof. unfold read_first_. quiet_all. Qed.
#[local] Hint Resolve stop_at_check_quiet read_first_quiet : quiet.

(** *** Reloads *)
Lemma opened_traced {A} url (f : RunState -> Prelude.result A BrowserError) s r s' : call (E := E) (Opened url) f s = (r, s') -> traced s s' [Opened url].
Proof. intros [= _ <-]. unfold traced, kept, page_acts. cbn. by rewrite filter_app. Qed.
Lemma reload_blank_along o : drew_something o = false -> along (reload_blank page o).
Proof.
  intros Hd s. unfold reload_blank. destruct (blank_opening_checked (site s)) eqn:Eb; [apply rtc_refl|].
  destruct (existsb _ (RunState.history s)) eqn:Eh; [apply rtc_refl|]. cbn [orb].
  set (s0 := s <| site -> blank_opening_checked := true |>). unfold bind at 1, modify. fold s0.
  destruct (reloadable s o); [|apply rtc_once, keeps; reflexivity].
  apply rtc_once. apply (reloads_blank _ _ _ _ _ _ _ o); [done| |done|..].
  - apply Forall_forall. intros e He. destruct (h_operation e) eqn:Eo; [|done]. exfalso.
    enough (existsb (fun e => bool_decide (is_Some (h_operation e))) (RunState.history s) = true) by congruence.
    apply existsb_exists. exists e. split; [by apply list_elem_of_In|]. apply bool_decide_eq_true. by rewrite Eo.
  - unfold navigate_to, call_or_stop, bind, call. by destruct (p_navigate page s0 (o_url o)).
  - assert (Ht : traced s (s0 <| page_calls ::= fun l => l ++ [Opened (o_url o)] |>) [Opened (o_url o)]).
    { apply (opened_traced (A := unit) _ (fun _ => Ok tt) s0 (Ok (Ok tt))). reflexivity. }
    unfold navigate_to, call_or_stop, bind, call. by destruct (p_navigate page s0 (o_url o)).
Qed.
Lemma settle_blank_along o : along (settle_blank page o).
Proof.
  unfold settle_blank. intros s. destruct (drew_something o) eqn:Ed; [apply rtc_once, keeps; reflexivity|].
  pose proof (reload_blank_along o Ed) as Hr. revert s. along_all. 
Qed.
Lemma reload_challenge_along o : along (reload_challenge page o).
Proof.
  intros s. unfold reload_challenge. destruct (bool_decide _) eqn:Ein; [apply rtc_refl|]. apply bool_decide_eq_false in Ein.
  set (s0 := s <| site -> challenge_reloads ::= fun r => {[o_url o]} ∪ r |>). unfold bind at 1, modify. fold s0.
  set (s1 := s0 <| page_calls ::= fun l => l ++ [Opened (o_url o)] |>). unfold bind at 1, call. fold s1.
  assert (Hm : moves s s1).
  { apply rtc_once. apply (reloads_challenge _ _ _ _ _ _ _ o); [done|cbn; set_solver|].
    apply (opened_traced (A := unit) _ (fun _ => Ok tt) s0 (Ok (Ok tt))). reflexivity. }
  clearbody s1. repeat along_one.
Qed.
#[local] Hint Resolve settle_blank_along reload_challenge_along : along.

Lemma pass_wall_along o raw d : along (pass_wall page config o raw d).
Proof. unfold pass_wall. along_all. Qed.
#[local] Hint Resolve pass_wall_along : along.

Lemma carry_out_step_along o d : answers_asked outside -> along (carry_out_step outside page hands driver config o d).
Proof. intros Hans s. unfold carry_out_step. by apply step_or_recover_along. Qed.
#[local] Hint Resolve carry_out_step_along finish_along : along.
Lemma act_on_along o d : answers_asked outside -> along (act_on outside page hands driver config models reporter ender o d).
Proof. intros Hans. unfold act_on. along_all. Qed.
#[local] Hint Resolve act_on_along : along.
Lemma decided_turn_along o raw : answers_asked outside ->
  along (decided_turn outside page hands driver config models reporter ender o raw).
Proof.
  intros Hans. unfold decided_turn. along_all.
  all: eapply moves_kept; [eassumption|apply note_decision_kept].
Qed.
#[local] Hint Resolve decided_turn_along : along.
Lemma turn_along : answers_asked outside -> along (turn outside page hands driver config models reporter ender runner).
Proof.
  intros Hans. unfold turn. along_all.
  all: eapply moves_kept; [eassumption|apply note_first_kept || apply note_effect_kept].
Qed.
#[local] Hint Resolve turn_along : along.
Lemma turns_along fuel : answers_asked outside -> along (turns outside page hands driver config models reporter ender runner fuel).
Proof. intros Hans. induction fuel as [|fuel IH]; cbn [turns]; along_all. Qed.
End RunMoves.

(** *** The whole run *)
(** Takes the first, quiet, part of a sequence; the failure comes second. *)
Ltac quiet_first H a s1 :=
  let Hq := fresh "Hq" in let e := fresh "e" in
  apply bind_inv in H as [(a & s1 & Hq & H)|(e & Hq & ->)];
  apply traced_quiet in Hq; [|solve [auto with quiet|quiet_all]| |solve [auto with quiet|quiet_all]].

Section WholeRun.
Context `{Unicode} `{UnicodeStr} `{FloatFormat} `{F64Display} `{Sha256} `{PercentEncoding} `{UrlParser} `{UrlFragment} `{ValueText}
        `{JsonBytes} `{JsonReader}.
Notation E := AgentError.
Context (outside : Outside E) (page : PageSeam) (hands : Hands E) (driver : Driver E) (config : Config)
        (models reporting : Answers.Models RunState (Flow E)) (reporter : Reporter) (ender : Ender) (runner : Runner).
Notation moves := (moves outside page hands driver config).

(** The pages a run opens before its first turn: the one it goes on from; the caller's; or the one the LLM proposed, a web address, and
    its site's front page. *)
Inductive opens_with (options : Options) (s : RunState) : list PageCall -> Prop :=
| opens_none : resume_at options = None -> opens_with options s []
| opens_resumed url : resume_at options = Some url -> opens_with options s [Opened url]
| opens_start url : resume_at options = None -> start options = Some url -> opens_with options s [Opened url]
| opens_proposed url front : resume_at options = None -> start options = None -> choose_start options = true ->
    l_propose runner s = Ok (Some url) -> (split_scheme url).1 ∈ [lit "http"; lit "https"] ->
    front ∈ [[]; [Opened (scheme_of url ++ lit "://" ++ netloc_of url)]] ->
    opens_with options s (Opened url :: front).

Lemma front_page_traced url s r s' : front_page_if_blank page url s = (r, s') ->
  exists l, traced s s' l /\ l ∈ [[]; [Opened (scheme_of url ++ lit "://" ++ netloc_of url)]].
Proof.
  unfold front_page_if_blank. destruct (_ || _). { intros [= _ <-]. exists []. split; [by apply traced_nil|set_solver]. }
  intros Hs. quiet_first Hs o s1. 2: by exists []; split; [|set_solver]. destruct (drew_something o).
  { injection Hs as _ <-. exists []. split; [done|set_solver]. }
  quiet_first Hs gone s2. 2: by exists []; split; [eauto using traced_on|set_solver].
  quiet_first Hs drew s3. 2: by exists []; split; [eauto 6 using traced_on|set_solver].
  destruct drew. { injection Hs as _ <-. exists []. split; [eauto 6 using traced_on|set_solver]. }
  eexists. split; [|apply elem_of_cons; right; apply list_elem_of_singleton; reflexivity].
  do 3 (eapply traced_on; [done|]). apply bind_inv in Hs as [(u & s4 & Hn & Hs)|(e & Hn & _)]; apply navigate_to_opens in Hn; [|done].
  by injection Hs as _ <-.
Qed.

Lemma traced_end s s1 s2 l : traced s s1 l -> traced s1 s2 [] -> traced s s2 l.
Proof. intros Hl Hn. rewrite <- (app_nil_r l). by eapply traced_app. Qed.

(** What follows the opening of a page only notes it. *)
Lemma noted_start options chosen : quiet (modify (fun s => s <| started_url := chosen |> <| caller_start := start options |>) ;;
  match start options with
  | Some _ => let! landed := call_or_stop AskedAddress (l_address runner) in
              modify (fun s => s <| start_landing_url := Some landed |>)
  | None => ret tt
  end : Step E unit).
Proof. quiet_all. Qed.

Lemma opening_opens options s r s' : resume_at options = None -> opening page runner options s = (r, s') ->
  exists l, traced s s' l /\ opens_with options s l.
Proof.
  intros Hres. unfold opening. intros Hs. destruct (start options) as [url|] eqn:Est.
  - apply bind_inv in Hs as [(c & s1 & [= <- <-] & Hs)|(e & [=] & _)]. exists [Opened url]. split; [|by apply opens_start].
    apply bind_inv in Hs as [(u & s1 & Hn & Hs)|(e & Hn & _)]; apply navigate_to_opens in Hn; [|done].
    eapply traced_end; [exact Hn|]. apply bind_inv in Hs as [(u2 & s2 & [= _ <-] & Hs)|(e & [=] & _)].
    pose proof (noted_start options (Some url)) as Hq. rewrite Est in Hq. by eapply traced_quiet.
  - destruct (choose_start options) eqn:Ech.
    2: { apply bind_inv in Hs as [(c & s1 & [= <- <-] & Hs)|(e & [=] & _)]. exists []. split; [|by apply opens_none].
         eapply traced_quiet; [|exact Hs]. quiet_all. }
    apply bind_inv in Hs as [(c & s1 & Hf & Hs)|(e & Hf & ->)].
    2: { exists []. split; [|by apply opens_none]. eapply traced_quiet; [|exact Hf]. unfold first_page. quiet_all. }
    apply bind_inv in Hf as [(url & s2 & Hf & [= <- ->])|(e & _ & [=])]. unfold first_page in Hf.
    destruct (l_propose runner s) as [proposed|e] eqn:Ep; [|done]. destruct (accept_start proposed) as [u|] eqn:Ea; [|done]. injection Hf as -> <-.
    unfold accept_start in Ea. destruct proposed as [u|]; [|done]. case_bool_decide as Hw; [|done]. injection Ea as ->.
    apply bind_inv in Hs as [(u & s3 & Hn & Hs)|(e & Hn & _)]; apply navigate_to_opens in Hn.
    2: { exists [Opened url]. split; [done|]. apply (opens_proposed options s url []); [done..|set_solver]. }
    assert (Hfront : exists front s4, traced s3 s4 front /\ front ∈ [[]; [Opened (scheme_of url ++ lit "://" ++ netloc_of url)]] /\ traced s4 s' []).
    { apply bind_inv in Hs as [(u2 & s4 & Hf & Hs)|(e & Hf & ->)].
      - apply bind_inv in Hf as [(b & s5 & Hf & [= _ ->])|(e & _ & [=])]. apply front_page_traced in Hf as (l & Hl & Hin).
        exists l, s4. split_and!; [done..|]. eapply traced_quiet; [|exact Hs]. pose proof (noted_start options (Some url)) as Hq.
        rewrite Est in Hq. exact Hq.
      - apply bind_inv in Hf as [(b & s5 & _ & [=])|(e2 & Hf & _)]. apply front_page_traced in Hf as (l & Hl & Hin).
        exists l, s'. split_and!; [done..|by apply traced_nil]. }
    destruct Hfront as (front & s4 & Hl & Hin & Hq). exists (Opened url :: front). split; [|by apply (opens_proposed options s url front)].
    eapply traced_end; [|exact Hq]. by apply (traced_app s s3 s4 [Opened url] front).
Qed.
Lemma resuming_opens url s r s' : resuming page url s = (r, s') -> traced s s' [Opened url].
Proof.
  unfold resuming. intros Hs. apply bind_inv in Hs as [(u & s1 & Hn & Hs)|(e & Hn & _)]; apply navigate_to_opens in Hn; [|done].
  injection Hs as _ <-. eapply traced_before; [exact Hn|done].
Qed.

Context `{!Offstage models, !Offstage reporting}.

Lemma compose_hushed (ms : Answers.Models RunState (Flow E)) `{!Offstage ms} task n : hushed (Composing.compose ms task n).
Proof. intros s v Hs. unfold Composing.compose. apply hushed_andthen; [by apply compose_reviewed_hushed|done]. Qed.
Lemma ending_frame_from r requested s v : kept s = v -> kept (ending_frame page config ender r requested s).2 = v.
Proof. intros <-. apply ending_frame_kept. Qed.
Lemma report_read_kept stop error budget s : kept (report_read page config reporting reporter ender stop error budget s).2 = kept s.
Proof.
  unfold report_read. pose proof (compose_hushed reporting (task s) (notes_to_compose (reading s)) s _ eq_refl) as Hc.
  destruct (RunState.compose (reading s)); [destruct (Composing.compose _ _ _ s) as [composed s1]; cbn [snd] in Hc|].
  all: destruct (wrote_claims _); [|done || exact Hc]. all: destruct (_ && _); [by apply ending_frame_from|done || exact Hc].
Qed.
Lemma stopped_kept f begun s : kept (stopped page config reporting reporter ender f begun s).2 = kept s.
Proof.
  assert (Hrun : forall stop exhausted, kept (stopped_run page config reporting reporter ender stop exhausted s).2 = kept s).
  { intros stop exhausted. unfold stopped_run. destruct (checked_composition _ _); [done|]. destruct (reports_read stop s); [|done]. apply report_read_kept. }
  unfold stopped. destruct f as [stop|u|e|e]; [| |destruct e|]; destruct begun; done || apply Hrun.
Qed.
Lemma closed_kept r returned requested s : kept (closed page config reporter ender runner r returned requested s).2 = kept s.
Proof.
  unfold closed. destruct (keep_captures _ _ _) as [kept_evidence added]. cbv zeta. destruct (l_check_spend runner s); [destruct returned; [done|]|].
  all: apply ending_frame_kept.
Qed.

Lemma body_moves fuel options s r begun s' : answers_asked outside ->
  body outside page hands driver config models reporter ender runner fuel options s = (r, begun, s') ->
  exists s0 l, traced s s0 l /\ opens_with options s l /\ moves s0 s'.
Proof.
  intros Hans. unfold body.
  assert (Hopen : exists r0 s0 l, (match resume_at options with Some url => resuming page url | None => opening page runner options end) s = (r0, s0) /\
                    traced s s0 l /\ opens_with options s l).
  { destruct (resume_at options) as [url|] eqn:Er.
    - destruct (resuming page url s) as [r0 s0] eqn:Es. apply resuming_opens in Es. exists r0, s0. eauto using opens_resumed.
    - destruct (opening page runner options s) as [r0 s0] eqn:Es. apply opening_opens in Es as (l & Hl & Ho); [|done]. exists r0, s0, l. auto. }
  destruct Hopen as (r0 & s0 & l & -> & Hl & Ho). destruct r0 as [u|f].
  - destruct (run_loop _ _ _ _ _ _ _ _ _ fuel s0) as [ended s1] eqn:El. intros [= _ _ <-]. exists s0, l. split_and!; [done..|].
    unfold run_loop in El. apply bind_inv in El as [(u2 & s2 & [= _ <-] & El)|(e & [=] & _)].
    etransitivity; [apply rtc_once, keeps|]; [|rewrite <- (f_equal snd El : (_ : RunState) = s1); by apply turns_along]. done.
  - intros [= _ _ <-]. exists s0, l. split_and!; [done..|]. apply rtc_refl.
Qed.

(** C5: A run touches the page only as its decisions were permitted to: it opens the page it goes on from, the caller's, or one the LLM
    proposed and that is a web address; everything after is moves that leave the page alone, reload one that drew nothing before any
    action or a challenge once for its address, or carry out one decision's one action behind the gates - through the loop, its walls,
    its DONE, and however it stopped, out of time included. *)
Theorem run_acts_on_permission fuel options cut s r s' :
  answers_asked outside ->
  run outside page hands driver config models reporting reporter ender runner fuel options cut s = (r, s') ->
  exists s0 l, traced s s0 l /\ opens_with options s l /\ moves s0 s'.
Proof.
  intros Hans. unfold run. destruct (body _ _ _ _ _ _ _ _ _ fuel options s) as [[ended begun] s1] eqn:Eb.
  apply body_moves in Eb as (s0 & l & Hl & Ho & Hm); [|done]. intros Hr. exists s0, l. split_and!; [done..|].
  eapply moves_kept; [exact Hm|]. set (requested s := begun && pictured (output_intent s)) in Hr.
  assert (Hclosed : forall q returned s2 q' s3, kept s2 = kept s1 ->
    closed page config reporter ender runner q returned (requested s2) s2 = (q', s3) -> kept s3 = kept s1).
  { intros q returned s2 q' s3 E2 E3. pose proof (closed_kept q returned (requested s2) s2) as Hk. rewrite E3 in Hk. by rewrite <- E2. }
  assert (Hstop : forall f, (let '(q, s2) := stopped page config reporting reporter ender f begun s1 in
    let '(q, s2) := closed page config reporter ender runner q false (requested s2) s2 in (Some q, s2)) = (r, s') -> kept s' = kept s1).
  { intros f Hf. pose proof (stopped_kept f begun s1) as Hk. destruct (stopped _ _ _ _ _ f begun s1) as [q s2]. cbn [snd] in Hk.
    destruct (closed _ _ _ _ _ q _ _ s2) as [q2 s3] eqn:Ec. injection Hf as _ <-. by eapply Hclosed. }
  destruct cut as [limit|].
  - destruct (closed _ _ _ _ _ _ _ _ s1) as [q s2] eqn:Ec. injection Hr as _ <-. by eapply Hclosed.
  - destruct ended as [[q|]|f].
    + destruct (closed _ _ _ _ _ _ _ _ s1) as [q2 s2] eqn:Ec. injection Hr as _ <-. by eapply Hclosed.
    + by injection Hr as _ <-.
    + destruct f as [?|?|?|[]]; try by apply Hstop in Hr. by injection Hr as _ <-.
Qed.
End WholeRun.

(** * Cases *)
#[local] Existing Instances ascii_unicode ascii_unicode_str exact_format plain_display plain_digest plain_parser unchanged_percent
  plain_fragment plain_value_text ascii_bytes unread_json.

(** A Jev that finds everything unlikely, and an outside that decides to press one button. *)
Definition doubted (questions : list (text * Question)) : list (text * Answer) :=
  map (fun kq => (kq.1, match kq.2 with
                        | QChoice q => AChoice (default [] (head (im_keys (ch_criteria q)))) [] f64_zero
                        | _ => ANoul (dec 1 1)
                        end)) questions.
Definition pressing : Outside AgentError :=
  mkOutside _ _ (fun _ => Ok tt) (fun _ _ questions => Ok (doubted questions)) (fun _ _ => Ok (new_context []))
    (fun _ _ _ => Ok (sample_decision Click (Some buy_button))) (fun _ _ => Ok None) false.
Definition shop_driver : Driver AgentError :=
  mkDriver _ _ (fun _ _ _ => Ok ([], false)) (fun _ _ _ _ => Err (DecisionFailed [])) (fun _ _ => Ok tt) (fun _ => AInvalid [])
    (fun _ f => mkStepFact (f_text f) None None JevChoice None) (fun _ => 0) (fun _ => false).
Definition no_models : Answers.Models RunState (Flow AgentError) :=
  mkModels _ _ default_tokens (fun _ _ s => (Ok None, s)) (fun _ _ s => (Ok None, s)) (fun _ s => (Ok (mkAnswerDraft [] None), s))
    (fun s => (None, s)) 0 (fun m => FlowAgent (AInvalid m)).
#[local] Instance no_models_offstage : Offstage no_models.
Proof. by split. Qed.
Definition shop_runner : Runner :=
  mkRunner (fun _ => Ok tt) (fun _ => Ok tt) (fun _ => Ok (lit "https://shop.test/")) (fun _ => Ok None) (fun _ _ => None).
Definition shop_run : RunState := new_run (lit "Press Buy now") [] [] true (mkRedactor [] []).
Definition shop_run_result : option RunResult * RunState :=
  run pressing (blank_seam (form_page buy_button)) silent_hands shop_driver default_config no_models no_models plain_reporter plain_ender shop_runner 2
    (mkOptions (Some (lit "https://shop.test/")) false None) (Some (f64_of_Z 5)) shop_run.

Lemma doubted_asked : answers_asked pressing.
Proof. intros s page questions answers [= <-] k Hk. unfold im_keys, doubted in *. by rewrite map_map in Hk. Qed.

(** Two turns press the button twice, after the caller's page was opened, and the deadline's result is the one shown. *)
Theorem run_acts_on_permission_witness :
  acted_calls (page_calls shop_run_result.2) = [(None, Some (lit "https://shop.test/")); (Some (lit "5"), None); (Some (lit "5"), None)] /\
  option_map rr_status shop_run_result.1 = Some StatusBudgetExceeded /\
  exists s0 l, traced shop_run s0 l /\
    opens_with shop_runner (mkOptions (Some (lit "https://shop.test/")) false None) shop_run l /\
    moves pressing (blank_seam (form_page buy_button)) silent_hands shop_driver default_config s0 shop_run_result.2.
Proof.
  split; [vm_compute; reflexivity|]. split; [vm_compute; reflexivity|].
  exact (run_acts_on_permission pressing (blank_seam (form_page buy_button)) silent_hands shop_driver default_config no_models no_models plain_reporter plain_ender
    shop_runner 2 (mkOptions (Some (lit "https://shop.test/")) false None) (Some (f64_of_Z 5)) shop_run _ _ doubted_asked
    (surjective_pairing shop_run_result)).
Defined.
